(* ===== verification/_CoqProject ===== *)
-Q . S2P
Prelude.v
Resp.v
RespTheory.v
Slot.v
Command.v
VirtualDB.v
Fanout.v
FanoutTheory.v
Topology.v
Pool.v
Router.v
Cluster.v
Databases.v
Reorder.v
Backend.v
PubSub.v
Session.v
SessionTheory.v
SessionProps.v
SessionTotal.v
Refinement.v
FlushDB.v
Transactions.v
Clients.v
Pipeline.v
Batches.v
Server.v
Config.v
Lifecycle.v
Metrics.v
