(* ===== verification/Prelude.v ===== *)
(** * A verified model of dragon-cluster-resp-proxy

    The program is a proxy between clients that speak RESP to one server and a cluster of Redis or
    Dragonfly nodes.  It reads client commands, finds their keys, prefixes them for the selected
    virtual database, hashes them to slots, sends each command to the node that owns its slot over
    pooled connections, follows MOVED and ASK redirects, splits some multi-key commands over several
    slots, and turns the replies back into what the client expects.

    ** Files and the code they model (all paths under src/internal)

    - [Prelude]: bytes and Go slices (nil kept apart from empty), machine integers, decimal
      conversion, panics as the monad [outcome], shared lemmas and tactics.
    - [Resp] (resp/value.go, resp/parse.go): values, [Encode], the streaming reader as a monad over
      received bytes and deadline expiries, argument vectors.  [RespTheory]: its round trips, exact
      consumption, totality and panics.
    - [Slot] (cluster/crc16.go, cluster/slot.go): CRC16, hash tags, key slots, redirect parsing.
    - [Command] (command/command.go, command/table.go): the command table and every rule that finds
      key positions.
    - [VirtualDB] (command/db.go): key prefixes, command rewriting and reply stripping.
    - [Fanout] (command/fanout.go and proxy/session.go, cmdFanout): grouping keys by slot, the
      rebuilt commands, merging.  [FanoutTheory]: fan-out equals the command on the whole key space.
    - [Topology] (cluster/topology.go): the slot map, CLUSTER SLOTS and SHARDS, the MOVED patch.
    - [Pool] (pool/pool.go): the connection pool as a step relation over goroutines.
    - [Router] (cluster/router.go): routing, the redirect loop, refresh and seeds.
    - [Cluster]: the servers behind the router, as a class; routing to them.  [Databases]: the
      specification, a server with numbered databases, and how the cluster's key space stores them.
    - [Backend] (pool/pool.go): dialing, AUTH and READONLY, connection I/O and the pool operations as
      functions over sockets; they refine [Pool] and implement the interface [Router] uses.
    - [PubSub] (pubsub/pubsub.go): subscribe sessions, their reader goroutines and resubscription.
    - [Session] (proxy/session.go, proxy/local.go): the commands of a client session, in a monad of
      state, panics and fuel.  [SessionTheory]: its rules, one reply per command, ownership of
      connections.  [SessionProps]: authentication, databases, redirects, transactions.
      [SessionTotal]: commands return.
    - [Reorder]: commands on different slots commute, on the cluster and on that server.
    - [Refinement]: the proxy in front of the cluster implements that server.  [FlushDB]: FLUSHDB of a
      virtual database.  [Transactions]: MULTI and EXEC.  [Clients]: many sessions at once, interleaved.
    - [Pipeline] (proxy/pipeline.go and session.run): batches, the fast path, the session loop.
      [Batches]: the refinement for pipelined batches and for a whole session from its bytes.
    - [Server] (proxy/server.go): the accept loop, admission and draining as a step relation.
    - [Config] (config/config.go, config/load.go): defaults, file and environment, validation.
    - [Lifecycle] (cluster/router.go, proxy/server.go, cmd/.../main.go): TLS setup, the refresh loop, the
      listening socket, start-up and shutdown.
    - [Metrics] (metrics/metrics.go): instruments, their registration, what is counted.

    State is a record with the fields of the Go struct, one definition per function, named as in the
    source; loops are structural recursions over the list they range over.  A Go panic is the value
    [Panic]; errors are sums or options.  Code outside the repository appears only as parameters: the
    sockets under the pools are the class [Transport] with its laws [TransportLaws] (instance [lan]),
    the servers behind a fan-out the class [StringStore] (instance [ref_exec]), a cluster the classes
    [Server], [Cluster], [Scanning], [Transactional] and [Pipelined] (instances [demo_server],
    [demo_cluster], [demo_scanning], [demo_transactional], [demo_pipelined]); a cluster with the router in
    front is again a [StringStore] ([cluster_store]).  The router, pub/sub and sessions are verified against
    the interface [Network] with its laws [NetworkLaws], which the pools of [Backend] implement
    ([pools_network], [pools_laws]); [script] is a simpler instance for examples.

    ** What the theorems show

    - Refinement: for a client that uses SELECT, MOVE, COPY, the multi-key commands MGET, MSET, DEL,
      UNLINK, EXISTS and TOUCH and all commands on one key, the proxy in front of a cluster is a
      standalone server with separate databases ([proxy_refines_redis]): dispatch, key rewriting,
      routing, redirects, fan-out and replies compose to the reply and the effect of that server.
      The cluster may hold stale slot maps, move slots between commands and migrate keys (ASK).  Values
      are opaque, so expiry is not covered; commands run one after the other; arguments are not empty
      (an empty argument is lost in a database above 0) and keys of database 0 do not look prefixed.
      A routed command executes exactly once ([exec_once]); FLUSHDB removes exactly the selected
      database when nodes accept its DEL ([flushdb_exact]); a transaction over one slot runs as a
      whole on that server, or is answered by an error and not executed ([exec_all_or_nothing]).
      Many clients at once, with transactions, are clients of one such server in every interleaving of
      their commands ([clients_refine]); a command is one step there.  A whole session, from the bytes it
      reads to the replies it writes, is a session with that server, pipelined batches included
      ([session_refines]), although a batch is sent node by node: this needs slots that do not move
      during the session, pipelined commands that each stay in one slot, and batches shorter than the
      limit that are followed by a pause.
    - Codec: what is encoded is read back, exactly the encoded bytes are consumed, the reader always
      returns, and the inputs on which it panics are known.
    - Routing: the CRC is CRC-16/XMODEM, hash tags follow the Redis rule, key positions are sound
      and exact, redirects are parsed and followed, the hop limit bounds the traffic, and no
      connection stays checked out.
    - Slot map: parsing CLUSTER SLOTS is correct against the meaning of the reply, every installed
      map is well formed, a MOVED patch changes one slot.
    - Virtual databases: databases never share a key, rewriting touches exactly the key positions.
    - Fan-out: MGET, MSET, DEL and EXISTS over several slots equal the single command, for every
      completion order of the concurrent parts.
    - Pool: in every interleaving each connection has one place, the counters are exact, closing is
      safe; the size bound and the dial error are shown not to behave as announced.
    - Backend: the pool functions are runs of the concurrent pool; no socket is lost whatever fails,
      and nothing is written on a connection before its AUTH and READONLY.
    - Session: a session that ends has returned every connection; without the password nothing reaches
      the cluster; EXEC sends the transaction as one block on one connection; routed commands
      never show a redirect; the selected database stays in range; every command without a key count is answered exactly once.
    - Pipeline: groups partition a batch in order, replies go to the positions of their commands, a
      batch is answered completely or by one error, and the session loop ends.
    - Pub/sub: subscriptions go to the owner of the channel, sharded kinds are hidden, no connection is
      leaked; UNSUBSCRIBE is shown to be undone by its own acknowledgement.
    - Life cycle: the refresh loop leaks nothing and installs only well-formed maps; the socket is set up
      completely or not at all; shutdown is orderly; registering the metrics does not panic.
    - Server and configuration: the number of clients is bounded and exact; a loaded configuration
      satisfies what the other components need.
    - Examples at the end of the files show behaviours that surprise: COMMAND before authentication,
      empty arguments in transactions, a SELECT in an aborted transaction, batches
      that ignore MULTI or execute SELECT too early.

    ** Fuel and bounds

    [readValue] is given more fuel than there are bytes to read, and [ReadValue_total] proves that it
    never runs out.  [fill_slots] is given 16384 steps, the size of the slot array, and a negative start
    panics at once.  [hops] is given MovedHopLimit, the loop bound of the code.  [run_loop] is given one
    round per received event, and [run_terminates] proves this enough.  [scan_loop], the SCAN of FLUSHDB,
    depends on the cursors of the server: its fuel is a parameter, and theorems that need it say so.
    The patience of [waitAck] is not fuel but the timer of the code, counted in reads.  [duration_go]
    has one step per character.
    Integers are unbounded [Z] with the wrap-around written where the code can
    reach it: [wrap64] for int64, [uint16], [int32].  Decimal printing uses twenty digits, enough for
    64 bits.  [strings.ToLower] and [ToUpper] are modelled on ASCII text.

    ** What is not modelled

    Wall-clock time (an expired deadline is an event of the input, a timer a choice), TLS beyond its
    setup and the outcome of the handshake, where commands are counted for metrics, logging, HTTP
    handlers, flag parsing, the delivery of signals, YAML decoding (a parameter), and failed writes to
    the client (they end the session).  Goroutines are modelled where correctness depends on them: in
    the pool, the fan-out, the pub/sub readers and the server; the handlers of a session run one after
    the other, as its code does, and the goroutines of a pipelined batch, which use different nodes,
    in their order of completion.

    Outside the refinement theorems, though modelled: WATCH, subscriptions, blocking commands, and
    interleavings of several sessions finer than whole commands.  The accounting of sockets in [Backend]
    is proved for sequences of pool operations, not carried through whole sessions.  No definition stands
    for the buffer pool of the reader, [writePushes] (it copies the pushed values that [PubSub] records to
    the client), [observe], [isTimeout], [cloneMap] of the configuration (maps are immutable here), accessors,
    the HTTP muxes of the entry point, and the load generator under test/perf, which is not part of the
    proxy. *)

From Stdlib Require Import ZArith Lia Strings.Byte Sorted.
From stdpp Require Import base list gmap strings numbers option.

Open Scope Z_scope.

(** ** Go byte strings

    A Go [string] and the elements of a [[]byte] are byte sequences ([bytes]).  A [[]byte]
    value can moreover be [nil], which the code tells apart from an empty slice
    ([resp.BulkString]), so a [[]byte] is a [slice]: [None] is [nil]. *)

Abbreviation bytes := (list byte).
Abbreviation slice := (option (list byte)).

#[global] Instance byte_eq_decision : EqDecision byte := Byte.byte_eq_dec.

#[global] Program Instance byte_countable : Countable byte :=
  {| encode b := encode (Byte.to_N b);
     decode p := n ← decode p; Byte.of_N n |}.
Next Obligation. intros b; simpl; rewrite decode_encode; simpl; apply Byte.of_to_N. Qed.

Definition content (s : slice) : bytes := default [] s.
Definition B (s : string) : bytes := String.list_byte_of_string s.
Definition BS (s : string) : slice := Some (B s).

(** [append([]byte(nil), b...)]: the copy of an empty slice is [nil]. *)
Definition append_nil (b : bytes) : slice :=
  match b with [] => None | _ => Some b end.

Definition CR : byte := x0d.
Definition LF : byte := x0a.
Definition CRLF : bytes := [CR; LF].

Declare Scope go_scope.
Delimit Scope go_scope with go.
(** [bytes.Equal] / [==] on strings and bytes, as a boolean. *)
Notation "a ==b b" := (bool_decide (a = b)) (at level 70, no associativity) : go_scope.
Open Scope go_scope.

(** A [switch] on a string with the literals [lits]. *)
Definition str_in (s : bytes) (lits : list string) : bool :=
  existsb (fun l => s ==b B l) lits.

(** ** Machine integers *)

Definition b2z (b : byte) : Z := Z.of_N (Byte.to_N b).
Definition z2b (z : Z) : byte := default x00 (Byte.of_N (Z.to_N (z mod 256))).

(** Two's-complement wrap-around of [int]/[int64] (64-bit) arithmetic. *)
Definition wrap64 (z : Z) : Z := (z + 2^63) mod 2^64 - 2^63.
Definition uint16 (z : Z) : Z := z mod 2^16.
Definition in_int64 (z : Z) : Prop := - 2^63 <= z < 2^63.

(** ** Run-time panics

    [Panic] is a Go run-time panic (index out of range, [makeslice] out of range, ...);
    nothing in the program recovers one. *)

Inductive outcome (A : Type) : Type :=
| Ret (a : A)
| Panic.
Arguments Ret {A} a.
Arguments Panic {A}.

#[global] Instance outcome_ret : MRet outcome := fun A => @Ret A.
#[global] Instance outcome_bind : MBind outcome := fun A B f m =>
  match m with Ret a => f a | Panic => Panic end.

(** [l[i]] on a slice: out of range panics. *)
Definition index {A} (l : list A) (i : nat) : outcome A :=
  match l !! i with Some x => Ret x | None => Panic end.

(** [make([]T, len)] and [make([]T, 0, cap)] panic when the size is negative or exceeds what
    the address space holds ([maxAlloc] is 2^48 bytes on 64-bit platforms, and every element
    type used here has at least 8 bytes). *)
Definition makeslice_ok (n : Z) : bool := (0 <=? n) && (n <=? 2^45).

(** ** Decimal conversion: [strconv.AppendInt], [strconv.ParseInt(s, 10, 64)], [strconv.Atoi] *)

Definition is_digit (b : byte) : bool := (48 <=? b2z b) && (b2z b <=? 57).
Definition digit_val (b : byte) : Z := b2z b - 48.
Definition digit (z : Z) : byte := z2b (48 + z).

Fixpoint digits (fuel : nat) (z : Z) (acc : bytes) : bytes :=
  match fuel with
  | O => acc
  | S f =>
      let acc' := digit (z mod 10) :: acc in
      if z / 10 =? 0 then acc' else digits f (z / 10) acc'
  end.

(** Twenty digits are enough for every 64-bit integer. *)
Definition itoa (z : Z) : bytes :=
  if z <? 0 then "-"%byte :: digits 20 (- z) [] else digits 20 z [].

Fixpoint horner (acc : Z) (l : bytes) : option Z :=
  match l with
  | [] => Some acc
  | c :: l' => if is_digit c then horner (acc * 10 + digit_val c) l' else None
  end.

Definition parse_uint (l : bytes) : option Z :=
  match l with [] => None | _ => horner 0 l end.

(** [None] stands for [ErrSyntax] and [ErrRange] alike: no caller tells them apart. *)
Definition parse_int (l : bytes) : option Z :=
  match l with
  | [] => None
  | c :: r =>
      if c ==b "-"%byte then
        n ← parse_uint r; if n <=? 2^63 then Some (- n) else None
      else
        n ← parse_uint (if c ==b "+"%byte then r else l);
        if n <? 2^63 then Some n else None
  end.

(** ASCII case mapping. *)
Definition upper_byte (c : byte) : byte :=
  if (97 <=? b2z c) && (b2z c <=? 122) then z2b (b2z c - 32) else c.
Definition lower_byte (c : byte) : byte :=
  if (65 <=? b2z c) && (b2z c <=? 90) then z2b (b2z c + 32) else c.
(** [strings.ToLower]/[strings.ToUpper] on ASCII text. *)
Definition to_lower (s : bytes) : bytes := map lower_byte s.
Definition to_upper (s : bytes) : bytes := map upper_byte s.

(** [strings.HasPrefix] / [bytes.HasPrefix] and [strings.Contains]. *)
Fixpoint has_prefix (s p : bytes) {struct p} : bool :=
  match p, s with
  | [], _ => true
  | c :: p', d :: s' => (c ==b d) && has_prefix s' p'
  | _ :: _, [] => false
  end.

Fixpoint contains (s sub : bytes) : bool :=
  has_prefix s sub || match s with [] => false | _ :: s' => contains s' sub end.

(** [bytes.IndexByte]: the first position of [c]. *)
Fixpoint index_byte (s : bytes) (c : byte) : option nat :=
  match s with
  | [] => None
  | d :: s' => if d ==b c then Some O else S <$> index_byte s' c
  end.

(** ** Tactics and hint databases *)

Create HintDb go.

(** Decide every boolean test of the goal, close what is contradictory. *)
Ltac bool_simp :=
  repeat match goal with
  | H : (_ && _)%bool = true |- _ => apply andb_true_iff in H; destruct H
  | H : (_ || _)%bool = false |- _ => apply orb_false_iff in H; destruct H
  | H : (_ || _)%bool = true |- _ => apply orb_true_iff in H
  | H : negb _ = true |- _ => apply negb_true_iff in H
  | H : negb _ = false |- _ => apply negb_false_iff in H
  | H : (_ <=? _) = true |- _ => apply Z.leb_le in H
  | H : (_ <=? _) = false |- _ => apply Z.leb_gt in H
  | H : (_ <? _) = true |- _ => apply Z.ltb_lt in H
  | H : (_ <? _) = false |- _ => apply Z.ltb_ge in H
  | H : (_ =? _) = true |- _ => apply Z.eqb_eq in H
  | H : (_ =? _) = false |- _ => apply Z.eqb_neq in H
  | H : bool_decide _ = true |- _ => apply bool_decide_eq_true in H
  | H : bool_decide _ = false |- _ => apply bool_decide_eq_false in H
  end.

Ltac case_if :=
  match goal with
  | |- context [if ?b then _ else _] => let E := fresh "E" in destruct b eqn:E
  | H : context [if ?b then _ else _] |- _ => let E := fresh "E" in destruct b eqn:E
  end.

(** Evaluate the closed equality tests of the goal. *)
Ltac eval_tests :=
  repeat match goal with
  | |- context [bool_decide (?a = ?b)] =>
      let r := eval vm_compute in (bool_decide (a = b)) in
      match r with
      | true => change (bool_decide (a = b)) with true
      | false => change (bool_decide (a = b)) with false
      end
  | |- context [str_in ?a ?b] =>
      let r := eval vm_compute in (str_in a b) in
      match r with
      | true => change (str_in a b) with true
      | false => change (str_in a b) with false
      end
  end.

(** Reduce a closed test to [true] or [false]. *)
Ltac vm_refl := vm_compute; reflexivity.

(** ** Lemmas on bytes and integers *)

Lemma b2z_range b : 0 <= b2z b < 256.
Proof. unfold b2z. pose proof (Byte.to_N_bounded b). lia. Qed.

Lemma b2z_inj b c : b2z b = b2z c -> b = c.
Proof.
  unfold b2z. intros H%N2Z.inj.
  pose proof (Byte.of_to_N b) as Hb. rewrite H, Byte.of_to_N in Hb. by simplify_eq.
Qed.

Lemma b2z_z2b z : 0 <= z < 256 -> b2z (z2b z) = z.
Proof.
  intros Hz. unfold b2z, z2b. rewrite Z.mod_small by lia.
  destruct (Byte.of_N (Z.to_N z)) as [c|] eqn:E; simpl.
  - apply Byte.to_of_N in E. rewrite E. lia.
  - apply Byte.of_N_None_iff in E. lia.
Qed.

Lemma z2b_b2z b : z2b (b2z b) = b.
Proof. apply b2z_inj, b2z_z2b, b2z_range. Qed.

Lemma wrap64_id z : in_int64 z -> wrap64 z = z.
Proof. unfold wrap64, in_int64. intros. rewrite Z.mod_small; lia. Qed.

Lemma wrap64_range z : in_int64 (wrap64 z).
Proof. unfold wrap64, in_int64. pose proof (Z.mod_pos_bound (z + 2^63) (2^64)). lia. Qed.

(** Adding after wrapping is adding before wrapping. *)
Lemma wrap64_add a b : wrap64 (wrap64 a + b) = wrap64 (a + b).
Proof.
  unfold wrap64. replace ((a + 2 ^ 63) mod 2 ^ 64 - 2 ^ 63 + b + 2 ^ 63)
    with ((a + 2^63) mod 2^64 + b) by lia.
  rewrite Zplus_mod_idemp_l. do 2 f_equal. lia.
Qed.

Lemma digit_spec z : 0 <= z < 10 -> is_digit (digit z) = true ∧ digit_val (digit z) = z.
Proof.
  intros. unfold is_digit, digit_val, digit. rewrite b2z_z2b by lia. split; [|lia].
  apply andb_true_iff; split; apply Z.leb_le; lia.
Qed.

Lemma horner_digits fuel z acc a :
  0 <= z < 10 ^ Z.of_nat fuel -> (0 < fuel)%nat ->
  exists k, 0 <= k ∧ horner a (digits fuel z acc) = horner (a * 10 ^ k + z) acc
    ∧ (a = 0 -> horner a (digits fuel z acc) = horner z acc).
Proof.
  revert z acc a. induction fuel as [|f IH]; intros z acc a Hz Hf; [lia|].
  cbn [digits].
  pose proof (Z.mod_pos_bound z 10 ltac:(lia)) as Hm.
  pose proof (Z.div_mod z 10 ltac:(lia)) as Hd.
  destruct (digit_spec (z mod 10) Hm) as [H1 H2].
  destruct (z / 10 =? 0) eqn:E; bool_simp.
  - exists 1. cbn [horner]. rewrite H1, H2. split; [lia|].
    rewrite Z.pow_1_r. split; [|intros ->]; f_equal; lia.
  - assert (0 < f)%nat as Hf'.
    { destruct f; [|lia]. change (10 ^ Z.of_nat 1) with 10 in Hz.
      rewrite Z.div_small in E by lia. lia. }
    assert (0 <= z / 10 < 10 ^ Z.of_nat f) as Hq.
    { rewrite Nat2Z.inj_succ, Z.pow_succ_r in Hz by lia.
      split; [apply Z.div_pos; lia|]. apply Z.div_lt_upper_bound; lia. }
    destruct (IH _ (digit (z mod 10) :: acc) a Hq Hf') as (k & Hk & Heq & _).
    exists (k + 1). split; [lia|].
    assert (horner a (digits f (z / 10) (digit (z mod 10) :: acc))
            = horner (a * 10 ^ (k + 1) + z) acc) as G.
    { rewrite Heq. cbn [horner]. rewrite H1, H2. f_equal.
      rewrite Z.pow_add_r, Z.pow_1_r by lia; lia. }
    split; [exact G|]. by intros ->.
Qed.

Lemma digits_all_digits fuel z acc :
  0 <= z -> Forall (fun c => is_digit c = true) acc ->
  Forall (fun c => is_digit c = true) (digits fuel z acc).
Proof.
  revert z acc. induction fuel as [|f IH]; intros z acc Hz Hacc; [done|].
  cbn [digits]. pose proof (Z.mod_pos_bound z 10 ltac:(lia)) as Hm.
  assert (Forall (fun c => is_digit c = true) (digit (z mod 10) :: acc)).
  { constructor; [apply digit_spec; lia | done]. }
  case_if; [done|]. apply IH; [apply Z.div_pos; lia | done].
Qed.

Lemma digits_nonempty fuel z acc : (0 < fuel)%nat -> digits fuel z acc ≠ [].
Proof.
  revert z acc. induction fuel as [|f IH]; intros z acc Hf; [lia|]. cbn [digits].
  case_if; [done|]. destruct f; [done|]. apply IH. lia.
Qed.

Lemma pow_10_20 : 2 ^ 64 < 10 ^ Z.of_nat 20.
Proof. vm_refl. Qed.

Lemma parse_uint_digits_fuel fuel z :
  (0 < fuel)%nat -> 0 <= z < 10 ^ Z.of_nat fuel -> parse_uint (digits fuel z []) = Some z.
Proof.
  intros Hf Hz. destruct (horner_digits fuel z [] 0 Hz Hf) as (k & _ & _ & G).
  pose proof (digits_nonempty fuel z [] Hf) as Hne.
  unfold parse_uint. destruct (digits fuel z []) eqn:E; [done|]. by rewrite G.
Qed.

Lemma parse_uint_digits z : 0 <= z < 2^64 -> parse_uint (digits 20 z []) = Some z.
Proof. intros Hz. pose proof pow_10_20. apply parse_uint_digits_fuel; lia. Qed.

Lemma horner_ge l n m : 0 <= n -> horner n l = Some m -> n <= m.
Proof.
  revert n. induction l as [|c l IH]; intros n Hn H; simpl in H; [simplify_eq; lia|].
  destruct (is_digit c) eqn:D; [|done]. unfold is_digit in D. bool_simp.
  apply IH in H; unfold digit_val in *; lia.
Qed.

Lemma parse_uint_nonneg l m : parse_uint l = Some m -> 0 <= m.
Proof. unfold parse_uint. destruct l; [done|]. intros H. apply horner_ge in H; lia. Qed.

Lemma horner_digits_only l n m : horner n l = Some m -> Forall (fun c => is_digit c = true) l.
Proof.
  revert n. induction l as [|c l IH]; intros n H; [constructor|]. simpl in H.
  destruct (is_digit c) eqn:D; [|done]. constructor; eauto.
Qed.

(** What [strconv.ParseInt] accepts is an [int64]. *)
Lemma parse_int_range l n : parse_int l = Some n -> in_int64 n.
Proof.
  unfold parse_int, in_int64. destruct l as [|c r]; [done|]. intros H. case_bool_decide.
  - destruct (parse_uint r) as [m|] eqn:E; [|done]. apply parse_uint_nonneg in E. cbn in H.
    destruct (m <=? _) eqn:G; simplify_eq; bool_simp; lia.
  - destruct (parse_uint _) as [m|] eqn:E; [|done]. apply parse_uint_nonneg in E. cbn in H.
    destruct (m <? _) eqn:G; simplify_eq; bool_simp; lia.
Qed.

Lemma digits_head z c l :
  0 <= z -> digits 20 z [] = c :: l -> c ≠ "-"%byte ∧ c ≠ "+"%byte.
Proof.
  intros Hz E. pose proof (digits_all_digits 20 z [] Hz ltac:(constructor)) as H.
  rewrite E in H. apply Forall_inv in H. split; intros ->; vm_compute in H; done.
Qed.

(** [strconv.ParseInt] inverts [strconv.AppendInt] on the whole [int64] range. *)
Lemma parse_int_itoa z : in_int64 z -> parse_int (itoa z) = Some z.
Proof.
  unfold in_int64, itoa. intros Hz. destruct (z <? 0) eqn:E; bool_simp.
  - unfold parse_int. rewrite bool_decide_true by done.
    rewrite parse_uint_digits by lia. simpl. destruct (- z <=? _) eqn:G; bool_simp; [|lia].
    f_equal. lia.
  - pose proof (parse_uint_digits z ltac:(lia)) as Hp.
    destruct (digits 20 z []) as [|c r] eqn:D; [by apply digits_nonempty in D; [|lia]|].
    apply digits_head in D as [D1 D2]; [|lia].
    unfold parse_int. rewrite !bool_decide_false, Hp by done. simpl.
    destruct (z <? _) eqn:G; bool_simp; [done|lia].
Qed.

Lemma itoa_inj a b : in_int64 a -> in_int64 b -> itoa a = itoa b -> a = b.
Proof.
  intros Ha Hb H. apply (f_equal parse_int) in H.
  rewrite !parse_int_itoa in H by done. by simplify_eq.
Qed.

Lemma itoa_nonempty z : itoa z ≠ [].
Proof. unfold itoa. case_if; [done|]. apply digits_nonempty. lia. Qed.

Lemma itoa_nonneg_digits z : 0 <= z -> Forall (fun c => is_digit c = true) (itoa z).
Proof.
  intros. unfold itoa. destruct (z <? 0) eqn:E; bool_simp; [lia|].
  by apply digits_all_digits.
Qed.

Lemma itoa_no c z : is_digit c = false -> c ≠ "-"%byte -> c ∉ itoa z.
Proof.
  intros Hc Hm. unfold itoa.
  assert (forall y, 0 <= y -> c ∉ digits 20 y []) as G.
  { intros y Hy Hin. pose proof (digits_all_digits 20 y [] Hy ltac:(constructor)) as H.
    rewrite list.Forall_forall in H. apply H in Hin. congruence. }
  destruct (z <? 0) eqn:E; bool_simp; [|by apply G].
  rewrite not_elem_of_cons. split; [done|]. apply G. lia.
Qed.

(** ** Lemmas on strings *)

Lemma has_prefix_spec s p : has_prefix s p = true <-> exists r, s = p ++ r.
Proof.
  revert s. induction p as [|c p IH]; intros s; simpl.
  - split; [intros _; by exists s | done].
  - destruct s as [|d s]; [split; [done | by intros [r ?]]|].
    rewrite andb_true_iff, bool_decide_eq_true, IH. split.
    + intros [-> [r ->]]. by exists r.
    + intros [r [= -> ->]]. split; [done | by exists r].
Qed.

Lemma has_prefix_app p r : has_prefix (p ++ r) p = true.
Proof. apply has_prefix_spec. by exists r. Qed.

Lemma index_byte_Some s c i :
  index_byte s c = Some i <->
  exists a b, s = a ++ c :: b ∧ length a = i ∧ c ∉ a.
Proof.
  revert i. induction s as [|d s IH]; intros i; simpl.
  - split; [done|]. intros (a & b & H & _). by destruct a.
  - case_bool_decide as Hd.
    + subst d. split.
      * intros [= <-]. exists [], s. split_and!; [done|done|apply not_elem_of_nil].
      * intros (a & b & H & Hl & Hn). destruct a as [|x a]; [by simplify_eq/=|].
        simplify_eq/=. by destruct Hn; left.
    + rewrite fmap_Some. split.
      * intros (j & Hj & ->). apply IH in Hj as (a & b & -> & <- & Hn).
        exists (d :: a), b. split_and!; [done|done|]. rewrite not_elem_of_cons. done.
      * intros (a & b & H & Hl & Hn). destruct a as [|x a]; [by simplify_eq/=|].
        simplify_eq/=. apply not_elem_of_cons in Hn as [_ Hn].
        exists (length a). split; [|done]. apply IH. eauto.
Qed.

Lemma index_byte_None s c : index_byte s c = None <-> c ∉ s.
Proof.
  induction s as [|d s IH]; simpl.
  - split; [intros _; apply not_elem_of_nil | done].
  - rewrite not_elem_of_cons. case_bool_decide as Hd.
    + split; [done|]. intros [? _]. congruence.
    + rewrite fmap_None, IH. split; [intros ?; split; congruence | by intros [_ ?]].
Qed.

Lemma str_in_true s lits : str_in s lits = true <-> exists l, In l lits ∧ s = B l.
Proof.
  unfold str_in. rewrite existsb_exists. split; intros (l & Hin & H); exists l; split; auto.
  - by apply bool_decide_eq_true in H.
  - by apply bool_decide_eq_true.
Qed.

#[export] Hint Resolve b2z_range wrap64_range itoa_nonempty has_prefix_app : go.

(** ** Filtering lists *)

Lemma filter_ext_in {A} (P Q : A -> Prop) `{forall x, Decision (P x)} `{forall x, Decision (Q x)} (l : list A) :
  (forall x, x ∈ l -> P x <-> Q x) -> filter P l = filter Q l.
Proof.
  induction l as [|a l IH]; intros E; [done|]. rewrite !filter_cons.
  rewrite IH by (intros; apply E; by right). specialize (E a ltac:(by left)).
  do 2 case_decide; tauto.
Qed.

Lemma sum_insert {A} (f : A -> nat) l t p q :
  l !! t = Some p -> (sum_list_with f (<[t := q]> l) + f p = sum_list_with f l + f q)%nat.
Proof.
  revert t. induction l as [|x l IH]; intros [|t] H; simplify_eq/=; [lia|].
  specialize (IH t H). lia.
Qed.

Lemma filter_none {A} (P : A -> Prop) `{forall x, Decision (P x)} (l : list A) :
  (forall x, x ∈ l -> ~ P x) -> filter P l = [].
Proof.
  intros E. induction l as [|a l IH]; [done|]. rewrite filter_cons, decide_False by (apply E; by left).
  apply IH. intros; apply E; by right.
Qed.

Lemma sorted_lt_ext (l1 l2 : list nat) :
  StronglySorted lt l1 -> StronglySorted lt l2 -> (forall x, x ∈ l1 <-> x ∈ l2) -> l1 = l2.
Proof.
  intros H1. revert l2. induction H1 as [|a l1 H1 IH Ha]; intros l2 H2 E.
  - destruct l2 as [|b l2]; [done|]. destruct (E b) as [_ Hb]. by apply elem_of_nil in Hb; [|left].
  - destruct H2 as [|b l2 H2 Hb]; [destruct (E a) as [Hn _]; by apply elem_of_nil in Hn; [|left]|].
    rewrite list.Forall_forall in Ha, Hb.
    assert (a = b) as ->.
    { destruct (E a) as [E1 _], (E b) as [_ E2].
      specialize (E1 ltac:(by left)). specialize (E2 ltac:(by left)).
      apply elem_of_cons in E1 as [?|E1], E2 as [?|E2]; try done.
      apply Ha in E2. apply Hb in E1. lia. }
    f_equal. apply IH; [done|]. intros x. specialize (E x). rewrite !elem_of_cons in E.
    split; intros Hx.
    + destruct E as [[->|?] _]; [by right| |done]. apply Ha in Hx. lia.
    + destruct E as [_ [->|?]]; [by right| |done]. apply Hb in Hx. lia.
Qed.
