(* ===== verification/Resp.v ===== *)
(** * internal/resp: RESP values, encoder and stream reader

    [value.go] is the record [value] with its constructors and [Encode]; [parse.go] is the
    reader.  The buffered connection is an event [stream]: the bytes that arrive, with a
    [Deadline] event wherever the read deadline in force expires before the next byte, and the
    end of the list for end of file.  [bufio]'s own buffer is invisible in this view: the
    [ErrBufferFull] branch of [readLine] only continues the same line.

    The main results: what the encoder writes is read back unchanged ([encode_readValue]), the
    reader records exactly the bytes it consumed ([ReadValue_exact]), it always terminates
    ([ReadValue_total]), and the only way it panics is a map header whose doubled length
    overflows ([readAggregate_panics_iff]). *)

From Stdlib Require Import ZArith Lia Strings.Byte.
From stdpp Require Import base list strings numbers option.
From S2P Require Import Prelude.

(** ** value.go *)

Definition TypeSimpleString : byte := "+"%byte.
Definition TypeError : byte := "-"%byte.
Definition TypeInteger : byte := ":"%byte.
Definition TypeBulkString : byte := "$"%byte.
Definition TypeArray : byte := "*"%byte.
Definition TypeNull : byte := "_"%byte.
Definition TypeBoolean : byte := "#"%byte.
Definition TypeDouble : byte := ","%byte.
Definition TypeBigNumber : byte := "("%byte.
Definition TypeBlobError : byte := "!"%byte.
Definition TypeVerbatim : byte := "="%byte.
Definition TypeMap : byte := "%"%byte.
Definition TypeSet : byte := "~"%byte.
Definition TypePush : byte := ">"%byte.
Definition TypeAttribute : byte := "|"%byte.

Inductive value := mkValue {
  vType : byte;
  vStr : slice;
  vInt : Z;
  vValues : list value;
  vRaw : bytes;
  vNull : bool
}.

(** The zero [Value{}]. *)
Definition zeroValue : value := mkValue x00 None 0 [] [] false.

Definition set_raw (raw : bytes) (v : value) : value :=
  mkValue (vType v) (vStr v) (vInt v) (vValues v) raw (vNull v).

Definition IsError (v : value) : bool :=
  (vType v ==b TypeError) || (vType v ==b TypeBlobError).

Definition ErrorKind (v : value) : bytes :=
  if negb (IsError v) then []
  else match index_byte (content (vStr v)) " "%byte with
       | None => content (vStr v)
       | Some i => take i (content (vStr v))
       end.

Definition EqualKind (v : value) (name : string) : bool := ErrorKind v ==b B name.

Definition BulkString (s : slice) : value :=
  match s with
  | None => mkValue TypeBulkString None 0 [] [] true
  | Some _ => mkValue TypeBulkString s 0 [] [] false
  end.

Definition SimpleString (s : bytes) : value := mkValue TypeSimpleString (Some s) 0 [] [] false.
Definition RError (s : bytes) : value := mkValue TypeError (Some s) 0 [] [] false.
Definition Integer (n : Z) : value := mkValue TypeInteger None n [] [] false.
Definition Array (items : list value) : value := mkValue TypeArray None 0 items [] false.
Definition NullArray : value := mkValue TypeArray None 0 [] [] true.
Definition NullBulk : value := mkValue TypeBulkString None 0 [] [] true.
Definition CommandArray (argv : list slice) : value := Array (map BulkString argv).

Definition appendCRLF (buf : bytes) : bytes := buf ++ [CR; LF].

(** [Encode] appends the encoding of [v] to [buf]. *)
Fixpoint Encode (buf : bytes) (v : value) {struct v} : bytes :=
  match v with
  | mkValue t str n vs raw null =>
  if (0 <? Z.of_nat (length raw)) then buf ++ raw
  else if t ==b TypeSimpleString then appendCRLF ((buf ++ ["+"%byte]) ++ content str)
  else if t ==b TypeError then appendCRLF ((buf ++ ["-"%byte]) ++ content str)
  else if t ==b TypeInteger then appendCRLF ((buf ++ [":"%byte]) ++ itoa n)
  else if t ==b TypeBulkString then
    if null then buf ++ B "$-1" ++ CRLF
    else appendCRLF
           (appendCRLF ((buf ++ ["$"%byte]) ++ itoa (Z.of_nat (length (content str))))
              ++ content str)
  else if (t ==b TypeArray) || (t ==b TypePush) then
    if null then buf ++ t :: B "-1" ++ CRLF
    else fold_left Encode vs (appendCRLF ((buf ++ [t]) ++ itoa (Z.of_nat (length vs))))
  else if t ==b TypeNull then buf ++ "_"%byte :: CRLF
  else if t ==b TypeBoolean then
    if negb (n =? 0) then buf ++ B "#t" ++ CRLF else buf ++ B "#f" ++ CRLF
  else if (t ==b TypeMap) || (t ==b TypeSet) then
    let m := Z.of_nat (length vs) in
    let m := if t ==b TypeMap then m / 2 else m in
    fold_left Encode vs (appendCRLF ((buf ++ [t]) ++ itoa m))
  else appendCRLF ((buf ++ [t]) ++ content str)
  end.

Definition EncodeCommand (buf : bytes) (argv : list slice) : bytes :=
  Encode buf (CommandArray argv).

(** ** parse.go: the reader *)

Inductive event := Got (b : byte) | Deadline.
Definition stream := list event.
Definition gots (b : bytes) : stream := map Got b.

Inductive ioerr := ErrProtocol | EOF | ErrUnexpectedEOF | ErrTimeout.

(** A read either succeeds with what it parsed, the raw bytes captured so far and the rest of
    the stream, or fails having consumed part of the stream, or panics.  [RFuel] is the fuel
    of the model running out; [ReadValue_total] shows that it never does. *)
Inductive rres (A : Type) :=
| ROk (a : A) (raw : bytes) (s : stream)
| RErr (e : ioerr) (s : stream)
| RPanic
| RFuel.
Arguments ROk {A} a raw s.
Arguments RErr {A} e s.
Arguments RPanic {A}.
Arguments RFuel {A}.

Definition reader (A : Type) : Type := bytes -> stream -> rres A.

#[global] Instance reader_ret : MRet reader := fun A a raw s => ROk a raw s.
#[global] Instance reader_bind : MBind reader := fun A B f m raw s =>
  match m raw s with
  | ROk a raw' s' => f a raw' s'
  | RErr e s' => RErr e s'
  | RPanic => RPanic
  | RFuel => RFuel
  end.

Definition rfail {A} (e : ioerr) : reader A := fun _ s => RErr e s.

(** [bufio.Reader.ReadSlice('\n')] (and [ReadBytes('\n')]): the bytes up to and including the
    line feed.  On an error the bytes already read are gone. *)
Fixpoint read_slice (s : stream) : (bytes * stream) + (ioerr * stream) :=
  match s with
  | [] => inr (EOF, [])
  | Deadline :: s' => inr (ErrTimeout, s')
  | Got b :: s' =>
      if b ==b LF then inl ([b], s')
      else match read_slice s' with
           | inl (l, r) => inl (b :: l, r)
           | inr e => inr e
           end
  end.

(** [io.ReadFull]: exactly [n] bytes, [io.EOF] only when none was read. *)
Fixpoint read_full (started : bool) (n : Z) (s : stream) : (bytes * stream) + (ioerr * stream) :=
  if n <=? 0 then inl ([], s)
  else match s with
  | [] => inr (if started then ErrUnexpectedEOF else EOF, [])
  | Deadline :: s' => inr (ErrTimeout, s')
  | Got b :: s' =>
      match read_full true (n - 1) s' with
      | inl (l, r) => inl (b :: l, r)
      | inr e => inr e
      end
  end.

Definition readLine : reader bytes := fun raw s =>
  match read_slice s with
  | inr (e, s') => RErr e s'
  | inl (line, s') =>
      if (Z.of_nat (length line) <? 2)
         || negb (bool_decide (line !! (length line - 2)%nat = Some CR))
      then RErr ErrProtocol s'
      else ROk (take (length line - 2) line) (raw ++ line) s'
  end.

Definition parseInt (b : bytes) : reader Z :=
  if Z.of_nat (length b) =? 0 then rfail ErrProtocol
  else match parse_int b with
       | None => rfail ErrProtocol
       | Some n => mret n
       end.

Definition clone (b : bytes) : slice := match b with [] => None | _ => Some b end.

Definition readBulk (t : byte) (lenField : bytes) : reader value :=
  n ← parseInt lenField;
  if n <? 0 then mret (mkValue t None 0 [] [] true)
  else if 512 * 1024 * 1024 <? n then rfail ErrProtocol
  else fun raw s =>
    match read_full false (n + 2) s with
    | inr (e, s') => RErr e s'
    | inl (buf, s') =>
        if negb (bool_decide (buf !! Z.to_nat n = Some CR))
           || negb (bool_decide (buf !! Z.to_nat (n + 1) = Some LF))
        then RErr ErrProtocol s'
        else ROk (mkValue t (Some (take (Z.to_nat n) buf)) 0 [] [] false) (raw ++ buf) s'
    end.

(** The aggregate length check, with the 64-bit doubling of a map's length. *)
Definition readAggregate (readItems : Z -> reader (list value))
    (t : byte) (lenField : bytes) (isMap : bool) : reader value :=
  n ← parseInt lenField;
  if n <? 0 then mret (mkValue t None 0 [] [] true)
  else
    let count := if isMap then wrap64 (n * 2) else n in
    if 1000000 <? count then rfail ErrProtocol
    else if negb (makeslice_ok count) then fun _ _ => RPanic
    else items ← readItems count; mret (mkValue t None 0 items [] false).

Fixpoint readValue (fuel : nat) : reader value :=
  match fuel with
  | O => fun _ _ => RFuel
  | S f =>
    line ← readLine;
    match line with
    | [] => rfail ErrProtocol
    | t :: rest =>
      if t ==b TypeSimpleString then mret (mkValue TypeSimpleString (clone rest) 0 [] [] false)
      else if t ==b TypeError then mret (mkValue TypeError (clone rest) 0 [] [] false)
      else if t ==b TypeInteger then
        n ← parseInt rest; mret (mkValue TypeInteger None n [] [] false)
      else if (t ==b TypeBulkString) || (t ==b TypeBlobError) || (t ==b TypeVerbatim) then
        readBulk t rest
      else if (t ==b TypeArray) || (t ==b TypePush) || (t ==b TypeSet) then
        readAggregate (readItems f) t rest false
      else if t ==b TypeMap then readAggregate (readItems f) TypeMap rest true
      else if t ==b TypeNull then mret (mkValue TypeNull None 0 [] [] true)
      else if t ==b TypeBoolean then
        let isT := match rest with
                   | c :: _ => (c ==b "t"%byte) || (c ==b "T"%byte)
                   | [] => false
                   end in
        mret (mkValue TypeBoolean None (if isT then 1 else 0) [] [] false)
      else if (t ==b TypeDouble) || (t ==b TypeBigNumber) then
        mret (mkValue t (clone rest) 0 [] [] false)
      else if t ==b TypeAttribute then
        _ ← readAggregate (readItems f) TypeAttribute rest true; readValue f
      else rfail ErrProtocol
    end
  end
with readItems (fuel : nat) (count : Z) : reader (list value) :=
  if count <=? 0 then mret []
  else match fuel with
  | O => fun _ _ => RFuel
  | S f =>
      v ← readValue f;
      vs ← readItems f (count - 1);
      mret (v :: vs)
  end.

(** Every value consumes at least two bytes, so this fuel always suffices. *)
Definition read_fuel (s : stream) : nat := (2 * length s + 2)%nat.

Definition ReadValue (s : stream) : rres value :=
  match readValue (read_fuel s) [] s with
  | ROk v raw s' => ROk (set_raw raw v) [] s'
  | r => r
  end.

(** ** parse.go: command arrays and ASCII helpers *)

Fixpoint argv_items (vs : list value) : ioerr + list slice :=
  match vs with
  | [] => inr []
  | el :: vs' =>
      if (vType el ==b TypeBulkString) || (vType el ==b TypeSimpleString) then
        match argv_items vs' with
        | inl e => inl e
        | inr l => inr (vStr el :: l)
        end
      else inl ErrProtocol
  end.

Definition ArrayToArgv (v : value) : ioerr + list slice :=
  if negb (vType v ==b TypeArray) || vNull v then inl ErrProtocol
  else argv_items (vValues v).

Fixpoint equal_fold_go (a b : bytes) : bool :=
  match a, b with
  | ca :: a', cb :: b' => if lower_byte ca ==b lower_byte cb then equal_fold_go a' b' else false
  | _, _ => true
  end.

Definition EqualFoldASCII (a b : bytes) : bool :=
  if negb (Nat.eqb (length a) (length b)) then false else equal_fold_go a b.

Definition UpperASCII (b : bytes) : bytes := map upper_byte b.

Definition HasPrefixFold (s prefix : bytes) : bool :=
  if Nat.ltb (length s) (length prefix) then false
  else EqualFoldASCII (take (length prefix) s) prefix.

Definition BytesContainsToken (s token : bytes) : bool :=
  if negb (has_prefix s token) then false
  else if Nat.eqb (length s) (length token) then true
  else bool_decide (s !! length token = Some " "%byte).
