(* ===== verification/RespTheory.v ===== *)
(** * Theory of internal/resp: round trips, exact consumption, termination, panics *)

From Stdlib Require Import ZArith Lia Strings.Byte.
From stdpp Require Import base list strings numbers option.
From S2P Require Import Prelude Resp.

(** ** Induction on nested values *)

Lemma value_ind' (P : value -> Prop) :
  (forall t str n vs raw null, Forall P vs -> P (mkValue t str n vs raw null)) ->
  forall v, P v.
Proof.
  intros H. fix IH 1. intros [t str n vs raw null]. apply H.
  induction vs as [|x vs IHvs]; constructor; [apply IH | apply IHvs].
Qed.

(** ** [Encode] appends *)

Lemma fold_Encode vs :
  Forall (fun v => forall buf, Encode buf v = buf ++ Encode [] v) vs ->
  forall buf, fold_left Encode vs buf = buf ++ concat (map (Encode []) vs).
Proof.
  induction 1 as [|v vs Hv _ IH]; intros buf; simpl; [by rewrite app_nil_r|].
  rewrite IH, Hv. by rewrite app_assoc.
Qed.

Lemma Encode_app v : forall buf, Encode buf v = buf ++ Encode [] v.
Proof.
  induction v as [t str n vs raw null IH] using value_ind'. intros buf. cbn [Encode].
  pose proof (fold_Encode vs IH) as F. unfold appendCRLF.
  repeat case_if; rewrite ?F; rewrite ?app_nil_l, <- ?app_assoc; reflexivity.
Qed.

Definition enc (v : value) : bytes := Encode [] v.
Definition encs (vs : list value) : bytes := concat (map enc vs).

Lemma fold_Encode_encs vs buf : fold_left Encode vs buf = buf ++ encs vs.
Proof. apply fold_Encode, Forall_true. intros v b. apply Encode_app. Qed.

(** ** Exact consumption

    [consumes k m]: whenever [m] succeeds it has read some bytes [c], at least [k] of them, and
    appended exactly [c] to the captured raw bytes. *)

Definition consumes {A} (k : nat) (m : reader A) : Prop :=
  forall raw s a raw' s', m raw s = ROk a raw' s' ->
  exists c, raw' = raw ++ c ∧ s = gots c ++ s' ∧ (k <= length c)%nat.

Lemma consumes_ret {A} (a : A) : consumes 0 (mret a).
Proof. intros raw s a' raw' s' [= <- <- <-]. exists []. by rewrite app_nil_r. Qed.

Lemma consumes_bind {A B} k1 k2 (m : reader A) (f : A -> reader B) :
  consumes k1 m -> (forall a, consumes k2 (f a)) -> consumes (k1 + k2) (m ≫= f).
Proof.
  intros Hm Hf raw s b raw' s' H. unfold mbind, reader_bind in H.
  destruct (m raw s) as [a raw1 s1| | |] eqn:E; try done.
  apply Hm in E as (c1 & -> & -> & H1). apply Hf in H as (c2 & -> & -> & H2).
  exists (c1 ++ c2). unfold gots. rewrite map_app, length_app.
  split_and!; [by rewrite app_assoc|by rewrite <- app_assoc|lia].
Qed.

Lemma consumes_weaken {A} k k' (m : reader A) : (k' <= k)%nat -> consumes k m -> consumes k' m.
Proof.
  intros Hk Hm raw s a raw' s' H. apply Hm in H as (c & -> & -> & Hc). exists c.
  split_and!; [done..|lia].
Qed.

Lemma consumes_fail {A} k e : consumes k (@rfail A e).
Proof. intros raw s a raw' s' H. done. Qed.

Lemma consumes_panic {A} k : consumes k (fun _ _ => @RPanic A).
Proof. intros raw s a raw' s' H. done. Qed.

Lemma read_slice_exact s l r : read_slice s = inl (l, r) -> s = gots l ++ r.
Proof.
  revert l r. induction s as [|[b|] s IH]; intros l r H; simpl in H; try done.
  case_bool_decide; [by simplify_eq|].
  destruct (read_slice s) as [[l' r']|]; [|done]. simplify_eq. by rewrite (IH l' r).
Qed.

Lemma read_full_exact n s : forall st l r,
  0 <= n -> read_full st n s = inl (l, r) -> s = gots l ++ r ∧ Z.of_nat (length l) = n.
Proof.
  revert n. induction s as [|[b|] s IH]; intros n st l r Hn H; simpl in H;
    (destruct (n <=? 0) eqn:E; bool_simp; [simplify_eq/=; split; [done|lia]|try done]).
  destruct (read_full true (n - 1) s) as [[l' r']|] eqn:F; [|done]. simplify_eq.
  apply IH in F as [-> F]; [|lia]. split; [done|]. cbn [length]. lia.
Qed.

Lemma readLine_consumes : consumes 2 readLine.
Proof.
  intros raw s l raw' s' H. unfold readLine in H.
  destruct (read_slice s) as [[line r]|[e r]] eqn:E; [|done].
  case_if; [done|]. simplify_eq. apply read_slice_exact in E as ->.
  exists line. bool_simp. split_and!; [done..|lia].
Qed.

Lemma parseInt_consumes b : consumes 0 (parseInt b).
Proof.
  unfold parseInt. case_if; [apply consumes_fail|].
  destruct (parse_int b); [apply consumes_ret | apply consumes_fail].
Qed.

Lemma readBulk_consumes t l : consumes 0 (readBulk t l).
Proof.
  change 0%nat with (0 + 0)%nat. apply consumes_bind; [apply parseInt_consumes|]. intros n.
  case_if; [apply consumes_ret|]. case_if; [apply consumes_fail|].
  intros raw s v raw' s' H.
  destruct (read_full false (n + 2) s) as [[buf r]|[e r]] eqn:F; [|done].
  case_if; [done|]. simplify_eq. bool_simp.
  apply read_full_exact in F as [-> _]; [|lia]. exists buf. split_and!; [done..|lia].
Qed.

Lemma readAggregate_consumes items t l m :
  (forall c, consumes 0 (items c)) -> consumes 0 (readAggregate items t l m).
Proof.
  intros Hi. change 0%nat with (0 + 0)%nat.
  apply consumes_bind; [apply parseInt_consumes|]. intros n.
  destruct (n <? 0); [apply consumes_ret|].
  set (count := if m then _ else n). cbv zeta.
  destruct (1000000 <? count); [apply consumes_fail|].
  destruct (negb (makeslice_ok count)); [apply consumes_panic|]. change 0%nat with (0 + 0)%nat.
  apply consumes_bind; [apply Hi | intros; apply consumes_ret].
Qed.

#[export] Hint Resolve consumes_ret consumes_fail readLine_consumes parseInt_consumes
  readBulk_consumes readAggregate_consumes : go.

Lemma readValue_consumes fuel :
  consumes 2 (readValue fuel) ∧ forall count, consumes 0 (readItems fuel count).
Proof.
  induction fuel as [|f [IHv IHi]].
  - split; [by intros ?????|]. intros count. simpl. case_if; [apply consumes_ret|by intros ?????].
  - split.
    + cbn [readValue]. change 2%nat with (2 + 0)%nat. apply consumes_bind; [auto with go|].
      intros [|t rest]; [auto with go|].
      repeat case_if; auto with go; change 0%nat with (0 + 0)%nat;
        (apply consumes_bind; [auto with go|]; intros; auto with go).
      eapply consumes_weaken; [|apply IHv]. lia.
    + intros count. cbn [readItems]. case_if; [apply consumes_ret|].
      eapply consumes_weaken with (k := (2 + (0 + 0))%nat); [lia|].
      apply consumes_bind; [done|]. intros v. apply consumes_bind; [done|]. intros; auto with go.
Qed.

(** ** Reading never grows the stream, also when it fails *)

Definition shrinks {A} (m : reader A) : Prop := forall raw s,
  match m raw s with ROk _ _ s' | RErr _ s' => (length s' <= length s)%nat | _ => True end.

Lemma shrinks_ret {A} (a : A) : shrinks (mret a).
Proof. intros raw s. cbn. lia. Qed.
Lemma shrinks_fail {A} e : shrinks (@rfail A e).
Proof. intros raw s. cbn. lia. Qed.
Lemma shrinks_panic {A} : shrinks (fun _ _ => @RPanic A).
Proof. by intros raw s. Qed.
Lemma shrinks_bind {A B} (m : reader A) (f : A -> reader B) :
  shrinks m -> (forall a, shrinks (f a)) -> shrinks (m ≫= f).
Proof.
  intros Hm Hf raw s. specialize (Hm raw s). unfold mbind, reader_bind. destruct (m raw s) as [a raw' s'| | |]; [|done..].
  specialize (Hf a raw' s'). destruct (f a raw' s'); lia.
Qed.

Lemma read_slice_shrinks s : match read_slice s with inl (_, s') | inr (_, s') => (length s' <= length s)%nat end.
Proof.
  induction s as [|[b|] s IH]; cbn; [lia| |lia]. case_if; [lia|]. destruct (read_slice s) as [[l t]|[e t]]; lia.
Qed.
Lemma read_full_shrinks st n s :
  match read_full st n s with inl (_, s') | inr (_, s') => (length s' <= length s)%nat end.
Proof.
  revert st n. induction s as [|[b|] s IH]; intros st n; cbn [read_full]; case_if; cbn; try lia.
  specialize (IH true (n - 1)). destruct (read_full true (n - 1) s) as [[l t]|[e t]]; lia.
Qed.

Lemma readLine_shrinks : shrinks readLine.
Proof.
  intros raw s. unfold readLine. pose proof (read_slice_shrinks s).
  destruct (read_slice s) as [[l t]|[e t]]; [|done]. by case_if.
Qed.
Lemma parseInt_shrinks b : shrinks (parseInt b).
Proof. unfold parseInt. case_if; [apply shrinks_fail|]. destruct (parse_int b); [apply shrinks_ret|apply shrinks_fail]. Qed.
Lemma readBulk_shrinks t l : shrinks (readBulk t l).
Proof.
  apply shrinks_bind; [apply parseInt_shrinks|]. intros n. case_if; [apply shrinks_ret|].
  case_if; [apply shrinks_fail|]. intros raw s. pose proof (read_full_shrinks false (n + 2) s).
  destruct (read_full false (n + 2) s) as [[l' t']|[e t']]; [|done]. by case_if.
Qed.
Lemma readAggregate_shrinks items t l m : (forall c, shrinks (items c)) -> shrinks (readAggregate items t l m).
Proof.
  intros Hi. apply shrinks_bind; [apply parseInt_shrinks|]. intros n. case_if; [apply shrinks_ret|].
  set (count := if m then _ else n). cbv zeta.
  destruct (1000000 <? count); [apply shrinks_fail|].
  destruct (negb (makeslice_ok count)); [apply shrinks_panic|].
  apply shrinks_bind; [apply Hi|intros; apply shrinks_ret].
Qed.
#[export] Hint Resolve shrinks_ret shrinks_fail readLine_shrinks parseInt_shrinks
  readBulk_shrinks readAggregate_shrinks : go.

Lemma readValue_shrinks fuel : shrinks (readValue fuel) ∧ forall count, shrinks (readItems fuel count).
Proof.
  induction fuel as [|f [IHv IHi]].
  - split; [by intros raw s|]. intros count. simpl. case_if; [apply shrinks_ret|by intros raw s].
  - split.
    + cbn [readValue]. apply shrinks_bind; [auto with go|]. intros [|t rest]; [auto with go|].
      repeat case_if; auto with go; (apply shrinks_bind; [auto with go|]; intros; auto with go).
    + intros count. cbn [readItems]. case_if; [apply shrinks_ret|].
      apply shrinks_bind; [done|]. intros v. apply shrinks_bind; [done|]. intros; auto with go.
Qed.

(** ** Termination *)

Definition total_upto {A} (m : reader A) (n : nat) : Prop :=
  forall raw s, (length s <= n)%nat -> m raw s ≠ RFuel.

Lemma total_ret {A} (a : A) n : total_upto (mret a) n.
Proof. by intros raw s _. Qed.

Lemma total_fail {A} e n : total_upto (@rfail A e) n.
Proof. by intros raw s _. Qed.

Lemma total_bind {A B} k (m : reader A) (f : A -> reader B) n :
  total_upto m n -> consumes k m -> 
  ((k <= n)%nat -> forall a, total_upto (f a) (n - k)) -> total_upto (m ≫= f) n.
Proof.
  intros Hm Hc Hf raw s Hs. unfold mbind, reader_bind.
  destruct (m raw s) as [a raw1 s1| | |] eqn:E; try done; [|by apply Hm in E].
  apply Hc in E as (c & -> & -> & Hk). apply Hf.
  all: unfold gots in Hs; rewrite length_app, length_map in Hs; lia.
Qed.

Lemma readLine_total n : total_upto readLine n.
Proof.
  intros raw s _. unfold readLine. destruct (read_slice s) as [[l r]|[e r]]; [|done].
  by case_if.
Qed.

Lemma parseInt_total b n : total_upto (parseInt b) n.
Proof. intros raw s _. unfold parseInt. case_if; [done|]. by destruct (parse_int b). Qed.

#[export] Hint Resolve total_ret total_fail readLine_total parseInt_total : go.

Lemma readBulk_total t l n : total_upto (readBulk t l) n.
Proof.
  apply total_bind with (k := 0%nat); [auto with go..|]. intros _ m.
  case_if; [auto with go|]. case_if; [auto with go|]. intros raw s _.
  destruct (read_full _ _ s) as [[buf r]|[e r]]; [|done]. by case_if.
Qed.

Lemma readAggregate_total items t l m n :
  (forall c, total_upto (items c) n) -> (forall c, consumes 0 (items c)) ->
  total_upto (readAggregate items t l m) n.
Proof.
  intros Hi Hc. apply total_bind with (k := 0%nat); [auto with go..|]. intros _ z.
  rewrite Nat.sub_0_r. case_if; [auto with go|].
  set (count := if m then _ else z). cbv zeta.
  destruct (1000000 <? count); [auto with go|].
  destruct (negb (makeslice_ok count)); [done|].
  apply total_bind with (k := 0%nat); [auto with go..|]. intros; auto with go.
Qed.

Lemma total_le {A} (m : reader A) n n' : (n' <= n)%nat -> total_upto m n -> total_upto m n'.
Proof. intros Hn Hm raw s Hs. apply Hm. lia. Qed.

Lemma readValue_total fuel :
  (forall n, (2 * n + 1 <= fuel)%nat -> total_upto (readValue fuel) n) ∧
  (forall n count, (2 * n + 2 <= fuel)%nat -> total_upto (readItems fuel count) n).
Proof.
  induction fuel as [|f [IHv IHi]]; [split; lia|].
  destruct (readValue_consumes f) as [Cv Ci]. split.
  - intros n Hn. cbn [readValue]. apply total_bind with (k := 2%nat); [auto with go..|].
    intros Hk [|t rest]; [auto with go|].
    assert (forall b m, total_upto (readAggregate (readItems f) b rest m) (n - 2)) as HA.
    { intros b m. apply readAggregate_total; [|done]. intros c. apply IHi. lia. }
    repeat case_if; auto using readBulk_total with go;
      (apply total_bind with (k := 0%nat); [auto with go..|]); intros; auto with go.
    apply IHv. lia.
  - intros n count Hn. cbn [readItems]. case_if; [auto with go|].
    apply total_bind with (k := 2%nat); [apply IHv; lia|done|]. intros Hk v.
    apply total_bind with (k := 0%nat); [apply IHi; lia|done|]. intros; auto with go.
Qed.

(** ** Round trip

    [wire_ok v]: the values [Encode] can write so that the reader gives them back: no embedded
    line feed in a line-framed payload, integers in the [int64] range, at most the reader's
    limits (512 MiB per bulk, 1,000,000 elements per aggregate), the fields a type does not use
    at their zero value and no cached raw bytes. *)

Definition line_str_ok (s : slice) : bool :=
  match s with
  | None => true
  | Some [] => false
  | Some b => negb (existsb (fun c => c ==b LF) b)
  end.

Definition no_str (s : slice) : bool := match s with None => true | Some _ => false end.
Definition no_values (vs : list value) : bool := match vs with [] => true | _ => false end.
Definition count_ok (vs : list value) : bool := Z.of_nat (length vs) <=? 1000000.

Fixpoint wire_ok (v : value) : bool :=
  match v with
  | mkValue t str n vs raw null =>
  (match raw with [] => true | _ => false end) &&
  (if (t ==b TypeSimpleString) || (t ==b TypeError) || (t ==b TypeDouble) || (t ==b TypeBigNumber)
   then line_str_ok str && (n =? 0) && no_values vs && negb null
   else if t ==b TypeInteger then
     no_str str && ((- 2^63 <=? n) && (n <? 2^63)) && no_values vs && negb null
   else if t ==b TypeBulkString then
     (if null then no_str str
      else match str with Some b => Z.of_nat (length b) <=? 512 * 1024 * 1024 | None => false end)
     && (n =? 0) && no_values vs
   else if (t ==b TypeArray) || (t ==b TypePush) then
     no_str str && (n =? 0) && (if null then no_values vs else count_ok vs && forallb wire_ok vs)
   else if t ==b TypeSet then
     no_str str && (n =? 0) && negb null && (count_ok vs && forallb wire_ok vs)
   else if t ==b TypeMap then
     no_str str && (n =? 0) && negb null
     && (Nat.even (length vs) && (count_ok vs && forallb wire_ok vs))
   else if t ==b TypeNull then no_str str && (n =? 0) && no_values vs && null
   else if t ==b TypeBoolean then
     no_str str && ((n =? 0) || (n =? 1)) && no_values vs && negb null
   else false)
  end.

Lemma read_slice_line l r : LF ∉ l -> read_slice (gots (l ++ [LF]) ++ r) = inl (l ++ [LF], r).
Proof.
  induction l as [|c l IH]; intros H; [done|]; cbn [app gots map read_slice].
  - apply not_elem_of_cons in H as [Hc Hl].
    rewrite bool_decide_false by congruence. change (map Got (l ++ [LF])) with (gots (l ++ [LF])).
    by rewrite IH.
Qed.

Lemma readLine_line l raw rest :
  LF ∉ l -> readLine raw (gots (l ++ CRLF) ++ rest) = ROk l (raw ++ l ++ CRLF) rest.
Proof.
  intros H. unfold readLine, CRLF. change [CR; LF] with ([CR] ++ [LF]). rewrite app_assoc.
  rewrite read_slice_line.
  2: { rewrite elem_of_app, list_elem_of_singleton. by intros [?| ?]. }
  rewrite !length_app. cbn [length].
  replace (length l + 1 + 1 - 2)%nat with (length l) by lia.
  rewrite <- app_assoc, lookup_app_r, Nat.sub_diag by lia. rewrite take_app_length.
  rewrite bool_decide_true by done. cbn [negb]. rewrite orb_false_r.
  destruct (_ <? 2) eqn:E; [bool_simp; lia|]. done.
Qed.

Lemma read_full_gots b st rest :
  read_full st (Z.of_nat (length b)) (gots b ++ rest) = inl (b, rest).
Proof.
  revert st. induction b as [|c b IH]; intros st.
  - simpl. destruct rest; reflexivity.
  - cbn [length gots map app read_full].
    destruct (_ <=? 0) eqn:E; bool_simp; [lia|].
    replace (Z.of_nat (S (length b)) - 1) with (Z.of_nat (length b)) by lia.
    change (map Got b) with (gots b). by rewrite IH.
Qed.

Lemma parseInt_itoa z raw s : in_int64 z -> parseInt (itoa z) raw s = ROk z raw s.
Proof.
  intros Hz. unfold parseInt. pose proof (itoa_nonempty z) as Hne.
  destruct (_ =? 0) eqn:E; bool_simp.
  - destruct (itoa z); [done|]. simpl in E. lia.
  - by rewrite parse_int_itoa.
Qed.

Lemma LF_not_itoa z : LF ∉ itoa z.
Proof. by apply itoa_no. Qed.

Lemma clone_content s : line_str_ok s = true -> clone (content s) = s.
Proof. by destruct s as [[|c b]|]. Qed.

Lemma line_str_no_lf s : line_str_ok s = true -> LF ∉ content s.
Proof.
  destruct s as [[|c b]|]; try (intros; apply not_elem_of_nil). intros H.
  cbn [line_str_ok] in H. apply negb_true_iff in H. intros Hin.
  apply not_true_iff_false in H. apply H, existsb_exists. exists LF.
  split; [by apply list_elem_of_In | by apply bool_decide_true].
Qed.

#[export] Hint Resolve LF_not_itoa line_str_no_lf : go.

Lemma LF_not_cons t l : t ≠ LF -> LF ∉ l -> LF ∉ t :: l.
Proof. intros. rewrite not_elem_of_cons. split; [congruence|done]. Qed.

(** One step of the reader on a framed line [t :: l]. *)
Lemma readLine_bind (t : byte) l raw rest (k : bytes -> reader value) :
  t ≠ LF -> LF ∉ l ->
  (readLine ≫= k) raw (gots ((t :: l) ++ CRLF) ++ rest)
  = k (t :: l) (raw ++ (t :: l) ++ CRLF) rest.
Proof.
  intros Ht Hl. unfold mbind, reader_bind. rewrite readLine_line; [done|].
  by apply LF_not_cons.
Qed.

Definition reads_back (v : value) : Prop :=
  forall fuel raw rest, (2 * length (enc v) + 1 <= fuel)%nat ->
  readValue fuel raw (gots (enc v) ++ rest) = ROk v (raw ++ enc v) rest.

Lemma enc_nonempty v : (1 <= length (enc v))%nat.
Proof.
  destruct v as [t str n vs raw null]. unfold enc. cbn [Encode]. unfold appendCRLF.
  repeat case_if; rewrite ?fold_Encode_encs, ?length_app; cbn [length]; try lia.
  all: bool_simp; cbn; lia.
Qed.

Lemma encs_cons v vs : encs (v :: vs) = enc v ++ encs vs.
Proof. done. Qed.

Lemma gots_app a b : gots (a ++ b) = gots a ++ gots b.
Proof. apply map_app. Qed.

Lemma readItems_back vs :
  Forall reads_back vs ->
  forall fuel raw rest, (2 * length (encs vs) + 2 <= fuel)%nat ->
  readItems fuel (Z.of_nat (length vs)) raw (gots (encs vs) ++ rest)
  = ROk vs (raw ++ encs vs) rest.
Proof.
  induction 1 as [|v vs Hv _ IH]; intros fuel raw rest Hf.
  - destruct fuel; cbn; by rewrite app_nil_r.
  - rewrite encs_cons, length_app in Hf. pose proof (enc_nonempty v).
    destruct fuel as [|f]; [lia|]. cbn [readItems].
    destruct (_ <=? 0) eqn:E; [bool_simp; cbn [length] in E; lia|].
    rewrite encs_cons, gots_app, <- app_assoc. unfold mbind, reader_bind.
    rewrite Hv by lia. replace (Z.of_nat (length (v :: vs)) - 1) with (Z.of_nat (length vs))
      by (cbn [length]; lia).
    rewrite IH by lia. unfold mret, reader_ret. by rewrite <- app_assoc.
Qed.

(** Reading back an aggregate header and its items. *)
Lemma readAggregate_back t vs f raw rest (isMap : bool) (n : Z) :
  Forall reads_back vs -> count_ok vs = true ->
  n = (if isMap then Z.of_nat (length vs) / 2 else Z.of_nat (length vs)) ->
  (isMap = true -> Nat.even (length vs) = true) ->
  (2 * length (encs vs) + 2 <= f)%nat ->
  readAggregate (readItems f) t (itoa n) isMap raw (gots (encs vs) ++ rest)
  = ROk (mkValue t None 0 vs [] false) (raw ++ encs vs) rest.
Proof.
  intros Hvs Hc Hn Heven Hf. unfold count_ok in Hc. bool_simp.
  assert (0 <= n) as Hn0 by (subst n; destruct isMap; [apply Z.div_pos; lia|lia]).
  assert (n <= Z.of_nat (length vs)) as Hn1.
  { subst n. destruct isMap; [|lia]. apply Z.div_le_upper_bound; lia. }
  unfold readAggregate. unfold mbind at 1, reader_bind at 1.
  rewrite parseInt_itoa by (unfold in_int64; lia).
  destruct (n <? 0) eqn:E; [bool_simp; lia|].
  assert ((if isMap then wrap64 (n * 2) else n) = Z.of_nat (length vs)) as ->.
  { destruct isMap; [|done]. rewrite wrap64_id by (unfold in_int64; lia). subst n.
    specialize (Heven eq_refl). apply Nat.even_spec in Heven as [k Hk]. rewrite Hk.
    rewrite Nat2Z.inj_mul. change (Z.of_nat 2) with 2.
    rewrite (Z.mul_comm 2 (Z.of_nat k)), Z.div_mul by lia. lia. }
  cbv zeta. destruct (1000000 <? _) eqn:E1; [bool_simp; lia|].
  assert (makeslice_ok (Z.of_nat (length vs)) = true) as ->.
  { unfold makeslice_ok. apply andb_true_iff; split; apply Z.leb_le; lia. }
  cbn [negb]. unfold mbind, reader_bind. by rewrite readItems_back.
Qed.

Lemma readBulk_back t b raw rest :
  Z.of_nat (length b) <= 512 * 1024 * 1024 ->
  readBulk t (itoa (Z.of_nat (length b))) raw (gots (b ++ CRLF) ++ rest)
  = ROk (mkValue t (Some b) 0 [] [] false) (raw ++ b ++ CRLF) rest.
Proof.
  intros Hb. unfold readBulk. unfold mbind at 1, reader_bind at 1.
  rewrite parseInt_itoa by (unfold in_int64; lia).
  destruct (_ <? 0) eqn:E; [bool_simp; lia|]. destruct (_ <? Z.of_nat _) eqn:E1; [bool_simp; lia|].
  replace (Z.of_nat (length b) + 2) with (Z.of_nat (length (b ++ CRLF)))
    by (rewrite length_app; cbn [length CRLF]; lia).
  rewrite read_full_gots. rewrite Nat2Z.id.
  replace (Z.to_nat (Z.of_nat (length b) + 1)) with (length b + 1)%nat by lia.
  rewrite !lookup_app_r by lia. rewrite Nat.sub_diag.
  replace (length b + 1 - length b)%nat with 1%nat by lia.
  rewrite !bool_decide_true by done. cbn [negb orb]. by rewrite take_app_length.
Qed.

(** The encodings of the three framings, in the form the reader consumes them. *)
Lemma enc_line t s :
  t ∈ [TypeSimpleString; TypeError; TypeDouble; TypeBigNumber] ->
  enc (mkValue t s 0 [] [] false) = (t :: content s) ++ CRLF.
Proof.
  intros Ht. rewrite !elem_of_cons, elem_of_nil in Ht.
  destruct Ht as [->|[->|[->|[->|[]]]]]; reflexivity.
Qed.

Lemma enc_bulk b :
  enc (mkValue TypeBulkString (Some b) 0 [] [] false)
  = (TypeBulkString :: itoa (Z.of_nat (length b))) ++ CRLF ++ b ++ CRLF.
Proof. unfold enc. cbn -[itoa]. unfold appendCRLF. cbn -[itoa]. by rewrite <- !app_assoc. Qed.

Lemma enc_agg t vs :
  t ∈ [TypeArray; TypePush; TypeSet; TypeMap] ->
  enc (mkValue t None 0 vs [] false)
  = (t :: itoa (if t ==b TypeMap then Z.of_nat (length vs) / 2 else Z.of_nat (length vs)))
    ++ CRLF ++ encs vs.
Proof.
  intros Ht. rewrite !elem_of_cons, elem_of_nil in Ht.
  destruct Ht as [->|[->|[->|[->|[]]]]]; unfold enc; cbn -[itoa Z.div fold_left];
    eval_tests; cbn -[itoa Z.div fold_left]; rewrite fold_Encode_encs;
    unfold appendCRLF; cbn -[itoa Z.div]; by rewrite <- ?app_assoc.
Qed.

Lemma reads_back_line t s :
  t ∈ [TypeSimpleString; TypeError; TypeDouble; TypeBigNumber] -> line_str_ok s = true ->
  reads_back (mkValue t s 0 [] [] false).
Proof.
  intros Ht Hs [|f] raw rest Hf; [lia|]. rewrite enc_line by done. cbn [readValue].
  rewrite !elem_of_cons, elem_of_nil in Ht.
  destruct Ht as [->|[->|[->|[->|[]]]]]; (rewrite readLine_bind; [|discriminate|auto with go]);
    eval_tests; cbn [orb]; unfold mret, reader_ret; by rewrite clone_content.
Qed.

Lemma reads_back_agg t vs :
  t ∈ [TypeArray; TypePush; TypeSet; TypeMap] -> Forall reads_back vs -> count_ok vs = true ->
  (t = TypeMap -> Nat.even (length vs) = true) ->
  reads_back (mkValue t None 0 vs [] false).
Proof.
  intros Ht Hvs Hc Hev fuel raw rest Hf. rewrite enc_agg in * by done.
  rewrite !length_app in Hf. destruct fuel as [|f]; [lia|]. cbn [readValue].
  rewrite app_assoc, gots_app, <- app_assoc. rewrite !elem_of_cons, elem_of_nil in Ht.
  destruct Ht as [->|[->|[->|[->|[]]]]];
    (rewrite readLine_bind; [|discriminate|auto with go]); eval_tests; cbn [orb];
    (erewrite readAggregate_back; [by rewrite <- !app_assoc|done|done|reflexivity| |cbn in Hf; lia]);
    [done..|by intros _; apply Hev].
Qed.

Lemma readValue_null_bulk f t raw rest :
  t ∈ [TypeBulkString; TypeArray; TypePush] ->
  readValue (S f) raw (gots (t :: B "-1" ++ CRLF) ++ rest)
  = ROk (mkValue t None 0 [] [] true) (raw ++ t :: B "-1" ++ CRLF) rest.
Proof.
  intros Ht. change (t :: B "-1" ++ CRLF) with ((t :: B "-1") ++ CRLF). cbn [readValue].
  rewrite !elem_of_cons, elem_of_nil in Ht.
  destruct Ht as [->|[->|[->|[]]]];
    (rewrite readLine_bind; [reflexivity|discriminate|by apply index_byte_None]).
Qed.

Lemma reads_back_int n : in_int64 n -> reads_back (mkValue TypeInteger None n [] [] false).
Proof.
  intros Hn [|f] raw rest Hf; [lia|].
  change (enc _) with ((TypeInteger :: itoa n) ++ CRLF). cbn [readValue].
  rewrite readLine_bind; [|discriminate|auto with go]. eval_tests. cbv iota.
  unfold mbind, reader_bind. by rewrite parseInt_itoa.
Qed.

Lemma reads_back_bulk b :
  Z.of_nat (length b) <= 512 * 1024 * 1024 ->
  reads_back (mkValue TypeBulkString (Some b) 0 [] [] false).
Proof.
  intros Hb [|f] raw rest Hf; [lia|]. rewrite enc_bulk. cbn [readValue].
  rewrite app_assoc, gots_app, <- app_assoc.
  rewrite readLine_bind; [|discriminate|auto with go]. eval_tests. cbn [orb].
  rewrite readBulk_back by done. by rewrite <- !app_assoc.
Qed.

Lemma reads_back_closed v : 
  v ∈ [mkValue TypeNull None 0 [] [] true; mkValue TypeBoolean None 0 [] [] false;
       mkValue TypeBoolean None 1 [] [] false] -> reads_back v.
Proof.
  intros Hv [|f] raw rest Hf; [lia|]. rewrite !elem_of_cons, elem_of_nil in Hv.
  destruct Hv as [->|[->|[->|[]]]]; reflexivity.
Qed.

Ltac field_zero :=
  repeat match goal with
  | H : no_str ?s = true |- _ => destruct s; [done|]; clear H
  | H : no_values ?vs = true |- _ => destruct vs; [|done]; clear H
  | H : ?n = 0 |- _ => is_var n; subst n
  | H : ?b = false |- _ => is_var b; subst b
  | H : ?b = true |- _ => is_var b; subst b
  end.

(** What [Encode] writes for a [wire_ok] value, the reader reads back. *)
Lemma wire_ok_reads_back v : wire_ok v = true -> reads_back v.
Proof.
  induction v as [t str n vs raw null IH] using value_ind'. cbn [wire_ok]. intros H.
  apply andb_true_iff in H as [Hraw H]. destruct raw; [|done]. clear Hraw.
  assert (forallb wire_ok vs = true -> Forall reads_back vs) as Hvs.
  { intros Hf. rewrite forallb_forall in Hf. rewrite List.Forall_forall in *. auto. }
  destruct (_ || _ || _ || _)%bool eqn:E0 in H.
  { rewrite !orb_true_iff, !bool_decide_eq_true in E0. bool_simp. field_zero.
    apply reads_back_line; [|done]. rewrite !elem_of_cons. tauto. }
  destruct (t ==b TypeInteger) eqn:E1; [bool_simp; field_zero; subst t; by apply reads_back_int|].
  destruct (t ==b TypeBulkString) eqn:E2.
  { bool_simp. subst t. destruct null.
    - field_zero. intros [|f] raw rest Hf; [lia|]. apply readValue_null_bulk. by left.
    - destruct str as [b|]; [|done]. bool_simp. field_zero. by apply reads_back_bulk. }
  destruct ((t ==b TypeArray) || (t ==b TypePush))%bool eqn:E3.
  { rewrite orb_true_iff, !bool_decide_eq_true in E3. bool_simp. field_zero. destruct null.
    - field_zero. intros [|f] raw rest Hf; [lia|].
      destruct E3 as [-> | ->]; apply readValue_null_bulk; rewrite !elem_of_cons; tauto.
    - bool_simp. apply reads_back_agg; [|by auto..|by destruct E3 as [-> | ->]].
      rewrite !elem_of_cons. tauto. }
  destruct (t ==b TypeSet) eqn:E4.
  { bool_simp. field_zero. subst t. apply reads_back_agg; [rewrite !elem_of_cons; tauto|by auto..]. }
  destruct (t ==b TypeMap) eqn:E5.
  { bool_simp. field_zero. subst t. apply reads_back_agg; [rewrite !elem_of_cons; tauto|by auto..]. }
  destruct (t ==b TypeNull) eqn:E6.
  { bool_simp. field_zero. subst t. apply reads_back_closed. by left. }
  destruct (t ==b TypeBoolean) eqn:E7; [|done].
  apply andb_true_iff in H as [H Hn]. bool_simp. field_zero. subst t.
  apply reads_back_closed. rewrite !elem_of_cons.
  match goal with H : _ ∨ _ |- _ => destruct H; bool_simp; subst n; tauto end.
Qed.

(** ** Panics

    Without a map or attribute header no length is doubled, and the reader cannot panic. *)

Definition no_map_header (s : stream) : Prop :=
  Forall (fun e => e ≠ Got TypeMap ∧ e ≠ Got TypeAttribute) s.

Definition never_panics {A} (m : reader A) : Prop :=
  forall raw s, no_map_header s -> m raw s ≠ RPanic.

Lemma never_panics_bind {A B} (m : reader A) (f : A -> reader B) :
  never_panics m -> consumes 0 m -> (forall a, never_panics (f a)) -> never_panics (m ≫= f).
Proof.
  intros Hm Hc Hf raw s Hs. unfold mbind, reader_bind.
  destruct (m raw s) as [a raw1 s1| | |] eqn:E; try done; [|by apply Hm in E].
  apply Hc in E as (c & -> & -> & _). apply Hf. by apply Forall_app in Hs as [_ ?].
Qed.

Lemma never_panics_ret {A} (a : A) : never_panics (mret a).
Proof. by intros raw s _. Qed.

Lemma never_panics_fail {A} e : never_panics (@rfail A e).
Proof. by intros raw s _. Qed.

Lemma parseInt_never_panics b : never_panics (parseInt b).
Proof. intros raw s _. unfold parseInt. case_if; [done|]. by destruct (parse_int b). Qed.

#[export] Hint Resolve never_panics_ret never_panics_fail parseInt_never_panics : go.

Lemma readBulk_never_panics t l : never_panics (readBulk t l).
Proof.
  apply never_panics_bind; [auto with go..|]. intros n.
  case_if; [auto with go|]. case_if; [auto with go|]. intros raw s _.
  destruct (read_full _ _ s) as [[buf r]|[e r]]; [|done]. by case_if.
Qed.

Lemma readAggregate_never_panics items t l :
  (forall c, never_panics (items c)) -> (forall c, consumes 0 (items c)) ->
  never_panics (readAggregate items t l false).
Proof.
  intros Hi Hc. apply never_panics_bind; [auto with go..|]. intros n.
  destruct (n <? 0) eqn:E; [auto with go|]. cbv zeta iota.
  destruct (1000000 <? n) eqn:E1; [auto with go|]. bool_simp.
  assert (makeslice_ok n = true) as ->.
  { unfold makeslice_ok. apply andb_true_iff; split; apply Z.leb_le; lia. }
  apply never_panics_bind; [auto with go..|]. intros; auto with go.
Qed.

Lemma readLine_never_panics raw s :
  no_map_header s ->
  match readLine raw s with
  | ROk (t :: _) _ s' => t ≠ TypeMap ∧ t ≠ TypeAttribute ∧ no_map_header s'
  | RPanic => False
  | _ => True
  end.
Proof.
  intros Hs. unfold readLine. destruct (read_slice s) as [[l r]|[e r]] eqn:E; [|done].
  apply read_slice_exact in E as ->. case_if; [done|].
  destruct l as [|c l]; [done|]. apply Forall_app in Hs as [Hl Hr].
  apply Forall_inv in Hl. destruct (take _ _) as [|t ts] eqn:T; [done|].
  assert (t = c) as -> by (destruct (length (c :: l) - 2)%nat; by simplify_eq/=).
  naive_solver.
Qed.

Lemma readValue_never_panics fuel :
  never_panics (readValue fuel) ∧ forall count, never_panics (readItems fuel count).
Proof.
  induction fuel as [|f [IHv IHi]].
  - split; [done|]. intros count raw s _. simpl. by case_if.
  - destruct (readValue_consumes f) as [Cv Ci]. split.
    + intros raw s Hs. cbn [readValue]. unfold mbind, reader_bind.
      pose proof (readLine_never_panics raw s Hs) as HL.
      destruct (readLine raw s) as [[|t rest] raw1 s1| | |]; try done.
      destruct HL as (H1 & H2 & Hs1). rewrite !(bool_decide_false (t = TypeMap)) by done.
      rewrite !(bool_decide_false (t = TypeAttribute)) by done.
      repeat case_if; try done; try (by apply readBulk_never_panics);
        [by apply (never_panics_bind (parseInt rest)
             (fun n => mret (mkValue TypeInteger None n [] [] false))); auto with go|].
      apply readAggregate_never_panics; auto with go.
    + intros count. cbn [readItems]. case_if; [auto with go|].
      apply never_panics_bind; [done|by eapply consumes_weaken; [|done]; lia|]. intros v.
      apply never_panics_bind; [done..|]. intros; auto with go.
Qed.

(** ** Fuel independence *)

Lemma ReadValue_fuel s fuel :
  (read_fuel s <= fuel)%nat -> readValue fuel [] s ≠ RFuel.
Proof.
  intros H. unfold read_fuel in H.
  destruct (readValue_total fuel) as [T _]. apply (T (length s)); lia.
Qed.

(** ** Properties of the codec *)

(** C6: round trip of the codec.  For every value within the reader's limits, reading the bytes
    [Encode] writes for it returns that value with its raw bytes cached, and leaves exactly what
    follows on the stream, whatever follows. *)
Theorem encode_readValue (v : value) (rest : stream) (H : wire_ok v = true) :
  ReadValue (gots (Encode [] v) ++ rest) = ROk (set_raw (Encode [] v) v) [] rest.
Proof.
  unfold ReadValue. rewrite (wire_ok_reads_back v H); [done|].
  unfold read_fuel. rewrite length_app. unfold gots, enc. rewrite length_map. lia.
Qed.

Lemma encode_readValue_witness :
  let v := Array [BulkString (BS "MGET"); Integer (-7); NullBulk; Array [SimpleString (B "OK")]] in
  wire_ok v = true ∧
  ReadValue (gots (Encode [] v) ++ [Deadline]) = ROk (set_raw (Encode [] v) v) [] [Deadline].
Proof. split; [vm_refl|]. apply encode_readValue. vm_refl. Defined.

(** Zero-copy forwarding.  Encoding a value that was just read writes back, byte for byte, the
    bytes that were consumed from the stream: a reply relayed by the proxy is unchanged. *)
Theorem ReadValue_exact (s : stream) (v : value) (raw : bytes) (s' : stream)
  (H : ReadValue s = ROk v raw s') :
  s = gots (Encode [] v) ++ s' ∧ Encode [] v = vRaw v.
Proof.
  unfold ReadValue in H.
  destruct (readValue (read_fuel s) [] s) as [w r t| | |] eqn:E; try done. simplify_eq.
  apply (readValue_consumes _) in E as (c & -> & -> & Hc). cbn [app].
  destruct w as [t str n vs raw0 null]. unfold set_raw. cbn.
  destruct (0 <? Z.of_nat (length c)) eqn:L; bool_simp; [done|lia].
Qed.

Lemma ReadValue_exact_witness :
  let s := gots (B ":42" ++ CRLF ++ B "+x") in
  let v := mkValue TypeInteger None 42 [] (B ":42" ++ CRLF) false in
  ReadValue s = ROk v [] (gots (B "+x")) ∧
  s = gots (Encode [] v) ++ gots (B "+x") ∧ Encode [] v = vRaw v.
Proof. split; [vm_refl|]. eapply ReadValue_exact. vm_refl. Defined.

(** C38: the reader terminates on every stream: the fuel given to the model (two units per byte) is
    never used up, so [ReadValue] always returns a value, an error or a panic. *)
Theorem ReadValue_total (s : stream) : ReadValue s ≠ RFuel.
Proof.
  unfold ReadValue. pose proof (ReadValue_fuel s (read_fuel s) ltac:(lia)) as H.
  by destruct (readValue (read_fuel s) [] s).
Qed.

(** Absence of panics on RESP2 input.  On a stream with no map or attribute header (no such
    byte at all), reading a value never panics, however malformed the input is. *)
Theorem ReadValue_no_panic (s : stream) (H : no_map_header s) : ReadValue s ≠ RPanic.
Proof.
  unfold ReadValue. pose proof (proj1 (readValue_never_panics (read_fuel s)) [] s H).
  by destruct (readValue (read_fuel s) [] s).
Qed.

Lemma ReadValue_no_panic_witness :
  no_map_header (gots (B "*-x" ++ CRLF)) ∧ ReadValue (gots (B "*-x" ++ CRLF)) ≠ RPanic.
Proof.
  assert (no_map_header (gots (B "*-x" ++ CRLF))) as H by (repeat constructor; discriminate).
  split; [exact H | exact (ReadValue_no_panic _ H)].
Defined.

(** Overflow of a map header.  [readAggregate] doubles the announced length in 64-bit
    arithmetic before checking it against the limit; for every length from 2^62 up to 2^63-1 the
    product is negative, passes the check, and [make] panics. *)
Theorem ReadValue_map_overflow_panics (n : Z) (rest : stream) (H : 2^62 <= n < 2^63) :
  ReadValue (gots (B "%" ++ itoa n ++ CRLF) ++ rest) = RPanic.
Proof.
  unfold ReadValue, read_fuel.
  set (s := gots (B "%" ++ itoa n ++ CRLF) ++ rest).
  destruct (2 * length s + 2)%nat as [|f] eqn:F; [lia|]. subst s. cbn [readValue].
  change (B "%" ++ itoa n ++ CRLF) with ((TypeMap :: itoa n) ++ CRLF).
  rewrite readLine_bind; [|discriminate|auto with go]. eval_tests. cbn [orb].
  unfold readAggregate, mbind, reader_bind. rewrite parseInt_itoa by (unfold in_int64; lia).
  destruct (n <? 0) eqn:E; bool_simp; [lia|].
  assert (wrap64 (n * 2) = n * 2 - 2^64) as ->.
  { unfold wrap64. replace (n * 2 + 2^63) with (n * 2 - 2^63 + 1 * 2^64) by lia.
    rewrite Z.mod_add, Z.mod_small by lia. lia. }
  destruct (1000000 <? _) eqn:E1; bool_simp; [lia|].
  assert (makeslice_ok (n * 2 - 2^64) = false) as ->; [|done].
  unfold makeslice_ok. apply andb_false_iff. left. apply Z.leb_gt. lia.
Qed.

Lemma ReadValue_map_overflow_panics_witness :
  2^62 <= 2^62 < 2^63 ∧ ReadValue (gots (B "%" ++ itoa (2^62) ++ CRLF) ++ []) = RPanic.
Proof. split; [lia|]. apply ReadValue_map_overflow_panics. lia. Defined.

Lemma argv_items_bulk argv :
  Forall is_Some argv -> argv_items (map BulkString argv) = inr argv.
Proof. induction 1 as [|a l [b ->] _ IH]; [done|]. cbn. by rewrite IH. Qed.

(** What servers accept: at most 1,000,000 arguments, none nil (a nil argument is sent as a null bulk
    string, which they reject), of at most 512 MiB each. *)
Definition arg_ok (a : slice) : Prop := exists b, a = Some b ∧ Z.of_nat (length b) <= 512 * 1024 * 1024.
Definition sendable (argv : list slice) : Prop := Z.of_nat (length argv) <= 1000000 ∧ Forall arg_ok argv.

Lemma sendable_sub a b :
  sendable a -> (length b <= length a)%nat -> (forall x, x ∈ b -> x ∈ a) -> sendable b.
Proof.
  intros [Hl Ha] Hb Hs. split; [lia|]. rewrite list.Forall_forall in Ha |- *. auto.
Qed.

Lemma sendable_Some argv : sendable argv -> Forall is_Some argv.
Proof. intros [_ H]. eapply list.Forall_impl; [exact H|]. intros a (b & -> & _). by exists b. Qed.

Definition sendableb (argv : list slice) : bool :=
  (Z.of_nat (length argv) <=? 1000000)
  && forallb (fun a => match a with Some b => Z.of_nat (length b) <=? 512 * 1024 * 1024 | None => false end) argv.

Lemma sendableb_ok argv : sendableb argv = true -> sendable argv.
Proof.
  unfold sendableb. intros [H1 H2]%andb_true_iff. split; [lia|]. apply List.Forall_forall.
  intros a Ha. rewrite forallb_forall in H2. apply H2 in Ha. destruct a as [b|]; [|done].
  exists b. split; [done|lia].
Qed.

Lemma command_reads_back argv rest :
  sendable argv ->
  ReadValue (gots (EncodeCommand [] argv) ++ rest)
  = ROk (set_raw (EncodeCommand [] argv) (CommandArray argv)) [] rest
  ∧ ArrayToArgv (set_raw (EncodeCommand [] argv) (CommandArray argv)) = inr argv.
Proof.
  intros Hs. pose proof Hs as [Hn Ha].
  assert (wire_ok (CommandArray argv) = true) as W.
  { cbn. eval_tests. cbn. apply andb_true_iff. split.
    - unfold count_ok. rewrite length_map. by apply Z.leb_le.
    - apply forallb_forall. intros x Hx. apply in_map_iff in Hx as (a & <- & Hin).
      rewrite List.Forall_forall in Ha. apply Ha in Hin as (b & -> & Hb). cbn. eval_tests. cbn.
      rewrite !andb_true_r. by apply Z.leb_le. }
  split.
  - unfold ReadValue. rewrite (wire_ok_reads_back _ W); [done|].
    unfold read_fuel. rewrite length_app. unfold gots, EncodeCommand, enc. rewrite length_map. lia.
  - unfold ArrayToArgv, set_raw. cbn. eval_tests. cbn. by apply argv_items_bulk, sendable_Some.
Qed.

(** Round trip of commands.  A command of at most 1,000,000 non-nil arguments of at most 512 MiB
    each, encoded by [EncodeCommand], is read back and decoded by [ArrayToArgv] as the same
    argument vector. *)
Theorem command_roundtrip (argv : list slice) (rest : stream)
  (Hn : Z.of_nat (length argv) <= 1000000)
  (Ha : Forall (fun a => exists b, a = Some b ∧ Z.of_nat (length b) <= 512 * 1024 * 1024) argv) :
  exists v, ReadValue (gots (EncodeCommand [] argv) ++ rest) = ROk v [] rest
            ∧ ArrayToArgv v = inr argv.
Proof. eexists. by apply (command_reads_back argv rest). Qed.

Lemma command_roundtrip_witness :
  exists v, ReadValue (gots (EncodeCommand [] [BS "SET"; BS "k"; Some []]) ++ []) = ROk v [] []
            ∧ ArrayToArgv v = inr [BS "SET"; BS "k"; Some []].
Proof.
  apply command_roundtrip; [vm_compute; discriminate|].
  repeat constructor; eexists; (split; [reflexivity|vm_compute; discriminate]).
Defined.

(** ** ASCII case folding *)

Lemma upper_lower c : upper_byte (lower_byte c) = upper_byte c.
Proof. destruct c; reflexivity. Qed.

Lemma lower_upper c : lower_byte (upper_byte c) = lower_byte c.
Proof. destruct c; reflexivity. Qed.

Lemma lower_eq_upper_eq a b : lower_byte a = lower_byte b <-> upper_byte a = upper_byte b.
Proof.
  split; intros H.
  - by rewrite <- upper_lower, H, upper_lower.
  - by rewrite <- lower_upper, H, lower_upper.
Qed.

Lemma EqualFoldASCII_upper a b : EqualFoldASCII a b = true <-> UpperASCII a = UpperASCII b.
Proof.
  unfold EqualFoldASCII, UpperASCII. split.
  - destruct (Nat.eqb _ _) eqn:E; [|done]. apply Nat.eqb_eq in E. cbn [negb].
    revert b E. induction a as [|c a IH]; intros [|d b] E; try done.
    cbn. case_bool_decide as H; [|done]. apply lower_eq_upper_eq in H. rewrite H.
    intros H2. f_equal. apply IH; [|done]. by injection E.
  - intros H. pose proof (f_equal length H) as E. rewrite !length_map in E.
    apply Nat.eqb_eq in E as E'. rewrite E'. cbn [negb]. clear E'. revert b H E.
    induction a as [|c a IH]; intros [|d b] H E; try done. cbn in *. injection H as H1 H2.
    apply lower_eq_upper_eq in H1. rewrite bool_decide_true by done. apply IH; [done|].
    by injection E.
Qed.

Lemma UpperASCII_idemp a : UpperASCII (UpperASCII a) = UpperASCII a.
Proof.
  unfold UpperASCII. rewrite map_map. apply map_ext. intros c. destruct c; reflexivity.
Qed.
