(* ===== verification/Slot.v ===== *)
(** * internal/cluster: CRC16, hash tags, hash slots, redirects ([crc16.go], [slot.go])

    The main results: the table-driven [crc16] is the bitwise CRC-16/XMODEM ([crc16_bitwise]);
    every key hashes into the 16384-slot space; [HashTag] is the Redis hash-tag rule; parsing a
    redirect inverts its wire form and only ever yields an in-range slot. *)

From Stdlib Require Import ZArith Lia Strings.Byte.
From stdpp Require Import base list strings numbers option.
From S2P Require Import Prelude.

(** ** crc16.go *)

Definition crc16tab : list Z :=
  [0x0000; 0x1021; 0x2042; 0x3063; 0x4084; 0x50a5; 0x60c6; 0x70e7;
   0x8108; 0x9129; 0xa14a; 0xb16b; 0xc18c; 0xd1ad; 0xe1ce; 0xf1ef;
   0x1231; 0x0210; 0x3273; 0x2252; 0x52b5; 0x4294; 0x72f7; 0x62d6;
   0x9339; 0x8318; 0xb37b; 0xa35a; 0xd3bd; 0xc39c; 0xf3ff; 0xe3de;
   0x2462; 0x3443; 0x0420; 0x1401; 0x64e6; 0x74c7; 0x44a4; 0x5485;
   0xa56a; 0xb54b; 0x8528; 0x9509; 0xe5ee; 0xf5cf; 0xc5ac; 0xd58d;
   0x3653; 0x2672; 0x1611; 0x0630; 0x76d7; 0x66f6; 0x5695; 0x46b4;
   0xb75b; 0xa77a; 0x9719; 0x8738; 0xf7df; 0xe7fe; 0xd79d; 0xc7bc;
   0x48c4; 0x58e5; 0x6886; 0x78a7; 0x0840; 0x1861; 0x2802; 0x3823;
   0xc9cc; 0xd9ed; 0xe98e; 0xf9af; 0x8948; 0x9969; 0xa90a; 0xb92b;
   0x5af5; 0x4ad4; 0x7ab7; 0x6a96; 0x1a71; 0x0a50; 0x3a33; 0x2a12;
   0xdbfd; 0xcbdc; 0xfbbf; 0xeb9e; 0x9b79; 0x8b58; 0xbb3b; 0xab1a;
   0x6ca6; 0x7c87; 0x4ce4; 0x5cc5; 0x2c22; 0x3c03; 0x0c60; 0x1c41;
   0xedae; 0xfd8f; 0xcdec; 0xddcd; 0xad2a; 0xbd0b; 0x8d68; 0x9d49;
   0x7e97; 0x6eb6; 0x5ed5; 0x4ef4; 0x3e13; 0x2e32; 0x1e51; 0x0e70;
   0xff9f; 0xefbe; 0xdfdd; 0xcffc; 0xbf1b; 0xaf3a; 0x9f59; 0x8f78;
   0x9188; 0x81a9; 0xb1ca; 0xa1eb; 0xd10c; 0xc12d; 0xf14e; 0xe16f;
   0x1080; 0x00a1; 0x30c2; 0x20e3; 0x5004; 0x4025; 0x7046; 0x6067;
   0x83b9; 0x9398; 0xa3fb; 0xb3da; 0xc33d; 0xd31c; 0xe37f; 0xf35e;
   0x02b1; 0x1290; 0x22f3; 0x32d2; 0x4235; 0x5214; 0x6277; 0x7256;
   0xb5ea; 0xa5cb; 0x95a8; 0x8589; 0xf56e; 0xe54f; 0xd52c; 0xc50d;
   0x34e2; 0x24c3; 0x14a0; 0x0481; 0x7466; 0x6447; 0x5424; 0x4405;
   0xa7db; 0xb7fa; 0x8799; 0x97b8; 0xe75f; 0xf77e; 0xc71d; 0xd73c;
   0x26d3; 0x36f2; 0x0691; 0x16b0; 0x6657; 0x7676; 0x4615; 0x5634;
   0xd94c; 0xc96d; 0xf90e; 0xe92f; 0x99c8; 0x89e9; 0xb98a; 0xa9ab;
   0x5844; 0x4865; 0x7806; 0x6827; 0x18c0; 0x08e1; 0x3882; 0x28a3;
   0xcb7d; 0xdb5c; 0xeb3f; 0xfb1e; 0x8bf9; 0x9bd8; 0xabbb; 0xbb9a;
   0x4a75; 0x5a54; 0x6a37; 0x7a16; 0x0af1; 0x1ad0; 0x2ab3; 0x3a92;
   0xfd2e; 0xed0f; 0xdd6c; 0xcd4d; 0xbdaa; 0xad8b; 0x9de8; 0x8dc9;
   0x7c26; 0x6c07; 0x5c64; 0x4c45; 0x3ca2; 0x2c83; 0x1ce0; 0x0cc1;
   0xef1f; 0xff3e; 0xcf5d; 0xdf7c; 0xaf9b; 0xbfba; 0x8fd9; 0x9ff8;
   0x6e17; 0x7e36; 0x4e55; 0x5e74; 0x2e93; 0x3eb2; 0x0ed1; 0x1ef0].

Definition crc16_step (crc : Z) (c : byte) : Z :=
  Z.lxor (uint16 (Z.shiftl crc 8))
         (nth (Z.to_nat (Z.land (Z.lxor (Z.shiftr crc 8) (b2z c)) 0x00FF)) crc16tab 0).

Definition crc16 (b : bytes) : Z := fold_left crc16_step b 0.

Definition slotMask : Z := 0x3FFF.
Definition SlotCount : Z := 16384.

(** ** slot.go *)

(** The first occurrence of [open], then the first [close] after it. *)
Definition HashTag (key : bytes) (open close : byte) : bytes :=
  match index_byte key open with
  | None => key
  | Some start =>
      match index_byte (drop (S start) key) close with
      | None => key
      | Some O => key
      | Some i => take i (drop (S start) key)
      end
  end.

Definition KeySlot (key : bytes) (open close : byte) : Z :=
  Z.land (crc16 (HashTag key open close)) slotMask.

Record Redirect := mkRedirect {
  rKind : bytes;
  rSlot : Z;
  rAddr : bytes
}.

Fixpoint atoi16_go (n : Z) (b : bytes) : option Z :=
  match b with
  | [] => Some n
  | c :: b' =>
      if negb (is_digit c) then None
      else let n := n * 10 + digit_val c in
           if SlotCount <=? n then None else atoi16_go n b'
  end.

Definition atoi16 (b : bytes) : option Z :=
  match b with
  | [] => None
  | _ => n ← atoi16_go 0 b; Some (uint16 n)
  end.

(** The scans stop at the first space; [None] from [index_byte] is the scan reaching the end. *)
Definition ParseRedirect (payload : bytes) : option Redirect :=
  match index_byte payload " "%byte with
  | None | Some O => None
  | Some i =>
      let kind := take i payload in
      if negb (str_in kind ["MOVED"; "ASK"]) then None
      else
        let rest := drop (S i) payload in
        match index_byte rest " "%byte with
        | None | Some O => None
        | Some j =>
            match atoi16 (take j rest) with
            | None => None
            | Some slot =>
                if SlotCount <=? slot then None
                else match drop (S j) rest with
                     | [] => None
                     | addr => Some (mkRedirect kind slot addr)
                     end
            end
        end
  end.

(** The last position of a colon. *)
Definition lastColon (s : bytes) : option nat :=
  k ← index_byte (rev s) ":"%byte; Some (length s - 1 - k)%nat.

Definition SplitHostPort (addr : bytes) : option (bytes * bytes) :=
  match lastColon addr with
  | None | Some O => None
  | Some i => if Nat.eqb i (length addr - 1) then None
              else Some (take i addr, drop (S i) addr)
  end.

(** ** Reference CRC

    CRC-16/XMODEM bit by bit: polynomial 0x1021, initial value 0, most significant bit first. *)

Definition crc_bit (r : Z) : Z :=
  if Z.testbit r 15 then Z.lxor (uint16 (Z.shiftl r 1)) 0x1021 else uint16 (Z.shiftl r 1).

Definition crc_byte (r : Z) (c : byte) : Z :=
  Nat.iter 8 crc_bit (Z.lxor r (Z.shiftl (b2z c) 8)).

Definition crc16_ref (b : bytes) : Z := fold_left crc_byte b 0.

Example crc16_check : crc16 (B "123456789") = 0x31C3.
Proof. vm_refl. Qed.

(** ** Bit-level lemmas *)

Definition u16 (z : Z) : Prop := 0 <= z < 2^16.

Lemma uint16_bits z i : 0 <= i -> Z.testbit (uint16 z) i = (i <? 16) && Z.testbit z i.
Proof.
  intros Hi. unfold uint16. destruct (i <? 16) eqn:E; bool_simp; cbn [andb].
  - apply Z.mod_pow2_bits_low. lia.
  - apply Z.mod_pow2_bits_high. lia.
Qed.

Lemma u16_bits_high z i : u16 z -> 16 <= i -> Z.testbit z i = false.
Proof.
  intros Hz Hi. rewrite <- (Z.mod_small z (2^16)) by exact Hz.
  apply Z.mod_pow2_bits_high. lia.
Qed.

Lemma uint16_u16 z : u16 (uint16 z).
Proof. apply Z.mod_pos_bound. lia. Qed.

Lemma uint16_id z : u16 z -> uint16 z = z.
Proof. apply Z.mod_small. Qed.

Lemma lxor_u16 a b : u16 a -> u16 b -> u16 (Z.lxor a b).
Proof.
  intros Ha Hb. assert (uint16 (Z.lxor a b) = Z.lxor a b) as <-; [|apply uint16_u16].
  apply Z.bits_inj'. intros i Hi. rewrite uint16_bits, Z.lxor_spec by done.
  destruct (i <? 16) eqn:E; bool_simp; [done|].
  by rewrite (u16_bits_high a), (u16_bits_high b).
Qed.

Lemma uint16_lxor a b : uint16 (Z.lxor a b) = Z.lxor (uint16 a) (uint16 b).
Proof.
  apply Z.bits_inj'. intros i Hi. rewrite Z.lxor_spec, !uint16_bits, Z.lxor_spec by done.
  by destruct (i <? 16).
Qed.

(** The bitwise register update is linear over exclusive or. *)
Lemma crc_bit_lxor a b : crc_bit (Z.lxor a b) = Z.lxor (crc_bit a) (crc_bit b).
Proof.
  unfold crc_bit. rewrite Z.lxor_spec, Z.shiftl_lxor, uint16_lxor.
  set (x := uint16 (Z.shiftl a 1)). set (y := uint16 (Z.shiftl b 1)).
  destruct (Z.testbit a 15), (Z.testbit b 15); cbn [xorb];
    apply Z.bits_inj'; intros i Hi; rewrite !Z.lxor_spec;
    by destruct (Z.testbit x i), (Z.testbit y i), (Z.testbit 4129 i).
Qed.

Lemma crc_iter_lxor n a b :
  Nat.iter n crc_bit (Z.lxor a b) = Z.lxor (Nat.iter n crc_bit a) (Nat.iter n crc_bit b).
Proof. induction n as [|n IH]; [done|]. rewrite !Nat.iter_succ. by rewrite IH, crc_bit_lxor. Qed.

(** All values below 256, and a bounded check over them. *)
Definition below_256 : list Z := map Z.of_nat (seq 0 256).

Lemma below_256_spec (P : Z -> bool) :
  forallb P below_256 = true -> forall z, 0 <= z < 256 -> P z = true.
Proof.
  intros H z Hz. rewrite forallb_forall in H. apply H. unfold below_256.
  apply in_map_iff. exists (Z.to_nat z). split; [lia|]. apply in_seq. lia.
Qed.

(** The table entry of [h] is eight register updates from [h << 8]: checked for all 256. *)
Lemma crc16tab_correct h :
  0 <= h < 256 -> Nat.iter 8 crc_bit (Z.shiftl h 8) = nth (Z.to_nat h) crc16tab 0.
Proof.
  intros Hh. apply Z.eqb_eq.
  apply (below_256_spec (fun h => Nat.iter 8 crc_bit (Z.shiftl h 8)
                                  =? nth (Z.to_nat h) crc16tab 0)); [vm_refl|done].
Qed.

(** A low byte is only shifted. *)
Lemma crc_iter_low l : 0 <= l < 256 -> Nat.iter 8 crc_bit l = Z.shiftl l 8.
Proof.
  intros Hl. apply Z.eqb_eq.
  apply (below_256_spec (fun l => Nat.iter 8 crc_bit l =? Z.shiftl l 8)); [vm_refl|done].
Qed.

Lemma crc16tab_u16 h : 0 <= h < 256 -> u16 (nth (Z.to_nat h) crc16tab 0).
Proof.
  intros Hh.
  pose proof (below_256_spec (fun h => let t := nth (Z.to_nat h) crc16tab 0 in
                                       (0 <=? t) && (t <? 2^16)) ltac:(vm_refl) h Hh) as G.
  cbn beta zeta in G. unfold u16. bool_simp. lia.
Qed.

Lemma crc16_index r c : u16 r ->
  Z.land (Z.lxor (Z.shiftr r 8) (b2z c)) 0x00FF = Z.lxor (Z.shiftr r 8) (b2z c)
  ∧ 0 <= Z.lxor (Z.shiftr r 8) (b2z c) < 256.
Proof.
  intros Hr. set (x := Z.lxor _ _). change 0x00FF with (Z.ones 8).
  assert (Z.land x (Z.ones 8) = x) as E.
  { subst x. apply Z.bits_inj'. intros i Hi. rewrite Z.land_spec, Z.testbit_ones_nonneg by lia.
    destruct (i <? 8) eqn:E; [by rewrite andb_true_r|]. bool_simp. rewrite andb_false_r.
    rewrite Z.lxor_spec, Z.shiftr_spec, (u16_bits_high r) by (done || lia).
    rewrite <- (Z.mod_small (b2z c) (2^8)) by apply b2z_range.
    by rewrite Z.mod_pow2_bits_high by lia. }
  split; [exact E|]. rewrite <- E, Z.land_ones by lia. apply Z.mod_pos_bound. lia.
Qed.

(** One table step is one bitwise step. *)
Lemma crc16_step_ref r c : u16 r -> crc16_step r c = crc_byte r c ∧ u16 (crc16_step r c).
Proof.
  intros Hr. destruct (crc16_index r c Hr) as [E Hx]. unfold crc16_step. rewrite E. split.
  2: { apply lxor_u16; [apply uint16_u16 | by apply crc16tab_u16]. }
  unfold crc_byte. set (h := Z.lxor (Z.shiftr r 8) (b2z c)) in *.
  assert (Z.lxor r (Z.shiftl (b2z c) 8) = Z.lxor (Z.shiftl h 8) (Z.land r 255)) as ->.
  { subst h. apply Z.bits_inj'. intros i Hi. change 255 with (Z.ones 8).
    rewrite !Z.lxor_spec, Z.land_spec, Z.testbit_ones_nonneg by lia.
    destruct (i <? 8) eqn:L; bool_simp.
    - rewrite !Z.shiftl_spec_low by lia. rewrite andb_true_r. by destruct (Z.testbit r i).
    - rewrite !Z.shiftl_spec, Z.lxor_spec, Z.shiftr_spec by lia.
      replace (i - 8 + 8) with i by lia. by rewrite andb_false_r, xorb_false_r. }
  rewrite crc_iter_lxor, crc16tab_correct by done.
  assert (0 <= Z.land r 255 < 256) as Hl.
  { change 255 with (Z.ones 8). rewrite Z.land_ones by lia. apply Z.mod_pos_bound. lia. }
  rewrite crc_iter_low by done. rewrite Z.lxor_comm. f_equal.
  apply Z.bits_inj'. intros i Hi. rewrite uint16_bits by done. change 255 with (Z.ones 8).
  destruct (i <? 8) eqn:L; bool_simp.
  - rewrite !Z.shiftl_spec_low by lia. by rewrite andb_false_r.
  - rewrite !Z.shiftl_spec, Z.land_spec, Z.testbit_ones_nonneg by lia.
    rewrite andb_comm. f_equal. apply eq_iff_eq_true. rewrite !Z.ltb_lt. lia.
Qed.

Lemma crc16_fold b r : u16 r ->
  fold_left crc16_step b r = fold_left crc_byte b r ∧ u16 (fold_left crc16_step b r).
Proof.
  revert r. induction b as [|c b IH]; intros r Hr; [done|]. cbn [fold_left].
  destruct (crc16_step_ref r c Hr) as [<- Hu]. by apply IH.
Qed.

(** ** Hash tags, slots and redirects *)

(** [tag] is the hash tag of [key]: the text between the first [op] and the first [cl] after it,
    when it is not empty. *)
Definition tagged (op cl : byte) (key tag : bytes) : Prop :=
  exists pre post, key = pre ++ op :: tag ++ cl :: post ∧ (op ∉ pre) ∧ (cl ∉ tag) ∧ tag ≠ [].

Lemma drop_S_app {A} (pre : list A) x l : drop (S (length pre)) (pre ++ x :: l) = l.
Proof. by rewrite cons_middle, app_assoc, drop_app_length' by (rewrite length_app; simpl; lia). Qed.

Lemma HashTag_tagged op cl key tag : tagged op cl key tag -> HashTag key op cl = tag.
Proof.
  intros (pre & post & -> & Hpre & Htag & Hne). unfold HashTag.
  rewrite (proj2 (index_byte_Some _ op (length pre))) by eauto.
  rewrite drop_S_app, (proj2 (index_byte_Some _ cl (length tag))) by eauto.
  destruct tag as [|c tag]; [done|]. cbn [length]. cbn [take app]. by rewrite take_app_length.
Qed.

Lemma HashTag_untagged op cl key :
  (forall tag, ~ tagged op cl key tag) -> HashTag key op cl = key.
Proof.
  intros H. unfold HashTag. destruct (index_byte key op) as [st|] eqn:E; [|done].
  apply index_byte_Some in E as (pre & l & -> & <- & Hpre). rewrite drop_S_app.
  destruct (index_byte l cl) as [[|j]|] eqn:F; try done.
  apply index_byte_Some in F as (tag & post & -> & Hl & Htag). exfalso.
  apply (H tag). exists pre, post. split_and!; [done..|]. by intros ->.
Qed.

Lemma KeySlot_range key op cl : 0 <= KeySlot key op cl < SlotCount.
Proof.
  unfold KeySlot, slotMask, SlotCount. change 0x3FFF with (Z.ones 14).
  rewrite Z.land_ones by lia. apply Z.mod_pos_bound. lia.
Qed.

Lemma atoi16_go_spec l n m :
  0 <= n < SlotCount ->
  atoi16_go n l = Some m <-> horner n l = Some m ∧ m < SlotCount.
Proof.
  unfold SlotCount. revert n. induction l as [|c l IH]; intros n Hn; simpl.
  - split; [intros ?; simplify_eq; split; [done|lia] | by intros [? _]].
  - destruct (is_digit c) eqn:D; cbn [negb]; [|split; [done | by intros [? _]]].
    unfold is_digit in D. bool_simp. set (n' := n * 10 + digit_val c).
    assert (0 <= n') by (subst n'; unfold digit_val; lia). unfold SlotCount.
    destruct (16384 <=? n') eqn:E; bool_simp; [|apply IH; lia].
    split; [done|]. intros [H' Hm]. apply horner_ge in H'; lia.
Qed.

Lemma atoi16_spec l m : atoi16 l = Some m <-> parse_uint l = Some m ∧ m < SlotCount.
Proof.
  unfold atoi16, parse_uint. destruct l as [|c l]; [split; [done | by intros [? _]]|].
  rewrite <- atoi16_go_spec by (unfold SlotCount; lia).
  destruct (atoi16_go 0 (c :: l)) as [k|] eqn:E; simpl; [|done].
  apply atoi16_go_spec in E as [E Hk]; [|unfold SlotCount; lia].
  apply horner_ge in E; [|lia]. unfold uint16. rewrite Z.mod_small; [done|].
  unfold SlotCount in Hk. lia.
Qed.

Lemma parse_uint_no_space l m : parse_uint l = Some m -> (" "%byte ∉ l) ∧ l ≠ [].
Proof.
  unfold parse_uint. destruct l as [|c l]; [done|]. intros H. split; [|done].
  apply horner_digits_only in H. rewrite list.Forall_forall in H. intros Hin.
  apply H in Hin. vm_compute in Hin. done.
Qed.

Lemma index_byte_app pre c post : c ∉ pre -> index_byte (pre ++ c :: post) c = Some (length pre).
Proof. intros. apply index_byte_Some. eauto. Qed.

Lemma ParseRedirect_build kind d slot addr :
  str_in kind ["MOVED"; "ASK"] = true -> parse_uint d = Some slot -> slot < SlotCount ->
  addr ≠ [] ->
  ParseRedirect (kind ++ " "%byte :: d ++ " "%byte :: addr) = Some (mkRedirect kind slot addr).
Proof.
  intros Hk Hd Hs Ha. destruct (parse_uint_no_space _ _ Hd) as [Hsp Hne].
  assert ((" "%byte ∉ kind) ∧ kind ≠ []) as [Hks Hkn].
  { apply str_in_true in Hk as (l & Hin & ->).
    destruct Hin as [<-|[<-|[]]]; (split; [by apply index_byte_None | done]). }
  unfold ParseRedirect. rewrite index_byte_app by done.
  destruct (length kind) as [|n] eqn:Hl; [by destruct kind|]. rewrite <- Hl.
  rewrite take_app_length, Hk, drop_S_app, index_byte_app by done. cbn [negb].
  destruct (length d) as [|m] eqn:Hl2; [by destruct d|]. rewrite <- Hl2.
  rewrite take_app_length, drop_S_app.
  rewrite (proj2 (atoi16_spec d slot)) by done.
  destruct (SlotCount <=? slot) eqn:E; bool_simp; [lia|]. by destruct addr.
Qed.

Lemma ParseRedirect_inv p r :
  ParseRedirect p = Some r ->
  exists d, p = rKind r ++ " "%byte :: d ++ " "%byte :: rAddr r
    ∧ str_in (rKind r) ["MOVED"; "ASK"] = true ∧ parse_uint d = Some (rSlot r)
    ∧ 0 <= rSlot r < SlotCount ∧ rAddr r ≠ [].
Proof.
  unfold ParseRedirect. intros H.
  destruct (index_byte p _) as [[|i]|] eqn:E; [done| |done].
  apply index_byte_Some in E as (kind & rest & -> & Hl & _). rewrite <- Hl in H.
  rewrite take_app_length, drop_S_app in H.
  destruct (str_in kind _) eqn:Hk; [|done]. cbn [negb] in H.
  destruct (index_byte rest _) as [[|j]|] eqn:F; [done| |done].
  apply index_byte_Some in F as (d & addr & -> & Hl2 & _). rewrite <- Hl2 in H.
  rewrite take_app_length, drop_S_app in H.
  destruct (atoi16 d) as [slot|] eqn:G; [|done]. apply atoi16_spec in G as [G Hs].
  destruct (SlotCount <=? slot) eqn:E; [done|]. bool_simp. destruct addr as [|a l]; [done|].
  simplify_eq. exists d. cbn. apply parse_uint_nonneg in G as G'. split_and!; done || lia.
Qed.

(** ** Properties *)

(** C20: the table-driven [crc16] computes CRC-16/XMODEM (polynomial 0x1021, initial value 0) of
    every byte string, as defined bit by bit by [crc16_ref]; the slot of a key is therefore
    the one Redis Cluster computes. *)
Theorem crc16_bitwise (b : bytes) : crc16 b = crc16_ref b.
Proof. apply crc16_fold. unfold u16. lia. Qed.

(** C21: [HashTag] is the Redis hash-tag rule, for every pair of delimiters: the non-empty text
    between the first opening delimiter and the first closing delimiter after it, and the whole
    key when there is none.  Two keys with the same tag therefore have the same slot, and every
    slot is in range. *)
Theorem HashTag_spec (op cl : byte) (key : bytes) :
  (forall tag, tagged op cl key tag -> HashTag key op cl = tag
    ∧ forall key', tagged op cl key' tag -> KeySlot key' op cl = KeySlot key op cl)
  ∧ ((forall tag, ~ tagged op cl key tag) -> HashTag key op cl = key)
  ∧ 0 <= KeySlot key op cl < SlotCount.
Proof.
  split_and!.
  - intros tag Ht. split; [by apply HashTag_tagged|]. intros key' Ht'.
    unfold KeySlot. by rewrite (HashTag_tagged _ _ _ _ Ht), (HashTag_tagged _ _ _ _ Ht').
  - apply HashTag_untagged.
  - apply KeySlot_range.
  - apply KeySlot_range.
Qed.

(** [ParseRedirect] accepts exactly the payloads "KIND slot addr" with KIND one of MOVED and
    ASK, a decimal slot below 16384 and a non-empty address, and returns those parts; in
    particular the slot it returns always indexes the slot table. *)
Theorem ParseRedirect_spec (p : bytes) (r : Redirect) :
  ParseRedirect p = Some r <->
  exists d, p = rKind r ++ B " " ++ d ++ B " " ++ rAddr r
    ∧ str_in (rKind r) ["MOVED"; "ASK"] = true
    ∧ parse_uint d = Some (rSlot r) ∧ 0 <= rSlot r < SlotCount ∧ rAddr r ≠ [].
Proof.
  split; [apply ParseRedirect_inv|]. destruct r as [kind slot addr]. cbn.
  intros (d & -> & Hk & Hd & [_ Hs] & Ha). by apply ParseRedirect_build.
Qed.

(** Splitting a joined host and port gives them back when the port has no colon (the host may:
    IPv6 addresses split at the last colon). *)
Lemma SplitHostPort_join host port :
  host ≠ [] -> port ≠ [] -> ":"%byte ∉ port ->
  SplitHostPort (host ++ ":"%byte :: port) = Some (host, port).
Proof.
  intros Hh Hp Hc. unfold SplitHostPort, lastColon.
  rewrite rev_app_distr. cbn [rev]. rewrite <- app_assoc. cbn [app].
  rewrite index_byte_app.
  2: { rewrite list_elem_of_In, <- in_rev, <- list_elem_of_In. done. }
  cbn [mbind option_bind]. rewrite length_rev, length_app. cbn [length].
  replace (length host + S (length port) - 1 - length port)%nat with (length host) by lia.
  destruct (length host) as [|n] eqn:E; [by destruct host|].
  destruct (Nat.eqb _ _) eqn:F.
  { apply Nat.eqb_eq in F. destruct port; [done|]. cbn [length] in F. lia. }
  rewrite <- E, take_app_length, drop_S_app. done.
Qed.
