(* ===== verification/Command.v ===== *)
(** * internal/command: command metadata, key extraction, classification
    ([command.go], [table.go])

    [table] is the literal command table, one definition per section of [table.go].
    [KeyIndexes] finds the argument positions that hold keys.  Its result is an [outcome] because
    one of its branches can panic: [numkeysIdx] adds a client-supplied count to an index in 64-bit
    arithmetic.  The main results: the positions are in range and strictly increasing
    ([KeyIndexes_ok]), and a panic happens exactly on such an overflow ([KeyIndexes_panics_iff]). *)

From Stdlib Require Import ZArith Lia Strings.Byte Sorted.
From stdpp Require Import base list strings numbers option.
From S2P Require Import Prelude Resp RespTheory.

(** ** Metadata *)

Inductive Kind :=
| KindUnknown | KindRead | KindWrite | KindBlock | KindPubSub
| KindTxn | KindScript | KindConnection | KindAdmin.

Inductive Fanout := FanoutNone | FanoutSum | FanoutMGet | FanoutMSet.

#[global] Instance Kind_eq_dec : EqDecision Kind.
Proof. solve_decision. Defined.

#[global] Instance Fanout_eq_dec : EqDecision Fanout.
Proof. solve_decision. Defined.

Record KeySpec := mkKeySpec { ksFirst : Z; ksLast : Z; ksStep : Z }.

Record Meta := mkMeta {
  mName : string;
  mKind : Kind;
  mKeys : KeySpec;
  mFanout : Fanout
}.

(** ** table.go *)

Definition spec (first last step : Z) : KeySpec := mkKeySpec first last step.
Definition noKeys : KeySpec := mkKeySpec 0 0 0.
Definition entry (key name : string) (k : Kind) (s : KeySpec) (f : Fanout) : string * Meta :=
  (key, mkMeta name k s f).

Definition table_strings : list (string * Meta) :=
  [entry "GET" "GET" KindRead (spec 1 1 1) FanoutNone;
   entry "SET" "SET" KindWrite (spec 1 1 1) FanoutNone;
   entry "SETNX" "SETNX" KindWrite (spec 1 1 1) FanoutNone;
   entry "SETEX" "SETEX" KindWrite (spec 1 1 1) FanoutNone;
   entry "PSETEX" "PSETEX" KindWrite (spec 1 1 1) FanoutNone;
   entry "GETSET" "GETSET" KindWrite (spec 1 1 1) FanoutNone;
   entry "GETDEL" "GETDEL" KindWrite (spec 1 1 1) FanoutNone;
   entry "GETEX" "GETEX" KindWrite (spec 1 1 1) FanoutNone;
   entry "MGET" "MGET" KindRead (spec 1 (-1) 1) FanoutMGet;
   entry "MSET" "MSET" KindWrite (spec 1 (-1) 2) FanoutMSet;
   entry "MSETNX" "MSETNX" KindWrite (spec 1 (-1) 2) FanoutNone;
   entry "APPEND" "APPEND" KindWrite (spec 1 1 1) FanoutNone;
   entry "STRLEN" "STRLEN" KindRead (spec 1 1 1) FanoutNone;
   entry "INCR" "INCR" KindWrite (spec 1 1 1) FanoutNone;
   entry "DECR" "DECR" KindWrite (spec 1 1 1) FanoutNone;
   entry "INCRBY" "INCRBY" KindWrite (spec 1 1 1) FanoutNone;
   entry "DECRBY" "DECRBY" KindWrite (spec 1 1 1) FanoutNone;
   entry "INCRBYFLOAT" "INCRBYFLOAT" KindWrite (spec 1 1 1) FanoutNone;
   entry "GETRANGE" "GETRANGE" KindRead (spec 1 1 1) FanoutNone;
   entry "SETRANGE" "SETRANGE" KindWrite (spec 1 1 1) FanoutNone;
   entry "SETBIT" "SETBIT" KindWrite (spec 1 1 1) FanoutNone;
   entry "GETBIT" "GETBIT" KindRead (spec 1 1 1) FanoutNone;
   entry "BITCOUNT" "BITCOUNT" KindRead (spec 1 1 1) FanoutNone;
   entry "BITPOS" "BITPOS" KindRead (spec 1 1 1) FanoutNone;
   entry "BITOP" "BITOP" KindWrite (spec 2 (-1) 1) FanoutNone;
   entry "BITFIELD" "BITFIELD" KindWrite (spec 1 1 1) FanoutNone;
   entry "SUBSTR" "SUBSTR" KindRead (spec 1 1 1) FanoutNone].

Definition table_keys : list (string * Meta) :=
  [entry "DEL" "DEL" KindWrite (spec 1 (-1) 1) FanoutSum;
   entry "UNLINK" "UNLINK" KindWrite (spec 1 (-1) 1) FanoutSum;
   entry "EXISTS" "EXISTS" KindRead (spec 1 (-1) 1) FanoutSum;
   entry "EXPIRE" "EXPIRE" KindWrite (spec 1 1 1) FanoutNone;
   entry "EXPIREAT" "EXPIREAT" KindWrite (spec 1 1 1) FanoutNone;
   entry "PEXPIRE" "PEXPIRE" KindWrite (spec 1 1 1) FanoutNone;
   entry "PEXPIREAT" "PEXPIREAT" KindWrite (spec 1 1 1) FanoutNone;
   entry "TTL" "TTL" KindRead (spec 1 1 1) FanoutNone;
   entry "PTTL" "PTTL" KindRead (spec 1 1 1) FanoutNone;
   entry "TYPE" "TYPE" KindRead (spec 1 1 1) FanoutNone;
   entry "PERSIST" "PERSIST" KindWrite (spec 1 1 1) FanoutNone;
   entry "RENAME" "RENAME" KindWrite (spec 1 2 1) FanoutNone;
   entry "RENAMENX" "RENAMENX" KindWrite (spec 1 2 1) FanoutNone;
   entry "DUMP" "DUMP" KindRead (spec 1 1 1) FanoutNone;
   entry "RESTORE" "RESTORE" KindWrite (spec 1 1 1) FanoutNone;
   entry "TOUCH" "TOUCH" KindWrite (spec 1 (-1) 1) FanoutSum;
   entry "COPY" "COPY" KindWrite (spec 1 2 1) FanoutNone;
   entry "MOVE" "MOVE" KindWrite (spec 1 1 1) FanoutNone;
   entry "OBJECT" "OBJECT" KindRead (spec 2 2 1) FanoutNone;
   entry "EXPIRETIME" "EXPIRETIME" KindRead (spec 1 1 1) FanoutNone;
   entry "PEXPIRETIME" "PEXPIRETIME" KindRead (spec 1 1 1) FanoutNone].

Definition table_hashes : list (string * Meta) :=
  [entry "HGET" "HGET" KindRead (spec 1 1 1) FanoutNone;
   entry "HSET" "HSET" KindWrite (spec 1 1 1) FanoutNone;
   entry "HSETNX" "HSETNX" KindWrite (spec 1 1 1) FanoutNone;
   entry "HMGET" "HMGET" KindRead (spec 1 1 1) FanoutNone;
   entry "HMSET" "HMSET" KindWrite (spec 1 1 1) FanoutNone;
   entry "HDEL" "HDEL" KindWrite (spec 1 1 1) FanoutNone;
   entry "HEXISTS" "HEXISTS" KindRead (spec 1 1 1) FanoutNone;
   entry "HGETALL" "HGETALL" KindRead (spec 1 1 1) FanoutNone;
   entry "HINCRBY" "HINCRBY" KindWrite (spec 1 1 1) FanoutNone;
   entry "HINCRBYFLOAT" "HINCRBYFLOAT" KindWrite (spec 1 1 1) FanoutNone;
   entry "HKEYS" "HKEYS" KindRead (spec 1 1 1) FanoutNone;
   entry "HVALS" "HVALS" KindRead (spec 1 1 1) FanoutNone;
   entry "HLEN" "HLEN" KindRead (spec 1 1 1) FanoutNone;
   entry "HSCAN" "HSCAN" KindRead (spec 1 1 1) FanoutNone;
   entry "HSTRLEN" "HSTRLEN" KindRead (spec 1 1 1) FanoutNone;
   entry "HRANDFIELD" "HRANDFIELD" KindRead (spec 1 1 1) FanoutNone].

Definition table_lists : list (string * Meta) :=
  [entry "LPUSH" "LPUSH" KindWrite (spec 1 1 1) FanoutNone;
   entry "RPUSH" "RPUSH" KindWrite (spec 1 1 1) FanoutNone;
   entry "LPUSHX" "LPUSHX" KindWrite (spec 1 1 1) FanoutNone;
   entry "RPUSHX" "RPUSHX" KindWrite (spec 1 1 1) FanoutNone;
   entry "LPOP" "LPOP" KindWrite (spec 1 1 1) FanoutNone;
   entry "RPOP" "RPOP" KindWrite (spec 1 1 1) FanoutNone;
   entry "LLEN" "LLEN" KindRead (spec 1 1 1) FanoutNone;
   entry "LINDEX" "LINDEX" KindRead (spec 1 1 1) FanoutNone;
   entry "LRANGE" "LRANGE" KindRead (spec 1 1 1) FanoutNone;
   entry "LSET" "LSET" KindWrite (spec 1 1 1) FanoutNone;
   entry "LTRIM" "LTRIM" KindWrite (spec 1 1 1) FanoutNone;
   entry "LREM" "LREM" KindWrite (spec 1 1 1) FanoutNone;
   entry "LINSERT" "LINSERT" KindWrite (spec 1 1 1) FanoutNone;
   entry "LMOVE" "LMOVE" KindWrite (spec 1 2 1) FanoutNone;
   entry "RPOPLPUSH" "RPOPLPUSH" KindWrite (spec 1 2 1) FanoutNone;
   entry "LMPOP" "LMPOP" KindWrite noKeys FanoutNone;
   entry "BLPOP" "BLPOP" KindBlock (spec 1 (-2) 1) FanoutNone;
   entry "BRPOP" "BRPOP" KindBlock (spec 1 (-2) 1) FanoutNone;
   entry "BRPOPLPUSH" "BRPOPLPUSH" KindBlock (spec 1 2 1) FanoutNone;
   entry "BLMOVE" "BLMOVE" KindBlock (spec 1 2 1) FanoutNone;
   entry "BLMPOP" "BLMPOP" KindBlock noKeys FanoutNone;
   entry "LPOS" "LPOS" KindRead (spec 1 1 1) FanoutNone].

Definition table_sets : list (string * Meta) :=
  [entry "SADD" "SADD" KindWrite (spec 1 1 1) FanoutNone;
   entry "SREM" "SREM" KindWrite (spec 1 1 1) FanoutNone;
   entry "SMEMBERS" "SMEMBERS" KindRead (spec 1 1 1) FanoutNone;
   entry "SISMEMBER" "SISMEMBER" KindRead (spec 1 1 1) FanoutNone;
   entry "SMISMEMBER" "SMISMEMBER" KindRead (spec 1 1 1) FanoutNone;
   entry "SCARD" "SCARD" KindRead (spec 1 1 1) FanoutNone;
   entry "SPOP" "SPOP" KindWrite (spec 1 1 1) FanoutNone;
   entry "SRANDMEMBER" "SRANDMEMBER" KindRead (spec 1 1 1) FanoutNone;
   entry "SMOVE" "SMOVE" KindWrite (spec 1 2 1) FanoutNone;
   entry "SINTER" "SINTER" KindRead (spec 1 (-1) 1) FanoutNone;
   entry "SINTERSTORE" "SINTERSTORE" KindWrite (spec 1 (-1) 1) FanoutNone;
   entry "SUNION" "SUNION" KindRead (spec 1 (-1) 1) FanoutNone;
   entry "SUNIONSTORE" "SUNIONSTORE" KindWrite (spec 1 (-1) 1) FanoutNone;
   entry "SDIFF" "SDIFF" KindRead (spec 1 (-1) 1) FanoutNone;
   entry "SDIFFSTORE" "SDIFFSTORE" KindWrite (spec 1 (-1) 1) FanoutNone;
   entry "SSCAN" "SSCAN" KindRead (spec 1 1 1) FanoutNone;
   entry "SINTERCARD" "SINTERCARD" KindRead noKeys FanoutNone].

Definition table_zsets : list (string * Meta) :=
  [entry "ZADD" "ZADD" KindWrite (spec 1 1 1) FanoutNone;
   entry "ZREM" "ZREM" KindWrite (spec 1 1 1) FanoutNone;
   entry "ZSCORE" "ZSCORE" KindRead (spec 1 1 1) FanoutNone;
   entry "ZINCRBY" "ZINCRBY" KindWrite (spec 1 1 1) FanoutNone;
   entry "ZCARD" "ZCARD" KindRead (spec 1 1 1) FanoutNone;
   entry "ZCOUNT" "ZCOUNT" KindRead (spec 1 1 1) FanoutNone;
   entry "ZRANGE" "ZRANGE" KindRead (spec 1 1 1) FanoutNone;
   entry "ZREVRANGE" "ZREVRANGE" KindRead (spec 1 1 1) FanoutNone;
   entry "ZRANGEBYSCORE" "ZRANGEBYSCORE" KindRead (spec 1 1 1) FanoutNone;
   entry "ZREVRANGEBYSCORE" "ZREVRANGEBYSCORE" KindRead (spec 1 1 1) FanoutNone;
   entry "ZRANK" "ZRANK" KindRead (spec 1 1 1) FanoutNone;
   entry "ZREVRANK" "ZREVRANK" KindRead (spec 1 1 1) FanoutNone;
   entry "ZRANGEBYLEX" "ZRANGEBYLEX" KindRead (spec 1 1 1) FanoutNone;
   entry "ZREVRANGEBYLEX" "ZREVRANGEBYLEX" KindRead (spec 1 1 1) FanoutNone;
   entry "ZLEXCOUNT" "ZLEXCOUNT" KindRead (spec 1 1 1) FanoutNone;
   entry "ZREMRANGEBYRANK" "ZREMRANGEBYRANK" KindWrite (spec 1 1 1) FanoutNone;
   entry "ZREMRANGEBYSCORE" "ZREMRANGEBYSCORE" KindWrite (spec 1 1 1) FanoutNone;
   entry "ZREMRANGEBYLEX" "ZREMRANGEBYLEX" KindWrite (spec 1 1 1) FanoutNone;
   entry "ZPOPMIN" "ZPOPMIN" KindWrite (spec 1 1 1) FanoutNone;
   entry "ZPOPMAX" "ZPOPMAX" KindWrite (spec 1 1 1) FanoutNone;
   entry "BZPOPMIN" "BZPOPMIN" KindBlock (spec 1 (-2) 1) FanoutNone;
   entry "BZPOPMAX" "BZPOPMAX" KindBlock (spec 1 (-2) 1) FanoutNone;
   entry "BZMPOP" "BZMPOP" KindBlock noKeys FanoutNone;
   entry "ZMPOP" "ZMPOP" KindWrite noKeys FanoutNone;
   entry "ZUNIONSTORE" "ZUNIONSTORE" KindWrite (spec 1 1 1) FanoutNone;
   entry "ZINTERSTORE" "ZINTERSTORE" KindWrite (spec 1 1 1) FanoutNone;
   entry "ZDIFFSTORE" "ZDIFFSTORE" KindWrite (spec 1 1 1) FanoutNone;
   entry "ZUNION" "ZUNION" KindRead noKeys FanoutNone;
   entry "ZINTER" "ZINTER" KindRead noKeys FanoutNone;
   entry "ZDIFF" "ZDIFF" KindRead noKeys FanoutNone;
   entry "ZSCAN" "ZSCAN" KindRead (spec 1 1 1) FanoutNone;
   entry "ZMSCORE" "ZMSCORE" KindRead (spec 1 1 1) FanoutNone;
   entry "ZRANDMEMBER" "ZRANDMEMBER" KindRead (spec 1 1 1) FanoutNone].

Definition table_streams : list (string * Meta) :=
  [entry "XADD" "XADD" KindWrite (spec 1 1 1) FanoutNone;
   entry "XLEN" "XLEN" KindRead (spec 1 1 1) FanoutNone;
   entry "XRANGE" "XRANGE" KindRead (spec 1 1 1) FanoutNone;
   entry "XREVRANGE" "XREVRANGE" KindRead (spec 1 1 1) FanoutNone;
   entry "XREAD" "XREAD" KindRead noKeys FanoutNone;
   entry "XREADGROUP" "XREADGROUP" KindRead noKeys FanoutNone;
   entry "XACK" "XACK" KindWrite (spec 1 1 1) FanoutNone;
   entry "XDEL" "XDEL" KindWrite (spec 1 1 1) FanoutNone;
   entry "XGROUP" "XGROUP" KindWrite (spec 2 2 1) FanoutNone;
   entry "XINFO" "XINFO" KindRead (spec 2 2 1) FanoutNone;
   entry "XPENDING" "XPENDING" KindRead (spec 1 1 1) FanoutNone;
   entry "XCLAIM" "XCLAIM" KindWrite (spec 1 1 1) FanoutNone;
   entry "XAUTOCLAIM" "XAUTOCLAIM" KindWrite (spec 1 1 1) FanoutNone;
   entry "XTRIM" "XTRIM" KindWrite (spec 1 1 1) FanoutNone].

Definition table_misc : list (string * Meta) :=
  [entry "PFADD" "PFADD" KindWrite (spec 1 1 1) FanoutNone;
   entry "PFCOUNT" "PFCOUNT" KindRead (spec 1 (-1) 1) FanoutNone;
   entry "PFMERGE" "PFMERGE" KindWrite (spec 1 (-1) 1) FanoutNone;
   entry "GEOADD" "GEOADD" KindWrite (spec 1 1 1) FanoutNone;
   entry "GEODIST" "GEODIST" KindRead (spec 1 1 1) FanoutNone;
   entry "GEOHASH" "GEOHASH" KindRead (spec 1 1 1) FanoutNone;
   entry "GEOPOS" "GEOPOS" KindRead (spec 1 1 1) FanoutNone;
   entry "GEORADIUS" "GEORADIUS" KindRead (spec 1 1 1) FanoutNone;
   entry "GEORADIUSBYMEMBER" "GEORADIUSBYMEMBER" KindRead (spec 1 1 1) FanoutNone;
   entry "GEOSEARCH" "GEOSEARCH" KindRead (spec 1 1 1) FanoutNone;
   entry "GEOSEARCHSTORE" "GEOSEARCHSTORE" KindWrite (spec 1 2 1) FanoutNone].

Definition table_scripts : list (string * Meta) :=
  [entry "EVAL" "EVAL" KindScript noKeys FanoutNone;
   entry "EVALSHA" "EVALSHA" KindScript noKeys FanoutNone;
   entry "EVAL_RO" "EVAL_RO" KindScript noKeys FanoutNone;
   entry "EVALSHA_RO" "EVALSHA_RO" KindScript noKeys FanoutNone;
   entry "SCRIPT" "SCRIPT" KindAdmin noKeys FanoutNone].

Definition table_txn : list (string * Meta) :=
  [entry "MULTI" "MULTI" KindTxn noKeys FanoutNone;
   entry "EXEC" "EXEC" KindTxn noKeys FanoutNone;
   entry "DISCARD" "DISCARD" KindTxn noKeys FanoutNone;
   entry "WATCH" "WATCH" KindTxn (spec 1 (-1) 1) FanoutNone;
   entry "UNWATCH" "UNWATCH" KindTxn noKeys FanoutNone].

Definition table_pubsub : list (string * Meta) :=
  [entry "PUBLISH" "PUBLISH" KindPubSub noKeys FanoutNone;
   entry "SPUBLISH" "SPUBLISH" KindPubSub noKeys FanoutNone;
   entry "SUBSCRIBE" "SUBSCRIBE" KindPubSub noKeys FanoutNone;
   entry "SSUBSCRIBE" "SSUBSCRIBE" KindPubSub noKeys FanoutNone;
   entry "UNSUBSCRIBE" "UNSUBSCRIBE" KindPubSub noKeys FanoutNone;
   entry "SUNSUBSCRIBE" "SUNSUBSCRIBE" KindPubSub noKeys FanoutNone;
   entry "PSUBSCRIBE" "PSUBSCRIBE" KindPubSub noKeys FanoutNone;
   entry "PUNSUBSCRIBE" "PUNSUBSCRIBE" KindPubSub noKeys FanoutNone;
   entry "PUBSUB" "PUBSUB" KindPubSub noKeys FanoutNone].

Definition table_admin : list (string * Meta) :=
  [entry "PING" "PING" KindConnection noKeys FanoutNone;
   entry "ECHO" "ECHO" KindConnection noKeys FanoutNone;
   entry "AUTH" "AUTH" KindConnection noKeys FanoutNone;
   entry "QUIT" "QUIT" KindConnection noKeys FanoutNone;
   entry "SELECT" "SELECT" KindConnection noKeys FanoutNone;
   entry "HELLO" "HELLO" KindConnection noKeys FanoutNone;
   entry "CLIENT" "CLIENT" KindConnection noKeys FanoutNone;
   entry "RESET" "RESET" KindConnection noKeys FanoutNone;
   entry "INFO" "INFO" KindAdmin noKeys FanoutNone;
   entry "CLUSTER" "CLUSTER" KindAdmin noKeys FanoutNone;
   entry "COMMAND" "COMMAND" KindAdmin noKeys FanoutNone;
   entry "CONFIG" "CONFIG" KindAdmin noKeys FanoutNone;
   entry "DBSIZE" "DBSIZE" KindAdmin noKeys FanoutNone;
   entry "FLUSHDB" "FLUSHDB" KindAdmin noKeys FanoutNone;
   entry "FLUSHALL" "FLUSHALL" KindAdmin noKeys FanoutNone;
   entry "TIME" "TIME" KindAdmin noKeys FanoutNone;
   entry "READONLY" "READONLY" KindAdmin noKeys FanoutNone;
   entry "READWRITE" "READWRITE" KindAdmin noKeys FanoutNone;
   entry "SCAN" "SCAN" KindAdmin noKeys FanoutNone;
   entry "KEYS" "KEYS" KindAdmin noKeys FanoutNone;
   entry "RANDOMKEY" "RANDOMKEY" KindAdmin noKeys FanoutNone;
   entry "MEMORY" "MEMORY" KindAdmin noKeys FanoutNone;
   entry "LATENCY" "LATENCY" KindAdmin noKeys FanoutNone;
   entry "ROLE" "ROLE" KindAdmin noKeys FanoutNone;
   entry "LOLWUT" "LOLWUT" KindAdmin noKeys FanoutNone;
   entry "REPLICAOF" "REPLICAOF" KindAdmin noKeys FanoutNone;
   entry "SLAVEOF" "SLAVEOF" KindAdmin noKeys FanoutNone;
   entry "WAIT" "WAIT" KindAdmin noKeys FanoutNone;
   entry "JSON.GET" "JSON.GET" KindRead (spec 1 1 1) FanoutNone;
   entry "JSON.SET" "JSON.SET" KindWrite (spec 1 1 1) FanoutNone;
   entry "JSON.DEL" "JSON.DEL" KindWrite (spec 1 1 1) FanoutNone].

Definition table : list (string * Meta) :=
  table_strings ++
  table_keys ++
  table_hashes ++
  table_lists ++
  table_sets ++
  table_zsets ++
  table_streams ++
  table_misc ++
  table_scripts ++
  table_txn ++
  table_pubsub ++
  table_admin.

(** [table[name]]. *)
Definition table_get (name : bytes) : option Meta :=
  snd <$> List.find (fun e => B (fst e) ==b name) table.

(** ** command.go *)

Definition Lookup (upperName : bytes) : option Meta := table_get upperName.

(** [resp.UpperASCII] of [argv0]; the destination buffer is only reused storage. *)
Definition NameUpper (argv0 : bytes) : bytes := UpperASCII argv0.

(** The contents of [argv[i]]; used only where the code has checked [i < len(argv)]. *)
Definition arg (argv : list slice) (i : nat) : bytes := content (default None (argv !! i)).

Definition cmd_name (argv : list slice) : bytes := UpperASCII (arg argv 0).

(** [int] length of [argv]. *)
Definition argc (argv : list slice) : Z := Z.of_nat (length argv).

(** The loop [for i := from; ...; i++ { if EqualFoldASCII(argv[i], tok) {...} }]: the first
    position from [i] on, [l] being the arguments from position [i]. *)
Fixpoint find_fold (tok : bytes) (l : list slice) (i : nat) : option nat :=
  match l with
  | [] => None
  | a :: l' => if EqualFoldASCII (content a) tok then Some i else find_fold tok l' (S i)
  end.

(** [for i := first; i <= last; i += step], at most [fuel] rounds. *)
Fixpoint step_range (fuel : nat) (i last step : Z) : list nat :=
  match fuel with
  | O => []
  | S f => if last <? i then [] else Z.to_nat i :: step_range f (i + step) last step
  end.

Definition indexesBySpec (argv : list slice) (sp : KeySpec) : list nat :=
  if ksFirst sp <=? 0 then []
  else
    let step := if ksStep sp <=? 0 then 1 else ksStep sp in
    let first := ksFirst sp in
    let last := if ksLast sp =? 0 then first else ksLast sp in
    let last := if last <? 0 then argc argv + last else last in
    if (argc argv <=? first) || (last <? first) then []
    else
      let last := if argc argv <=? last then argc argv - 1 else last in
      let n := (last - first) / step + 1 in
      if n <=? 0 then [] else step_range (Z.to_nat n) first last step.

(** [for i := start; i < stop; i++ { out = append(out, i) }]. *)
Definition int_range (start stop : Z) : list nat :=
  seq (Z.to_nat start) (Z.to_nat (stop - start)).

Definition evalKeyIdx (argv : list slice) : list nat :=
  if argc argv <? 3 then []
  else match parse_int (arg argv 2) with
  | None => []
  | Some n =>
      if n <? 0 then []
      else
        let stop := wrap64 (3 + n) in
        let stop := if argc argv <? stop then argc argv else stop in
        if stop <=? 3 then [] else int_range 3 stop
  end.

Definition xreadKeyIdx (argv : list slice) : list nat :=
  match find_fold (B "STREAMS") (drop 1 argv) 1 with
  | None => []
  | Some i =>
      let rest := drop (S i) argv in
      if Nat.ltb (length rest) 2 || negb (Nat.even (length rest)) then []
      else map (fun j => i + 1 + j)%nat (seq 0 (length rest / 2))
  end.

Definition migrateKeyIdx (argv : list slice) : list nat :=
  if argc argv <? 6 then []
  else match find_fold (B "KEYS") (drop 6 argv) 6 with
  | Some i => if argc argv <=? Z.of_nat i + 1 then []
              else int_range (Z.of_nat i + 1) (argc argv)
  | None => if 0 <? Z.of_nat (length (arg argv 3)) then [3%nat] else []
  end.

Definition numkeysIdx (argv : list slice) (numkeysAt : Z) : outcome (list nat) :=
  if argc argv <=? numkeysAt then Ret []
  else match parse_int (arg argv (Z.to_nat numkeysAt)) with
  | None => Ret []
  | Some n =>
      if n <? 0 then Ret []
      else
        let start := numkeysAt + 1 in
        let stop := wrap64 (start + n) in
        if argc argv <=? start then Ret []
        else
          let stop := if argc argv <? stop then argc argv else stop in
          if makeslice_ok (wrap64 (stop - start)) then Ret (int_range start stop) else Panic
  end.

Definition destNumkeysIdx (argv : list slice) : outcome (list nat) :=
  if argc argv <? 3 then
    if 2 <=? argc argv then Ret [1%nat] else Ret []
  else l ← numkeysIdx argv 2; Ret (1%nat :: l).

(** The arguments from position [i] up to but excluding the last one. *)
Definition args_but_last (argv : list slice) (i : nat) : list slice :=
  drop i (take (length argv - 1) argv).

Definition scanMatchIdx (argv : list slice) : list nat :=
  match find_fold (B "MATCH") (args_but_last argv 2) 2 with
  | Some i => [S i]
  | None => []
  end.

(** The loop of [sortKeyIdx] from position [i], [l] being the arguments from there: an option
    consumes the argument after it. *)
Fixpoint sort_go (l : list slice) (i : nat) : list nat :=
  match l with
  | a :: (b :: rest) as tl =>
      if EqualFoldASCII (content a) (B "BY") then
        (if negb (EqualFoldASCII (content b) (B "nosort")) then [S i] else [])
        ++ sort_go rest (S (S i))
      else if EqualFoldASCII (content a) (B "GET") then
        (if negb (content b ==b B "#") then [S i] else []) ++ sort_go rest (S (S i))
      else if EqualFoldASCII (content a) (B "STORE") then S i :: sort_go rest (S (S i))
      else sort_go tl (S i)
  | _ => []
  end.

Definition sortKeyIdx (argv : list slice) : list nat :=
  (if 2 <=? argc argv then [1%nat] else []) ++ sort_go (drop 2 argv) 2.

Fixpoint store_go (l : list slice) (i : nat) : list nat :=
  match l with
  | [] => []
  | a :: l' =>
      (if EqualFoldASCII (content a) (B "STORE") || EqualFoldASCII (content a) (B "STOREDIST")
       then [S i] else []) ++ store_go l' (S i)
  end.

Definition storeOptionIdx (argv : list slice) : list nat := store_go (args_but_last argv 1) 1.

(** [table[name].Keys]: the zero [KeySpec] for an unknown name. *)
Definition table_keys_of (name : bytes) : KeySpec :=
  match table_get name with Some m => mKeys m | None => noKeys end.

Definition KeyIndexes (argv : list slice) : outcome (list nat) :=
  match argv with
  | [] => Ret []
  | _ =>
    let name := cmd_name argv in
    if str_in name ["EVAL"; "EVALSHA"; "EVAL_RO"; "EVALSHA_RO"] then Ret (evalKeyIdx argv)
    else if str_in name ["XREAD"; "XREADGROUP"] then Ret (xreadKeyIdx argv)
    else if str_in name ["MIGRATE"] then Ret (migrateKeyIdx argv)
    else if str_in name ["LMPOP"; "ZMPOP"; "SINTERCARD"] then numkeysIdx argv 1
    else if str_in name ["BLMPOP"; "BZMPOP"] then numkeysIdx argv 2
    else if str_in name ["ZUNIONSTORE"; "ZINTERSTORE"; "ZDIFFSTORE"] then destNumkeysIdx argv
    else if str_in name ["ZUNION"; "ZINTER"; "ZDIFF"] then numkeysIdx argv 1
    else if str_in name ["MEMORY"] then
      if (3 <=? argc argv) && EqualFoldASCII (arg argv 1) (B "USAGE") then Ret [2%nat] else Ret []
    else if str_in name ["KEYS"] then
      if 2 <=? argc argv then Ret [1%nat] else Ret []
    else if str_in name ["SCAN"] then Ret (scanMatchIdx argv)
    else if str_in name ["SORT"] then Ret (sortKeyIdx argv)
    else if str_in name ["GEORADIUS"; "GEORADIUSBYMEMBER"] then
      Ret (indexesBySpec argv (table_keys_of name) ++ storeOptionIdx argv)
    else match table_get name with
    | None => Ret []
    | Some m => if ksFirst (mKeys m) =? 0 then Ret [] else Ret (indexesBySpec argv (mKeys m))
    end
  end.

Definition ExtractKeys (argv : list slice) : outcome (list slice) :=
  idx ← KeyIndexes argv; mapM (index argv) idx.

Definition IsBlocking (argv : list slice) : bool :=
  match argv with
  | [] => false
  | _ =>
    let name := cmd_name argv in
    if (match table_get name with Some m => mKind m ==b KindBlock | None => false end) then true
    else if str_in name ["XREAD"; "XREADGROUP"] then
      match find_fold (B "BLOCK") (drop 1 argv) 1 with Some _ => true | None => false end
    else false
  end.

Inductive PubSubOp :=
| PubSubNone | PubSubSubscribe | PubSubUnsubscribe | PubSubPSubscribe | PubSubPUnsubscribe
| PubSubSSubscribe | PubSubSUnsubscribe | PubSubPublish | PubSubSPublish | PubSubPubSub.

#[global] Instance PubSubOp_eq_dec : EqDecision PubSubOp.
Proof. solve_decision. Defined.

Definition ClassifyPubSub (argv0 : bytes) : PubSubOp :=
  let name := UpperASCII argv0 in
  if name ==b B "SUBSCRIBE" then PubSubSubscribe
  else if name ==b B "UNSUBSCRIBE" then PubSubUnsubscribe
  else if name ==b B "PSUBSCRIBE" then PubSubPSubscribe
  else if name ==b B "PUNSUBSCRIBE" then PubSubPUnsubscribe
  else if name ==b B "SSUBSCRIBE" then PubSubSSubscribe
  else if name ==b B "SUNSUBSCRIBE" then PubSubSUnsubscribe
  else if name ==b B "PUBLISH" then PubSubPublish
  else if name ==b B "SPUBLISH" then PubSubSPublish
  else if name ==b B "PUBSUB" then PubSubPubSub
  else PubSubNone.

Definition FanoutOf (argv : list slice) : Fanout :=
  match argv with
  | [] => FanoutNone
  | _ => match table_get (cmd_name argv) with Some m => mFanout m | None => FanoutNone end
  end.

Definition KindOf (argv0 : bytes) : Kind :=
  match table_get (UpperASCII argv0) with Some m => mKind m | None => KindUnknown end.

Definition cmd (words : list string) : list slice := map BS words.

Example keys_mset : KeyIndexes (cmd ["mset"; "a"; "1"; "b"; "2"]) = Ret [1; 3]%nat.
Proof. vm_refl. Qed.
Example keys_eval : KeyIndexes (cmd ["EVAL"; "s"; "2"; "a"; "b"; "c"]) = Ret [3; 4]%nat.
Proof. vm_refl. Qed.
Example keys_blpop : KeyIndexes (cmd ["BLPOP"; "a"; "b"; "0"]) = Ret [1; 2]%nat.
Proof. vm_refl. Qed.
Example keys_xread : KeyIndexes (cmd ["XREAD"; "COUNT"; "2"; "streams"; "a"; "b"; "0"; "0"])
  = Ret [4; 5]%nat.
Proof. vm_refl. Qed.
Example keys_sort : KeyIndexes (cmd ["SORT"; "l"; "BY"; "w*"; "GET"; "#"; "GET"; "d*"; "STORE"; "r"])
  = Ret [1; 3; 7; 9]%nat.
Proof. vm_refl. Qed.
Example keys_georadius : KeyIndexes (cmd ["GEORADIUS"; "g"; "1"; "2"; "3"; "km"; "STORE"; "d"])
  = Ret [1; 7]%nat.
Proof. vm_refl. Qed.
Example keys_overflow : KeyIndexes (cmd ["LMPOP"; "9223372036854775807"; "k"]) = Panic.
Proof. vm_refl. Qed.

(** ** Index lists: strictly increasing positions in a range *)

Definition idx_ok (lo hi : nat) (l : list nat) : Prop :=
  StronglySorted lt l ∧ Forall (fun i => (lo <= i < hi)%nat) l.

Lemma idx_ok_nil lo hi : idx_ok lo hi [].
Proof. split; constructor. Qed.

Lemma idx_ok_one lo hi i : (lo <= i < hi)%nat -> idx_ok lo hi [i].
Proof. intros. split; repeat constructor; lia. Qed.

Lemma idx_ok_weaken lo hi lo' hi' l :
  (lo' <= lo)%nat -> (hi <= hi')%nat -> idx_ok lo hi l -> idx_ok lo' hi' l.
Proof.
  intros H1 H2 [Hs Hf]. split; [done|]. eapply Forall_impl; [|exact Hf]. simpl. lia.
Qed.

Lemma idx_ok_cons lo hi i l :
  (lo <= i < hi)%nat -> idx_ok (S i) hi l -> idx_ok lo hi (i :: l).
Proof.
  intros Hi [Hs Hf]. split.
  - constructor; [done|]. eapply Forall_impl; [|exact Hf]. simpl. lia.
  - constructor; [done|]. eapply Forall_impl; [|exact Hf]. simpl. lia.
Qed.

Lemma idx_ok_app lo m hi l1 l2 :
  (lo <= m <= hi)%nat -> idx_ok lo m l1 -> idx_ok m hi l2 -> idx_ok lo hi (l1 ++ l2).
Proof.
  intros Hm [Hs1 Hf1] H2. revert lo Hm Hf1. induction Hs1 as [|i l Hs IH Hi]; intros lo Hm Hf1.
  - cbn. eapply idx_ok_weaken; [| |exact H2]; lia.
  - apply list.Forall_cons in Hf1 as [Hi1 Hf1]. cbn. apply idx_ok_cons; [lia|].
    apply (IH (S i)); [lia|]. rewrite !list.Forall_forall in *. intros x Hx.
    specialize (Hf1 x Hx). specialize (Hi x Hx). lia.
Qed.

Lemma idx_ok_seq lo hi s n : (lo <= s)%nat -> (n = 0 ∨ s + n <= hi)%nat -> idx_ok lo hi (seq s n).
Proof.
  revert lo s. induction n as [|n IH]; intros lo s Hlo Hhi; [apply idx_ok_nil|].
  cbn. apply idx_ok_cons; [lia|]. apply IH; lia.
Qed.

Lemma idx_ok_step_range fuel i last step lo hi :
  0 < step -> Z.of_nat lo <= i -> last < Z.of_nat hi ->
  idx_ok lo hi (step_range fuel i last step).
Proof.
  revert i lo. induction fuel as [|f IH]; intros i lo Hs Hlo Hhi; [apply idx_ok_nil|]. cbn.
  destruct (last <? i) eqn:E; bool_simp; [apply idx_ok_nil|].
  apply idx_ok_cons; [lia|]. apply IH; lia.
Qed.

Lemma int_range_ok lo hi a b :
  Z.of_nat lo <= a -> b <= Z.of_nat hi -> idx_ok lo hi (int_range a b).
Proof. intros. unfold int_range. apply idx_ok_seq; lia. Qed.

Lemma find_fold_Some tok l i j :
  find_fold tok l i = Some j ->
  (i <= j < i + length l)%nat ∧ exists a, l !! (j - i)%nat = Some a ∧ EqualFoldASCII (content a) tok = true.
Proof.
  revert i. induction l as [|a l IH]; intros i H; [done|]. cbn in H.
  destruct (EqualFoldASCII _ _) eqn:E.
  - simplify_eq. cbn. rewrite Nat.sub_diag. split; [lia|]. eauto.
  - apply IH in H as (Hj & b & Hb & Hf). cbn. split; [lia|]. exists b.
    replace (j - i)%nat with (S (j - S i)) by lia. done.
Qed.

#[export] Hint Resolve idx_ok_nil idx_ok_one : go.

Section KeyPositions.
Context (argv : list slice).
Local Abbreviation n := (length argv).

Lemma indexesBySpec_ok sp : idx_ok 1 n (indexesBySpec argv sp).
Proof.
  unfold indexesBySpec, argc. destruct (ksFirst sp <=? 0) eqn:E; [apply idx_ok_nil|].
  cbv zeta. set (last0 := if ksLast sp =? 0 then _ else _).
  set (last1 := if last0 <? 0 then _ else _). set (step := if ksStep sp <=? 0 then _ else _).
  assert (0 < step) by (subst step; destruct (ksStep sp <=? 0) eqn:Q; bool_simp; lia).
  destruct (_ || _) eqn:G; [apply idx_ok_nil|]. bool_simp.
  destruct (Z.of_nat n <=? last1) eqn:L; bool_simp; (case_if; [apply idx_ok_nil|]);
    apply idx_ok_step_range; lia.
Qed.

Lemma evalKeyIdx_ok : idx_ok 1 n (evalKeyIdx argv).
Proof.
  unfold evalKeyIdx, argc. case_if; [auto with go|].
  destruct (parse_int _) as [z|]; [|auto with go]. case_if; [auto with go|]. cbv zeta.
  destruct (Z.of_nat n <? wrap64 _) eqn:G; bool_simp; (case_if; [auto with go|]);
    bool_simp; apply int_range_ok; lia.
Qed.

Lemma xreadKeyIdx_ok : idx_ok 1 n (xreadKeyIdx argv).
Proof.
  unfold xreadKeyIdx. destruct (find_fold _ _ 1) as [i|] eqn:F; [|auto with go].
  apply find_fold_Some in F as [Hi _]. rewrite length_drop in Hi. cbv zeta.
  case_if; [auto with go|].
  assert (forall k c s, map (fun j => i + 1 + j)%nat (seq s c) = seq (i + 1 + s) c ∧ (k = k :> nat)) as M.
  { intros k c. induction c as [|c IH]; intros s; [done|]. cbn. destruct (IH (S s)) as [-> _].
    split; [|done]. f_equal. f_equal. lia. }
  rewrite (proj1 (M 0%nat _ _)). apply idx_ok_seq; [lia|]. right. rewrite length_drop.
  pose proof (Nat.Div0.div_le_upper_bound (n - S i) 2 (n - S i) ltac:(lia)). lia.
Qed.

Lemma migrateKeyIdx_ok : idx_ok 1 n (migrateKeyIdx argv).
Proof.
  unfold migrateKeyIdx, argc. destruct (_ <? 6) eqn:E; [auto with go|]. bool_simp.
  destruct (find_fold _ _ 6) as [i|] eqn:F.
  - case_if; [auto with go|]. apply int_range_ok; lia.
  - case_if; [|auto with go]. apply idx_ok_one. lia.
Qed.

Lemma numkeysIdx_ok at_ l :
  0 <= at_ -> numkeysIdx argv at_ = Ret l -> idx_ok (Z.to_nat (at_ + 1)) n l.
Proof.
  intros Ha. unfold numkeysIdx, argc. case_if; [intros; simplify_eq; auto with go|].
  destruct (parse_int _) as [z|]; [|intros; simplify_eq; auto with go].
  case_if; [intros; simplify_eq; auto with go|]. cbv zeta.
  case_if; [intros; simplify_eq; auto with go|].
  destruct (_ <? wrap64 _) eqn:G; (case_if; [|done]); intros; simplify_eq; bool_simp;
    apply int_range_ok; lia.
Qed.

Lemma destNumkeysIdx_ok l : destNumkeysIdx argv = Ret l -> idx_ok 1 n l.
Proof.
  unfold destNumkeysIdx, argc. destruct (_ <? 3) eqn:E; bool_simp.
  - case_if; intros; simplify_eq; bool_simp; [apply idx_ok_one; lia | auto with go].
  - destruct (numkeysIdx argv 2) as [l'|] eqn:F; cbn; intros; simplify_eq.
    apply numkeysIdx_ok in F; [|lia]. apply idx_ok_cons; [lia|].
    eapply idx_ok_weaken; [| |exact F]; lia.
Qed.

Lemma length_args_but_last i : length (args_but_last argv i) = (n - 1 - i)%nat.
Proof. unfold args_but_last. rewrite length_drop, length_take. lia. Qed.

Lemma scanMatchIdx_ok : idx_ok 1 n (scanMatchIdx argv).
Proof.
  unfold scanMatchIdx. destruct (find_fold _ _ 2) as [i|] eqn:F; [|auto with go].
  apply find_fold_Some in F as [Hi _]. rewrite length_args_but_last in Hi.
  apply idx_ok_one. lia.
Qed.
End KeyPositions.

Lemma sort_go_cons a b l i :
  sort_go (a :: b :: l) i =
  if EqualFoldASCII (content a) (B "BY") then
    (if negb (EqualFoldASCII (content b) (B "nosort")) then [S i] else []) ++ sort_go l (S (S i))
  else if EqualFoldASCII (content a) (B "GET") then
    (if negb (content b ==b B "#") then [S i] else []) ++ sort_go l (S (S i))
  else if EqualFoldASCII (content a) (B "STORE") then S i :: sort_go l (S (S i))
  else sort_go (b :: l) (S i).
Proof. done. Qed.

Lemma sort_go_ok k l i : (length l <= k)%nat -> idx_ok (S i) (i + length l) (sort_go l i).
Proof.
  revert l i. induction k as [|k IH]; intros l i Hk; (destruct l as [|a [|b l]]; [apply idx_ok_nil..|]).
  - cbn in Hk. lia.
  - cbn in Hk. assert (idx_ok (S (S i)) (i + length (a :: b :: l)) (sort_go l (S (S i)))) as H2.
    { eapply idx_ok_weaken; [| |apply (IH l (S (S i))); lia]; cbn; lia. }
    assert (idx_ok (S i) (i + length (a :: b :: l)) [S i]) as H1 by (apply idx_ok_one; cbn; lia).
    assert (idx_ok (S i) (i + length (a :: b :: l)) (sort_go l (S (S i)))) as H3
      by (eapply idx_ok_weaken; [| |exact H2]; lia).
    assert (idx_ok (S i) (i + length (a :: b :: l)) (S i :: sort_go l (S (S i)))) as H4
      by (apply idx_ok_cons; [cbn; lia|exact H2]).
    rewrite sort_go_cons. repeat case_if; try done.
    eapply idx_ok_weaken; [| |apply (IH (b :: l) (S i)); cbn; lia]; cbn; lia.
Qed.

Lemma sortKeyIdx_ok argv : idx_ok 1 (length argv) (sortKeyIdx argv).
Proof.
  unfold sortKeyIdx, argc. pose proof (sort_go_ok _ (drop 2 argv) 2 (le_n _)) as H.
  rewrite length_drop in H. destruct (2 <=? _) eqn:E; bool_simp.
  - apply idx_ok_cons; [lia|]. eapply idx_ok_weaken; [| |exact H]; lia.
  - rewrite drop_ge by lia. auto with go.
Qed.

Lemma store_go_ok l i hi : (i + length l < hi)%nat ∨ l = [] -> idx_ok (S i) hi (store_go l i).
Proof.
  revert i. induction l as [|a l IH]; intros i Hh; [apply idx_ok_nil|].
  destruct Hh as [Hh|]; [|done]. cbn in *.
  assert (idx_ok (S (S i)) hi (store_go l (S i))) as H by (apply IH; lia).
  case_if; cbn; [apply idx_ok_cons; [lia|done]|]. eapply idx_ok_weaken; [| |exact H]; lia.
Qed.

Lemma storeOptionIdx_ok argv : idx_ok 2 (length argv) (storeOptionIdx argv).
Proof.
  apply store_go_ok. rewrite length_args_but_last.
  destruct (decide (2 < length argv)%nat); [left; lia|]. right.
  unfold args_but_last. apply drop_ge. rewrite length_take. lia.
Qed.

(** The two geo commands have their key at position 1. *)
Lemma geo_keys argv name :
  str_in name ["GEORADIUS"; "GEORADIUSBYMEMBER"] = true ->
  idx_ok 1 (min 2 (length argv)) (indexesBySpec argv (table_keys_of name)).
Proof.
  intros H. apply str_in_true in H as (l & Hin & ->).
  assert (table_keys_of (B l) = spec 1 1 1) as ->.
  { destruct Hin as [<-|[<-|[]]]; vm_refl. }
  unfold indexesBySpec, argc, spec. cbn [ksFirst ksLast ksStep].
  change (1 <=? 0) with false. change (1 =? 0) with false. cbv zeta iota. change (1 <? 0) with false.
  cbv iota. destruct (Z.of_nat (length argv) <=? 1) eqn:E; cbn [orb]; [auto with go|].
  change (1 <? 1) with false. cbv iota. bool_simp. case_if; [auto with go|].
  apply idx_ok_step_range; lia.
Qed.

Lemma KeyIndexes_idx_ok argv idx : KeyIndexes argv = Ret idx -> idx_ok 1 (length argv) idx.
Proof.
  destruct argv as [|a0 r] eqn:Ea; [intros [= <-]; apply idx_ok_nil|]. rewrite <- Ea.
  unfold KeyIndexes. rewrite Ea at 1. cbv zeta.
  repeat match goal with
  | |- (if ?b then _ else _) = Ret _ -> _ => destruct b eqn:?
  | |- match ?o with Some _ => _ | None => _ end = Ret _ -> _ => destruct o eqn:?
  | |- Ret _ = Ret _ -> _ => intros [= <-]
  end; auto using evalKeyIdx_ok, xreadKeyIdx_ok, migrateKeyIdx_ok, destNumkeysIdx_ok,
         scanMatchIdx_ok, sortKeyIdx_ok, indexesBySpec_ok with go.
  1-3: by intros H; apply numkeysIdx_ok in H; [|lia]; eapply idx_ok_weaken; [| |exact H]; lia.
  - apply idx_ok_one. unfold argc in *. bool_simp. lia.
  - apply idx_ok_one. unfold argc in *. bool_simp. lia.
  - eapply (idx_ok_app _ (min 2 (length argv))); [subst argv; cbn [length]; lia|by apply geo_keys|].
    eapply idx_ok_weaken; [| |apply storeOptionIdx_ok]; lia.
Qed.

(** ** Key extraction *)

Lemma mapM_index_ok {A} (l : list A) idx :
  Forall (fun i => (i < length l)%nat) idx ->
  exists xs, mapM (index l) idx = Ret xs ∧ Forall2 (fun i x => l !! i = Some x) idx xs.
Proof.
  induction 1 as [|i idx Hi _ (xs & E & F)]; [by exists []|].
  destruct (lookup_lt_is_Some_2 l i Hi) as [x Hx]. exists (x :: xs).
  assert (index l i = Ret x) as Ei by (unfold index; by rewrite Hx).
  cbn [mapM]. rewrite Ei. cbn [mbind outcome_bind]. rewrite E.
  split; [done|]. by constructor.
Qed.

(** Once the positions are known, extracting the keys cannot panic. *)
Lemma ExtractKeys_of_idx argv idx :
  KeyIndexes argv = Ret idx ->
  exists keys, ExtractKeys argv = Ret keys ∧ Forall2 (fun i k => argv !! i = Some k) idx keys.
Proof.
  intros H. destruct (KeyIndexes_idx_ok _ _ H) as [_ Hf]. unfold ExtractKeys. rewrite H. cbn.
  apply mapM_index_ok. eapply Forall_impl; [|exact Hf]. simpl. lia.
Qed.

(** The position of the key count in the commands that carry one. *)
Definition numkeys_at (name : bytes) : option Z :=
  if str_in name ["LMPOP"; "ZMPOP"; "SINTERCARD"; "ZUNION"; "ZINTER"; "ZDIFF"] then Some 1
  else if str_in name ["BLMPOP"; "BZMPOP"; "ZUNIONSTORE"; "ZINTERSTORE"; "ZDIFFSTORE"]
  then Some 2 else None.

Lemma numkeysIdx_panics_iff argv at_ :
  0 <= at_ <= 2 -> argc argv <= 2^45 ->
  numkeysIdx argv at_ = Panic <->
  at_ + 1 < argc argv ∧
  exists n, parse_int (arg argv (Z.to_nat at_)) = Some n ∧ 2^63 - (at_ + 1) <= n.
Proof.
  intros Ha Hc. unfold numkeysIdx. destruct (argc argv <=? at_) eqn:E1; bool_simp.
  { split; [done|]. intros [? _]. lia. }
  destruct (parse_int _) as [n|] eqn:P; [|split; [done|]; by intros (_ & ? & ? & _)].
  apply parse_int_range in P. unfold in_int64 in P.
  destruct (n <? 0) eqn:E2; bool_simp; [split; [done|]; intros (_ & ? & ? & ?); simplify_eq; lia|].
  cbv zeta. destruct (argc argv <=? at_ + 1) eqn:E3; bool_simp; [split; [done|]; intros [? _]; lia|].
  destruct (decide (2^63 - (at_ + 1) <= n)) as [Hbig|Hsmall].
  - assert (wrap64 (at_ + 1 + n) = at_ + 1 + n - 2^64) as ->.
    { unfold wrap64. replace (at_ + 1 + n + 2^63) with (at_ + 1 + n - 2^63 + 1 * 2^64) by lia.
      rewrite Z.mod_add, Z.mod_small by lia. lia. }
    destruct (argc argv <? _) eqn:E4; bool_simp; [lia|].
    assert (wrap64 (at_ + 1 + n - 2 ^ 64 - (at_ + 1)) = n) as ->.
    { unfold wrap64. replace (at_ + 1 + n - 2 ^ 64 - (at_ + 1) + 2 ^ 63)
        with (n + 2^63 + (-1) * 2^64) by lia. rewrite Z.mod_add, Z.mod_small by lia. lia. }
    assert (makeslice_ok n = false) as ->.
    { unfold makeslice_ok. apply andb_false_iff. right. apply Z.leb_gt. lia. }
    split; [|done]. intros _. split; [lia|]. eauto.
  - rewrite (wrap64_id (at_ + 1 + n)) by (unfold in_int64; lia).
    set (stop := if argc argv <? at_ + 1 + n then _ else _).
    assert (at_ + 1 <= stop <= argc argv) as Hst.
    { subst stop. destruct (argc argv <? _) eqn:E4; bool_simp; lia. }
    rewrite wrap64_id by (unfold in_int64; lia).
    assert (makeslice_ok (stop - (at_ + 1)) = true) as ->.
    { unfold makeslice_ok. apply andb_true_iff. split; apply Z.leb_le; lia. }
    split; [done|]. intros (_ & ? & ? & ?). simplify_eq. lia.
Qed.

Lemma destNumkeysIdx_panics_iff argv :
  destNumkeysIdx argv = Panic <-> numkeysIdx argv 2 = Panic.
Proof.
  unfold destNumkeysIdx. destruct (argc argv <? 3) eqn:E; bool_simp.
  - split; [by case_if|]. unfold numkeysIdx. destruct (argc argv <=? 2) eqn:G; bool_simp; [done|lia].
  - by destruct (numkeysIdx argv 2).
Qed.

Lemma KeyIndexes_nonempty argv :
  argv ≠ [] -> KeyIndexes argv = Panic <->
  exists a, numkeys_at (cmd_name argv) = Some a ∧ numkeysIdx argv a = Panic.
Proof.
  intros Hne. split.
  - unfold KeyIndexes. destruct argv as [|a0 r] eqn:Ea; [done|]. rewrite <- Ea. cbv zeta.
    repeat match goal with
    | |- (if str_in _ ?l then _ else _) = Panic -> _ => destruct (str_in _ l) eqn:?
    | |- (if ?b then _ else _) = Panic -> _ => destruct b
    | |- match ?o with Some _ => _ | None => _ end = Panic -> _ => destruct o
    | |- Ret _ = Panic -> _ => done
    end; rewrite ?destNumkeysIdx_panics_iff; intros H; eexists; (split; [|exact H]);
    match goal with H : str_in _ _ = true |- _ => apply str_in_true in H as (l & Hin & ->) end;
    repeat destruct Hin as [<-|Hin]; try done; vm_refl.
  - intros (a & Hat & Hp). unfold numkeys_at in Hat.
    destruct (str_in _ _) eqn:E1 in Hat; [|destruct (str_in _ _) eqn:E2 in Hat; [|done]];
      simplify_eq; match goal with H : str_in _ _ = true |- _ =>
        apply str_in_true in H as (l & Hin & Hname) end;
      unfold KeyIndexes; destruct argv as [|a0 r] eqn:Ea; try done; rewrite <- Ea in *;
      cbv zeta; rewrite Hname;
      repeat destruct Hin as [<-|Hin]; try done; eval_tests; cbv iota;
      rewrite ?destNumkeysIdx_panics_iff; done.
Qed.

Lemma step_range_elem fuel i last step j :
  0 < step -> 0 <= i -> (last - i) / step < Z.of_nat fuel ->
  j ∈ step_range fuel i last step <->
  i <= Z.of_nat j <= last ∧ (Z.of_nat j - i) mod step = 0.
Proof.
  revert i. induction fuel as [|f IH]; intros i Hs Hi Hf.
  - cbn. split; [by intros ?%elem_of_nil|]. intros [? _].
    assert (0 <= (last - i) / step) by (apply Z.div_pos; lia). lia.
  - cbn [step_range]. destruct (last <? i) eqn:E; bool_simp.
    { split; [by intros ?%elem_of_nil|]. lia. }
    rewrite elem_of_cons, IH; [|lia..|].
    2: { replace (last - (i + step)) with (last - i + (-1) * step) by lia.
         rewrite Z.div_add by lia. lia. }
    assert (Z.of_nat j - (i + step) = Z.of_nat j - i + (-1) * step) as R by lia.
    split.
    + intros [->|[H1 H2]]; [rewrite Z2Nat.id, Z.sub_diag by lia; split; [lia|done]|].
      rewrite R, Z.mod_add in H2 by lia. split; [lia|done].
    + intros [H1 H2]. destruct (decide (Z.of_nat j = i)); [left; lia|]. right.
      rewrite R, Z.mod_add by lia. split; [|done]. split; [|lia].
      apply Z.mod_divide in H2 as [q Hq]; [|lia]. assert (0 < q) by nia. nia.
Qed.

Lemma indexesBySpec_elem argv sp j :
  0 < ksFirst sp -> 0 < ksStep sp -> ksLast sp ≠ 0 ->
  j ∈ indexesBySpec argv sp <->
  ksFirst sp <= Z.of_nat j < argc argv
  ∧ Z.of_nat j <= (if ksLast sp <? 0 then argc argv + ksLast sp else ksLast sp)
  ∧ (Z.of_nat j - ksFirst sp) mod ksStep sp = 0.
Proof.
  intros H1 H2 H3. unfold indexesBySpec.
  destruct (ksFirst sp <=? 0) eqn:E1; bool_simp; [lia|].
  destruct (ksStep sp <=? 0) eqn:E2; bool_simp; [lia|].
  destruct (ksLast sp =? 0) eqn:E3; bool_simp; [lia|]. cbv zeta.
  set (last := if ksLast sp <? 0 then _ else _).
  destruct ((argc argv <=? ksFirst sp) || (last <? ksFirst sp)) eqn:E4.
  { split; [by intros ?%elem_of_nil|]. intros (? & ? & _). bool_simp. destruct E4; bool_simp; lia. }
  bool_simp. set (last' := if argc argv <=? last then _ else _).
  assert (last' = Z.min last (argc argv - 1)) as Hl.
  { subst last'. destruct (argc argv <=? last) eqn:E; bool_simp; lia. }
  assert (0 <= (last' - ksFirst sp) / ksStep sp) by (apply Z.div_pos; lia).
  destruct (_ <=? 0) eqn:E5; bool_simp; [lia|].
  rewrite step_range_elem by lia. intuition lia.
Qed.

(** ** Properties *)

(** C23: key positions are sound.  Whatever the command, the positions [KeyIndexes] returns are
    strictly increasing argument positions after the command name; extracting the keys then
    cannot go out of range and returns exactly the arguments at those positions, in order. *)
Theorem KeyIndexes_ok (argv : list slice) (idx : list nat) (H : KeyIndexes argv = Ret idx) :
  StronglySorted lt idx ∧ Forall (fun i => (1 <= i < length argv)%nat) idx
  ∧ exists keys, ExtractKeys argv = Ret keys
                 ∧ Forall2 (fun i k => argv !! i = Some k) idx keys.
Proof.
  destruct (KeyIndexes_idx_ok _ _ H) as [Hs Hf]. split_and!; [done..|].
  by apply ExtractKeys_of_idx.
Qed.

Lemma KeyIndexes_ok_witness :
  let argv := cmd ["SORT"; "l"; "GET"; "d*"; "STORE"; "r"] in
  KeyIndexes argv = Ret [1; 3; 5]%nat ∧ StronglySorted lt [1; 3; 5]%nat
  ∧ Forall (fun i => (1 <= i < length argv)%nat) [1; 3; 5]%nat
  ∧ exists keys, ExtractKeys argv = Ret keys
                 ∧ Forall2 (fun i k => argv !! i = Some k) [1; 3; 5]%nat keys.
Proof. split; [vm_refl|]. apply KeyIndexes_ok. vm_refl. Defined.

(** Positional key specifications are exact.  For a table entry (First > 0, Step > 0), the
    positions found are all [i] with First <= i, i an argument, i <= Last (counted from the end
    when negative), and i - First a multiple of Step; none is missed and none is added. *)
Theorem indexesBySpec_spec (argv : list slice) (sp : KeySpec)
  (H1 : 0 < ksFirst sp) (H2 : 0 < ksStep sp) (H3 : ksLast sp ≠ 0) :
  forall j, j ∈ indexesBySpec argv sp <->
  ksFirst sp <= Z.of_nat j < argc argv
  ∧ Z.of_nat j <= (if ksLast sp <? 0 then argc argv + ksLast sp else ksLast sp)
  ∧ (Z.of_nat j - ksFirst sp) mod ksStep sp = 0.
Proof. intros j. by apply indexesBySpec_elem. Qed.

Lemma indexesBySpec_spec_witness :
  let argv := cmd ["BLPOP"; "a"; "b"; "0"] in
  2%nat ∈ indexesBySpec argv (spec 1 (-2) 1) <->
  1 <= 2 < argc argv ∧ 2 <= argc argv + (-2) ∧ (2 - 1) mod 1 = 0.
Proof. apply (indexesBySpec_spec (cmd ["BLPOP"; "a"; "b"; "0"]) (spec 1 (-2) 1)); cbn; lia. Defined.

(** C39: the only panic of key extraction.  Within the reader's limit on argument counts,
    [KeyIndexes] panics exactly when the command carries a key count (at position 1 or 2), an
    argument follows the count, and the count is so large that adding it to the position
    overflows a 64-bit integer: the wrapped end makes [make] panic. *)
Theorem KeyIndexes_panics_iff (argv : list slice) (H : argc argv <= 1000000) :
  KeyIndexes argv = Panic <->
  argv ≠ [] ∧ exists a n, numkeys_at (cmd_name argv) = Some a ∧ a + 1 < argc argv
    ∧ parse_int (arg argv (Z.to_nat a)) = Some n ∧ 2^63 - (a + 1) <= n.
Proof.
  destruct argv as [|a0 r]; [split; [done | by intros [? _]]|].
  rewrite KeyIndexes_nonempty by done.
  assert (forall a, numkeys_at (cmd_name (a0 :: r)) = Some a -> 0 <= a <= 2) as Hr.
  { intros a. unfold numkeys_at. repeat case_if; intros; simplify_eq; lia. }
  split.
  - intros (a & Ha & Hp). apply numkeysIdx_panics_iff in Hp as (Hlt & n & Hn); [|auto|lia].
    split; [done|]. exists a, n. tauto.
  - intros (_ & a & n & Ha & Hlt & Hn). exists a. split; [done|].
    apply numkeysIdx_panics_iff; [auto|lia|]. eauto.
Qed.

Lemma KeyIndexes_panics_iff_witness :
  let argv := cmd ["ZUNION"; "9223372036854775807"; "a"] in
  KeyIndexes argv = Panic <->
  argv ≠ [] ∧ exists a n, numkeys_at (cmd_name argv) = Some a ∧ a + 1 < argc argv
    ∧ parse_int (arg argv (Z.to_nat a)) = Some n ∧ 2^63 - (a + 1) <= n.
Proof. apply KeyIndexes_panics_iff. vm_compute. discriminate. Defined.
