(* ===== verification/VirtualDB.v ===== *)
(** * internal/command/db.go: virtual databases

    Database [N > 0] lives in the cluster's only database under the key prefix [dbN:].  The file
    models the prefixing of keys, the rewriting of whole commands and the stripping of prefixes
    from replies.  The main results: prefixing is injective over databases and keys (isolation),
    [StripKey] inverts it, [RewriteArgv] prefixes exactly the positions [KeyIndexes] reports, and
    a hash-tagged key keeps its slot in every database.

    Copies made with [append([]byte(nil), x...)] turn an empty slice into [nil], which is kept
    apart here ([cloneBytes]); [rewrite_loses_empty_argument] shows what that does on the wire. *)

From Stdlib Require Import ZArith Lia Strings.Byte Sorted.
From stdpp Require Import base list strings numbers option sets.
From S2P Require Import Prelude Resp RespTheory Slot Command.

(** [nil] for database 0 (only its length is ever used). *)
Definition DBPrefix (db : Z) : bytes :=
  if db <=? 0 then [] else B "db" ++ itoa db ++ B ":".

Fixpoint skip_digits (s : bytes) : bytes :=
  match s with
  | c :: s' => if is_digit c then skip_digits s' else s
  | [] => []
  end.

Definition HasVirtualDBPrefix (key : bytes) : bool :=
  if negb (has_prefix key (B "db")) then false
  else match drop 2 key with
  | [] => false
  | c :: _ =>
      if negb (is_digit c) then false
      else match skip_digits (drop 2 key) with
           | d :: _ => d ==b ":"%byte
           | [] => false
           end
  end.

Definition PrefixKey (db : Z) (key : slice) : slice :=
  match DBPrefix db with
  | [] => key
  | p => Some (p ++ content key)
  end.

Definition StripKey (db : Z) (key : slice) : slice :=
  let p := DBPrefix db in
  if (Z.of_nat (length p) =? 0) || negb (has_prefix (content key) p) then key
  else Some (drop (length p) (content key)).

Inductive dberr := errInvalidDB | errDBRange.

Definition ParseDBIndex (b : bytes) (max : Z) : dberr + Z :=
  let max := if max <=? 0 then 16 else max in
  match parse_int b with
  | None => inl errInvalidDB
  | Some n => if n <? 0 then inl errInvalidDB
              else if max <=? n then inl errDBRange else inr n
  end.

Definition InvalidDBError : value := RError (B "ERR invalid DB index").
Definition DBRangeError : value := RError (B "ERR DB index is out of range").

Definition DBIndexError (err : option dberr) : value :=
  match err with
  | None => zeroValue
  | Some errDBRange => DBRangeError
  | Some errInvalidDB => InvalidDBError
  end.

Definition NeedsDBRewrite (argv : list slice) : bool :=
  match argv with
  | [] => false
  | _ =>
    let name := cmd_name argv in
    if str_in name
         ["PING"; "ECHO"; "AUTH"; "QUIT"; "SELECT"; "HELLO"; "RESET";
          "MULTI"; "EXEC"; "DISCARD"; "UNWATCH";
          "CLUSTER"; "INFO"; "COMMAND"; "CONFIG"; "TIME"; "ROLE"; "LOLWUT";
          "CLIENT"; "READONLY"; "READWRITE"; "REPLICAOF"; "SLAVEOF"; "WAIT";
          "LATENCY"; "FLUSHALL"; "SWAPDB"] then false
    else if str_in name
         ["PUBLISH"; "SPUBLISH"; "SUBSCRIBE"; "SSUBSCRIBE";
          "UNSUBSCRIBE"; "SUNSUBSCRIBE"; "PSUBSCRIBE"; "PUNSUBSCRIBE"; "PUBSUB"] then false
    else true
  end.

Definition cloneBytes (s : slice) : slice :=
  match s with None => None | Some b => append_nil b end.

Definition cloneArgv (argv : list slice) : list slice := map cloneBytes argv.

(** [out[i] = PrefixKey(db, out[i])]; callers guard the range. *)
Definition prefix_at (db : Z) (out : list slice) (i : nat) : list slice :=
  alter (PrefixKey db) i out.

Fixpoint copy_opts (l : list slice) (destDB : Z) (replace : bool) : Z * bool :=
  match l with
  | [] => (destDB, replace)
  | a :: rest =>
      if EqualFoldASCII (content a) (B "REPLACE") then copy_opts rest destDB true
      else if EqualFoldASCII (content a) (B "DB") then
        match rest with
        | [] => (destDB, replace)
        | b :: rest' =>
            let destDB := match parse_int (content b) with
                          | Some n => if 0 <=? n then n else destDB
                          | None => destDB
                          end in
            copy_opts rest' destDB replace
        end
      else copy_opts rest destDB replace
  end.

Definition rewriteCOPY (argv : list slice) (db : Z) : list slice :=
  match argv with
  | a0 :: a1 :: a2 :: opts =>
      let '(destDB, replace) := copy_opts opts db false in
      [cloneBytes a0; PrefixKey db a1; PrefixKey destDB a2]
      ++ (if replace then [BS "REPLACE"] else [])
  | _ => cloneArgv argv
  end.

Definition rewriteSCAN (argv : list slice) (db : Z) : list slice :=
  let out := cloneArgv argv in
  match DBPrefix db with
  | [] => out
  | p => match find_fold (B "MATCH") (args_but_last out 2) 2 with
         | Some i => prefix_at db out (S i)
         | None => out ++ [BS "MATCH"; Some (p ++ B "*")]
         end
  end.

(** [if len(out) >= 2 { out[1] = PrefixKey(db, out[1]) }]. *)
Definition prefix_first (argv : list slice) (db : Z) : list slice :=
  let out := cloneArgv argv in
  if 2 <=? argc out then prefix_at db out 1 else out.

Definition rewriteKEYS (argv : list slice) (db : Z) : list slice := prefix_first argv db.
Definition rewriteMOVE (argv : list slice) (db : Z) : list slice := prefix_first argv db.

(** The option loop of [rewriteSORT] on the arguments from position 2. *)
Fixpoint sort_rewrite (l : list slice) (db : Z) : list slice :=
  match l with
  | a :: (b :: rest) as tl =>
      if EqualFoldASCII (content a) (B "BY") then
        a :: (if negb (EqualFoldASCII (content b) (B "nosort")) then PrefixKey db b else b)
        :: sort_rewrite rest db
      else if EqualFoldASCII (content a) (B "GET") then
        a :: (if negb (content b ==b B "#") then PrefixKey db b else b) :: sort_rewrite rest db
      else if EqualFoldASCII (content a) (B "STORE") then
        a :: PrefixKey db b :: sort_rewrite rest db
      else a :: sort_rewrite tl db
  | _ => l
  end.

Definition rewriteSORT (argv : list slice) (db : Z) : list slice :=
  let out := prefix_first argv db in take 2 out ++ sort_rewrite (drop 2 out) db.

Definition RewriteArgv (argv : list slice) (db : Z) : outcome (list slice) :=
  if (db <=? 0) || negb (NeedsDBRewrite argv) then Ret argv
  else
    let name := cmd_name argv in
    if name ==b B "COPY" then Ret (rewriteCOPY argv db)
    else if name ==b B "SCAN" then Ret (rewriteSCAN argv db)
    else if name ==b B "KEYS" then Ret (rewriteKEYS argv db)
    else if name ==b B "SORT" then Ret (rewriteSORT argv db)
    else if name ==b B "MOVE" then Ret (rewriteMOVE argv db)
    else
      let out := cloneArgv argv in
      idx ← KeyIndexes out;
      Ret (fold_left (fun o i => if Nat.ltb 0 i && Nat.ltb i (length o)
                                 then prefix_at db o i else o) idx out).

(** ** Replies that echo keys *)

Definition stripBulk (db : Z) (v : value) : value :=
  if vNull v || (negb (vType v ==b TypeBulkString) && negb (vType v ==b TypeSimpleString)) then v
  else BulkString (append_nil (content (StripKey db (vStr v)))).

Definition stripArrayOfKeys (db : Z) (v : value) : value :=
  if negb (vType v ==b TypeArray) || vNull v then v
  else Array (map (stripBulk db) (vValues v)).

Definition stripFirstArrayKey (db : Z) (v : value) : value :=
  if negb (vType v ==b TypeArray) || vNull v then v
  else match vValues v with
       | [] => v
       | x :: rest => Array (stripBulk db x :: rest)
       end.

Definition stripXRead (db : Z) (v : value) : value :=
  if negb (vType v ==b TypeArray) || vNull v then v
  else Array (map (fun stream =>
    match vValues stream with
    | x :: rest => if vType stream ==b TypeArray then Array (stripBulk db x :: rest) else stream
    | [] => stream
    end) (vValues v)).

Definition StripReplyKeys (name : bytes) (db : Z) (v : value) : value :=
  if (db <=? 0) || IsError v || vNull v then v
  else if str_in name ["KEYS"] then stripArrayOfKeys db v
  else if str_in name ["SCAN"] then
    match vValues v with
    | x :: y :: rest =>
        if vType v ==b TypeArray then Array (x :: stripArrayOfKeys db y :: rest) else v
    | _ => v
    end
  else if str_in name ["RANDOMKEY"] then stripBulk db v
  else if str_in name ["BLPOP"; "BRPOP"; "BZPOPMIN"; "BZPOPMAX"; "LMPOP"; "BLMPOP"; "ZMPOP"; "BZMPOP"]
  then stripFirstArrayKey db v
  else if str_in name ["XREAD"; "XREADGROUP"] then stripXRead db v
  else v.

Example rewrite_get : RewriteArgv (cmd ["get"; "foo"]) 4 = Ret (cmd ["get"; "db4:foo"]).
Proof. vm_refl. Qed.
Example rewrite_mset :
  RewriteArgv (cmd ["MSET"; "a"; "1"; "b"; "2"]) 4 = Ret (cmd ["MSET"; "db4:a"; "1"; "db4:b"; "2"]).
Proof. vm_refl. Qed.
Example rewrite_scan :
  RewriteArgv (cmd ["SCAN"; "0"]) 4 = Ret (cmd ["SCAN"; "0"; "MATCH"; "db4:*"]).
Proof. vm_refl. Qed.
Example rewrite_copy :
  RewriteArgv (cmd ["COPY"; "a"; "b"; "DB"; "2"; "REPLACE"]) 4
  = Ret (cmd ["COPY"; "db4:a"; "db2:b"; "REPLACE"]).
Proof. vm_refl. Qed.
Example rewrite_sort :
  RewriteArgv (cmd ["SORT"; "l"; "BY"; "nosort"; "GET"; "d*"; "STORE"; "r"]) 1
  = Ret (cmd ["SORT"; "db1:l"; "BY"; "nosort"; "GET"; "db1:d*"; "STORE"; "db1:r"]).
Proof. vm_refl. Qed.

(** ** Prefixes *)

Definition valid_db (db : Z) : Prop := 0 < db < 2^63.

Lemma DBPrefix_pos db : 0 < db -> DBPrefix db = B "db" ++ itoa db ++ B ":".
Proof. intros. unfold DBPrefix. destruct (db <=? 0) eqn:E; bool_simp; [lia|done]. Qed.

Lemma content_PrefixKey db key : content (PrefixKey db key) = DBPrefix db ++ content key.
Proof. unfold PrefixKey. by destruct (DBPrefix db). Qed.

Lemma PrefixKey_pos db key : 0 < db -> PrefixKey db key = Some (DBPrefix db ++ content key).
Proof. intros. unfold PrefixKey. by rewrite DBPrefix_pos. Qed.

Lemma itoa_no_colon z : ":"%byte ∉ itoa z.
Proof. by apply itoa_no. Qed.

Lemma split_at_inj {A} (c : A) a1 b1 a2 b2 :
  c ∉ a1 -> c ∉ a2 -> a1 ++ c :: b1 = a2 ++ c :: b2 -> a1 = a2 ∧ b1 = b2.
Proof.
  revert a2. induction a1 as [|x a1 IH]; intros [|y a2] H1 H2 E; simplify_eq/=; [done|..].
  - by rewrite not_elem_of_cons in H2; destruct H2.
  - by rewrite not_elem_of_cons in H1; destruct H1.
  - rewrite not_elem_of_cons in H1, H2. destruct H1 as [_ H1], H2 as [_ H2].
    by destruct (IH a2 H1 H2) as [-> ->].
Qed.

Lemma DBPrefix_inj d1 d2 k1 k2 :
  valid_db d1 -> valid_db d2 -> DBPrefix d1 ++ k1 = DBPrefix d2 ++ k2 -> d1 = d2 ∧ k1 = k2.
Proof.
  unfold valid_db. intros H1 H2. rewrite !DBPrefix_pos by lia. rewrite <- !app_assoc.
  intros E%(inj (app (B "db"))). apply split_at_inj in E as [E ->]; [|apply itoa_no_colon..].
  split; [|done]. apply itoa_inj in E; unfold in_int64; lia.
Qed.

Lemma StripKey_PrefixKey db key : content (StripKey db (PrefixKey db key)) = content key.
Proof.
  unfold StripKey. rewrite content_PrefixKey, has_prefix_app. cbn [negb]. rewrite orb_false_r.
  destruct (_ =? 0) eqn:E; bool_simp.
  - rewrite content_PrefixKey. by destruct (DBPrefix db).
  - cbn. by rewrite drop_app_length.
Qed.

Lemma skip_digits_app l c r :
  Forall (fun c => is_digit c = true) l -> is_digit c = false ->
  skip_digits (l ++ c :: r) = c :: r.
Proof. induction 1 as [|d l Hd _ IH]; intros Hc; cbn; [by rewrite Hc|]. rewrite Hd. auto. Qed.

Lemma HasVirtualDBPrefix_prefixed db k : 0 < db -> HasVirtualDBPrefix (DBPrefix db ++ k) = true.
Proof.
  intros H. rewrite DBPrefix_pos by done. unfold HasVirtualDBPrefix.
  rewrite <- !app_assoc, has_prefix_app. cbn [negb].
  change (drop 2 (B "db" ++ itoa db ++ B ":" ++ k)) with (itoa db ++ ":"%byte :: k).
  pose proof (itoa_nonneg_digits db ltac:(lia)) as Hd.
  rewrite skip_digits_app by done. pose proof (itoa_nonempty db) as Hne.
  destruct (itoa db) as [|c l]; [done|]. cbn [app]. apply Forall_inv in Hd. by rewrite Hd.
Qed.

(** ** Argument vectors up to nil-ness

    [command.go] only looks at the contents of arguments: [KeyIndexes] and its helpers give the
    same answer on vectors that differ in [nil] against empty. *)

Definition argv_equiv (a b : list slice) : Prop := map content a = map content b.

#[global] Instance argv_equiv_equivalence : Equivalence argv_equiv.
Proof. unfold argv_equiv. split; [done|by intros ??->|by intros ???->]. Qed.

Lemma argv_equiv_cons x a y b :
  argv_equiv (x :: a) (y :: b) <-> content x = content y ∧ argv_equiv a b.
Proof. unfold argv_equiv. cbn. split; [by intros [= ? ?] | by intros [-> ->]]. Qed.

Lemma argv_equiv_length a b : argv_equiv a b -> length a = length b.
Proof. intros H. apply (f_equal length) in H. by rewrite !length_map in H. Qed.

#[global] Instance argc_proper : Proper (argv_equiv ==> eq) argc.
Proof. intros a b H. unfold argc. by rewrite (argv_equiv_length a b). Qed.

#[global] Instance drop_proper i : Proper (argv_equiv ==> argv_equiv) (drop i).
Proof. intros a b H. unfold argv_equiv in *. by rewrite <- !skipn_map, H. Qed.

#[global] Instance take_proper i : Proper (argv_equiv ==> argv_equiv) (take i).
Proof. intros a b H. unfold argv_equiv in *. by rewrite <- !firstn_map, H. Qed.

#[global] Instance arg_proper : Proper (argv_equiv ==> eq ==> eq) arg.
Proof.
  intros a b H i ? <-. unfold arg. revert b i H. induction a as [|x a IH]; intros [|y b] i H; try done.
  apply argv_equiv_cons in H as [Hc H]. destruct i; [done|]. exact (IH b i H).
Qed.

#[global] Instance find_fold_proper tok : Proper (argv_equiv ==> eq ==> eq) (find_fold tok).
Proof.
  intros a b H i ? <-. revert b i H. induction a as [|x a IH]; intros [|y b] i H; try done.
  apply argv_equiv_cons in H as [Hc H]. cbn. rewrite Hc. case_if; [done|]. by apply IH.
Qed.

#[global] Instance args_but_last_proper : Proper (argv_equiv ==> eq ==> argv_equiv) args_but_last.
Proof.
  intros a b H i ? <-. unfold args_but_last. rewrite (argv_equiv_length a b H). by rewrite H.
Qed.

#[global] Instance store_go_proper : Proper (argv_equiv ==> eq ==> eq) store_go.
Proof.
  intros a b H i ? <-. revert b i H. induction a as [|x a IH]; intros [|y b] i H; try done.
  apply argv_equiv_cons in H as [Hc H]. cbn. rewrite Hc. f_equal. by apply IH.
Qed.

Lemma sort_go_equiv k a b i : (length a <= k)%nat -> argv_equiv a b -> sort_go a i = sort_go b i.
Proof.
  revert a b i. induction k as [|k IH]; intros a b i Hk H;
    (destruct a as [|x1 [|x2 a]]; destruct b as [|y1 [|y2 b]]; try done;
     try (by apply argv_equiv_length in H; cbn in H; lia)).
  - cbn in Hk. lia.
  - apply argv_equiv_cons in H as [H1 H]. pose proof H as H'. apply argv_equiv_cons in H as [H2 H].
    cbn in Hk. rewrite !sort_go_cons, H1, H2. rewrite (IH a b) by (done || lia).
    by rewrite (IH (x2 :: a) (y2 :: b)) by (done || cbn; lia).
Qed.

#[global] Instance sort_go_proper : Proper (argv_equiv ==> eq ==> eq) sort_go.
Proof. intros a b H i ? <-. by apply (sort_go_equiv (length a)). Qed.

#[global] Instance KeyIndexes_proper : Proper (argv_equiv ==> eq) KeyIndexes.
Proof.
  intros a b H. unfold KeyIndexes. destruct a as [|x a'] eqn:Ea, b as [|y b'] eqn:Eb; try done.
  rewrite <- Ea, <- Eb in *. clear Ea Eb.
  assert (cmd_name a = cmd_name b) as Hn by (unfold cmd_name; by rewrite H).
  pose proof (argc_proper a b H) as Hc.
  assert (forall i, arg a i = arg b i) as Ha by (intros i; by rewrite H).
  assert (forall tok i j, find_fold tok (drop i a) j = find_fold tok (drop i b) j) as Hf
    by (intros; by rewrite H).
  assert (forall tok i j, find_fold tok (args_but_last a i) j = find_fold tok (args_but_last b i) j)
    as Hf' by (intros; by rewrite H).
  assert (forall i, length (drop i a) = length (drop i b)) as Hd
    by (intros i; by rewrite !length_drop, (argv_equiv_length a b H)).
  assert (forall i j, sort_go (drop i a) j = sort_go (drop i b) j) as Hs by (intros; by rewrite H).
  assert (forall i j, store_go (args_but_last a i) j = store_go (args_but_last b i) j) as Ht
    by (intros; by rewrite H).
  assert (forall sp, indexesBySpec a sp = indexesBySpec b sp) as Hsp
    by (intros sp; unfold indexesBySpec; by rewrite Hc).
  assert (forall k, numkeysIdx a k = numkeysIdx b k) as Hnk
    by (intros k; unfold numkeysIdx; by rewrite Hc, Ha).
  assert (xreadKeyIdx a = xreadKeyIdx b) as Hx.
  { unfold xreadKeyIdx. rewrite Hf. destruct (find_fold _ _ _); [by rewrite Hd|done]. }
  cbv zeta. rewrite Hx, Hn, !Hnk, Hsp, Ha, Hc.
  unfold evalKeyIdx, migrateKeyIdx, destNumkeysIdx, scanMatchIdx, sortKeyIdx, storeOptionIdx.
  rewrite Hc, !Ha, Hf, Hf', Hnk, Hs, Ht.
  destruct (table_get (cmd_name b)) as [m|]; [by rewrite Hsp|done].
Qed.

(** ** Rewriting a command *)

Lemma content_cloneBytes a : content (cloneBytes a) = content a.
Proof. by destruct a as [[|c b]|]. Qed.

Lemma cloneArgv_equiv argv : argv_equiv (cloneArgv argv) argv.
Proof.
  unfold argv_equiv, cloneArgv. rewrite map_map. apply map_ext, content_cloneBytes.
Qed.

Lemma PrefixKey_cloneBytes db a : 0 < db -> PrefixKey db (cloneBytes a) = PrefixKey db a.
Proof. intros. by rewrite !PrefixKey_pos, content_cloneBytes. Qed.

(** The reference rewriting: prefix the arguments at the positions [idx], copy the others. *)
Definition prefixed_argv (db : Z) (idx : list nat) (argv : list slice) : list slice :=
  imap (fun i a => if bool_decide (i ∈ idx) then PrefixKey db a else cloneBytes a) argv.

Lemma prefixed_argv_lookup db idx argv j :
  prefixed_argv db idx argv !! j
  = (fun a => if bool_decide (j ∈ idx) then PrefixKey db a else cloneBytes a) <$> argv !! j.
Proof. unfold prefixed_argv. by rewrite list_lookup_imap. Qed.

Lemma prefix_at_lookup db out i j :
  prefix_at db out i !! j = if decide (i = j) then PrefixKey db <$> out !! j else out !! j.
Proof.
  unfold prefix_at. destruct (decide (i = j)) as [->|].
  - by rewrite list_lookup_alter_eq.
  - by rewrite list_lookup_alter_ne.
Qed.

Lemma fold_prefix_lookup db idx out j :
  StronglySorted lt idx -> Forall (fun i => (1 <= i < length out)%nat) idx ->
  fold_left (fun o i => if Nat.ltb 0 i && Nat.ltb i (length o) then prefix_at db o i else o) idx out
    !! j
  = if bool_decide (j ∈ idx) then PrefixKey db <$> out !! j else out !! j.
Proof.
  intros Hs. revert out. induction Hs as [|i idx Hs IH Hi]; intros out Hf; [done|].
  apply list.Forall_cons in Hf as [Hi' Hf]. cbn [fold_left].
  rewrite (proj2 (Nat.ltb_lt 0 i)), (proj2 (Nat.ltb_lt i (length out))) by lia. cbn [andb].
  rewrite IH; [|unfold prefix_at; by rewrite length_alter]. rewrite prefix_at_lookup.
  rewrite list.Forall_forall in Hi.
  destruct (decide (i = j)) as [->|Hne].
  - rewrite bool_decide_false; [|intros Hin; apply Hi in Hin; lia].
    by rewrite bool_decide_true by (by left).
  - destruct (decide (j ∈ idx)) as [Hin|Hin].
    + rewrite !bool_decide_true; [done|by right|done].
    + rewrite !bool_decide_false; [done| |done]. rewrite not_elem_of_cons. intuition.
Qed.

Lemma list_eq_prefixed db idx argv out :
  0 < db ->
  (forall j, out !! j = if bool_decide (j ∈ idx) then PrefixKey db <$> cloneArgv argv !! j
                        else cloneArgv argv !! j) ->
  out = prefixed_argv db idx argv.
Proof.
  intros Hdb H. apply list_eq. intros j. rewrite H, prefixed_argv_lookup. unfold cloneArgv.
  rewrite list_lookup_fmap. destruct (argv !! j) as [a|]; cbn; case_bool_decide; try done.
  by rewrite PrefixKey_cloneBytes.
Qed.

Lemma rewrite_generic db argv idx :
  0 < db -> KeyIndexes argv = Ret idx ->
  (idx ← KeyIndexes (cloneArgv argv);
   Ret (fold_left (fun o i => if Nat.ltb 0 i && Nat.ltb i (length o)
                              then prefix_at db o i else o) idx (cloneArgv argv)))
  = Ret (prefixed_argv db idx argv).
Proof.
  intros Hdb H. rewrite (KeyIndexes_proper _ _ (cloneArgv_equiv argv)), H. cbn. f_equal.
  apply KeyIndexes_idx_ok in H as [Hs Hf]. apply list_eq_prefixed; [done|]. intros j.
  apply fold_prefix_lookup; [done|]. unfold cloneArgv. by rewrite length_map.
Qed.

Lemma prefix_first_spec db argv :
  0 < db -> prefix_first argv db = prefixed_argv db (if 2 <=? argc argv then [1%nat] else []) argv.
Proof.
  intros Hdb. apply list_eq_prefixed; [done|]. intros j. unfold prefix_first.
  assert (argc (cloneArgv argv) = argc argv) as ->
    by (unfold argc, cloneArgv; by rewrite length_map).
  case_if; [|done]. rewrite prefix_at_lookup.
  destruct (decide (1%nat = j)) as [<-|]; [done|]. rewrite bool_decide_false; [done|].
  by intros ->%list_elem_of_singleton.
Qed.

(** The option loop of SORT prefixes exactly the positions [sort_go] reports. *)
Lemma sort_rewrite_cons a b l db :
  sort_rewrite (a :: b :: l) db =
  if EqualFoldASCII (content a) (B "BY") then
    a :: (if negb (EqualFoldASCII (content b) (B "nosort")) then PrefixKey db b else b)
    :: sort_rewrite l db
  else if EqualFoldASCII (content a) (B "GET") then
    a :: (if negb (content b ==b B "#") then PrefixKey db b else b) :: sort_rewrite l db
  else if EqualFoldASCII (content a) (B "STORE") then a :: PrefixKey db b :: sort_rewrite l db
  else a :: sort_rewrite (b :: l) db.
Proof. done. Qed.

Definition prefix_from (db : Z) (idx : list nat) (i : nat) (l : list slice) : list slice :=
  imap (fun k a => if bool_decide ((i + k)%nat ∈ idx) then PrefixKey db a else a) l.

Lemma prefix_from_cons db idx i a l :
  prefix_from db idx i (a :: l)
  = (if bool_decide (i ∈ idx) then PrefixKey db a else a) :: prefix_from db idx (S i) l.
Proof.
  unfold prefix_from. cbn. rewrite Nat.add_0_r. f_equal. apply imap_ext. intros k x _. cbn.
  by rewrite Nat.add_succ_r.
Qed.

Lemma prefix_from_skip db idx idx' i l :
  (forall j, (i <= j)%nat -> j ∈ idx <-> j ∈ idx') -> prefix_from db idx i l = prefix_from db idx' i l.
Proof.
  intros H. unfold prefix_from. apply imap_ext. intros k x _.
  specialize (H (i + k)%nat ltac:(lia)). do 2 case_bool_decide; tauto.
Qed.

Lemma sort_go_above l i j : j ∈ sort_go l i -> (i < j)%nat.
Proof.
  intros H. destruct (sort_go_ok (length l) l i (le_n _)) as [_ F].
  rewrite list.Forall_forall in F. apply F in H. lia.
Qed.

Lemma sort_rewrite_spec k db l i :
  (length l <= k)%nat -> sort_rewrite l db = prefix_from db (sort_go l i) i l.
Proof.
  revert l i. induction k as [|k IH]; intros l i Hk;
    (destruct l as [|a [|b l]]; [done| |]); try (cbn in Hk; lia).
  { rewrite prefix_from_cons, bool_decide_false; [done|]. cbn. apply not_elem_of_nil. }
  cbn in Hk.
  assert (forall P : bool,
    a :: (if P then PrefixKey db b else b) :: sort_rewrite l db
    = prefix_from db ((if P then [S i] else []) ++ sort_go l (S (S i))) i (a :: b :: l)) as Hopt.
  { intros P. rewrite !prefix_from_cons, (IH l (S (S i))) by lia.
    rewrite (bool_decide_false (i ∈ _)).
    2: { rewrite elem_of_app. intros [Hin|Hin%sort_go_above]; [|lia].
         destruct P; [apply list_elem_of_singleton in Hin; lia | by apply elem_of_nil in Hin]. }
    assert (bool_decide (S i ∈ (if P then [S i] else []) ++ sort_go l (S (S i))) = P) as ->.
    { destruct P; [by apply bool_decide_true; left|]. apply bool_decide_false. cbn.
      intros Hin%sort_go_above. lia. }
    do 2 f_equal. apply prefix_from_skip. intros j Hj. rewrite elem_of_app.
    split; [by right|]. intros [Hin|]; [|done].
    destruct P; [apply list_elem_of_singleton in Hin; lia | by apply elem_of_nil in Hin]. }
  rewrite sort_rewrite_cons, sort_go_cons. repeat (case_if; [by rewrite <- Hopt; try case_if|]).
  1: case_if; [apply (Hopt true)|].
  rewrite prefix_from_cons, bool_decide_false by (intros Hin%sort_go_above; lia).
  f_equal. apply IH. cbn. lia.
Qed.

Lemma rewriteSORT_spec db argv :
  0 < db -> rewriteSORT argv db = prefixed_argv db (sortKeyIdx argv) argv.
Proof.
  intros Hdb. unfold rewriteSORT, sortKeyIdx, prefix_first, cloneArgv, argc.
  rewrite length_map. destruct argv as [|a0 [|a1 l]]; [done..|].
  assert ((2 <=? Z.of_nat (length (a0 :: a1 :: l))) = true) as -> by (apply Z.leb_le; cbn; lia).
  cbn [prefix_at alter list_alter map take drop app].
  rewrite !drop_0, take_0. cbn [app]. rewrite (sort_rewrite_spec _ _ _ 2 (le_n _)).
  rewrite (sort_go_proper (map cloneBytes l) l (cloneArgv_equiv l) 2%nat 2%nat eq_refl).
  unfold prefixed_argv. cbn [imap compose].
  rewrite bool_decide_false by (intros [?|Hin%sort_go_above]%elem_of_cons; lia).
  rewrite bool_decide_true by (by left).
  rewrite PrefixKey_cloneBytes by done. do 2 f_equal.
  unfold prefix_from. change (map cloneBytes l) with (cloneBytes <$> l). rewrite imap_fmap.
  apply imap_ext. intros k a _. cbn. rewrite PrefixKey_cloneBytes by done.
  assert (forall A (x y : A), (if bool_decide (S (S k) ∈ 1%nat :: sort_go l 2) then x else y)
    = if bool_decide (S (S k) ∈ sort_go l 2) then x else y) as E; [|by rewrite E].
  intros A x y. assert (S (S k) ∈ 1%nat :: sort_go l 2 <-> S (S k) ∈ sort_go l 2) as E
    by (rewrite elem_of_cons; intuition lia). by rewrite (bool_decide_ext _ _ E).
Qed.

(** SCAN prefixes its MATCH pattern, or adds the pattern of the whole database. *)
Lemma rewriteSCAN_spec db argv :
  0 < db ->
  rewriteSCAN argv db
  = prefixed_argv db (scanMatchIdx argv) argv
    ++ (if bool_decide (scanMatchIdx argv = []) then [BS "MATCH"; Some (DBPrefix db ++ B "*")] else []).
Proof.
  intros Hdb. unfold rewriteSCAN, scanMatchIdx. 
  rewrite (find_fold_proper _ _ _ (args_but_last_proper _ _ (cloneArgv_equiv argv) 2%nat 2%nat eq_refl)
    2%nat 2%nat eq_refl).
  destruct (find_fold _ _ _) as [i|].
  - rewrite (bool_decide_false ([S i] = [])), app_nil_r by done. rewrite DBPrefix_pos by done. change (B "db") with ["d"; "b"]%byte. cbn [app].
    apply list_eq_prefixed; [done|]. intros j. rewrite prefix_at_lookup.
    destruct (decide (S i = j)) as [<-|]; [by rewrite bool_decide_true by set_solver|].
    by rewrite bool_decide_false by set_solver.
  - rewrite (bool_decide_true ([] = [])) by done. rewrite DBPrefix_pos by done. change (B "db") with ["d"; "b"]%byte. cbn [app]. f_equal.
    apply list_eq_prefixed; [done|]. intros j. by rewrite bool_decide_false by set_solver.
Qed.

Lemma KeyIndexes_of_name argv name :
  argv ≠ [] -> cmd_name argv = B name ->
  (name = "KEYS" -> KeyIndexes argv = Ret (if 2 <=? argc argv then [1%nat] else []))
  ∧ (name = "SCAN" -> KeyIndexes argv = Ret (scanMatchIdx argv))
  ∧ (name = "SORT" -> KeyIndexes argv = Ret (sortKeyIdx argv))
  ∧ (name = "MOVE" -> KeyIndexes argv = Ret (if 2 <=? argc argv then [1%nat] else [])).
Proof.
  intros Hne Hn. unfold KeyIndexes. destruct argv as [|a0 r] eqn:Ea; [done|]. rewrite <- Ea in *.
  cbv zeta. rewrite Hn. split_and!; intros ->; eval_tests; cbv iota; [by case_if|done|done|].
  assert (exists m, table_get (B "MOVE") = Some m ∧ mKeys m = spec 1 1 1) as (m & -> & Hm)
    by (eexists; split; [vm_refl|done]).
  rewrite Hm. cbn [spec ksFirst]. change (1 =? 0) with false. cbv iota. f_equal.
  unfold indexesBySpec, spec. cbn [ksFirst ksLast ksStep].
  change (1 <=? 0) with false. change (1 =? 0) with false. change (1 <? 0) with false.
  change (1 <? 1) with false. cbv zeta iota. change (1 <? 0) with false. cbv iota.
  destruct (argc argv <=? 1) eqn:E1, (2 <=? argc argv) eqn:E2; bool_simp; try lia; done.
Qed.

(** What [RewriteArgv] does to a command other than COPY, as a function of its key positions. *)
Definition rewritten (db : Z) (idx : list nat) (argv : list slice) : list slice :=
  prefixed_argv db idx argv
  ++ (if (cmd_name argv ==b B "SCAN") && bool_decide (idx = [])
      then [BS "MATCH"; Some (DBPrefix db ++ B "*")] else []).

Lemma RewriteArgv_rewritten db argv idx :
  0 < db -> NeedsDBRewrite argv = true -> cmd_name argv ≠ B "COPY" ->
  KeyIndexes argv = Ret idx -> RewriteArgv argv db = Ret (rewritten db idx argv).
Proof.
  intros Hdb Hn Hc Hk. unfold RewriteArgv, rewritten. rewrite Hn.
  assert (argv ≠ []) as Hne by (by destruct argv).
  rewrite (proj2 (Z.leb_gt db 0)) by lia. cbn [orb negb]. cbv zeta iota.
  rewrite (bool_decide_false (cmd_name argv = B "COPY")) by done.
  destruct (decide (cmd_name argv = B "SCAN")) as [E|E].
  { rewrite (bool_decide_true (cmd_name argv = B "SCAN")) by done. cbn [andb].
    rewrite rewriteSCAN_spec by done. rewrite (proj1 (proj2 (KeyIndexes_of_name _ _ Hne E))) in Hk by done.
    by simplify_eq. }
  rewrite (bool_decide_false (cmd_name argv = B "SCAN")) by done. cbn [andb]. rewrite app_nil_r.
  case_bool_decide as E1.
  { f_equal. unfold rewriteKEYS. rewrite prefix_first_spec by done. f_equal.
    destruct (KeyIndexes_of_name _ _ Hne E1) as (E' & _). rewrite E' in Hk by done. by simplify_eq. }
  case_bool_decide as E2.
  { f_equal. rewrite rewriteSORT_spec by done. f_equal.
    destruct (KeyIndexes_of_name _ _ Hne E2) as (_ & _ & E' & _). rewrite E' in Hk by done. by simplify_eq. }
  case_bool_decide as E3.
  { f_equal. unfold rewriteMOVE. rewrite prefix_first_spec by done. f_equal.
    destruct (KeyIndexes_of_name _ _ Hne E3) as (_ & _ & _ & E'). rewrite E' in Hk by done. by simplify_eq. }
  by apply rewrite_generic.
Qed.

(** ** Keys of a rewritten command *)

(** Commands whose key positions depend only on their name and length: the table entries that
    [KeyIndexes] does not treat specially. *)
Definition positional (name : bytes) : bool :=
  negb (str_in name ["EVAL"; "EVALSHA"; "EVAL_RO"; "EVALSHA_RO"; "XREAD"; "XREADGROUP"; "MIGRATE";
                     "LMPOP"; "ZMPOP"; "SINTERCARD"; "BLMPOP"; "BZMPOP"; "ZUNIONSTORE"; "ZINTERSTORE";
                     "ZDIFFSTORE"; "ZUNION"; "ZINTER"; "ZDIFF"; "MEMORY"; "SCAN"; "SORT";
                     "GEORADIUS"; "GEORADIUSBYMEMBER"; "COPY"]).

Lemma str_in_false_sub name l1 l2 :
  str_in name l2 = false -> (forall x, In x l1 -> In x l2) -> str_in name l1 = false.
Proof.
  intros H Hsub. destruct (str_in name l1) eqn:E; [|done].
  apply str_in_true in E as (x & Hx & ->). rewrite <- H. symmetry. unfold str_in.
  apply existsb_exists. exists x. split; [auto|]. by apply bool_decide_eq_true.
Qed.

Lemma KeyIndexes_positional a b :
  positional (cmd_name a) = true -> cmd_name a = cmd_name b -> length a = length b ->
  KeyIndexes a = KeyIndexes b.
Proof.
  unfold positional. intros Hp Hn Hl. apply negb_true_iff in Hp.
  destruct a as [|a0 ra] eqn:Ea, b as [|b0 rb] eqn:Eb; try done.
  rewrite <- Ea, <- Eb in *. unfold KeyIndexes. rewrite Ea at 1. rewrite Eb at 1. cbv zeta.
  rewrite <- Hn.
  repeat match goal with
  | |- context [str_in (cmd_name a) ?l] =>
      match l with ["KEYS"] => fail 1 | _ =>
        rewrite (str_in_false_sub _ l _ Hp) by (simpl; tauto) end
  end.
  unfold indexesBySpec, argc. by rewrite Hl.
Qed.

Lemma cmd_name_prefixed db idx argv : 0%nat ∉ idx -> cmd_name (prefixed_argv db idx argv) = cmd_name argv.
Proof.
  intros H. unfold cmd_name. destruct argv as [|a l]; [done|]. unfold arg. cbn.
  rewrite bool_decide_false by done. by rewrite content_cloneBytes.
Qed.

Lemma length_prefixed db idx argv : length (prefixed_argv db idx argv) = length argv.
Proof. unfold prefixed_argv. by rewrite length_imap. Qed.

Lemma idx_ok_no_zero hi idx : idx_ok 1 hi idx -> 0%nat ∉ idx.
Proof. intros [_ F] H. rewrite list.Forall_forall in F. apply F in H. lia. Qed.

Lemma Forall2_prefixed db all idx argv keys :
  Forall (fun i => i ∈ all) idx ->
  Forall2 (fun i k => argv !! i = Some k) idx keys ->
  mapM (index (prefixed_argv db all argv)) idx = Ret (map (PrefixKey db) keys).
Proof.
  intros Hf. induction 1 as [|i k idx keys Hi _ IH]; [done|].
  apply list.Forall_cons in Hf as [Ha Hf]. cbn [mapM map].
  assert (index (prefixed_argv db all argv) i = Ret (PrefixKey db k)) as ->.
  { unfold index. rewrite prefixed_argv_lookup, Hi. cbn. by rewrite bool_decide_true. }
  cbn. by rewrite (IH Hf).
Qed.

(** Rewriting and then extracting the keys prefixes the keys. *)
Lemma ExtractKeys_rewritten db argv keys :
  0 < db -> NeedsDBRewrite argv = true -> positional (cmd_name argv) = true ->
  ExtractKeys argv = Ret keys ->
  exists out, RewriteArgv argv db = Ret out ∧ ExtractKeys out = Ret (map (PrefixKey db) keys).
Proof.
  intros Hdb Hn Hp He. unfold ExtractKeys in He.
  destruct (KeyIndexes argv) as [idx|] eqn:Hk; [|done]. cbn in He.
  pose proof (KeyIndexes_idx_ok _ _ Hk) as Hok.
  assert (str_in (cmd_name argv) ["SCAN"; "COPY"] = false) as Hsc.
  { apply negb_true_iff in Hp. eapply str_in_false_sub; [exact Hp|]. simpl. tauto. }
  assert (cmd_name argv ≠ B "COPY" ∧ cmd_name argv ≠ B "SCAN") as [Hc Hs]
    by (split; intros E; by rewrite E in Hsc).
  exists (rewritten db idx argv). split; [by apply RewriteArgv_rewritten|].
  unfold rewritten. rewrite (bool_decide_false (_ = B "SCAN")) by done. cbn [andb].
  rewrite app_nil_r. unfold ExtractKeys.
  pose proof (cmd_name_prefixed db _ argv (idx_ok_no_zero _ _ Hok)) as Hname.
  rewrite <- (KeyIndexes_positional argv); [|done|by rewrite Hname|by rewrite length_prefixed].
  rewrite Hk. cbn. destruct (ExtractKeys_of_idx _ _ Hk) as (ks & He' & F).
  unfold ExtractKeys in He'. rewrite Hk in He'. cbn in He'. rewrite He in He'. simplify_eq.
  apply Forall2_prefixed; [|done]. by apply list.Forall_forall.
Qed.

(** A prefix without the opening delimiter does not move a hash-tagged key. *)
Lemma tagged_app op cl p key tag : op ∉ p -> tagged op cl key tag -> tagged op cl (p ++ key) tag.
Proof.
  intros Hp (pre & post & -> & Hpre & Ht & Hne). exists (p ++ pre), post.
  rewrite <- app_assoc. split_and!; [done| |done..]. rewrite elem_of_app. tauto.
Qed.

Lemma stripBulk_prefixed db k :
  k ≠ [] -> stripBulk db (BulkString (Some (DBPrefix db ++ k))) = BulkString (Some k).
Proof.
  intros Hk. unfold stripBulk. cbn. pose proof (StripKey_PrefixKey db (Some k)) as H.
  assert (content (StripKey db (Some (DBPrefix db ++ k))) = k) as ->; [|by destruct k].
  unfold StripKey in *. rewrite content_PrefixKey in H. cbn [content] in *.
  destruct (_ || _) eqn:E in *; cbn in *; [|done].
  apply orb_true_iff in E as [E|E]; bool_simp; [by destruct (DBPrefix db)|].
  by rewrite has_prefix_app in E.
Qed.

Lemma EncodeCommand_nil argv j :
  argv !! j = Some None ->
  exists pre post, EncodeCommand [] argv = pre ++ B "$-1" ++ CRLF ++ post.
Proof.
  intros Hl. apply list_elem_of_lookup_2, list_elem_of_split in Hl as (l1 & l2 & ->).
  unfold EncodeCommand, CommandArray, Array. cbn [Encode]. eval_tests. cbn [orb].
  change (0 <? Z.of_nat (length (@nil byte))) with false. cbv iota.
  rewrite fold_Encode_encs, map_app. unfold encs. rewrite map_app, concat_app.
  set (h := appendCRLF _). exists (h ++ encs (map BulkString l1)), (encs (map BulkString l2)).
  cbn [map concat]. change (enc (BulkString None)) with (B "$-1" ++ CRLF).
  by rewrite <- !app_assoc.
Qed.

(** ** Properties *)





(** Routing sees the client's keys, prefixed.  For every command whose key positions come
    from the command table, the keys extracted from the rewritten command are the prefixed keys
    of the original one, in order. *)
Theorem rewritten_keys (db : Z) (argv keys : list slice)
  (Hdb : 0 < db) (Hn : NeedsDBRewrite argv = true) (Hp : positional (cmd_name argv) = true)
  (He : ExtractKeys argv = Ret keys) :
  exists out, RewriteArgv argv db = Ret out ∧ ExtractKeys out = Ret (map (PrefixKey db) keys).
Proof. by apply ExtractKeys_rewritten. Qed.

Lemma rewritten_keys_witness :
  exists out, RewriteArgv (cmd ["MSET"; "a"; "1"; "b"; "2"]) 3 = Ret out
              ∧ ExtractKeys out = Ret (map (PrefixKey 3) (cmd ["a"; "b"])).
Proof. apply rewritten_keys; [lia|vm_refl..]. Defined.

(** Hash tags survive.  A key with a hash tag has the same slot in every database, so keys
    that a client co-locates with a tag stay co-located; the opening delimiter must not be a
    byte that occurs in the prefix itself. *)
Theorem prefix_keeps_slot (op cl : byte) (db : Z) (key tag : bytes)
  (Ht : tagged op cl key tag) (Hop : op ∉ DBPrefix db) :
  KeySlot (content (PrefixKey db (Some key))) op cl = KeySlot key op cl.
Proof.
  unfold KeySlot. rewrite content_PrefixKey. change (content (Some key)) with key.
  by rewrite (HashTag_tagged op cl _ tag (tagged_app op cl _ _ _ Hop Ht)),
    (HashTag_tagged op cl key tag Ht).
Qed.

Lemma prefix_keeps_slot_witness :
  KeySlot (content (PrefixKey 12 (Some (B "{u1}:name")))) "{" "}" = KeySlot (B "{u1}:name") "{" "}".
Proof.
  apply (prefix_keeps_slot "{" "}" 12 (B "{u1}:name") (B "u1")).
  - exists [], (B ":name"). split_and!; [vm_refl|apply not_elem_of_nil| |done].
    apply (bool_decide_eq_true_1 _). vm_refl.
  - apply (bool_decide_eq_true_1 _). vm_refl.
Defined.

(** Replies come back in the client's name space.  When the backend answers KEYS (or the
    second element of SCAN) with the prefixed forms of non-empty keys, the client receives the
    unprefixed keys in the same order. *)
Theorem StripReplyKeys_undoes_prefix (db : Z) (cursor : value) (keys : list bytes)
  (Hdb : 0 < db) (Hne : Forall (fun k => k ≠ []) keys) :
  let backend := Array (map (fun k => BulkString (Some (DBPrefix db ++ k))) keys) in
  let client := Array (map (fun k => BulkString (Some k)) keys) in
  StripReplyKeys (B "KEYS") db backend = client
  ∧ StripReplyKeys (B "SCAN") db (Array [cursor; backend]) = Array [cursor; client].
Proof.
  cbv zeta. assert (map (stripBulk db) (map (fun k => BulkString (Some (DBPrefix db ++ k))) keys)
    = map (fun k => BulkString (Some k)) keys) as E.
  { rewrite map_map. induction Hne as [|k keys Hk _ IH]; [done|]. cbn [map].
    by rewrite stripBulk_prefixed, IH by done. }
  unfold StripReplyKeys. rewrite (proj2 (Z.leb_gt db 0)) by lia. cbn [orb].
  rewrite <- E. split; reflexivity.
Qed.

Lemma StripReplyKeys_undoes_prefix_witness :
  StripReplyKeys (B "KEYS") 2 (Array (map (fun k => BulkString (Some (DBPrefix 2 ++ k))) [B "a"; B "db2:"]))
  = Array (map (fun k => BulkString (Some k)) [B "a"; B "db2:"]).
Proof. apply (StripReplyKeys_undoes_prefix 2 zeroValue [B "a"; B "db2:"]); [lia|by repeat constructor]. Defined.

(** Empty arguments are lost in a database above 0.  An argument outside the key positions
    that is the empty string is rewritten to a nil slice, and a command frame carries a nil
    slice as the null bulk [$-1] instead of [$0]. *)
Theorem rewrite_loses_empty_argument (db : Z) (argv out : list slice) (idx : list nat) (j : nat)
  (Hdb : 0 < db) (Hn : NeedsDBRewrite argv = true) (Hc : cmd_name argv ≠ B "COPY")
  (Hk : KeyIndexes argv = Ret idx) (Hj : argv !! j = Some (Some [])) (Hnk : j ∉ idx)
  (Ho : RewriteArgv argv db = Ret out) :
  exists pre post, EncodeCommand [] out = pre ++ B "$-1" ++ CRLF ++ post.
Proof.
  rewrite (RewriteArgv_rewritten db argv idx) in Ho by done. simplify_eq.
  assert (rewritten db idx argv !! j = Some None) as Hl.
  { unfold rewritten. rewrite lookup_app_l by (rewrite length_prefixed; by eapply lookup_lt_Some).
    rewrite prefixed_argv_lookup, Hj. cbn. by rewrite bool_decide_false. }
  apply (EncodeCommand_nil _ _ Hl).
Qed.

Lemma rewrite_loses_empty_argument_witness :
  exists pre post,
    EncodeCommand [] [BS "SET"; BS "db1:k"; None] = pre ++ B "$-1" ++ CRLF ++ post.
Proof.
  apply (rewrite_loses_empty_argument 1 [BS "SET"; BS "k"; Some []] _ [1%nat] 2%nat);
    [lia|vm_refl|by vm_compute|vm_refl|done| |vm_refl].
  apply (bool_decide_eq_true_1 _). vm_refl.
Defined.
