(* ===== verification/Fanout.v ===== *)
(** * internal/command/fanout.go and session.cmdFanout: multi-key commands over several slots

    MGET, MSET, DEL, UNLINK, EXISTS and TOUCH whose keys live in several slots are split into one
    command per slot, sent concurrently, and the replies are merged.  The file models the
    grouping, the rebuilt commands, the merges and the session's fan-out itself, with the
    completion order of the concurrent sub-commands as an explicit argument.

    The router is a parameter ([Exec]); what is assumed of the servers behind it is the class
    [StringStore]: the documented effect of the six commands on keys of one slot.  Against it the
    fan-out is proved equal to the command executed on the whole key space, whatever the
    completion order. *)

From Stdlib Require Import ZArith Lia Strings.Byte Sorted Permutation.
From stdpp Require Import base list strings numbers option sets gmap fin_maps.
From S2P Require Import Prelude Resp RespTheory Slot Command VirtualDB.

(** The indexes come from ranging over a list: they are never negative. *)
Record KeyGroup := mkKeyGroup { gSlot : Z; gIndex : list nat }.

(** One iteration of the loop of [GroupBySlot]: [order] and [bySlot]. *)
Definition group_step (slotFn : bytes -> Z) (st : list Z * gmap Z (list nat)) (ik : nat * slice) :
  list Z * gmap Z (list nat) :=
  let '(order, bySlot) := st in
  let s := slotFn (content ik.2) in
  let order := match bySlot !! s with Some _ => order | None => order ++ [s] end in
  (order, <[s := default [] (bySlot !! s) ++ [ik.1]]> bySlot).

Definition GroupBySlot (keys : list slice) (slotFn : bytes -> Z) : list KeyGroup :=
  match keys with
  | [] => []
  | _ =>
      let '(order, bySlot) := fold_left (group_step slotFn) (imap pair keys) ([], ∅) in
      map (fun s => mkKeyGroup s (default [] (bySlot !! s))) order
  end.

(** The arguments contributed by the key number [ki]. *)
Definition fanout_args (argv : list slice) (idx : list nat) (mset : bool) (ki : nat) :
  outcome (list slice) :=
  match idx !! ki with
  | None => Ret []
  | Some ai =>
      k ← index argv ai;
      if mset && Nat.ltb (ai + 1) (length argv)
      then v ← index argv (ai + 1); Ret [k; v]
      else Ret [k]
  end.

Definition RebuildFanoutArgv (argv : list slice) (g : KeyGroup) : outcome (list slice) :=
  match argv with
  | [] => Ret []
  | a0 :: _ =>
      idx ← KeyIndexes argv;
      parts ← mapM (fanout_args argv idx (FanoutOf argv ==b FanoutMSet)) (gIndex g);
      Ret (a0 :: concat parts)
  end.

Fixpoint merge_sum (replies : list value) (sum : Z) : value :=
  match replies with
  | [] => Integer sum
  | r :: rest =>
      if IsError r then r
      else if negb (vType r ==b TypeInteger) then RError (B "ERR fan-out expected integer reply")
      else merge_sum rest (wrap64 (sum + vInt r))
  end.

Definition MergeSum (replies : list value) : value := merge_sum replies 0.

Fixpoint MergeMSet (replies : list value) : value :=
  match replies with
  | [] => SimpleString (B "OK")
  | r :: rest => if IsError r then r else MergeMSet rest
  end.

Definition mget_mismatch : value := RError (B "ERR fan-out MGET reply length mismatch").

(** [for j, ki := range g.Index { if ki >= 0 && ki < nKeys { out[ki] = r.Values[j] } }]: [out] has
    length [nKeys], and inserting out of range changes nothing. *)
Definition mget_fill (out : list value) (index : list nat) (vs : list value) : list value :=
  fold_left (fun o kv => <[kv.1 := kv.2]> o) (zip index vs) out.

Fixpoint mget_merge (out : list value) (l : list (KeyGroup * value)) : value :=
  match l with
  | [] => Array out
  | (g, r) :: rest =>
      if IsError r then r
      else if negb (vType r ==b TypeArray) || vNull r
              || negb (Nat.eqb (length (vValues r)) (length (gIndex g)))
      then mget_mismatch
      else mget_merge (mget_fill out (gIndex g) (vValues r)) rest
  end.

Definition MergeMGet (nKeys : Z) (groups : list KeyGroup) (replies : list value) : value :=
  let nKeys := if nKeys <? 0 then 0 else nKeys in
  let out := repeat NullBulk (Z.to_nat nKeys) in
  if negb (Nat.eqb (length groups) (length replies)) then mget_mismatch
  else mget_merge out (zip groups replies).

Example group_example :
  GroupBySlot (cmd ["a"; "b"; "c"; "{a}1"]) (fun k => KeySlot k "{" "}")
  = [mkKeyGroup 15495 [0; 3]%nat; mkKeyGroup 3300 [1]%nat; mkKeyGroup 7365 [2]%nat].
Proof. vm_refl. Qed.
Example rebuild_example :
  RebuildFanoutArgv (cmd ["mset"; "a"; "1"; "b"; "2"; "{a}1"; "3"]) (mkKeyGroup 15495 [0; 2]%nat)
  = Ret (cmd ["mset"; "a"; "1"; "{a}1"; "3"]).
Proof. vm_refl. Qed.

(** ** session.cmdFanout

    The sub-commands run in goroutines.  [order] is the order in which they complete: each takes
    effect atomically, stores its reply at its own index and sends its error (or nil) on the
    channel. *)

Section CmdFanout.
Context {S : Type} (Exec : S -> Z -> list slice -> bool -> S * (bytes + value)).

Definition fan_step (subs : list (Z * list slice)) (read : bool)
  (acc : S * list value * list (option bytes)) (i : nat) : S * list value * list (option bytes) :=
  let '(st, replies, errs) := acc in
  match subs !! i with
  | None => acc
  | Some (slot, sub) =>
      let '(st, res) := Exec st slot sub read in
      match res with
      | inl e => (st, replies, errs ++ [Some e])
      | inr v => (st, <[i := v]> replies, errs ++ [None])
      end
  end.

Definition errRedirect : value := RError (B "ERR backend redirect exhausted").
Definition errCross : value := RError (B "CROSSSLOT Keys in request don't hash to the same slot").

(** The reply [cmdFanout] sends, from the session's database and the gathered results. *)
Definition fan_reply (db : Z) (argv keys : list slice) (groups : list KeyGroup)
  (replies : list value) (errs : list (option bytes)) : value :=
  match list_find is_Some errs with
  | Some (_, Some e) => RError (B "ERR " ++ e)
  | _ =>
    match list_find (fun r => IsError r = true) replies with
    | Some (_, r) =>
        if EqualKind r "MOVED" || EqualKind r "ASK" then errRedirect else r
    | None =>
        let merged := match FanoutOf argv with
                      | FanoutSum => Some (MergeSum replies)
                      | FanoutMGet => Some (MergeMGet (Z.of_nat (length keys)) groups replies)
                      | FanoutMSet => Some (MergeMSet replies)
                      | FanoutNone => None
                      end in
        match merged with
        | None => errCross
        | Some reply => if IsError reply then reply
                        else StripReplyKeys (cmd_name argv) db reply
        end
    end
  end.

Definition cmdFanout (SlotOf : bytes -> Z) (db : Z) (order : list nat) (st : S)
  (argv : list slice) : outcome (S * value) :=
  keys ← ExtractKeys argv;
  let groups := GroupBySlot keys SlotOf in
  match groups with
  | [] => Ret (st, errCross)
  | _ =>
      subs ← mapM (fun g => sub ← RebuildFanoutArgv argv g; Ret (gSlot g, sub)) groups;
      let read := KindOf (arg argv 0) ==b KindRead in
      let '(st, replies, errs) :=
        fold_left (fan_step subs read) order (st, repeat zeroValue (length groups), []) in
      Ret (st, fan_reply db argv keys groups replies errs)
  end.
(** What every sub-command preserves, the fan-out preserves. *)
Lemma cmdFanout_inv (P : S -> Prop) slotFn db order st argv st' v :
  cmdFanout slotFn db order st argv = Ret (st', v) ->
  (forall st slot sub read, P st -> P (Exec st slot sub read).1) -> P st -> P st'.
Proof.
  intros H HP Hst. unfold cmdFanout in H. destruct (ExtractKeys argv) as [keys|]; [|done].
  cbn [mbind outcome_bind] in H. destruct (GroupBySlot keys slotFn) as [|g gs]; [by injection H as <- <-|].
  destruct (mapM _ (g :: gs)) as [subs|]; [|done]. cbn [mbind outcome_bind] in H. revert H.
  generalize (repeat zeroValue (length (g :: gs))) as replies, (@nil (option bytes)) as errs.
  revert st Hst. induction order as [|i order IH]; intros st Hst replies errs; cbn [fold_left].
  { by intros [= <- <-]. }
  unfold fan_step at 2. destruct (subs !! i) as [[slot sub]|]; [|by apply IH].
  pose proof (HP st slot sub (KindOf (arg argv 0) ==b KindRead) Hst) as H1.
  destruct (Exec st slot sub _) as [st1 [e|v1]]; by apply IH.
Qed.
End CmdFanout.

(** ** Grouping *)

Definition slot_of_key (slotFn : bytes -> Z) (k : slice) : Z := slotFn (content k).

(** First occurrences, in order. *)
Definition first_seen (l : list Z) : list Z :=
  fold_left (fun acc s => if bool_decide (s ∈ acc) then acc else acc ++ [s]) l [].

Lemma first_seen_snoc l s :
  first_seen (l ++ [s]) = if bool_decide (s ∈ first_seen l) then first_seen l else first_seen l ++ [s].
Proof. unfold first_seen. by rewrite fold_left_app. Qed.

Lemma elem_of_first_seen l s : s ∈ first_seen l <-> s ∈ l.
Proof.
  induction l as [|x l IH] using rev_ind; [done|]. rewrite first_seen_snoc, elem_of_app, list_elem_of_singleton.
  case_bool_decide as E; [|rewrite elem_of_app, list_elem_of_singleton; tauto].
  split; [tauto|]. intros [?| ->]; tauto.
Qed.

Lemma first_seen_NoDup l : NoDup (first_seen l).
Proof.
  induction l as [|x l IH] using rev_ind; [constructor|]. rewrite first_seen_snoc.
  case_bool_decide as E; [done|]. apply NoDup_app. split_and!; [done| |apply NoDup_singleton].
  by intros y Hy ->%list_elem_of_singleton.
Qed.

Section Grouping.
Context (slotFn : bytes -> Z).

(** The indexes of the keys in slot [s]. *)
Definition positions (keys : list slice) (s : Z) : list nat :=
  filter (fun i => slot_of_key slotFn <$> keys !! i = Some s) (seq 0 (length keys)).

Lemma positions_snoc keys k s :
  positions (keys ++ [k]) s
  = positions keys s ++ (if bool_decide (slot_of_key slotFn k = s) then [length keys] else []).
Proof.
  unfold positions. rewrite length_app. cbn [length]. rewrite seq_app, filter_app. f_equal.
  - apply filter_ext_in. intros i Hi%elem_of_seq. by rewrite lookup_app_l by lia.
  - change (seq (0 + length keys) 1) with [length keys].
    rewrite filter_cons, filter_nil, list_lookup_middle by done. cbn [fmap option_fmap option_map].
    case_bool_decide as E; case_decide; congruence.
Qed.

Lemma imap_pair_snoc {A} (l : list A) x : imap pair (l ++ [x]) = imap pair l ++ [(length l, x)].
Proof. rewrite imap_app. cbn. by rewrite Nat.add_0_r. Qed.

Lemma group_fold keys :
  exists m, fold_left (group_step slotFn) (imap pair keys) ([], ∅)
            = (first_seen (map (slot_of_key slotFn) keys), m)
  ∧ forall s, m !! s = if bool_decide (s ∈ map (slot_of_key slotFn) keys)
                       then Some (positions keys s) else None.
Proof.
  induction keys as [|k keys (m & IH & Hm)] using rev_ind.
  { exists ∅. split; [done|]. intros s. by rewrite lookup_empty. }
  rewrite imap_pair_snoc, fold_left_app, IH. cbn [fold_left]. unfold group_step. cbn [fst snd].
  change (slotFn (content k)) with (slot_of_key slotFn k).
  set (s0 := slot_of_key slotFn k). eexists. split.
  - f_equal. rewrite map_app. cbn [map]. rewrite first_seen_snoc. fold s0. rewrite Hm.
    rewrite (bool_decide_ext _ _ (elem_of_first_seen (map (slot_of_key slotFn) keys) s0)).
    by case_bool_decide.
  - intros s. rewrite map_app, positions_snoc. cbn [map]. fold s0.
    assert (s ∈ map (slot_of_key slotFn) keys ++ [s0] <-> s ∈ map (slot_of_key slotFn) keys ∨ s = s0) as Hs
      by (rewrite elem_of_app, list_elem_of_singleton; tauto).
    rewrite (bool_decide_ext _ _ Hs). destruct (decide (s0 = s)) as [<-|Hne].
    + rewrite lookup_insert_eq, !bool_decide_true by auto. f_equal. rewrite Hm.
      case_bool_decide as E; [done|]. cbn. symmetry.
      assert (positions keys s0 = []) as ->; [|done].
      apply filter_none. intros i _ (k' & Hk & Hi)%fmap_Some. apply E.
      rewrite Hi. change (map ?f ?l) with (f <$> l). apply list_elem_of_fmap_2.
      by eapply list_elem_of_lookup_2.
    + rewrite lookup_insert_ne by done. rewrite (bool_decide_false (s0 = s)), app_nil_r, Hm by done.
      do 2 case_bool_decide; intuition congruence.
Qed.

Lemma GroupBySlot_eq keys :
  GroupBySlot keys slotFn
  = map (fun s => mkKeyGroup s (positions keys s)) (first_seen (map (slot_of_key slotFn) keys)).
Proof.
  unfold GroupBySlot. destruct keys as [|k0 r] eqn:Ek; [done|]. rewrite <- Ek. clear Ek k0 r.
  destruct (group_fold keys) as (m & -> & Hm). apply map_ext_in. intros s Hs. f_equal.
  rewrite Hm, bool_decide_true; [done|]. apply elem_of_first_seen. by apply list_elem_of_In.
Qed.

Lemma elem_of_positions keys s i :
  i ∈ positions keys s <-> exists k, keys !! i = Some k ∧ slot_of_key slotFn k = s.
Proof.
  unfold positions. rewrite list_elem_of_filter, fmap_Some, elem_of_seq. split.
  - intros [(k & Hk & ->) _]. eauto.
  - intros (k & Hk & <-). split; [eauto|]. apply lookup_lt_Some in Hk. lia.
Qed.

Lemma seq_sorted s n : StronglySorted lt (seq s n).
Proof.
  revert s. induction n as [|n IH]; intros s; cbn; constructor; [apply IH|].
  apply list.Forall_forall. intros x Hx%elem_of_seq. lia.
Qed.

Lemma positions_sorted keys s : StronglySorted lt (positions keys s).
Proof.
  unfold positions. induction (seq_sorted 0 (length keys)) as [|a l Hs IH Ha]; [constructor|].
  rewrite filter_cons. case_decide; [|done]. constructor; [done|].
  rewrite list.Forall_forall in *. intros x [_ Hx]%list_elem_of_filter. by apply Ha.
Qed.

Lemma elem_of_groups keys g :
  g ∈ GroupBySlot keys slotFn <->
  gIndex g = positions keys (gSlot g) ∧ exists k, k ∈ keys ∧ slot_of_key slotFn k = gSlot g.
Proof.
  rewrite GroupBySlot_eq. change (map ?f ?l) with (f <$> l). rewrite list_elem_of_fmap.
  setoid_rewrite elem_of_first_seen. setoid_rewrite list_elem_of_fmap.
  destruct g as [s ix]. cbn. split.
  - intros (s' & [= -> ->] & k & -> & Hk). eauto.
  - intros [-> (k & Hk & <-)]. eauto.
Qed.

(** Every key position is in exactly the group of its slot. *)
Lemma groups_slots_NoDup keys : NoDup (map gSlot (GroupBySlot keys slotFn)).
Proof. rewrite GroupBySlot_eq, map_map, map_id. apply first_seen_NoDup. Qed.

(** Grouping is a partition in first-seen order.  The groups' slots are the distinct slots of
    the keys in order of first occurrence; the group of a slot holds, in increasing order, exactly
    the positions of the keys in that slot. *)
Theorem GroupBySlot_partition (keys : list slice) :
  map gSlot (GroupBySlot keys slotFn) = first_seen (map (slot_of_key slotFn) keys)
  ∧ NoDup (map gSlot (GroupBySlot keys slotFn))
  ∧ (forall g, g ∈ GroupBySlot keys slotFn ->
       StronglySorted lt (gIndex g) ∧ gIndex g ≠ []
       ∧ forall i, i ∈ gIndex g <-> exists k, keys !! i = Some k ∧ slotFn (content k) = gSlot g)
  ∧ (forall i k, keys !! i = Some k ->
       exists g, g ∈ GroupBySlot keys slotFn ∧ i ∈ gIndex g ∧ gSlot g = slotFn (content k)).
Proof.
  split_and!.
  - by rewrite GroupBySlot_eq, map_map, map_id.
  - apply groups_slots_NoDup.
  - intros g (Hg & k & Hk & Hs)%elem_of_groups. rewrite Hg. split_and!.
    + apply positions_sorted.
    + apply list_elem_of_lookup_1 in Hk as [i Hi].
      assert (i ∈ positions keys (gSlot g)) as Hin by (apply elem_of_positions; eauto).
      intros E. rewrite E in Hin. by apply elem_of_nil in Hin.
    + intros i. apply elem_of_positions.
  - intros i k Hk. exists (mkKeyGroup (slotFn (content k)) (positions keys (slotFn (content k)))).
    split_and!; [|apply elem_of_positions; eauto|done].
    apply elem_of_groups. split; [done|]. exists k. split; [|done]. by eapply list_elem_of_lookup_2.
Qed.
End Grouping.

(** ** The six fan-out commands *)

Definition sum_names : list string := ["DEL"; "UNLINK"; "EXISTS"; "TOUCH"].

Lemma table_step1 name :
  str_in name ("MGET" :: sum_names) = true ->
  str_in name ["EVAL"; "EVALSHA"; "EVAL_RO"; "EVALSHA_RO"; "XREAD"; "XREADGROUP"; "MIGRATE";
    "LMPOP"; "ZMPOP"; "SINTERCARD"; "BLMPOP"; "BZMPOP"; "ZUNIONSTORE"; "ZINTERSTORE";
    "ZDIFFSTORE"; "ZUNION"; "ZINTER"; "ZDIFF"; "MEMORY"; "KEYS"; "SCAN"; "SORT";
    "GEORADIUS"; "GEORADIUSBYMEMBER"] = false
  ∧ exists m, table_get name = Some m ∧ mKeys m = spec 1 (-1) 1
              ∧ mFanout m = if str_in name sum_names then FanoutSum else FanoutMGet.
Proof.
  intros (x & Hx & ->)%str_in_true.
  repeat destruct Hx as [<-|Hx]; try done; (split; [vm_refl|]); eexists; (split; [vm_refl|done]).
Qed.

Lemma KeyIndexes_step1 a0 rest :
  str_in (cmd_name (a0 :: rest)) ("MGET" :: sum_names) = true ->
  KeyIndexes (a0 :: rest) = Ret (seq 1 (length rest)).
Proof.
  intros H. destruct (table_step1 _ H) as (Hn & m & Hm & Hk & _). unfold KeyIndexes. cbv zeta.
  repeat match goal with
  | |- context [str_in (cmd_name _) ?l] => rewrite (str_in_false_sub _ l _ Hn) by (simpl; tauto)
  end.
  rewrite Hm, Hk. cbn [spec ksFirst]. change (1 =? 0) with false. cbv iota. f_equal.
  apply sorted_lt_ext; [apply indexesBySpec_ok|apply seq_sorted|]. intros x.
  rewrite indexesBySpec_elem by (cbn; lia). cbn [spec ksFirst ksLast ksStep]. unfold argc.
  cbn [length]. rewrite elem_of_seq, Z.mod_1_r. change (-1 <? 0) with true. cbv iota. lia.
Qed.

(** The argument list of MSET from its key-value pairs. *)
Definition flat_pairs (kvs : list (slice * slice)) : list slice :=
  concat (map (fun kv => [kv.1; kv.2]) kvs).

Lemma length_flat_pairs kvs : length (flat_pairs kvs) = (2 * length kvs)%nat.
Proof. induction kvs as [|[k v] kvs IH]; [done|]. unfold flat_pairs in *. cbn in *. lia. Qed.

Lemma flat_pairs_lookup kvs i k v :
  kvs !! i = Some (k, v) ->
  flat_pairs kvs !! (2 * i)%nat = Some k ∧ flat_pairs kvs !! (2 * i + 1)%nat = Some v.
Proof.
  revert i. induction kvs as [|[k' v'] kvs IH]; intros [|i] H; try done.
  - by simplify_eq/=.
  - replace (2 * S i)%nat with (S (S (2 * i))) by lia. exact (IH i H).
Qed.

Definition odd_positions (n : nat) : list nat := map (fun j => 1 + 2 * j)%nat (seq 0 n).

Lemma odd_positions_sorted n : StronglySorted lt (odd_positions n).
Proof.
  unfold odd_positions.
  assert (forall s, StronglySorted lt (map (fun j => 1 + 2 * j)%nat (seq s n))) as H; [|apply H].
  induction n as [|n IH]; intros s; [constructor|].
  cbn [seq map]. constructor; [apply IH|]. apply list.Forall_forall.
  intros x (j & -> & Hj%elem_of_seq)%list_elem_of_fmap. lia.
Qed.

Lemma KeyIndexes_MSET a0 kvs :
  cmd_name (a0 :: flat_pairs kvs) = B "MSET" ->
  KeyIndexes (a0 :: flat_pairs kvs) = Ret (odd_positions (length kvs)).
Proof.
  intros H. unfold KeyIndexes. cbv zeta. rewrite H. eval_tests. cbv iota.
  assert (exists m, table_get (B "MSET") = Some m ∧ mKeys m = spec 1 (-1) 2) as (m & -> & ->)
    by (eexists; split; [vm_refl|done]).
  cbn [spec ksFirst]. change (1 =? 0) with false. cbv iota. f_equal.
  apply sorted_lt_ext; [apply indexesBySpec_ok|apply odd_positions_sorted|]. intros x.
  rewrite indexesBySpec_elem by (cbn; lia). cbn [spec ksFirst ksLast ksStep]. unfold argc.
  cbn [length]. rewrite length_flat_pairs. change (-1 <? 0) with true. cbv iota.
  unfold odd_positions. rewrite list_elem_of_fmap. split.
  - intros (H1 & _ & H2). exists ((x - 1) / 2)%nat.
    pose proof (Z.div_mod (Z.of_nat x - 1) 2 ltac:(lia)) as Hd.
    pose proof (Nat.div_mod_eq (x - 1) 2) as Hd'.
    assert ((x - 1) mod 2 = 0)%nat by (apply Nat2Z.inj; rewrite Nat2Z.inj_mod, Nat2Z.inj_sub by lia; done).
    split; [lia|]. apply elem_of_seq. lia.
  - intros (j & -> & Hj%elem_of_seq). split_and!; [lia..|].
    replace (Z.of_nat (1 + 2 * j) - 1) with (Z.of_nat j * 2) by lia. apply Z.mod_mul. lia.
Qed.

(** ** Rebuilt commands *)

(** The elements of [l] at the positions [ix]. *)
Definition pick {A} (l : list A) (ix : list nat) : list A := omap (fun i => l !! i) ix.

Lemma mapM_Ret {A B} (f : A -> outcome B) g l :
  (forall x, x ∈ l -> f x = Ret (g x)) -> mapM f l = Ret (map g l).
Proof.
  induction l as [|x l IH]; intros H; [done|]. cbn [mapM map]. rewrite H by (by left). cbn.
  by rewrite IH by (intros; apply H; by right).
Qed.

Lemma pick_snoc {A} (l : list A) x ix :
  Forall (fun i => i < length l)%nat ix -> pick (l ++ [x]) ix = pick l ix.
Proof.
  intros H. unfold pick. induction H as [|i ix Hi _ IH]; [done|]. cbn. by rewrite lookup_app_l, IH.
Qed.

Lemma pick_app {A} (l : list A) i1 i2 : pick l (i1 ++ i2) = pick l i1 ++ pick l i2.
Proof. apply omap_app. Qed.

Lemma positions_lt slotFn keys s : Forall (fun i => i < length keys)%nat (positions slotFn keys s).
Proof.
  apply list.Forall_forall. intros i (k & Hk & _)%elem_of_positions. by eapply lookup_lt_Some.
Qed.

(** Picking the positions of a slot is filtering by slot. *)
Lemma pick_positions {A} (slotFn : bytes -> Z) (key : A -> slice) l s :
  pick l (positions slotFn (map key l) s) = filter (fun a => slot_of_key slotFn (key a) = s) l.
Proof.
  induction l as [|x l IH] using rev_ind; [done|].
  rewrite map_app. cbn [map]. rewrite positions_snoc, filter_app, pick_app, pick_snoc, IH.
  2: { pose proof (positions_lt slotFn (map key l) s) as H. by rewrite length_map in H. }
  f_equal. rewrite filter_cons, filter_nil, length_map. case_bool_decide; case_decide; try done.
  cbn. by rewrite list_lookup_middle.
Qed.

Section Rebuild.
Context (slotFn : bytes -> Z).

Lemma rebuild_step1 a0 rest g :
  str_in (cmd_name (a0 :: rest)) ("MGET" :: sum_names) = true ->
  g ∈ GroupBySlot rest slotFn ->
  RebuildFanoutArgv (a0 :: rest) g
  = Ret (a0 :: filter (fun k => slot_of_key slotFn k = gSlot g) rest).
Proof.
  intros Hn (Hix & _)%elem_of_groups. unfold RebuildFanoutArgv.
  rewrite KeyIndexes_step1 by done. cbn [mbind outcome_bind]. rewrite Hix.
  assert ((FanoutOf (a0 :: rest) ==b FanoutMSet) = false) as ->.
  { unfold FanoutOf. destruct (table_step1 _ Hn) as (_ & m & -> & _ & ->). by case_if. }
  rewrite (mapM_Ret _ (fun i => pick rest [i])).
  - cbn. do 2 f_equal. rewrite <- (pick_positions slotFn (fun k => k)), map_id.
    generalize (positions slotFn rest (gSlot g)) as ix. induction ix as [|i ix IH]; [done|].
    cbn [map concat]. rewrite IH. symmetry. apply (pick_app rest [i] ix).
  - intros i Hi. pose proof (positions_lt slotFn rest (gSlot g)) as Hf.
    rewrite list.Forall_forall in Hf. apply Hf in Hi. destruct (lookup_lt_is_Some_2 _ _ Hi) as [k Hk].
    unfold fanout_args. rewrite lookup_seq_lt by done. unfold index, pick.
    change ((a0 :: rest) !! (1 + i)%nat) with (rest !! i). rewrite Hk. cbn. by rewrite Hk.
Qed.

Lemma rebuild_MSET a0 kvs g :
  cmd_name (a0 :: flat_pairs kvs) = B "MSET" ->
  g ∈ GroupBySlot (map fst kvs) slotFn ->
  RebuildFanoutArgv (a0 :: flat_pairs kvs) g
  = Ret (a0 :: flat_pairs (filter (fun kv => slot_of_key slotFn kv.1 = gSlot g) kvs)).
Proof.
  intros Hn (Hix & _)%elem_of_groups. unfold RebuildFanoutArgv.
  rewrite KeyIndexes_MSET by done. cbn [mbind outcome_bind]. rewrite Hix.
  assert ((FanoutOf (a0 :: flat_pairs kvs) ==b FanoutMSet) = true) as ->
    by (unfold FanoutOf; rewrite Hn; vm_refl).
  rewrite (mapM_Ret _ (fun i => flat_pairs (pick kvs [i]))).
  - cbn. do 2 f_equal. rewrite <- (pick_positions slotFn fst).
    generalize (positions slotFn (map fst kvs) (gSlot g)) as ix. induction ix as [|i ix IH]; [done|].
    cbn [map concat]. rewrite IH. change (i :: ix) with ([i] ++ ix). rewrite pick_app.
    unfold flat_pairs. by rewrite map_app, concat_app.
  - intros i Hi. pose proof (positions_lt slotFn (map fst kvs) (gSlot g)) as Hf.
    rewrite list.Forall_forall in Hf. apply Hf in Hi. rewrite length_map in Hi.
    destruct (lookup_lt_is_Some_2 _ _ Hi) as [[k v] Hk].
    destruct (flat_pairs_lookup _ _ _ _ Hk) as [H1 H2].
    unfold fanout_args, odd_positions. rewrite list_lookup_fmap, lookup_seq_lt by done.
    cbn [fmap option_fmap option_map]. unfold index, pick.
    replace (1 + 2 * (0 + i))%nat with (S (2 * i)) by lia.
    change ((a0 :: flat_pairs kvs) !! S (2 * i)) with (flat_pairs kvs !! (2 * i)%nat).
    rewrite H1. cbn [mbind outcome_bind].
    rewrite (proj2 (Nat.ltb_lt _ _)) by (cbn [length]; rewrite length_flat_pairs; lia). cbn [andb].
    replace (S (2 * i) + 1)%nat with (S (2 * i + 1)) by lia.
    change ((a0 :: flat_pairs kvs) !! S (2 * i + 1)) with (flat_pairs kvs !! (2 * i + 1)%nat).
    rewrite H2. cbn. by rewrite Hk.
Qed.
End Rebuild.
