(* ===== verification/FanoutTheory.v ===== *)
(** * Fan-out equals the command on the whole key space

    [StringStore] states what the proxy relies on from the servers: the documented effect of MGET,
    MSET, DEL/UNLINK and EXISTS/TOUCH when all keys of the command are in one slot and the
    arguments are within the limits of the protocol ([sendable]).  The theorems
    show that [cmdFanout] implements the same commands on keys of any slots, for every completion
    order of the concurrent sub-commands.  [ref_exec] is a small server that satisfies the class. *)

From Stdlib Require Import ZArith Lia Strings.Byte Sorted Permutation.
From stdpp Require Import base list strings numbers option sets gmap fin_maps fin_sets.
From S2P Require Import Prelude Resp RespTheory Slot Command VirtualDB Fanout.

Abbreviation store := (gmap bytes bytes).

(** ** The commands on a key space *)

Definition get_reply (v : option bytes) : value :=
  match v with Some b => BulkString (Some b) | None => NullBulk end.

Definition mget_ref (keys : list slice) (m : store) : list value :=
  map (fun k => get_reply (m !! content k)) keys.

Definition mset_ref (kvs : list (slice * slice)) (m : store) : store :=
  fold_left (fun m kv => <[content kv.1 := content kv.2]> m) kvs m.

Definition key_set (keys : list slice) : gset bytes := list_to_set (map content keys).

(** DEL removes the keys and counts those that existed, each once. *)
Definition del_ref (keys : list slice) (m : store) : store :=
  filter (fun kv => kv.1 ∉ key_set keys) m.
Definition del_count (keys : list slice) (m : store) : nat := size (dom m ∩ key_set keys).

(** EXISTS counts a key as often as it is named. *)
Definition exists_count (keys : list slice) (m : store) : nat :=
  length (filter (fun k => is_Some (m !! content k)) keys).

Definition in_slot (SlotOf : bytes -> Z) (slot : Z) (keys : list slice) : Prop :=
  keys ≠ [] ∧ Forall (fun k => slot_of_key SlotOf k = slot) keys.

Definition int_reply (r : value) (n : nat) : Prop :=
  vType r = TypeInteger ∧ vInt r = Z.of_nat n.

Class StringStore {S : Type} (Exec : S -> Z -> list slice -> bool -> S * (bytes + value))
  (SlotOf : bytes -> Z) (view : S -> store) : Prop := {
  exec_mget st slot a0 keys read :
    cmd_name (a0 :: keys) = B "MGET" -> sendable (a0 :: keys) -> in_slot SlotOf slot keys ->
    exists st' r, Exec st slot (a0 :: keys) read = (st', inr r) ∧ view st' = view st
      ∧ vType r = TypeArray ∧ vNull r = false ∧ vValues r = mget_ref keys (view st);
  exec_mset st slot a0 kvs read :
    cmd_name (a0 :: flat_pairs kvs) = B "MSET" -> sendable (a0 :: flat_pairs kvs) -> in_slot SlotOf slot (map fst kvs) ->
    exists st' r, Exec st slot (a0 :: flat_pairs kvs) read = (st', inr r)
      ∧ view st' = mset_ref kvs (view st) ∧ IsError r = false;
  exec_del st slot a0 keys read :
    str_in (cmd_name (a0 :: keys)) ["DEL"; "UNLINK"] = true -> sendable (a0 :: keys) -> in_slot SlotOf slot keys ->
    exists st' r, Exec st slot (a0 :: keys) read = (st', inr r)
      ∧ view st' = del_ref keys (view st) ∧ int_reply r (del_count keys (view st));
  exec_exists st slot a0 keys read :
    str_in (cmd_name (a0 :: keys)) ["EXISTS"; "TOUCH"] = true -> sendable (a0 :: keys) -> in_slot SlotOf slot keys ->
    exists st' r, Exec st slot (a0 :: keys) read = (st', inr r)
      ∧ view st' = view st ∧ int_reply r (exists_count keys (view st)) }.

(** A server that satisfies the class. *)
Fixpoint pair_up (l : list slice) : list (slice * slice) :=
  match l with k :: v :: l' => (k, v) :: pair_up l' | _ => [] end.

Definition ref_exec (m : store) (slot : Z) (argv : list slice) (read : bool) : store * (bytes + value) :=
  let name := cmd_name argv in
  let args := drop 1 argv in
  if name ==b B "MGET" then (m, inr (Array (mget_ref args m)))
  else if name ==b B "MSET" then (mset_ref (pair_up args) m, inr (SimpleString (B "OK")))
  else if str_in name ["DEL"; "UNLINK"] then
    (del_ref args m, inr (Integer (Z.of_nat (del_count args m))))
  else if str_in name ["EXISTS"; "TOUCH"] then (m, inr (Integer (Z.of_nat (exists_count args m))))
  else (m, inr (RError (B "ERR unknown command"))).

Lemma pair_up_flat kvs : pair_up (flat_pairs kvs) = kvs.
Proof. induction kvs as [|[k v] kvs IH]; [done|]. cbn. f_equal. exact IH. Qed.

#[global] Instance ref_exec_store SlotOf : StringStore ref_exec SlotOf (fun m => m).
Proof.
  split; intros st slot a0 keys read Hn _ _; unfold ref_exec; cbv zeta.
  - rewrite Hn. eval_tests. by repeat eexists.
  - rewrite Hn. eval_tests. cbn [drop skipn]. rewrite drop_0, pair_up_flat. by repeat eexists.
  - apply str_in_true in Hn as (x & Hx & ->). repeat destruct Hx as [<-|Hx]; try done;
      eval_tests; by repeat eexists.
  - apply str_in_true in Hn as (x & Hx & ->). repeat destruct Hx as [<-|Hx]; try done;
      eval_tests; by repeat eexists.
Qed.

(** ** Running the sub-commands *)

Section Run.
Context {S : Type} (Exec : S -> Z -> list slice -> bool -> S * (bytes + value)).
Context (subs : list (Z * list slice)) (read : bool).
Context (Inv : list nat -> S -> Prop) (Rep : nat -> value -> Prop).
Context (step : forall done i slot sub st, i ∉ done -> subs !! i = Some (slot, sub) -> Inv done st ->
  exists st' v, Exec st slot sub read = (st', inr v) ∧ Inv (done ++ [i]) st' ∧ Rep i v).

(** If every sub-command keeps [Inv] and gives a reply in [Rep], the run gathers no error, a
    reply in [Rep] for every index, and ends in [Inv]. *)
Lemma fan_run_ok order st0 replies0 :
  NoDup order -> Forall (fun i => i < length subs)%nat order -> Inv [] st0 ->
  length replies0 = length subs ->
  exists st replies errs,
    fold_left (fan_step Exec subs read) order (st0, replies0, []) = (st, replies, errs)
    ∧ Inv order st ∧ Forall (fun e => e = None) errs ∧ length replies = length subs
    ∧ forall i, i ∈ order -> exists v, replies !! i = Some v ∧ Rep i v.
Proof.
  intros Hnd Hlt H0 Hlen. induction order as [|i order IH] using rev_ind.
  - exists st0, replies0, []. split_and!; try done. by intros i ?%elem_of_nil.
  - apply NoDup_app in Hnd as (Hnd & Hdis & _). apply Forall_app in Hlt as [Hlt Hi].
    apply Forall_inv in Hi. destruct (IH Hnd Hlt) as (st & replies & errs & E & HI & He & Hl & Hr).
    destruct (lookup_lt_is_Some_2 _ _ Hi) as [[slot sub] Hs].
    assert (i ∉ order) as Hni by (intros Hin; apply (Hdis i Hin); by left).
    destruct (step _ _ _ _ _ Hni Hs HI) as (st' & v & Ex & HI' & HR).
    exists st', (<[i := v]> replies), (errs ++ [None]).
    rewrite fold_left_app, E. cbn. rewrite Hs, Ex. split_and!; [done..| | |].
    + apply Forall_app. split; [done|]. by constructor.
    + by rewrite length_insert.
    + intros j [Hj| ->%list_elem_of_singleton]%elem_of_app.
      * rewrite list_lookup_insert_ne by (by intros ->). by apply Hr.
      * exists v. split; [|done]. apply list_lookup_insert_eq. by rewrite Hl.
Qed.
End Run.

(** ** Splitting by slot *)

Lemma map_id' {A} (l : list A) : map id l = l.
Proof. apply map_id. Qed.

Section BySlot.
Context {A : Type} (slotFn : bytes -> Z) (key : A -> slice).

(** The items whose key is in slot [s], and the items of the slots [ss], slot by slot. *)
Definition per_slot (l : list A) (s : Z) : list A :=
  filter (fun a => slot_of_key slotFn (key a) = s) l.
Definition by_slots (l : list A) (ss : list Z) : list A := concat (map (per_slot l) ss).

Lemma by_slots_snoc l ss s : by_slots l (ss ++ [s]) = by_slots l ss ++ per_slot l s.
Proof. unfold by_slots. rewrite map_app, concat_app. cbn. by rewrite app_nil_r. Qed.

Lemma elem_of_per_slot l s a : a ∈ per_slot l s <-> a ∈ l ∧ slot_of_key slotFn (key a) = s.
Proof. unfold per_slot. rewrite list_elem_of_filter. tauto. Qed.

Lemma elem_of_by_slots l ss a :
  a ∈ by_slots l ss <-> a ∈ l ∧ slot_of_key slotFn (key a) ∈ ss.
Proof.
  unfold by_slots. induction ss as [|s ss IH]; cbn.
  - rewrite !elem_of_nil. tauto.
  - rewrite elem_of_app, IH, elem_of_per_slot, elem_of_cons. tauto.
Qed.

Lemma per_slot_in_slot l s :
  s ∈ map (slot_of_key slotFn) (map key l) -> in_slot slotFn s (map key (per_slot l s)).
Proof.
  intros (a & -> & Ha)%list_elem_of_fmap. apply list_elem_of_fmap in Ha as (b & -> & Hb). split.
  - intros E%map_eq_nil. assert (b ∈ per_slot l (slot_of_key slotFn (key b))) as Hin
      by (by apply elem_of_per_slot). rewrite E in Hin. by apply elem_of_nil in Hin.
  - apply list.Forall_forall. intros x (c & -> & [_ Hc]%elem_of_per_slot)%list_elem_of_fmap. done.
Qed.

(** Selecting by a condition that fixes the slot sees only that slot's items, in their order. *)
Lemma filter_by_slots (P : A -> Prop) `{forall a, Decision (P a)} l s ss :
  (forall a, P a -> slot_of_key slotFn (key a) = s) -> NoDup ss ->
  filter P (by_slots l ss) = if bool_decide (s ∈ ss) then filter P l else [].
Proof.
  intros HP. induction 1 as [|x ss Hx Hnd IH]; [by rewrite bool_decide_false by apply not_elem_of_nil|].
  unfold by_slots in *. cbn. rewrite filter_app, IH. unfold per_slot at 1. rewrite list_filter_filter.
  destruct (decide (s = x)) as [<-|Hne].
  - rewrite (bool_decide_false (s ∈ ss)), app_nil_r, bool_decide_true by (done || by left).
    apply filter_ext_in. intros a _. split; [tauto|]. auto.
  - rewrite (filter_none (fun a => P a ∧ _)) by (intros a _ [HPa Hs]; apply HP in HPa; congruence).
    cbn. assert (s ∈ x :: ss <-> s ∈ ss) as E by (rewrite elem_of_cons; naive_solver).
    by rewrite (bool_decide_ext _ _ E).
Qed.

Lemma filter_or_perm (P Q : A -> Prop) `{forall a, Decision (P a)} `{forall a, Decision (Q a)} l :
  (forall a, P a -> ~ Q a) -> filter (fun a => P a ∨ Q a) l ≡ₚ filter P l ++ filter Q l.
Proof.
  intros Hd. induction l as [|a l IH]; [done|]. rewrite !filter_cons.
  pose proof (Hd a). do 3 case_decide; try tauto; rewrite IH; [done|].
  by rewrite Permutation_middle.
Qed.

Lemma by_slots_perm l ss :
  NoDup ss -> (forall a, a ∈ l -> slot_of_key slotFn (key a) ∈ ss) -> by_slots l ss ≡ₚ l.
Proof.
  intros Hnd Hc. transitivity (filter (fun a => slot_of_key slotFn (key a) ∈ ss) l).
  - clear Hc. induction Hnd as [|s ss Hs _ IH]; [by rewrite filter_none by (intros; apply not_elem_of_nil)|].
    unfold by_slots in *. cbn. rewrite IH.
    rewrite (filter_ext_in (fun a => _ ∈ s :: ss)
      (fun a => slot_of_key slotFn (key a) = s ∨ slot_of_key slotFn (key a) ∈ ss))
      by (intros; apply elem_of_cons).
    unfold per_slot. symmetry. apply filter_or_perm. by intros a ->.
  - clear Hnd. induction l as [|a l IH]; [done|]. rewrite filter_cons, decide_True by (apply Hc; by left).
    constructor. apply IH. intros; apply Hc; by right.
Qed.
End BySlot.

(** ** The reference commands by slot *)

Lemma mset_ref_app l1 l2 m : mset_ref (l1 ++ l2) m = mset_ref l2 (mset_ref l1 m).
Proof. unfold mset_ref. by rewrite fold_left_app. Qed.

Lemma mset_ref_lookup kvs m k :
  mset_ref kvs m !! k = mset_ref (filter (fun kv => content kv.1 = k) kvs) m !! k.
Proof.
  revert m. induction kvs as [|kv kvs IH] using rev_ind; intros m; [done|].
  rewrite filter_app, !mset_ref_app, filter_cons, filter_nil. cbn [mset_ref fold_left].
  case_decide as E; cbn [mset_ref fold_left].
  - by rewrite <- E, !lookup_insert_eq.
  - by rewrite lookup_insert_ne, <- IH by done.
Qed.

Lemma elem_of_key_set keys k : k ∈ key_set keys <-> exists a, a ∈ keys ∧ content a = k.
Proof.
  unfold key_set. rewrite elem_of_list_to_set. change (map content keys) with (content <$> keys).
  rewrite list_elem_of_fmap. naive_solver.
Qed.

Lemma key_set_app l1 l2 : key_set (l1 ++ l2) = key_set l1 ∪ key_set l2.
Proof. unfold key_set. by rewrite map_app, list_to_set_app_L. Qed.

Lemma del_ref_app l1 l2 m : del_ref (l1 ++ l2) m = del_ref l2 (del_ref l1 m).
Proof.
  unfold del_ref. rewrite map_filter_filter. apply map_filter_ext. intros k v _. cbn.
  rewrite key_set_app. set_solver.
Qed.

Lemma del_ref_ext l1 l2 m : (forall k : slice, k ∈ l1 <-> k ∈ l2) -> del_ref l1 m = del_ref l2 m.
Proof.
  intros H. unfold del_ref. apply map_filter_ext. intros k v _. cbn. rewrite !elem_of_key_set.
  by setoid_rewrite H.
Qed.

Lemma dom_del_ref l m : dom (del_ref l m) = dom m ∖ key_set l.
Proof.
  apply set_eq. intros k. unfold del_ref. rewrite elem_of_difference, !elem_of_dom.
  split.
  - intros [v [Hv Hk]%map_lookup_filter_Some]. split; [by eexists|done].
  - intros [[v Hv] Hk]. exists v. by apply map_lookup_filter_Some.
Qed.

Lemma del_count_le keys m : (del_count keys m <= length keys)%nat.
Proof.
  unfold del_count. transitivity (size (key_set keys)); [apply subseteq_size; set_solver|].
  unfold key_set. rewrite <- (length_map content keys). generalize (map content keys) as l.
  induction l as [|x l IH]; [done|]. cbn [list_to_set length]. rewrite size_union_alt.
  etransitivity; [apply Nat.add_le_mono; [|apply subseteq_size with (Y := list_to_set l); set_solver]|].
  - by rewrite size_singleton.
  - lia.
Qed.

Section Reference.
Context (slotFn : bytes -> Z).
Local Abbreviation slot k := (slot_of_key slotFn k).

(** Sets of different slots commute: slot by slot in any order is the whole command. *)
Lemma mset_by_slots kvs ss m :
  NoDup ss -> (forall kv, kv ∈ kvs -> slot kv.1 ∈ ss) ->
  mset_ref (by_slots slotFn fst kvs ss) m = mset_ref kvs m.
Proof.
  intros Hnd Hc. apply map_eq. intros k. rewrite mset_ref_lookup, (mset_ref_lookup kvs).
  rewrite (filter_by_slots slotFn fst _ _ (slotFn k)); [|by intros ? <-|done].
  case_bool_decide as E; [done|]. f_equal. f_equal. symmetry. apply filter_none.
  intros kv Hkv <-. by apply E, Hc.
Qed.

Lemma by_slots_disjoint (keys : list slice) ss s :
  s ∉ ss -> key_set (by_slots slotFn id keys ss) ## key_set (per_slot slotFn id keys s).
Proof.
  intros Hs k (a & [_ Ha]%elem_of_by_slots & <-)%elem_of_key_set
    (b & [_ Hb]%elem_of_per_slot & Hab)%elem_of_key_set.
  apply Hs. rewrite <- Hb. unfold slot_of_key, id in *. by rewrite Hab.
Qed.

(** Deleting other slots first does not change what a slot's DEL counts. *)
Lemma del_count_frame keys ss s m :
  s ∉ ss ->
  del_count (per_slot slotFn id keys s) (del_ref (by_slots slotFn id keys ss) m)
  = del_count (per_slot slotFn id keys s) m.
Proof.
  intros Hs. unfold del_count. rewrite dom_del_ref. f_equal.
  pose proof (by_slots_disjoint keys ss s Hs). set_solver.
Qed.

Lemma size_inter_union (D X Y : gset bytes) :
  X ## Y -> size (D ∩ (X ∪ Y)) = (size (D ∩ X) + size (D ∩ Y))%nat.
Proof. intros H. rewrite intersection_union_l_L. apply size_union. set_solver. Qed.

Lemma del_count_by_slots keys ss m :
  NoDup ss ->
  sum_list_with (fun s => del_count (per_slot slotFn id keys s) m) ss
  = del_count (by_slots slotFn id keys ss) m.
Proof.
  induction ss as [|s ss IH] using rev_ind; intros Hnd.
  - cbn. unfold del_count. cbn. symmetry. apply size_empty_iff. set_solver.
  - apply NoDup_app in Hnd as (Hnd & Hd & _). rewrite sum_list_with_app, IH, by_slots_snoc by done.
    cbn [sum_list_with]. unfold del_count. rewrite key_set_app.
    assert (s ∉ ss) as Hs by (intros Hin; apply (Hd s Hin); by left).
    rewrite size_inter_union by (by apply by_slots_disjoint). lia.
Qed.

Lemma exists_count_by_slots keys ss m :
  sum_list_with (fun s => exists_count (per_slot slotFn id keys s) m) ss
  = exists_count (by_slots slotFn id keys ss) m.
Proof.
  unfold by_slots, exists_count. induction ss as [|s ss IH]; [done|].
  cbn [sum_list_with map concat]. by rewrite IH, filter_app, length_app.
Qed.

Lemma exists_count_perm l1 l2 m : l1 ≡ₚ l2 -> exists_count l1 m = exists_count l2 m.
Proof. intros H. unfold exists_count. by rewrite H. Qed.

Lemma del_count_perm l1 l2 m : l1 ≡ₚ l2 -> del_count l1 m = del_count l2 m.
Proof. intros H. unfold del_count, key_set. by rewrite H. Qed.
End Reference.

(** ** One sub-command per slot *)

Lemma pick_seq {A} (l : list A) : pick l (seq 0 (length l)) = l.
Proof.
  induction l as [|x l IH] using rev_ind; [done|]. rewrite length_app. cbn [length].
  rewrite seq_app, pick_app, pick_snoc, IH.
  - cbn. by rewrite list_lookup_middle.
  - apply list.Forall_forall. intros i Hi%elem_of_seq. lia.
Qed.

Lemma elem_of_pick {A} (l : list A) ix x : x ∈ pick l ix <-> exists i, i ∈ ix ∧ l !! i = Some x.
Proof. apply list_elem_of_omap. Qed.

Lemma length_pick {A} (l : list A) ix :
  Forall (fun i => i < length l)%nat ix -> length (pick l ix) = length ix.
Proof.
  intros H. unfold pick. induction H as [|i ix Hi _ IH]; [done|].
  destruct (lookup_lt_is_Some_2 _ _ Hi) as [k Hk]. cbn. rewrite Hk. cbn. by rewrite IH.
Qed.

Section RunSlots.
Context {S : Type} (Exec : S -> Z -> list slice -> bool -> S * (bytes + value)).
Context (ss : list Z) (sub : Z -> list slice) (read : bool) (order : list nat).
Context (Hss : NoDup ss) (Hord : order ≡ₚ seq 0 (length ss)).
Context (Inv : list Z -> S -> Prop) (Rep : Z -> value -> Prop).
Context (step : forall done s st, s ∈ ss -> s ∉ done -> Inv done st ->
  exists st' v, Exec st s (sub s) read = (st', inr v) ∧ Inv (done ++ [s]) st' ∧ Rep s v).

Lemma fan_slots_ok st0 :
  Inv [] st0 ->
  exists st replies errs done,
    fold_left (fan_step Exec (map (fun s => (s, sub s)) ss) read) order
      (st0, repeat zeroValue (length ss), []) = (st, replies, errs)
    ∧ done ≡ₚ ss ∧ Inv done st ∧ Forall (fun e => e = None) errs ∧ Forall2 Rep ss replies.
Proof.
  intros H0. set (subs := map (fun s => (s, sub s)) ss).
  assert (length subs = length ss) as Hl by apply length_map.
  destruct (fan_run_ok Exec subs read (fun d => Inv (pick ss d))
    (fun i v => exists s, ss !! i = Some s ∧ Rep s v)) with (order := order) (st0 := st0)
    (replies0 := repeat zeroValue (length ss)) as (st & replies & errs & E & HI & He & Hlr & Hr).
  - intros d i slot sb st Hi Hs HI. subst subs. rewrite list_lookup_fmap, fmap_Some in Hs.
    destruct Hs as (s & Hs & [= -> ->]). rewrite pick_app.
    destruct (step (pick ss d) s st) as (st' & v & Ex & HI' & HR); [by eapply list_elem_of_lookup_2| |done|].
    { intros (j & Hj & Hjs)%elem_of_pick. assert (i = j) as <- by (by eapply NoDup_lookup). done. }
    exists st', v. cbn. rewrite Hs. eauto.
  - rewrite Hord. apply NoDup_seq.
  - rewrite Hord, Hl. apply list.Forall_forall. intros i Hi%elem_of_seq. lia.
  - done.
  - by rewrite repeat_length.
  - exists st, replies, errs, (pick ss order). split_and!; [done| |done..|].
    + transitivity (pick ss (seq 0 (length ss))); [|by rewrite pick_seq].
      unfold pick. by rewrite Hord.
    + apply Forall2_lookup. intros i. destruct (ss !! i) as [s|] eqn:Hs.
      * assert (i ∈ order) as Hi by (rewrite Hord; apply elem_of_seq; apply lookup_lt_Some in Hs; lia).
        destruct (Hr i Hi) as (v & -> & s' & Hs' & HR). rewrite Hs in Hs'. simplify_eq. by constructor.
      * apply lookup_ge_None in Hs. rewrite lookup_ge_None_2 by lia. constructor.
Qed.
End RunSlots.

Lemma fan_reply_ok db argv keys groups replies errs :
  Forall (fun e => e = None) errs -> Forall (fun r => IsError r = false) replies ->
  fan_reply db argv keys groups replies errs
  = match (match FanoutOf argv with
           | FanoutSum => Some (MergeSum replies)
           | FanoutMGet => Some (MergeMGet (Z.of_nat (length keys)) groups replies)
           | FanoutMSet => Some (MergeMSet replies)
           | FanoutNone => None
           end) with
    | None => errCross
    | Some reply => if IsError reply then reply else StripReplyKeys (cmd_name argv) db reply
    end.
Proof.
  intros He Hr. unfold fan_reply.
  pose proof (proj1 (list.Forall_forall _ _) He) as He'. pose proof (proj1 (list.Forall_forall _ _) Hr) as Hr'.
  assert (list_find is_Some errs = None) as ->.
  { apply list_find_None, list.Forall_forall. intros e ->%He'. by intros [? ?]. }
  assert (list_find (fun r => IsError r = true) replies = None) as ->; [|done].
  apply list_find_None, list.Forall_forall. intros r ->%Hr'. done.
Qed.

Lemma int_reply_no_error r n : int_reply r n -> IsError r = false.
Proof. intros [H _]. unfold IsError. rewrite H. vm_refl. Qed.

Lemma MergeSum_ok replies ns s0 :
  Forall2 (fun n r => int_reply r n) ns replies -> 0 <= s0 ->
  s0 + Z.of_nat (sum_list_with id ns) < 2^63 ->
  merge_sum replies s0 = Integer (s0 + Z.of_nat (sum_list_with id ns)).
Proof.
  intros H. revert s0. induction H as [|n r ns replies Hr _ IH]; intros s0 H1 H2; cbn in *.
  - f_equal. lia.
  - rewrite (int_reply_no_error _ _ Hr). destruct Hr as [Ht Hi]. rewrite Ht, Hi.
    change (TypeInteger ==b TypeInteger) with true. cbn [negb]. unfold id in *.
    rewrite wrap64_id by (unfold in_int64; lia). rewrite IH by lia. f_equal. lia.
Qed.

Lemma MergeMSet_ok replies :
  Forall (fun r => IsError r = false) replies -> MergeMSet replies = SimpleString (B "OK").
Proof. induction 1 as [|r replies Hr _ IH]; [done|]. cbn. by rewrite Hr. Qed.

Section MergeMGet.
Context (keys : list slice) (f : slice -> value).

Definition mget_part (ix : list nat) (r : value) : Prop :=
  vType r = TypeArray ∧ vNull r = false ∧ vValues r = map f (pick keys ix).

Lemma length_mget_fill out ix vs : length (mget_fill out ix vs) = length out.
Proof.
  unfold mget_fill. revert out. induction (zip ix vs) as [|[i v] l IH]; intros out; [done|].
  cbn. rewrite IH. apply length_insert.
Qed.

Lemma mget_fill_lookup ix out j :
  length out = length keys -> Forall (fun i => i < length keys)%nat ix ->
  mget_fill out ix (map f (pick keys ix)) !! j
  = if bool_decide (j ∈ ix) then f <$> keys !! j else out !! j.
Proof.
  intros Hl H. revert out Hl. induction H as [|i ix Hi _ IH]; intros out Hl.
  - by rewrite bool_decide_false by apply not_elem_of_nil.
  - destruct (lookup_lt_is_Some_2 _ _ Hi) as [k Hk].
    assert (pick keys (i :: ix) = k :: pick keys ix) as -> by (cbn; by rewrite Hk).
    change (mget_fill out (i :: ix) (map f (k :: pick keys ix)))
      with (mget_fill (<[i := f k]> out) ix (map f (pick keys ix))).
    rewrite IH by (by rewrite length_insert).
    destruct (decide (j ∈ ix)) as [Hj|Hj].
    + rewrite !bool_decide_true; [done|by right|done].
    + rewrite (bool_decide_false (j ∈ ix)) by done. destruct (decide (i = j)) as [<-|Hne].
      * rewrite bool_decide_true by (by left). rewrite Hk. cbn. apply list_lookup_insert_eq. lia.
      * rewrite list_lookup_insert_ne by done. rewrite bool_decide_false; [done|].
        rewrite elem_of_cons. intros [?|?]; congruence.
Qed.

Lemma mget_part_no_error ix r : mget_part ix r -> IsError r = false.
Proof. intros [H _]. unfold IsError. rewrite H. vm_refl. Qed.

Lemma mget_merge_ok groups replies out :
  length out = length keys ->
  Forall (fun g => Forall (fun i => i < length keys)%nat (gIndex g)) groups ->
  Forall2 (fun g r => mget_part (gIndex g) r) groups replies ->
  exists out', mget_merge out (zip groups replies) = Array out' ∧ length out' = length keys
  ∧ forall j, out' !! j = if bool_decide (j ∈ concat (map gIndex groups))
                          then f <$> keys !! j else out !! j.
Proof.
  intros Hl Hf H. revert out Hl. induction H as [|g r groups replies Hr _ IH]; intros out Hl.
  - exists out. split_and!; [done..|]. intros j. by rewrite bool_decide_false by apply not_elem_of_nil.
  - apply list.Forall_cons in Hf as [Hg Hf]. cbn [zip_with mget_merge].
    rewrite (mget_part_no_error _ _ Hr). destruct Hr as (Ht & Hn & Hv). rewrite Ht, Hn, Hv.
    assert (length (map f (pick keys (gIndex g))) = length (gIndex g)) as ->.
    { rewrite length_map. by apply length_pick. }
    change (TypeArray ==b TypeArray) with true. rewrite Nat.eqb_refl. cbn [negb orb].
    destruct (IH Hf (mget_fill out (gIndex g) (map f (pick keys (gIndex g)))))
      as (out' & E & Hl' & Ho); [by rewrite length_mget_fill|].
    exists out'. split_and!; [done..|]. intros j. rewrite Ho, mget_fill_lookup by done. cbn.
    assert (j ∈ gIndex g ++ concat (map gIndex groups)
      <-> j ∈ gIndex g ∨ j ∈ concat (map gIndex groups)) as Ej by apply elem_of_app.
    rewrite (bool_decide_ext _ _ Ej). repeat case_bool_decide; tauto.
Qed.

Lemma MergeMGet_ok groups replies :
  Forall (fun g => Forall (fun i => i < length keys)%nat (gIndex g)) groups ->
  Forall2 (fun g r => mget_part (gIndex g) r) groups replies ->
  (forall j, (j < length keys)%nat -> j ∈ concat (map gIndex groups)) ->
  MergeMGet (Z.of_nat (length keys)) groups replies = Array (map f keys).
Proof.
  intros Hf H Hc. unfold MergeMGet. rewrite (proj2 (Z.ltb_ge _ 0)) by lia. cbv zeta.
  rewrite Nat2Z.id, (Forall2_length _ _ _ H), Nat.eqb_refl. cbn [negb].
  destruct (mget_merge_ok groups replies (repeat NullBulk (length keys))) as (out' & -> & Hl & Ho);
    [apply repeat_length|done..|].
  f_equal. apply list_eq. intros j. rewrite Ho. rewrite list_lookup_fmap.
  destruct (decide (j < length keys)%nat) as [Hj|Hj]; [by rewrite bool_decide_true by auto|].
  rewrite (lookup_ge_None_2 keys) by lia.
  rewrite (lookup_ge_None_2 (repeat _ _)) by (rewrite repeat_length; lia). by case_bool_decide.
Qed.
End MergeMGet.

(** ** The fan-out of a command *)

Lemma Forall2_pick {A} (l : list A) idx xs : Forall2 (fun i x => l !! i = Some x) idx xs -> xs = pick l idx.
Proof. induction 1 as [|i x idx xs Hi _ IH]; [done|]. cbn. rewrite Hi. cbn. by rewrite IH at 1. Qed.

Lemma ExtractKeys_pick argv idx : KeyIndexes argv = Ret idx -> ExtractKeys argv = Ret (pick argv idx).
Proof. intros (keys & -> & H%Forall2_pick)%ExtractKeys_of_idx. by rewrite H. Qed.

Lemma pick_cons_map {A} (x : A) l (g : nat -> nat) ix :
  pick (x :: l) (map (fun j => S (g j)) ix) = pick l (map g ix).
Proof. unfold pick. induction ix as [|i ix IH]; [done|]. cbn. by rewrite IH. Qed.

Lemma ExtractKeys_step1 a0 rest :
  str_in (cmd_name (a0 :: rest)) ("MGET" :: sum_names) = true -> ExtractKeys (a0 :: rest) = Ret rest.
Proof.
  intros H. rewrite (ExtractKeys_pick _ _ (KeyIndexes_step1 _ _ H)). f_equal.
  rewrite <- fmap_S_seq. rewrite (pick_cons_map a0 rest (fun j => j)), map_id. apply pick_seq.
Qed.

Lemma pick_even kvs ix :
  Forall (fun i => i < length kvs)%nat ix ->
  pick (flat_pairs kvs) (map (fun j => 2 * j)%nat ix) = map fst (pick kvs ix).
Proof.
  unfold pick. induction 1 as [|i ix Hi _ IH]; [done|].
  destruct (lookup_lt_is_Some_2 _ _ Hi) as [[k v] Hk].
  change (map (fun j => 2 * j)%nat (i :: ix)) with (2 * i :: map (fun j => 2 * j) ix)%nat.
  cbn -[Nat.mul]. rewrite (proj1 (flat_pairs_lookup _ _ _ _ Hk)), Hk. cbn -[Nat.mul]. by rewrite IH.
Qed.

Lemma ExtractKeys_MSET a0 kvs :
  cmd_name (a0 :: flat_pairs kvs) = B "MSET" -> ExtractKeys (a0 :: flat_pairs kvs) = Ret (map fst kvs).
Proof.
  intros H. rewrite (ExtractKeys_pick _ _ (KeyIndexes_MSET _ _ H)). f_equal. unfold odd_positions.
  rewrite (pick_cons_map a0 (flat_pairs kvs) (fun j => 2 * j)%nat), pick_even, pick_seq; [done|].
  apply list.Forall_forall. intros i Hi%elem_of_seq. lia.
Qed.

Lemma str_in_sub name l1 l2 :
  str_in name l1 = true -> (forall x, In x l1 -> In x l2) -> str_in name l2 = true.
Proof.
  intros H Hs. destruct (str_in name l2) eqn:E; [done|].
  by rewrite (str_in_false_sub name l1 l2 E Hs) in H.
Qed.

Lemma StripReplyKeys_fanout name db v :
  str_in name ("MSET" :: "MGET" :: sum_names) = true -> StripReplyKeys name db v = v.
Proof.
  intros (x & Hx & ->)%str_in_true. unfold StripReplyKeys. case_if; [done|].
  repeat destruct Hx as [<-|Hx]; try done; by eval_tests.
Qed.

Section CmdFanoutTheory.
Context {S : Type} (Exec : S -> Z -> list slice -> bool -> S * (bytes + value)).
Context (SlotOf : bytes -> Z) (view : S -> store) `{!StringStore Exec SlotOf view}.

Definition key_slots (keys : list slice) : list Z := first_seen (map (slot_of_key SlotOf) keys).

Lemma length_groups keys : length (GroupBySlot keys SlotOf) = length (key_slots keys).
Proof. rewrite GroupBySlot_eq. apply length_map. Qed.

Lemma key_slots_cover keys k : k ∈ keys -> slot_of_key SlotOf k ∈ key_slots keys.
Proof. intros. apply elem_of_first_seen. change (map ?f ?l) with (f <$> l). by apply list_elem_of_fmap_2. Qed.

(** [cmdFanout] as one sub-command per slot, for a command whose rebuilt forms are [sub]. *)
Lemma cmdFanout_unfold db order st argv keys sub :
  ExtractKeys argv = Ret keys -> keys ≠ [] ->
  (forall g, g ∈ GroupBySlot keys SlotOf -> RebuildFanoutArgv argv g = Ret (sub (gSlot g))) ->
  cmdFanout Exec SlotOf db order st argv
  = let '(st, replies, errs) :=
      fold_left (fan_step Exec (map (fun s => (s, sub s)) (key_slots keys))
        (KindOf (arg argv 0) ==b KindRead)) order (st, repeat zeroValue (length (key_slots keys)), []) in
    Ret (st, fan_reply db argv keys (GroupBySlot keys SlotOf) replies errs).
Proof.
  intros He Hne Hsub. unfold cmdFanout. rewrite He. cbn [mbind outcome_bind].
  assert (GroupBySlot keys SlotOf ≠ []) as Hg.
  { rewrite GroupBySlot_eq. intros E%map_eq_nil. destruct keys as [|k keys]; [done|].
    pose proof (key_slots_cover (k :: keys) k ltac:(by left)) as Hk. unfold key_slots in Hk.
    rewrite E in Hk. by apply elem_of_nil in Hk. }
  destruct (GroupBySlot keys SlotOf) as [|g0 gs] eqn:Eg; [done|]. rewrite <- Eg in *. clear Eg Hg.
  rewrite (mapM_Ret _ (fun g => (gSlot g, sub (gSlot g)))) by (intros g Hin; by rewrite Hsub).
  cbn [mbind outcome_bind]. rewrite length_groups.
  assert (map (fun g => (gSlot g, sub (gSlot g))) (GroupBySlot keys SlotOf)
    = map (fun s => (s, sub s)) (key_slots keys)) as -> by (by rewrite GroupBySlot_eq, map_map).
  done.
Qed.

Lemma groups_Forall2 keys (P : Z -> list nat -> value -> Prop) replies :
  Forall2 (fun s r => P s (positions SlotOf keys s) r) (key_slots keys) replies ->
  Forall2 (fun g r => P (gSlot g) (gIndex g) r) (GroupBySlot keys SlotOf) replies.
Proof. rewrite GroupBySlot_eq. intros H. by apply Forall2_fmap_l. Qed.

Lemma groups_in_range keys :
  Forall (fun g => Forall (fun i => i < length keys)%nat (gIndex g)) (GroupBySlot keys SlotOf).
Proof.
  apply list.Forall_forall. intros g (-> & _)%elem_of_groups. apply positions_lt.
Qed.

Lemma groups_cover keys j :
  (j < length keys)%nat -> j ∈ concat (map gIndex (GroupBySlot keys SlotOf)).
Proof.
  intros Hj. destruct (lookup_lt_is_Some_2 _ _ Hj) as [k Hk].
  apply list_elem_of_In, in_concat. exists (positions SlotOf keys (slot_of_key SlotOf k)). split.
  - apply in_map_iff. exists (mkKeyGroup (slot_of_key SlotOf k) (positions SlotOf keys (slot_of_key SlotOf k))).
    split; [done|]. apply list_elem_of_In, elem_of_groups. split; [done|]. exists k.
    split; [by eapply list_elem_of_lookup_2|done].
  - apply list_elem_of_In, elem_of_positions. eauto.
Qed.

Lemma FanoutOf_step1 a0 rest :
  str_in (cmd_name (a0 :: rest)) ("MGET" :: sum_names) = true ->
  FanoutOf (a0 :: rest) = if str_in (cmd_name (a0 :: rest)) sum_names then FanoutSum else FanoutMGet.
Proof. intros H. unfold FanoutOf. by destruct (table_step1 _ H) as (_ & m & -> & _ & ->). Qed.
End CmdFanoutTheory.

(** ** Properties *)

Section FanoutProperties.
Context {S : Type} (Exec : S -> Z -> list slice -> bool -> S * (bytes + value)).
Context (SlotOf : bytes -> Z) (view : S -> store) `{!StringStore Exec SlotOf view}.
Local Abbreviation completes order keys := (order ≡ₚ seq 0 (length (GroupBySlot keys SlotOf))).

Lemma in_slot_per_slot keys s :
  s ∈ key_slots SlotOf keys -> in_slot SlotOf s (per_slot SlotOf id keys s).
Proof.
  unfold key_slots. rewrite elem_of_first_seen. intros Hs. pose proof (per_slot_in_slot SlotOf id keys s) as H.
  rewrite !map_id' in H. by apply H.
Qed.

Lemma sendable_per_slot a0 keys s : sendable (a0 :: keys) -> sendable (a0 :: per_slot SlotOf id keys s).
Proof.
  intros H. eapply sendable_sub; [exact H|cbn; unfold per_slot; pose proof (length_filter (fun k => slot_of_key SlotOf (id k) = s) keys); lia|].
  intros x [->|[Hx _]%elem_of_per_slot]%elem_of_cons; [by left|by right].
Qed.

Lemma elem_of_flat_pairs kvs x : x ∈ flat_pairs kvs <-> exists kv, kv ∈ kvs ∧ (x = kv.1 ∨ x = kv.2).
Proof.
  unfold flat_pairs. induction kvs as [|[k v] kvs IH]; cbn.
  - split; [by intros ?%elem_of_nil|by intros (kv & ?%elem_of_nil & _)].
  - rewrite !elem_of_cons, IH. setoid_rewrite elem_of_cons. naive_solver.
Qed.

Lemma sendable_per_slot_pairs a0 kvs s :
  sendable (a0 :: flat_pairs kvs) -> sendable (a0 :: flat_pairs (per_slot SlotOf fst kvs s)).
Proof.
  intros H. eapply sendable_sub; [exact H| |].
  - cbn. rewrite !length_flat_pairs. unfold per_slot.
    pose proof (length_filter (fun kv => slot_of_key SlotOf kv.1 = s) kvs). lia.
  - intros x. rewrite !elem_of_cons, !elem_of_flat_pairs. intros [->|(kv & [Hk _]%elem_of_per_slot & Hx)]; [by left|].
    right. eauto.
Qed.

Lemma fanout_MGET_ok (db : Z) (order : list nat) (st : S) (a0 : slice) (keys : list slice)
  (Hn : cmd_name (a0 :: keys) = B "MGET") (Hne : keys ≠ []) (Ha : sendable (a0 :: keys)) (Ho : completes order keys) :
  exists st', cmdFanout Exec SlotOf db order st (a0 :: keys)
              = Ret (st', Array (mget_ref keys (view st)))
              ∧ view st' = view st.
Proof.
  assert (str_in (cmd_name (a0 :: keys)) ("MGET" :: sum_names) = true) as Hin by (rewrite Hn; vm_refl).
  rewrite (cmdFanout_unfold Exec SlotOf db order st _ keys
    (fun s => a0 :: per_slot SlotOf id keys s));
    [|by apply ExtractKeys_step1|done|by intros; apply rebuild_step1].
  rewrite length_groups in Ho.
  edestruct (fan_slots_ok Exec (key_slots SlotOf keys) (fun s => a0 :: per_slot SlotOf id keys s)
    (KindOf (arg (a0 :: keys) 0) ==b KindRead) order (first_seen_NoDup _) Ho
    (fun _ st' => view st' = view st)
    (fun s => mget_part keys (fun k => get_reply (view st !! content k)) (positions SlotOf keys s)))
    as (st' & replies & errs & dn & -> & _ & HI & He & HR); [|done|].
  { intros d s st1 Hs _ Hv. destruct (exec_mget st1 s a0 (per_slot SlotOf id keys s)
      (KindOf (arg (a0 :: keys) 0) ==b KindRead)) as (st2 & r & Ex & Hv2 & Ht & Hu & Hvs);
      [done|by apply sendable_per_slot|by apply in_slot_per_slot|].
    exists st2, r. split_and!; [done|congruence|]. split_and!; [done..|]. rewrite Hvs, Hv.
    unfold mget_ref, per_slot. by rewrite <- (pick_positions SlotOf id), map_id'. }
  exists st'. split; [|done]. f_equal. f_equal. rewrite fan_reply_ok; [|done|].
  2: { eapply Forall2_Forall_r; [exact HR|]. apply list.Forall_forall.
       intros s _ r. apply mget_part_no_error. }
  rewrite FanoutOf_step1, Hn by done. eval_tests. cbv iota.
  rewrite (MergeMGet_ok keys (fun k => get_reply (view st !! content k))).
  - rewrite StripReplyKeys_fanout by vm_refl. done.
  - apply groups_in_range.
  - by apply (groups_Forall2 SlotOf keys (fun _ ix r => mget_part keys _ ix r)).
  - apply groups_cover.
Qed.

(** C14: a fanned-out MGET is MGET.  Whatever the keys, their slots and the order in which the
    sub-commands complete, the client gets one element per key, in the order of the keys, each
    the value of that key (null when absent), and nothing is modified. *)
Theorem fanout_MGET (db : Z) (order : list nat) (st : S) (a0 : slice) (keys : list slice)
  (Hn : cmd_name (a0 :: keys) = B "MGET") (Hne : keys ≠ []) (Ha : sendable (a0 :: keys)) (Ho : completes order keys) :
  exists st', cmdFanout Exec SlotOf db order st (a0 :: keys)
              = Ret (st', Array (mget_ref keys (view st)))
              ∧ view st' = view st.
Proof. by apply fanout_MGET_ok. Qed.

Lemma fanout_MSET_ok (db : Z) (order : list nat) (st : S) (a0 : slice) (kvs : list (slice * slice))
  (Hn : cmd_name (a0 :: flat_pairs kvs) = B "MSET") (Hne : kvs ≠ []) (Ha : sendable (a0 :: flat_pairs kvs))
  (Ho : completes order (map fst kvs)) :
  exists st', cmdFanout Exec SlotOf db order st (a0 :: flat_pairs kvs)
              = Ret (st', SimpleString (B "OK"))
              ∧ view st' = mset_ref kvs (view st).
Proof.
  rewrite (cmdFanout_unfold Exec SlotOf db order st _ (map fst kvs)
    (fun s => a0 :: flat_pairs (per_slot SlotOf fst kvs s)));
    [|by apply ExtractKeys_MSET|by intros ?%map_eq_nil|by intros; apply rebuild_MSET].
  rewrite length_groups in Ho.
  edestruct (fan_slots_ok Exec (key_slots SlotOf (map fst kvs))
    (fun s => a0 :: flat_pairs (per_slot SlotOf fst kvs s))
    (KindOf (arg (a0 :: flat_pairs kvs) 0) ==b KindRead) order (first_seen_NoDup _) Ho
    (fun dn st' => view st' = mset_ref (by_slots SlotOf fst kvs dn) (view st))
    (fun _ r => IsError r = false))
    as (st' & replies & errs & dn & -> & Hd & HI & He & HR); [|done|].
  { intros d s st1 Hs _ Hv. destruct (exec_mset st1 s a0 (per_slot SlotOf fst kvs s)
      (KindOf (arg (a0 :: flat_pairs kvs) 0) ==b KindRead)) as (st2 & r & Ex & Hv2 & Hr);
      [done|by apply sendable_per_slot_pairs| |].
    { apply per_slot_in_slot. unfold key_slots in Hs. by rewrite elem_of_first_seen in Hs. }
    exists st2, r. split_and!; [done| |done]. by rewrite Hv2, Hv, by_slots_snoc, mset_ref_app. }
  exists st'. split.
  - f_equal. f_equal. assert (Forall (fun r => IsError r = false) replies) as Hr
      by (eapply Forall2_Forall_r; [exact HR|]; by apply Forall_true).
    rewrite fan_reply_ok by done.
    assert (FanoutOf (a0 :: flat_pairs kvs) = FanoutMSet) as -> by (unfold FanoutOf; rewrite Hn; vm_refl).
    rewrite MergeMSet_ok by done. rewrite StripReplyKeys_fanout by (rewrite Hn; vm_refl). done.
  - rewrite HI. apply mset_by_slots; [rewrite Hd; apply first_seen_NoDup|].
    intros kv Hkv. rewrite Hd. apply key_slots_cover. change (map ?f ?l) with (f <$> l).
    by apply list_elem_of_fmap_2.
Qed.

(** C18: a fanned-out MSET is MSET.  The key space ends up with every pair applied, the last one
    winning for a repeated key, whatever the completion order; the client gets [OK]. *)
Theorem fanout_MSET (db : Z) (order : list nat) (st : S) (a0 : slice) (kvs : list (slice * slice))
  (Hn : cmd_name (a0 :: flat_pairs kvs) = B "MSET") (Hne : kvs ≠ []) (Ha : sendable (a0 :: flat_pairs kvs))
  (Ho : completes order (map fst kvs)) :
  exists st', cmdFanout Exec SlotOf db order st (a0 :: flat_pairs kvs)
              = Ret (st', SimpleString (B "OK"))
              ∧ view st' = mset_ref kvs (view st).
Proof. by apply fanout_MSET_ok. Qed.

(** The shared part of the counting commands: [cnt s] is what slot [s] counts. *)
Lemma fanout_sum_ok db order st a0 keys (Inv : list Z -> S -> Prop) (cnt : Z -> nat) :
  str_in (cmd_name (a0 :: keys)) sum_names = true -> keys ≠ [] -> completes order keys ->
  Inv [] st ->
  (forall dn s st1, s ∈ key_slots SlotOf keys -> s ∉ dn -> Inv dn st1 ->
    exists st2 r, Exec st1 s (a0 :: per_slot SlotOf id keys s)
                    (KindOf (arg (a0 :: keys) 0) ==b KindRead) = (st2, inr r)
                  ∧ Inv (dn ++ [s]) st2 ∧ int_reply r (cnt s)) ->
  Z.of_nat (sum_list_with cnt (key_slots SlotOf keys)) < 2^63 ->
  exists st' dn, dn ≡ₚ key_slots SlotOf keys ∧ Inv dn st'
    ∧ cmdFanout Exec SlotOf db order st (a0 :: keys)
      = Ret (st', Integer (Z.of_nat (sum_list_with cnt (key_slots SlotOf keys)))).
Proof.
  intros Hn Hne Ho H0 Hstep Hb.
  assert (str_in (cmd_name (a0 :: keys)) ("MGET" :: sum_names) = true) as Hin
    by (eapply str_in_sub; [exact Hn|simpl; tauto]).
  rewrite (cmdFanout_unfold Exec SlotOf db order st _ keys
    (fun s => a0 :: per_slot SlotOf id keys s));
    [|by apply ExtractKeys_step1|done|by intros; apply rebuild_step1].
  rewrite length_groups in Ho.
  edestruct (fan_slots_ok Exec (key_slots SlotOf keys) (fun s => a0 :: per_slot SlotOf id keys s)
    (KindOf (arg (a0 :: keys) 0) ==b KindRead) order (first_seen_NoDup _) Ho Inv
    (fun s r => int_reply r (cnt s)) Hstep) as (st' & replies & errs & dn & -> & Hd & HI & He & HR);
    [done|].
  exists st', dn. split_and!; [done..|]. f_equal. f_equal. rewrite fan_reply_ok; [|done|].
  2: { eapply Forall2_Forall_r; [exact HR|]. apply list.Forall_forall.
       intros s _ r. apply int_reply_no_error. }
  rewrite FanoutOf_step1, Hn by done. unfold MergeSum.
  assert (sum_list_with cnt (key_slots SlotOf keys)
    = sum_list_with id (map cnt (key_slots SlotOf keys))) as E
    by (clear; induction (key_slots SlotOf keys) as [|s l IH]; cbn; [done|by rewrite IH]).
  rewrite E in *. rewrite (MergeSum_ok _ (map cnt (key_slots SlotOf keys)));
    [|by apply Forall2_fmap_l|lia|lia].
  rewrite StripReplyKeys_fanout; [done|]. eapply str_in_sub; [exact Hn|simpl; tauto].
Qed.

Lemma fanout_DEL_ok (db : Z) (order : list nat) (st : S) (a0 : slice) (keys : list slice)
  (Hn : str_in (cmd_name (a0 :: keys)) ["DEL"; "UNLINK"] = true) (Hne : keys ≠ []) (Ha : sendable (a0 :: keys))
  (Ho : completes order keys) (Hb : Z.of_nat (length keys) < 2^63) :
  exists st', cmdFanout Exec SlotOf db order st (a0 :: keys)
              = Ret (st', Integer (Z.of_nat (del_count keys (view st))))
              ∧ view st' = del_ref keys (view st).
Proof.
  assert (by_slots SlotOf id keys (key_slots SlotOf keys) ≡ₚ keys) as Hp
    by (apply by_slots_perm; [apply first_seen_NoDup|intros; by apply key_slots_cover]).
  assert (sum_list_with (fun s => del_count (per_slot SlotOf id keys s) (view st)) (key_slots SlotOf keys)
    = del_count keys (view st)) as Hs.
  { rewrite del_count_by_slots by apply first_seen_NoDup. by apply del_count_perm. }
  destruct (fanout_sum_ok db order st a0 keys
    (fun dn st' => view st' = del_ref (by_slots SlotOf id keys dn) (view st))
    (fun s => del_count (per_slot SlotOf id keys s) (view st))) as (st' & dn & Hd & HI & E); try done.
  - eapply str_in_sub; [exact Hn|simpl; tauto].
  - symmetry. apply map_filter_id. by intros k v _ (a & ?%elem_of_nil & _)%elem_of_key_set.
  - intros dn s st1 Hin Hni Hv. destruct (exec_del st1 s a0 (per_slot SlotOf id keys s)
      (KindOf (arg (a0 :: keys) 0) ==b KindRead)) as (st2 & r & Ex & Hv2 & Hr);
      [done|by apply sendable_per_slot|by apply in_slot_per_slot|].
    exists st2, r. split_and!; [done| |].
    + by rewrite Hv2, Hv, by_slots_snoc, del_ref_app.
    + by rewrite Hv, del_count_frame in Hr.
  - rewrite Hs. pose proof (del_count_le keys (view st)). lia.
  - exists st'. rewrite E, HI, Hs. split; [done|]. apply del_ref_ext. intros k.
    rewrite elem_of_by_slots, Hd. split; [by intros [? _]|]. intros Hk. split; [done|].
    by apply key_slots_cover.
Qed.

(** C19: a fanned-out DEL (or UNLINK) is DEL.  All named keys are gone, no other key changes, and
    the reply counts the keys that existed, each once, whatever the completion order. *)
Theorem fanout_DEL (db : Z) (order : list nat) (st : S) (a0 : slice) (keys : list slice)
  (Hn : str_in (cmd_name (a0 :: keys)) ["DEL"; "UNLINK"] = true) (Hne : keys ≠ []) (Ha : sendable (a0 :: keys))
  (Ho : completes order keys) (Hb : Z.of_nat (length keys) < 2^63) :
  exists st', cmdFanout Exec SlotOf db order st (a0 :: keys)
              = Ret (st', Integer (Z.of_nat (del_count keys (view st))))
              ∧ view st' = del_ref keys (view st).
Proof. by apply fanout_DEL_ok. Qed.

Lemma fanout_EXISTS_ok (db : Z) (order : list nat) (st : S) (a0 : slice) (keys : list slice)
  (Hn : str_in (cmd_name (a0 :: keys)) ["EXISTS"; "TOUCH"] = true) (Hne : keys ≠ []) (Ha : sendable (a0 :: keys))
  (Ho : completes order keys) (Hb : Z.of_nat (length keys) < 2^63) :
  exists st', cmdFanout Exec SlotOf db order st (a0 :: keys)
              = Ret (st', Integer (Z.of_nat (exists_count keys (view st))))
              ∧ view st' = view st.
Proof.
  assert (by_slots SlotOf id keys (key_slots SlotOf keys) ≡ₚ keys) as Hp
    by (apply by_slots_perm; [apply first_seen_NoDup|intros; by apply key_slots_cover]).
  assert (sum_list_with (fun s => exists_count (per_slot SlotOf id keys s) (view st))
    (key_slots SlotOf keys) = exists_count keys (view st)) as Hs.
  { rewrite exists_count_by_slots. by apply exists_count_perm. }
  destruct (fanout_sum_ok db order st a0 keys (fun _ st' => view st' = view st)
    (fun s => exists_count (per_slot SlotOf id keys s) (view st))) as (st' & dn & Hd & HI & E); try done.
  - eapply str_in_sub; [exact Hn|simpl; tauto].
  - intros dn s st1 Hin Hni Hv. destruct (exec_exists st1 s a0 (per_slot SlotOf id keys s)
      (KindOf (arg (a0 :: keys) 0) ==b KindRead)) as (st2 & r & Ex & Hv2 & Hr);
      [done|by apply sendable_per_slot|by apply in_slot_per_slot|].
    exists st2, r. split_and!; [done|congruence|by rewrite Hv in Hr].
  - rewrite Hs. unfold exists_count. pose proof (length_filter (fun k => is_Some (view st !! content k)) keys). lia.
  - exists st'. by rewrite E, Hs.
Qed.

(** A fanned-out EXISTS (or TOUCH) is EXISTS.  The reply counts each named key that exists,
    repeated names included, and nothing is modified. *)
Theorem fanout_EXISTS (db : Z) (order : list nat) (st : S) (a0 : slice) (keys : list slice)
  (Hn : str_in (cmd_name (a0 :: keys)) ["EXISTS"; "TOUCH"] = true) (Hne : keys ≠ []) (Ha : sendable (a0 :: keys))
  (Ho : completes order keys) (Hb : Z.of_nat (length keys) < 2^63) :
  exists st', cmdFanout Exec SlotOf db order st (a0 :: keys)
              = Ret (st', Integer (Z.of_nat (exists_count keys (view st))))
              ∧ view st' = view st.
Proof. by apply fanout_EXISTS_ok. Qed.
End FanoutProperties.

Example exists_example : exists_count (cmd ["b"; "a"; "a"]) {[B "a" := B "1"]} = 2%nat.
Proof. vm_refl. Qed.
Example del_example : del_count (cmd ["b"; "a"; "a"]) {[B "a" := B "1"]} = 1%nat.
Proof. vm_refl. Qed.

(** Two keys in two slots, the second sub-command completing first. *)
Definition redis_slot (k : bytes) : Z := KeySlot k "{" "}".

Lemma fanout_MGET_witness :
  exists st', cmdFanout ref_exec redis_slot 0 [1; 0]%nat {[B "a" := B "1"]} (cmd ["mget"; "b"; "a"])
              = Ret (st', Array (mget_ref (cmd ["b"; "a"]) {[B "a" := B "1"]}))
              ∧ st' = {[B "a" := B "1"]}.
Proof.
  apply (fanout_MGET ref_exec redis_slot (fun m => m) 0 [1; 0]%nat); [vm_refl|done|apply sendableb_ok; vm_refl|].
  assert (length (GroupBySlot (cmd ["b"; "a"]) redis_slot) = 2%nat) as -> by vm_refl.
  apply perm_swap.
Defined.

Lemma fanout_MSET_witness :
  exists st', cmdFanout ref_exec redis_slot 0 [1; 0]%nat ∅ (cmd ["MSET"; "b"; "1"; "a"; "2"; "b"; "3"])
              = Ret (st', SimpleString (B "OK"))
              ∧ st' = mset_ref [(BS "b", BS "1"); (BS "a", BS "2"); (BS "b", BS "3")] ∅.
Proof.
  apply (fanout_MSET ref_exec redis_slot (fun m => m) 0 [1; 0]%nat ∅ (BS "MSET")
    [(BS "b", BS "1"); (BS "a", BS "2"); (BS "b", BS "3")]); [vm_refl|done|apply sendableb_ok; vm_refl|].
  assert (length (GroupBySlot (map fst [(BS "b", BS "1"); (BS "a", BS "2"); (BS "b", BS "3")])
    redis_slot) = 2%nat) as -> by vm_refl.
  apply perm_swap.
Defined.

Lemma fanout_DEL_witness :
  exists st', cmdFanout ref_exec redis_slot 0 [1; 0]%nat {[B "a" := B "1"]} (cmd ["DEL"; "b"; "a"; "a"])
              = Ret (st', Integer (Z.of_nat (del_count (cmd ["b"; "a"; "a"]) {[B "a" := B "1"]})))
              ∧ st' = del_ref (cmd ["b"; "a"; "a"]) {[B "a" := B "1"]}.
Proof.
  apply (fanout_DEL ref_exec redis_slot (fun m => m) 0 [1; 0]%nat {[B "a" := B "1"]} (BS "DEL")
    (cmd ["b"; "a"; "a"])); [vm_refl|done|apply sendableb_ok; vm_refl| |vm_refl].
  assert (length (GroupBySlot (cmd ["b"; "a"; "a"]) redis_slot) = 2%nat) as -> by vm_refl.
  apply perm_swap.
Defined.

Lemma fanout_EXISTS_witness :
  exists st', cmdFanout ref_exec redis_slot 0 [1; 0]%nat {[B "a" := B "1"]} (cmd ["EXISTS"; "b"; "a"; "a"])
              = Ret (st', Integer (Z.of_nat (exists_count (cmd ["b"; "a"; "a"]) {[B "a" := B "1"]})))
              ∧ st' = {[B "a" := B "1"]}.
Proof.
  apply (fanout_EXISTS ref_exec redis_slot (fun m => m) 0 [1; 0]%nat {[B "a" := B "1"]} (BS "EXISTS")
    (cmd ["b"; "a"; "a"])); [vm_refl|done|apply sendableb_ok; vm_refl| |vm_refl].
  assert (length (GroupBySlot (cmd ["b"; "a"; "a"]) redis_slot) = 2%nat) as -> by vm_refl.
  apply perm_swap.
Defined.
