(* ===== verification/Topology.v ===== *)
(** * internal/cluster/topology.go: the slot map

    A topology is an immutable snapshot: an array of 16384 node indexes (-1 when unknown), the
    nodes and the indexes of the masters.  The file models its construction from CLUSTER SLOTS and
    CLUSTER SHARDS replies, the patch made on a MOVED redirect and the lookups.

    [wf] is the representation invariant every constructor establishes and every update keeps.
    [ParseSlots_owner] is the functional correctness of the parser against [slot_owner], the
    meaning of a CLUSTER SLOTS reply; [UpdateSlot_spec] that of the MOVED patch. *)

From Stdlib Require Import ZArith Lia Strings.Byte.
From stdpp Require Import base list strings numbers option sets.
From S2P Require Import Prelude Resp Slot.

Inductive Health := HealthUnknown | HealthOnline | HealthLoading | HealthFail | HealthHidden.

#[global] Instance Health_eq_dec : EqDecision Health.
Proof. solve_decision. Defined.

Definition parseHealth (s : bytes) : Health :=
  let l := to_lower s in
  if l ==b B "online" then HealthOnline
  else if l ==b B "loading" then HealthLoading
  else if l ==b B "fail" then HealthFail
  else if l ==b B "hidden" then HealthHidden
  else HealthOnline.

Definition Health_String (h : Health) : bytes :=
  match h with
  | HealthOnline => B "online" | HealthLoading => B "loading"
  | HealthFail => B "fail" | HealthHidden => B "hidden" | HealthUnknown => B "unknown"
  end.

Inductive Flavor := FlavorUnknown | FlavorDragonfly | FlavorRedis | FlavorEmulated.

#[global] Instance Flavor_eq_dec : EqDecision Flavor.
Proof. solve_decision. Defined.

Definition Flavor_String (f : Flavor) : bytes :=
  match f with
  | FlavorDragonfly => B "dragonfly" | FlavorRedis => B "redis"
  | FlavorEmulated => B "emulated" | FlavorUnknown => B "unknown"
  end.

Record Node := mkNode {
  nID : bytes; nAddr : bytes; nRole : bytes; nHealth : Health; nMaster : bool }.

Definition zeroNode : Node := mkNode [] [] [] HealthUnknown false.

(** Conversion to [int32]. *)
Definition int32 (z : Z) : Z := (z + 2^31) mod 2^32 - 2^31.

Record Topology := mkTopology {
  tGeneration : Z; tFlavor : Flavor; tSlots : list Z; tNodes : list Node; tMasters : list nat }.

Definition set_generation (g : Z) (t : Topology) : Topology :=
  mkTopology g (tFlavor t) (tSlots t) (tNodes t) (tMasters t).
Definition set_flavor (f : Flavor) (t : Topology) : Topology :=
  mkTopology (tGeneration t) f (tSlots t) (tNodes t) (tMasters t).
Definition set_slots (s : list Z) (t : Topology) : Topology :=
  mkTopology (tGeneration t) (tFlavor t) s (tNodes t) (tMasters t).

(** [t.Slots[i]] of an in-range index. *)
Definition slot_at (t : Topology) (s : Z) : Z := nth (Z.to_nat s) (tSlots t) (-1).

Definition Empty (t : option Topology) : bool :=
  match t with
  | None => true
  | Some t =>
      match tNodes t with
      | [] => true
      | _ => (slot_at t 0 <? 0) && (slot_at t 1 <? 0) && (slot_at t (SlotCount / 2) <? 0)
      end
  end.

Definition replicaOf (n master : Node) : bool := negb (nMaster n).

Definition NodeForSlot (t : option Topology) (slot : Z) (wantReplica : bool) : option Node :=
  match t with
  | None => None
  | Some t =>
      if SlotCount <=? slot then None
      else
        let idx := slot_at t slot in
        if (idx <? 0) || (Z.of_nat (length (tNodes t)) <=? idx) then None
        else
          let master := nth (Z.to_nat idx) (tNodes t) zeroNode in
          if negb wantReplica then Some master
          else match find (fun n => negb (nMaster n) && (nHealth n ==b HealthOnline)
                                    && replicaOf n master) (tNodes t) with
               | Some n => Some n
               | None => Some master
               end
  end.

(** The atomic pointer and the generation counter. *)
Record Map := mkMap { mPtr : option Topology; mGen : Z }.

Definition Load (m : Map) : option Topology := mPtr m.

Definition Store (m : Map) (topo : option Topology) : Map :=
  match topo with
  | None => m
  | Some t =>
      let gen := (mGen m + 1) mod 2^64 in
      mkMap (Some (set_generation gen t)) gen
  end.

Definition newEmptyTopology : Topology :=
  mkTopology 0 FlavorUnknown (repeat (-1) (Z.to_nat SlotCount)) [] [].

(** The copies of the slices make the clone independent; as a value it is the same. *)
Definition cloneTopology (t : option Topology) : option Topology := t.

Definition nodeIndex (t : Topology) (addr id : bytes) : option nat :=
  fst <$> list_find (fun n => (addr ≠ [] ∧ nAddr n = addr) ∨ (id ≠ [] ∧ nID n = id)) (tNodes t).

(** The node of the redirect: found, or added as a master. *)
Definition moved_node (next : Topology) (addr id : bytes) : Topology * nat :=
  match nodeIndex next addr id with
  | Some i => (next, i)
  | None =>
      let nodes := tNodes next ++ [mkNode id addr (B "master") HealthOnline true] in
      let idx := (length nodes - 1)%nat in
      (mkTopology (tGeneration next) (tFlavor next) (tSlots next) nodes (tMasters next ++ [idx]), idx)
  end.

(** [next.Slots[slot]] panics for a slot of 16384 or more. *)
Definition UpdateSlot (m : Map) (slot : Z) (addr id : bytes) : outcome Map :=
  let next := default newEmptyTopology (cloneTopology (Load m)) in
  let '(next, idx) := moved_node next addr id in
  if SlotCount <=? slot then Panic
  else Ret (Store m (Some (set_slots (<[Z.to_nat slot := int32 (Z.of_nat idx)]> (tSlots next)) next))).

(** [t.Nodes[i]] takes the new id (when there is one), role, master flag and health. *)
Definition refresh_node (old n : Node) : Node :=
  mkNode (if nID n ==b [] then nID old else nID n) (nAddr old) (nRole n) (nHealth n) (nMaster n).

Definition upsertNode (t : Topology) (n : Node) : Topology * nat :=
  match nodeIndex t (nAddr n) (nID n) with
  | Some i =>
      (mkTopology (tGeneration t) (tFlavor t) (tSlots t)
         (alter (fun old => refresh_node old n) i (tNodes t)) (tMasters t), i)
  | None =>
      let nodes := tNodes t ++ [n] in
      let idx := (length nodes - 1)%nat in
      (mkTopology (tGeneration t) (tFlavor t) (tSlots t) nodes
         (if nMaster n then tMasters t ++ [idx] else tMasters t), idx)
  end.

(** [for s := start; s <= end && s < SlotCount; s++ { t.Slots[s] = int32(idx) }]; a negative
    index panics.  From 0 on there are at most 16384 iterations. *)
Fixpoint fill_slots (fuel : nat) (s stop idx : Z) (slots : list Z) : outcome (list Z) :=
  match fuel with
  | O => Ret slots
  | S f =>
      if (s <=? stop) && (s <? SlotCount)
      then if s <? 0 then Panic else fill_slots f (s + 1) stop idx (<[Z.to_nat s := idx]> slots)
      else Ret slots
  end.

Definition fill (t : Topology) (start stop : Z) (idx : nat) : outcome Topology :=
  slots ← fill_slots (Z.to_nat SlotCount) start stop (int32 (Z.of_nat idx)) (tSlots t);
  Ret (set_slots slots t).

Definition join_addr (host : bytes) (port : Z) : bytes := host ++ B ":" ++ itoa port.

(** The port as an integer, or parsed from a string when [str] accepts its type. *)
Definition port_of (v : value) (str : bool) : Z :=
  if str then match parse_int (content (vStr v)) with Some p => p | None => vInt v end
  else vInt v.

Definition parseSlotsNode (v : value) : option Node :=
  if negb (vType v ==b TypeArray) || Nat.ltb (length (vValues v)) 2 then None
  else
    let v0 := nth 0 (vValues v) zeroValue in
    let v1 := nth 1 (vValues v) zeroValue in
    let ip := content (vStr v0) in
    let port := port_of v1 ((vType v1 ==b TypeBulkString) || (vType v1 ==b TypeSimpleString)) in
    let id := match vValues v !! 2%nat with Some v2 => content (vStr v2) | None => [] end in
    if (ip ==b []) || (port <=? 0) then None
    else Some (mkNode id (join_addr ip port) [] HealthOnline false).

Definition set_role (master : bool) (n : Node) : Node :=
  mkNode (nID n) (nAddr n) (if master then B "master" else B "replica") (nHealth n) master.

(** The loop over the nodes of one entry; [first] marks position 2, the master. *)
Fixpoint slots_nodes (t : Topology) (start stop : Z) (first : bool) (vs : list value) :
  outcome Topology :=
  match vs with
  | [] => Ret t
  | v :: rest =>
      match parseSlotsNode v with
      | None => slots_nodes t start stop false rest
      | Some node =>
          let '(t, idx) := upsertNode t (set_role first node) in
          t ← (if first then fill t start stop idx else Ret t);
          slots_nodes t start stop false rest
      end
  end.

Definition slots_entry (t : Topology) (entry : value) : outcome Topology :=
  match vValues entry with
  | v0 :: v1 :: (_ :: _) as nodes =>
      if negb (vType entry ==b TypeArray) then Ret t
      else slots_nodes t (vInt v0) (vInt v1) true nodes
  | _ => Ret t
  end.

Fixpoint slots_entries (t : Topology) (entries : list value) : outcome Topology :=
  match entries with
  | [] => Ret t
  | e :: rest => t ← slots_entry t e; slots_entries t rest
  end.

Definition ParseSlots (v : value) : outcome (bytes + Topology) :=
  if negb (vType v ==b TypeArray) || vNull v then Ret (inl (B "cluster slots: not an array"))
  else t ← slots_entries newEmptyTopology (vValues v); Ret (inr t).

(** ** CLUSTER SHARDS *)

(** One field of a node description. *)
Definition shard_node_field (n : Node) (k : bytes) (val : value) : Node :=
  let s := content (vStr val) in
  if k ==b B "id" then mkNode s (nAddr n) (nRole n) (nHealth n) (nMaster n)
  else if str_in k ["endpoint"; "ip"] then
    if ((nAddr n ==b []) || (k ==b B "endpoint")) && negb (s ==b [])
    then mkNode (nID n) s (nRole n) (nHealth n) (nMaster n) else n
  else if k ==b B "port" then
    let port := port_of val (vType val ==b TypeBulkString) in
    if negb (nAddr n ==b []) && negb (contains (nAddr n) (B ":"))
    then mkNode (nID n) (join_addr (nAddr n) port) (nRole n) (nHealth n) (nMaster n) else n
  else if k ==b B "role" then
    let role := to_lower s in
    mkNode (nID n) (nAddr n) role (nHealth n) (role ==b B "master")
  else if k ==b B "health" then mkNode (nID n) (nAddr n) (nRole n) (parseHealth s) (nMaster n)
  else n.

(** [for i := 0; i+1 < len(vs); i += 2]: key and value two by two, an odd last one is ignored. *)
Fixpoint shard_node_fields (n : Node) (vs : list value) : Node :=
  match vs with
  | k :: val :: rest =>
      shard_node_fields (shard_node_field n (to_lower (content (vStr k))) val) rest
  | _ => n
  end.

Definition parseShardNode (v : value) : option Node :=
  if negb (vType v ==b TypeArray) then None
  else
    let n := shard_node_fields (mkNode [] [] [] HealthOnline false) (vValues v) in
    if (nAddr n ==b []) || negb (contains (nAddr n) (B ":")) then None else Some n.

Fixpoint slot_ranges (vs : list value) : list (Z * Z) :=
  match vs with
  | a :: b :: rest => (vInt a, vInt b) :: slot_ranges rest
  | _ => []
  end.

(** The fields of one shard: the ranges and the nodes, appended in order. *)
Fixpoint shard_fields (vs : list value) (ranges : list (Z * Z)) (nodes : list Node) :
  list (Z * Z) * list Node :=
  match vs with
  | k :: val :: rest =>
      let key := to_lower (content (vStr k)) in
      if key ==b B "slots" then shard_fields rest (ranges ++ slot_ranges (vValues val)) nodes
      else if key ==b B "nodes" then
        shard_fields rest ranges (nodes ++ omap parseShardNode (vValues val))
      else shard_fields rest ranges nodes
  | _ => (ranges, nodes)
  end.

(** Hidden nodes are skipped; the last master wins. *)
Fixpoint shard_upsert (t : Topology) (nodes : list Node) (masterIdx : option nat) :
  Topology * option nat :=
  match nodes with
  | [] => (t, masterIdx)
  | n :: rest =>
      if nHealth n ==b HealthHidden then shard_upsert t rest masterIdx
      else
        let '(t, idx) := upsertNode t n in
        shard_upsert t rest (if nMaster n then Some idx else masterIdx)
  end.

Fixpoint fill_ranges (t : Topology) (ranges : list (Z * Z)) (idx : nat) : outcome Topology :=
  match ranges with
  | [] => Ret t
  | (a, b) :: rest => t ← fill t a b idx; fill_ranges t rest idx
  end.

Definition shard_entry (t : Topology) (shard : value) : outcome Topology :=
  if negb (vType shard ==b TypeArray) then Ret t
  else
    let '(ranges, nodes) := shard_fields (vValues shard) [] [] in
    let '(t, masterIdx) := shard_upsert t nodes None in
    match masterIdx with
    | None => Ret t
    | Some idx => fill_ranges t ranges idx
    end.

Fixpoint shard_entries (t : Topology) (shards : list value) : outcome Topology :=
  match shards with
  | [] => Ret t
  | s :: rest => t ← shard_entry t s; shard_entries t rest
  end.

Definition ParseShards (v : value) : outcome (bytes + Topology) :=
  if negb (vType v ==b TypeArray) || vNull v then Ret (inl (B "cluster shards: not an array"))
  else t ← shard_entries newEmptyTopology (vValues v); Ret (inr t).

Definition DetectFlavor (info : bytes) : Flavor :=
  let low := to_lower info in
  if contains low (B "dragonfly_version") then
    if contains low (B "cluster_mode:emulated") || contains low (B "cluster_enabled:0")
    then FlavorEmulated else FlavorDragonfly
  else FlavorRedis.

Definition FirstMaster (t : option Topology) : option Node :=
  match t with
  | None => None
  | Some t =>
      match find (fun i => Nat.ltb i (length (tNodes t))) (tMasters t) with
      | Some i => tNodes t !! i
      | None =>
          match find (fun n => nMaster n || (nRole n ==b B "master")) (tNodes t) with
          | Some n => Some n
          | None => head (tNodes t)
          end
      end
  end.

(** ** Examples *)

Definition bulk (s : string) : value := BulkString (BS s).

Definition slots_reply (start stop : Z) (nodes : list (string * Z)) : value :=
  Array (Integer start :: Integer stop
         :: map (fun n => Array [bulk n.1; Integer n.2; bulk n.1]) nodes).

Definition owner (t : outcome (bytes + Topology)) (s : Z) : option bytes :=
  match t with
  | Ret (inr t) => nAddr <$> NodeForSlot (Some t) s false
  | _ => None
  end.

Example slots_example :
  let t := ParseSlots (Array [slots_reply 0 2 [("a", 1); ("r", 2)]; slots_reply 2 3 [("b", 5)]]) in
  (owner t 0, owner t 2, owner t 4) = (Some (B "a:1"), Some (B "b:5"), None).
Proof. vm_refl. Qed.

(** ** The invariant *)

Abbreviation nslots := (Z.to_nat SlotCount).

Record wf (t : Topology) : Prop := mkWf {
  wf_len : length (tSlots t) = nslots;
  wf_slots : Forall (fun x => -1 <= x < Z.of_nat (length (tNodes t))) (tSlots t);
  wf_masters : Forall (fun i => i < length (tNodes t))%nat (tMasters t);
  wf_addrs : NoDup (map nAddr (tNodes t));
  wf_nonempty : Forall (fun n => nAddr n ≠ []) (tNodes t) }.

(** Node indexes fit in an [int32]. *)
Definition small (t : Topology) : Prop := Z.of_nat (length (tNodes t)) <= 2^31.

Lemma wf_newEmpty : wf newEmptyTopology.
Proof.
  split; cbn [newEmptyTopology tSlots tNodes tMasters map]; [apply repeat_length| |constructor..].
  apply list.Forall_forall. intros x Hx%list_elem_of_In%repeat_spec. cbn. lia.
Qed.

Lemma wf_set_generation g t : wf t -> wf (set_generation g t).
Proof. by intros []. Qed.

Lemma int32_id z : 0 <= z < 2^31 -> int32 z = z.
Proof. intros. unfold int32. rewrite Z.mod_small; lia. Qed.

(** The address behind a slot, and what is known of it. *)
Definition slot_addr (t : Topology) (s : Z) : option bytes :=
  if slot_at t s <? 0 then None else nAddr <$> tNodes t !! Z.to_nat (slot_at t s).

Lemma slot_at_lookup t s x : tSlots t !! Z.to_nat s = Some x -> slot_at t s = x.
Proof. intros H. unfold slot_at. by apply nth_lookup_Some. Qed.

Lemma slot_at_range t s : wf t -> -1 <= slot_at t s < Z.of_nat (length (tNodes t)).
Proof.
  intros H. unfold slot_at. destruct (tSlots t !! Z.to_nat s) as [x|] eqn:E.
  - rewrite (nth_lookup_Some _ _ _ _ E). pose proof (wf_slots t H) as Hf.
    rewrite list.Forall_forall in Hf. by eapply Hf, list_elem_of_lookup_2.
  - rewrite nth_lookup, E. cbn. lia.
Qed.

Lemma NodeForSlot_addr t s :
  wf t -> 0 <= s < SlotCount -> nAddr <$> NodeForSlot (Some t) s false = slot_addr t s.
Proof.
  intros H Hs. unfold NodeForSlot, slot_addr. pose proof (slot_at_range t s H) as Hr.
  rewrite (proj2 (Z.leb_gt _ _)) by lia. cbv zeta.
  destruct (slot_at t s <? 0) eqn:E; bool_simp; [done|]. cbn [orb].
  rewrite (proj2 (Z.leb_gt _ _)) by lia. cbn [negb].
  destruct (lookup_lt_is_Some_2 (tNodes t) (Z.to_nat (slot_at t s))) as [n Hn]; [lia|].
  rewrite Hn. by rewrite (nth_lookup_Some _ _ _ _ Hn).
Qed.

Lemma nodeIndex_Some t addr id i :
  nodeIndex t addr id = Some i ->
  exists n, tNodes t !! i = Some n ∧ ((addr ≠ [] ∧ nAddr n = addr) ∨ (id ≠ [] ∧ nID n = id)).
Proof.
  unfold nodeIndex. intros ([j n] & E & ->)%fmap_Some. apply list_find_Some in E as (H1 & H2 & _).
  by exists n.
Qed.

Lemma nodeIndex_None t addr id :
  addr ≠ [] -> nodeIndex t addr id = None -> addr ∉ map nAddr (tNodes t).
Proof.
  unfold nodeIndex. rewrite fmap_None, list_find_None, list.Forall_forall.
  intros Ha H (n & -> & Hn)%list_elem_of_fmap. apply (H n Hn). by left.
Qed.

Lemma alter_addrs i n l : map nAddr (alter (fun old => refresh_node old n) i l) = map nAddr l.
Proof.
  revert i. induction l as [|a l IH]; intros [|i]; [done..|]. cbn. by rewrite IH.
Qed.

Section Upsert.
Context (t : Topology) (n : Node) (Hwf : wf t) (Hn : nAddr n ≠ []).
Local Abbreviation t' := (upsertNode t n).1.
Local Abbreviation i' := (upsertNode t n).2.

Lemma upsert_length :
  (length (tNodes t) <= length (tNodes t') <= S (length (tNodes t)))%nat
  ∧ (i' < length (tNodes t'))%nat ∧ tSlots t' = tSlots t.
Proof.
  unfold upsertNode. destruct (nodeIndex _ _ _) as [i|] eqn:E; cbn.
  - apply nodeIndex_Some in E as (m & Hm & _). rewrite length_alter.
    apply lookup_lt_Some in Hm. split_and!; [lia..|done].
  - rewrite length_app. cbn. split_and!; [lia..|done].
Qed.

(** Addresses never move: old indexes keep their address. *)
Lemma upsert_addr j : (j < length (tNodes t))%nat -> nAddr <$> tNodes t' !! j = nAddr <$> tNodes t !! j.
Proof.
  intros Hj. unfold upsertNode. destruct (nodeIndex _ _ _) as [i|] eqn:E; cbn.
  - change (nAddr <$> ?o) with (nAddr <$> o). rewrite <- !list_lookup_fmap.
    change (nAddr <$> ?l) with (map nAddr l). by rewrite alter_addrs.
  - by rewrite lookup_app_l.
Qed.

Lemma wf_upsert : wf t'.
Proof.
  pose proof upsert_length as ((L1 & L2) & Hi & Hs). destruct Hwf as [W1 W2 W3 W4 W5].
  split; rewrite ?Hs; [done| | | |].
  - eapply list.Forall_impl; [exact W2|]. simpl. lia.
  - assert (Forall (fun i => i < length (tNodes t'))%nat (tMasters t)) as F
      by (eapply list.Forall_impl; [exact W3|]; simpl; lia).
    revert F Hi. unfold upsertNode. destruct (nodeIndex _ _ _); cbn; [done|]. intros F Hi.
    destruct (nMaster n); [|done]. apply Forall_app. split; [done|]. by constructor.
  - unfold upsertNode. destruct (nodeIndex _ _ _) as [i|] eqn:E; cbn; [by rewrite alter_addrs|].
    apply nodeIndex_None in E; [|done]. rewrite map_app. apply NoDup_app.
    split_and!; [done| |apply NoDup_singleton]. by intros x Hx ->%list_elem_of_singleton.
  - assert (Forall (fun a => a ≠ []) (map nAddr (tNodes t'))) as F; [|exact (proj1 (Forall_map _ _ _) F)].
    unfold upsertNode. destruct (nodeIndex _ _ _) as [i|] eqn:E; cbn.
    + rewrite alter_addrs. by apply Forall_map.
    + rewrite map_app. apply Forall_app. split; [by apply Forall_map|]. by constructor.
Qed.

Lemma upsert_slot_addr s : slot_addr t' s = slot_addr t s.
Proof.
  pose proof upsert_length as (_ & _ & Hs). pose proof (slot_at_range t s Hwf) as Hr.
  assert (slot_at t' s = slot_at t s) as E by (unfold slot_at; by rewrite Hs).
  unfold slot_addr. rewrite E. destruct (_ <? 0) eqn:G; [done|]. bool_simp. apply upsert_addr. lia.
Qed.
End Upsert.

(** ** Filling ranges *)

Lemma nslots_S : exists k, nslots = S k.
Proof. exists (Nat.pred nslots). unfold SlotCount. lia. Qed.

Lemma fill_slots_spec fuel s stop idx slots :
  0 <= s -> SlotCount - s <= Z.of_nat fuel -> length slots = nslots ->
  exists slots', fill_slots fuel s stop idx slots = Ret slots' ∧ length slots' = nslots
  ∧ forall j, (j < nslots)%nat ->
      slots' !! j = if (s <=? Z.of_nat j) && (Z.of_nat j <=? stop) then Some idx else slots !! j.
Proof.
  revert s slots. induction fuel as [|f IH]; intros s slots Hs Hf Hl.
  - exists slots. split_and!; [done..|]. intros j Hj.
    destruct (s <=? Z.of_nat j) eqn:E; [|done]. bool_simp. lia.
  - cbn [fill_slots]. destruct ((s <=? stop) && (s <? SlotCount)) eqn:E.
    + bool_simp. rewrite (proj2 (Z.ltb_ge s 0)) by lia.
      destruct (IH (s + 1) (<[Z.to_nat s := idx]> slots)) as (slots' & E' & Hl' & Hj'); [lia..| |].
      { by rewrite length_insert. }
      exists slots'. split_and!; [done..|]. intros j Hj. rewrite Hj' by done.
      destruct (decide (Z.to_nat s = j)) as [<-|Hne].
      * rewrite Z2Nat.id by lia. rewrite (proj2 (Z.leb_gt (s + 1) s)), Z.leb_refl by lia.
        rewrite (proj2 (Z.leb_le s stop)) by lia. cbn [andb]. apply list_lookup_insert_eq. lia.
      * rewrite list_lookup_insert_ne by done.
        assert ((s + 1 <=? Z.of_nat j) = (s <=? Z.of_nat j)) as ->; [|done].
        apply eq_true_iff_eq. rewrite !Z.leb_le. lia.
    + exists slots. split_and!; [done..|]. intros j Hj.
      destruct ((s <=? Z.of_nat j) && (Z.of_nat j <=? stop)) eqn:G; [|done]. bool_simp.
      apply andb_false_iff in E as [E|E]; bool_simp; lia.
Qed.

Lemma fill_panics t start stop idx :
  fill t start stop idx = Panic <-> start < 0 ∧ start <= stop.
Proof.
  unfold fill. destruct (decide (0 <= start)) as [Hs|Hs].
  - split; [|lia]. intros H. exfalso.
    assert (forall fuel s slots, 0 <= s -> fill_slots fuel s stop (int32 (Z.of_nat idx)) slots ≠ Panic) as G.
    { clear. induction fuel as [|f IH]; intros s slots Hs; [done|]. cbn.
      destruct (_ && _); [|done]. rewrite (proj2 (Z.ltb_ge s 0)) by lia. apply IH. lia. }
    specialize (G nslots start (tSlots t) Hs). by destruct (fill_slots _ _ _ _ _).
  - destruct nslots_S as [k ->]. cbn [fill_slots].
    rewrite (proj2 (Z.ltb_lt start SlotCount)) by (unfold SlotCount; lia). rewrite andb_true_r.
    rewrite (proj2 (Z.ltb_lt start 0)) by lia.
    destruct (start <=? stop) eqn:E; bool_simp; cbn; [split; [lia|done]|]. split; [done|lia].
Qed.

Lemma fill_ok t start stop idx :
  wf t -> small t -> (idx < length (tNodes t))%nat -> 0 <= start ∨ stop < start ->
  exists t', fill t start stop idx = Ret t' ∧ wf t' ∧ tNodes t' = tNodes t
  ∧ forall s, 0 <= s < SlotCount ->
      slot_addr t' s = if (start <=? s) && (s <=? stop) then nAddr <$> tNodes t !! idx
                       else slot_addr t s.
Proof.
  intros [W1 W2 W3 W4 W5] Hsm Hi Hst. unfold small in Hsm.
  assert (exists slots', fill_slots nslots start stop (int32 (Z.of_nat idx)) (tSlots t) = Ret slots'
    ∧ length slots' = nslots ∧ forall j, (j < nslots)%nat ->
      slots' !! j = if (start <=? Z.of_nat j) && (Z.of_nat j <=? stop)
                    then Some (int32 (Z.of_nat idx)) else tSlots t !! j) as (slots' & E & Hl & Hj).
  { destruct (decide (0 <= start)); [apply fill_slots_spec; (done || lia)|].
    exists (tSlots t). destruct nslots_S as [k Hk]. rewrite Hk at 1. cbn [fill_slots].
    rewrite (proj2 (Z.leb_gt start stop)) by lia. split_and!; [done..|]. intros j _.
    destruct (_ && _) eqn:G; [|done]. bool_simp. lia. }
  rewrite int32_id in Hj by lia. unfold fill. rewrite E. cbn.
  exists (set_slots slots' t). split_and!; [done| |done|].
  - split; cbn; [done| |done..]. apply Forall_lookup. intros j x Hx.
    assert (j < nslots)%nat as Hjn by (rewrite <- Hl; by eapply lookup_lt_Some).
    rewrite Hj in Hx by done. destruct (_ && _).
    + simplify_eq. lia.
    + rewrite Forall_lookup in W2. by eapply W2.
  - intros s Hs. unfold slot_addr, slot_at. cbn.
    assert (Z.to_nat s < nslots)%nat as Hsn by lia.
    rewrite !nth_lookup, Hj, Z2Nat.id by lia. destruct (_ && _); [|done]. cbn.
    rewrite (proj2 (Z.ltb_ge _ _)) by lia. by rewrite Nat2Z.id.
Qed.

(** ** The meaning of a CLUSTER SLOTS reply *)

(** The node values of an entry (at least one, after the two bounds). *)
Definition entry_nodes (e : value) : list value :=
  match vValues e with
  | v0 :: v1 :: (_ :: _) as nodes => if vType e ==b TypeArray then nodes else []
  | _ => []
  end.

(** The range and the master's address, when the first node is well formed. *)
Definition entry_master (e : value) : option (Z * Z * bytes) :=
  match vValues e, entry_nodes e with
  | v0 :: v1 :: _, m :: _ => n ← parseSlotsNode m; Some (vInt v0, vInt v1, nAddr n)
  | _, _ => None
  end.

(** The owner of a slot: the master of the last entry that covers it. *)
Definition slot_owner (entries : list value) (s : Z) : option bytes :=
  fold_left (fun acc e =>
    match entry_master e with
    | Some (a, b, addr) => if (a <=? s) && (s <=? b) then Some addr else acc
    | None => acc
    end) entries None.

Definition reply_nodes (entries : list value) : list Node :=
  omap parseSlotsNode (concat (map entry_nodes entries)).

(** Node ids identify addresses. *)
Definition ids_consistent (ns : list Node) : Prop :=
  forall a b, a ∈ ns -> b ∈ ns -> nID a ≠ [] -> nID a = nID b -> nAddr a = nAddr b.

(** Every id in the topology was announced with the address it has there. *)
Definition announced (ns : list Node) (t : Topology) : Prop :=
  forall x, x ∈ tNodes t -> nID x ≠ [] -> exists a, a ∈ ns ∧ nID a = nID x ∧ nAddr a = nAddr x.

Lemma parseSlotsNode_addr v n : parseSlotsNode v = Some n -> nAddr n ≠ [].
Proof.
  unfold parseSlotsNode. repeat case_if; intros; simplify_eq. cbn. unfold join_addr. by intros [_ [? _]%app_nil]%app_nil.
Qed.

Section UpsertAnnounced.
Context (ns : list Node) (Hids : ids_consistent ns) (t : Topology) (n : Node).
Context (Hwf : wf t) (Ha : announced ns t) (Hn : nAddr n ≠ []).
Context (Hin : exists a, a ∈ ns ∧ nID a = nID n ∧ nAddr a = nAddr n).

(** The node found or added has the announced address. *)
Lemma upsert_target : nAddr <$> tNodes (upsertNode t n).1 !! (upsertNode t n).2 = Some (nAddr n).
Proof.
  unfold upsertNode. destruct (nodeIndex _ _ _) as [i|] eqn:E; cbn.
  - apply nodeIndex_Some in E as (m & Hm & Hc). rewrite list_lookup_alter_eq, Hm. cbn. f_equal.
    destruct Hc as [[_ Hc]|[Hne Hc]]; [done|].
    destruct (Ha m (list_elem_of_lookup_2 _ _ _ Hm)) as (a & Ha1 & Ha2 & Ha3); [congruence|].
    destruct Hin as (b & Hb1 & Hb2 & Hb3). rewrite <- Ha3, <- Hb3. apply Hids; congruence.
  - rewrite list_lookup_middle; [done|]. rewrite length_app. cbn. lia.
Qed.

Lemma upsert_announced : announced ns (upsertNode t n).1.
Proof.
  pose proof upsert_target as Ht. revert Ht. unfold upsertNode, announced.
  destruct (nodeIndex _ _ _) as [i|] eqn:E; cbn; intros Ht x Hx Hne.
  - apply list_elem_of_lookup_1 in Hx as [j Hj]. destruct (decide (i = j)) as [<-|Hij].
    + rewrite Hj in Ht. cbn in Ht. simplify_eq. rewrite list_lookup_alter_eq in Hj.
      apply fmap_Some in Hj as (m & Hm & ->). cbn in *.
      case_bool_decide as Hid.
      * by apply (Ha m (list_elem_of_lookup_2 _ _ _ Hm)).
      * destruct Hin as (b & ? & ? & ?). exists b. split_and!; congruence.
    + rewrite list_lookup_alter_ne in Hj by done. by apply (Ha x (list_elem_of_lookup_2 _ _ _ Hj)).
  - apply elem_of_app in Hx as [Hx| ->%list_elem_of_singleton]; [by apply Ha|]. done.
Qed.
End UpsertAnnounced.

Section ParseSlotsTheory.
Context (ns : list Node) (Hids : ids_consistent ns).

(** What every step of the parser keeps, with [k] nodes still allowed. *)
Definition parse_inv (k : nat) (t : Topology) : Prop :=
  wf t ∧ announced ns t ∧ Z.of_nat (length (tNodes t) + k) <= 2^31.

Lemma parse_inv_upsert k t n first :
  parse_inv (S k) t -> n ∈ ns -> nAddr n ≠ [] ->
  let '(t', i) := upsertNode t (set_role first n) in
  parse_inv k t' ∧ nAddr <$> tNodes t' !! i = Some (nAddr n) ∧ (i < length (tNodes t'))%nat
  ∧ forall s, slot_addr t' s = slot_addr t s.
Proof.
  intros (W & A & K) Hn Hne. set (m := set_role first n).
  assert (exists a, a ∈ ns ∧ nID a = nID m ∧ nAddr a = nAddr m) as Hin by (by exists n).
  pose proof (upsert_length t m) as ((_ & L2) & L3 & _).
  pose proof (wf_upsert t m W Hne) as W'. pose proof (upsert_target ns Hids t m A Hin) as Ht.
  pose proof (upsert_announced ns Hids t m A Hin) as A'.
  pose proof (upsert_slot_addr t m W) as Hs.
  destruct (upsertNode t m) as [t' i]. cbn in *. split_and!; [|done..].
  split_and!; [done..|]. lia.
Qed.

Lemma slots_nodes_replicas t start stop vs k :
  parse_inv (length (omap parseSlotsNode vs) + k) t -> (forall n, n ∈ omap parseSlotsNode vs -> n ∈ ns) ->
  exists t', slots_nodes t start stop false vs = Ret t' ∧ parse_inv k t'
             ∧ forall s, slot_addr t' s = slot_addr t s.
Proof.
  revert t. induction vs as [|v vs IH]; intros t Hi Hns; [by exists t|]. cbn [slots_nodes].
  cbn in Hi, Hns. destruct (parseSlotsNode v) as [n|] eqn:E; [|by apply IH]. cbn in Hi.
  pose proof (parse_inv_upsert _ t n false Hi (Hns n ltac:(by left)) (parseSlotsNode_addr _ _ E)) as Hu.
  destruct (upsertNode t (set_role false n)) as [t' i]. destruct Hu as (Hi' & _ & _ & Hs).
  cbn [mbind outcome_bind]. destruct (IH t' Hi') as (t'' & E' & Hi'' & Hs').
  { intros m Hm. apply Hns. by right. }
  exists t''. split_and!; [done..|]. intros s. by rewrite Hs', Hs.
Qed.

Lemma slots_entry_ok t e k :
  parse_inv (length (omap parseSlotsNode (entry_nodes e)) + k) t ->
  (forall n, n ∈ omap parseSlotsNode (entry_nodes e) -> n ∈ ns) ->
  (forall a b addr, entry_master e = Some (a, b, addr) -> 0 <= a ∨ b < a) ->
  exists t', slots_entry t e = Ret t' ∧ parse_inv k t'
  ∧ forall s, 0 <= s < SlotCount ->
    slot_addr t' s = match entry_master e with
                     | Some (a, b, addr) => if (a <=? s) && (s <=? b) then Some addr else slot_addr t s
                     | None => slot_addr t s
                     end.
Proof.
  unfold slots_entry, entry_master, entry_nodes.
  destruct (vValues e) as [|v0 [|v1 [|m rest]]]; [by exists t..|].
  destruct (vType e ==b TypeArray); cbn [negb]; [|by exists t]. intros Hi Hns Hr.
  cbn [slots_nodes]. cbn in Hi, Hns. destruct (parseSlotsNode m) as [n|] eqn:E; cbn in *.
  2: { destruct (slots_nodes_replicas t (vInt v0) (vInt v1) rest k Hi Hns) as (t' & ? & ? & ?). eauto. }
  pose proof (parse_inv_upsert _ t n true Hi (Hns n ltac:(by left)) (parseSlotsNode_addr _ _ E)) as Hu.
  destruct (upsertNode t (set_role true n)) as [t1 i]. destruct Hu as (Hi1 & Ha & Hl & Hs1).
  destruct Hi1 as (W1 & A1 & K1).
  destruct (fill_ok t1 (vInt v0) (vInt v1) i) as (t2 & -> & W2 & N2 & Hs2);
    [done|unfold small; lia|done|by eapply Hr|]. cbn [mbind outcome_bind].
  destruct (slots_nodes_replicas t2 (vInt v0) (vInt v1) rest k) as (t3 & -> & Hi3 & Hs3).
  { split_and!; [done| |by rewrite N2]. unfold announced. by rewrite N2. }
  { intros x Hx. apply Hns. by right. }
  exists t3. split_and!; [done..|]. intros s Hs. rewrite Hs3, Hs2, Hs1 by done. by rewrite Ha.
Qed.

Lemma slots_entries_ok entries t k acc :
  parse_inv (length (reply_nodes entries) + k) t -> (forall n, n ∈ reply_nodes entries -> n ∈ ns) ->
  (forall e a b addr, e ∈ entries -> entry_master e = Some (a, b, addr) -> 0 <= a ∨ b < a) ->
  (forall s, 0 <= s < SlotCount -> slot_addr t s = acc s) ->
  exists t', slots_entries t entries = Ret t' ∧ parse_inv k t'
  ∧ forall s, 0 <= s < SlotCount ->
    slot_addr t' s = fold_left (fun acc e =>
      match entry_master e with
      | Some (a, b, addr) => if (a <=? s) && (s <=? b) then Some addr else acc
      | None => acc
      end) entries (acc s).
Proof.
  unfold reply_nodes. revert t acc. induction entries as [|e entries IH]; intros t acc Hi Hns Hr Hacc.
  { by exists t. }
  cbn [map concat slots_entries fold_left] in *. rewrite omap_app, length_app in *.
  setoid_rewrite elem_of_app in Hns. rewrite <- Nat.add_assoc in Hi.
  destruct (slots_entry_ok t e _ Hi) as (t1 & -> & Hi1 & Hs1); [auto|eauto using list_elem_of_here|].
  cbn [mbind outcome_bind].
  destruct (IH t1 (fun s => match entry_master e with
      | Some (a, b, addr) => if (a <=? s) && (s <=? b) then Some addr else acc s
      | None => acc s end) Hi1) as (t2 & -> & Hi2 & Hs2); [auto|eauto using list_elem_of_further| |eauto].
  intros s Hs. rewrite Hs1, Hacc by done. done.
Qed.
End ParseSlotsTheory.

(** ** Every parsed topology is well formed *)

(** Steps that only add nodes and keep the invariant while indexes fit. *)
Definition wf_step (t t' : Topology) : Prop :=
  (length (tNodes t) <= length (tNodes t'))%nat ∧ (wf t -> small t' -> wf t').

#[global] Instance wf_step_preorder : PreOrder wf_step.
Proof.
  split; [by intros t; split|]. intros a b c [L1 W1] [L2 W2]. split; [lia|].
  intros Wa Sc. apply W2; [|done]. apply W1; [done|]. unfold small in *. lia.
Qed.

Lemma wf_step_upsert t n : nAddr n ≠ [] -> wf_step t (upsertNode t n).1.
Proof.
  intros Hn. split; [pose proof (upsert_length t n); lia|]. intros W _. by apply wf_upsert.
Qed.

Lemma fill_nodes t a b i t' : fill t a b i = Ret t' -> tNodes t' = tNodes t.
Proof. unfold fill. destruct (fill_slots _ _ _ _ _); [|done]. cbn. by intros [= <-]. Qed.

Lemma wf_step_fill t a b i t' :
  (i < length (tNodes t))%nat -> fill t a b i = Ret t' -> wf_step t t'.
Proof.
  intros Hi H. pose proof (fill_nodes _ _ _ _ _ H) as Hn. split; [by rewrite Hn|]. intros W Hs.
  destruct (fill_ok t a b i) as (t'' & E & W' & _); [done|unfold small in *; by rewrite <- Hn|done| |].
  - destruct (decide (a < 0 ∧ a <= b)) as [Hp|Hp]; [|lia].
    apply (fill_panics t a b i) in Hp. congruence.
  - congruence.
Qed.

Lemma wf_step_slots_nodes vs t a b first t' :
  slots_nodes t a b first vs = Ret t' -> wf_step t t'.
Proof.
  revert t first. induction vs as [|v vs IH]; intros t first; cbn; [by intros [= <-]|].
  destruct (parseSlotsNode v) as [n|] eqn:E; [|apply IH].
  pose proof (upsert_length t (set_role first n)) as (_ & Hi & _).
  pose proof (wf_step_upsert t (set_role first n) (parseSlotsNode_addr _ _ E)) as Hw.
  destruct (upsertNode t (set_role first n)) as [t1 i]. cbn in *. destruct first.
  - destruct (fill t1 a b i) as [t2|] eqn:F; [|done]. cbn. intros H%IH.
    etransitivity; [exact Hw|]. etransitivity; [by eapply wf_step_fill|done].
  - cbn. intros H%IH. by etransitivity.
Qed.

Lemma wf_step_slots_entries es t t' : slots_entries t es = Ret t' -> wf_step t t'.
Proof.
  revert t. induction es as [|e es IH]; intros t; cbn; [by intros [= <-]|].
  destruct (slots_entry t e) as [t1|] eqn:E; [|done]. cbn. intros H%IH.
  transitivity t1; [|done]. revert E. unfold slots_entry.
  destruct (vValues e) as [|v0 [|v1 [|m rest]]]; [by intros [= <-]..|].
  case_if; [by intros [= <-]|]. apply wf_step_slots_nodes.
Qed.

Lemma shard_node_addr v n : parseShardNode v = Some n -> nAddr n ≠ [].
Proof.
  unfold parseShardNode. repeat case_if; intros; simplify_eq. bool_simp. done.
Qed.

Lemma shard_fields_addr vs ranges nodes :
  Forall (fun n => nAddr n ≠ []) nodes -> Forall (fun n => nAddr n ≠ []) (shard_fields vs ranges nodes).2.
Proof.
  remember (length vs) as k eqn:Hk. revert vs Hk ranges nodes.
  induction (lt_wf k) as [k _ IH]. intros vs -> ranges nodes Hn.
  destruct vs as [|a [|b vs]]; [done..|]. cbn [shard_fields].
  repeat case_if; (eapply IH; [|done|]; [cbn; lia|]); try done.
  apply Forall_app. split; [done|]. apply list.Forall_forall.
  intros n (v & _ & H)%list_elem_of_omap. by eapply shard_node_addr.
Qed.

Lemma wf_step_shard_upsert ns t mi :
  Forall (fun n => nAddr n ≠ []) ns ->
  (forall i, mi = Some i -> (i < length (tNodes t))%nat) ->
  wf_step t (shard_upsert t ns mi).1
  ∧ forall i, (shard_upsert t ns mi).2 = Some i -> (i < length (tNodes (shard_upsert t ns mi).1))%nat.
Proof.
  intros H. revert t mi. induction H as [|n ns Hn _ IH]; intros t mi Hm; [done|].
  cbn [shard_upsert]. case_if; [by apply IH|].
  pose proof (upsert_length t n) as ((L & _) & Hi & _). pose proof (wf_step_upsert t n Hn) as Hw.
  destruct (upsertNode t n) as [t1 i]. cbn in *.
  destruct (IH t1 (if nMaster n then Some i else mi)) as [H1 H2].
  { intros j. case_if; intros; simplify_eq; [done|]. specialize (Hm j eq_refl). lia. }
  split; [by etransitivity|done].
Qed.

Lemma wf_step_shard_entries ss t t' : shard_entries t ss = Ret t' -> wf_step t t'.
Proof.
  revert t. induction ss as [|s ss IH]; intros t; cbn; [by intros [= <-]|].
  destruct (shard_entry t s) as [t1|] eqn:E; [|done]. cbn. intros H%IH.
  transitivity t1; [|done]. revert E. clear. unfold shard_entry.
  case_if; [by intros [= <-]|].
  pose proof (shard_fields_addr (vValues s) [] [] ltac:(constructor)) as Hf.
  destruct (shard_fields (vValues s) [] []) as [ranges nodes].
  destruct (wf_step_shard_upsert nodes t None Hf) as [Hw Hi]; [done|].
  destruct (shard_upsert t nodes None) as [t2 [i|]]; cbn in *; [|by intros [= <-]].
  specialize (Hi i eq_refl). intros H. transitivity t2; [done|]. clear -H Hi.
  revert t2 H Hi. induction ranges as [|[a b] ranges IH]; intros t2; cbn; [by intros [= <-]|].
  destruct (fill t2 a b i) as [t3|] eqn:F; [|done]. cbn. intros H Hi. transitivity t3.
  - by eapply wf_step_fill.
  - apply IH; [done|]. by rewrite (fill_nodes _ _ _ _ _ F).
Qed.

(** ** Panics of the parser *)

Lemma slots_nodes_false_total vs t a b : slots_nodes t a b false vs ≠ Panic.
Proof.
  revert t. induction vs as [|v vs IH]; intros t; cbn; [done|].
  destruct (parseSlotsNode v); [|apply IH]. destruct (upsertNode t _). apply IH.
Qed.

Lemma slots_entry_panics t e :
  slots_entry t e = Panic <-> exists a b addr, entry_master e = Some (a, b, addr) ∧ a < 0 ∧ a <= b.
Proof.
  unfold slots_entry, entry_master, entry_nodes.
  destruct (vValues e) as [|v0 [|v1 [|m rest]]]; [by split; [done|intros (?&?&?&?&_)]..|].
  destruct (vType e ==b TypeArray); cbn [negb]; [|by split; [done|intros (?&?&?&?&_)]].
  cbn [slots_nodes]. destruct (parseSlotsNode m) as [n|]; cbn.
  2: { split; [by intros ?%slots_nodes_false_total|by intros (?&?&?&?&_)]. }
  destruct (upsertNode t _) as [t1 i]. destruct (fill t1 _ _ i) as [t2|] eqn:F; cbn.
  - split; [by intros ?%slots_nodes_false_total|]. intros (a & b & addr & [= <- <- <-] & H).
    apply (fill_panics t1 _ _ i) in H. congruence.
  - split; [|done]. intros _. apply fill_panics in F. eauto 10.
Qed.

(** ** The MOVED patch *)

(** The first half of [UpdateSlot]: find or add the node. *)
Lemma patch_node t addr :
  wf t -> addr ≠ [] -> Z.of_nat (length (tNodes t)) < 2^31 ->
  exists nt i, moved_node t addr [] = (nt, i)
    ∧ wf nt ∧ (i < length (tNodes nt))%nat ∧ small nt ∧ nAddr <$> tNodes nt !! i = Some addr
    ∧ (forall s, slot_addr nt s = slot_addr t s)
    ∧ (length (tNodes nt) <= S (length (tNodes t)))%nat.
Proof.
  intros W Ha Hs. unfold moved_node. destruct (nodeIndex t addr []) as [i|] eqn:E.
  - exists t, i. apply nodeIndex_Some in E as (n & Hn & [[_ <-]|[? _]]); [|done].
    split_and!; [done..|by eapply lookup_lt_Some|unfold small; lia|by rewrite Hn|done|lia].
  - set (n := mkNode [] addr (B "master") HealthOnline true).
    assert (upsertNode t n = (mkTopology (tGeneration t) (tFlavor t) (tSlots t) (tNodes t ++ [n])
      (tMasters t ++ [length (tNodes t ++ [n]) - 1])%nat, (length (tNodes t ++ [n]) - 1)%nat)) as U
      by (unfold upsertNode; cbn [n nAddr nID nMaster]; by rewrite E).
    eexists _, _. split; [done|].
    pose proof (wf_upsert t n W Ha) as W'. pose proof (upsert_length t n) as ((_ & L) & Hi & _).
    pose proof (upsert_slot_addr t n W) as Hsa. rewrite U in *. cbn [fst snd] in *.
    split_and!; [done..|unfold small; lia| |done|lia]. cbn [tNodes].
    by rewrite list_lookup_middle by (rewrite length_app; cbn; lia).
Qed.

(** The second half: point the slot at it. *)
Lemma patch_slot t slot i :
  wf t -> small t -> (i < length (tNodes t))%nat -> 0 <= slot < SlotCount ->
  let t' := set_slots (<[Z.to_nat slot := int32 (Z.of_nat i)]> (tSlots t)) t in
  wf t' ∧ slot_addr t' slot = nAddr <$> tNodes t !! i
  ∧ forall s, 0 <= s < SlotCount -> s ≠ slot -> slot_addr t' s = slot_addr t s.
Proof.
  intros [W1 W2 W3 W4 W5] Hsm Hi Hs. unfold small in Hsm. rewrite int32_id by lia. cbv zeta. split_and!.
  - split; cbn; [by rewrite length_insert| |done..]. apply Forall_insert; [done|lia].
  - unfold slot_addr, slot_at. cbn. rewrite nth_lookup, list_lookup_insert_eq by lia. cbn.
    rewrite (proj2 (Z.ltb_ge _ _)) by lia. by rewrite Nat2Z.id.
  - intros s Hr Hne. unfold slot_addr, slot_at. cbn.
    by rewrite !nth_lookup, list_lookup_insert_ne by lia.
Qed.

Lemma UpdateSlot_ok (m : Map) (slot : Z) (addr : bytes)
  (Hs : 0 <= slot < SlotCount) (Ha : addr ≠ [])
  (Hwf : wf (default newEmptyTopology (Load m)))
  (Hsmall : Z.of_nat (length (tNodes (default newEmptyTopology (Load m)))) < 2^31) :
  exists m' t', UpdateSlot m slot addr [] = Ret m' ∧ Load m' = Some t' ∧ wf t'
  ∧ nAddr <$> NodeForSlot (Load m') slot false = Some addr
  ∧ (forall s, 0 <= s < SlotCount -> s ≠ slot ->
       nAddr <$> NodeForSlot (Load m') s false
       = nAddr <$> NodeForSlot (Some (default newEmptyTopology (Load m))) s false)
  ∧ tGeneration t' = (mGen m + 1) mod 2^64 ∧ mGen m' = tGeneration t'
  ∧ (length (tNodes t') <= S (length (tNodes (default newEmptyTopology (Load m)))))%nat.
Proof.
  unfold UpdateSlot, cloneTopology. set (t := default newEmptyTopology (Load m)) in *.
  destruct (patch_node t addr Hwf Ha Hsmall) as (nt & i & E & Wn & Hl & Sm & Hi & Hsl & Hg).
  rewrite E, (proj2 (Z.leb_gt _ _)) by lia.
  destruct (patch_slot nt slot i Wn Sm Hl Hs) as (W' & H1 & H2). cbn [Store Load mPtr mGen].
  apply (wf_set_generation ((mGen m + 1) mod 2^64)) in W'.
  eexists _, _. split_and!; [done|done|exact W'| | |done|done|exact Hg].
  - cbn [Load mPtr]. rewrite NodeForSlot_addr by done. etransitivity; [exact H1|exact Hi].
  - intros s Hr Hne. cbn [Load mPtr]. rewrite !NodeForSlot_addr by done. rewrite <- Hsl. by apply H2.
Qed.

Lemma parsed_wf (v : value) (t : Topology)
  (H : ParseSlots v = Ret (inr t) ∨ ParseShards v = Ret (inr t)) (Hs : small t) : wf t.
Proof.
  destruct H as [H|H]; [unfold ParseSlots in H|unfold ParseShards in H]; case_if; try done.
  - destruct (slots_entries _ _) as [t1|] eqn:G; [|done]. cbn in H. simplify_eq.
    apply wf_step_slots_entries in G as [_ W]. apply W; [apply wf_newEmpty|done].
  - destruct (shard_entries _ _) as [t1|] eqn:G; [|done]. cbn in H. simplify_eq.
    apply wf_step_shard_entries in G as [_ W]. apply W; [apply wf_newEmpty|done].
Qed.

(** ** Properties *)

(** C13: CLUSTER SLOTS is parsed correctly.  For a reply in which node ids identify addresses,
    ranges do not start below 0 and indexes fit an int32, parsing succeeds, the result is well
    formed, and the node found for every slot is the master of the last entry covering it (none
    when no entry does). *)
Theorem ParseSlots_owner (v : value)
  (Ht : vType v = TypeArray) (Hn : vNull v = false)
  (Hids : ids_consistent (reply_nodes (vValues v)))
  (Hsmall : Z.of_nat (length (reply_nodes (vValues v))) <= 2^31)
  (Hpos : forall e a b addr, e ∈ vValues v -> entry_master e = Some (a, b, addr) -> 0 <= a ∨ b < a) :
  exists t, ParseSlots v = Ret (inr t) ∧ wf t
  ∧ forall s, 0 <= s < SlotCount ->
      nAddr <$> NodeForSlot (Some t) s false = slot_owner (vValues v) s.
Proof.
  destruct (slots_entries_ok (reply_nodes (vValues v)) Hids (vValues v) newEmptyTopology 0
    (fun _ => None)) as (t & E & (W & _) & Hs); [|done|done| |].
  - split_and!; [apply wf_newEmpty|by intros x ?%elem_of_nil|cbn; lia].
  - intros s Hs. unfold slot_addr, slot_at. cbn [newEmptyTopology tSlots].
    by rewrite nth_repeat.
  - exists t. unfold ParseSlots. rewrite Ht, Hn, E. split_and!; [done..|]. intros s Hr.
    rewrite NodeForSlot_addr by done. by apply Hs.
Qed.

Lemma ParseSlots_owner_witness :
  let v := Array [slots_reply 0 2 [("a", 1); ("r", 2)]; slots_reply 2 3 [("b", 5)]] in
  exists t, ParseSlots v = Ret (inr t) ∧ wf t
  ∧ forall s, 0 <= s < SlotCount ->
      nAddr <$> NodeForSlot (Some t) s false = slot_owner (vValues v) s.
Proof.
  apply ParseSlots_owner; [done|done| |vm_compute; discriminate|].
  - intros a b Ha Hb. vm_compute in Ha, Hb.
    repeat (apply elem_of_cons in Ha as [->|Ha]); try (by apply elem_of_nil in Ha);
    repeat (apply elem_of_cons in Hb as [->|Hb]); try (by apply elem_of_nil in Hb);
    cbn; done.
  - intros e a b addr He Hm. vm_compute in He.
    repeat (apply elem_of_cons in He as [->|He]); try (by apply elem_of_nil in He);
    vm_compute in Hm; simplify_eq; lia.
Defined.

(** The only panic of [ParseSlots].  A reply makes the parser panic exactly when some entry
    with a well-formed master has a non-empty range that starts below 0: the slot array is then
    indexed with a negative number. *)
Theorem ParseSlots_panics_iff (v : value) :
  ParseSlots v = Panic <->
  vType v = TypeArray ∧ vNull v = false
  ∧ exists e a b addr, e ∈ vValues v ∧ entry_master e = Some (a, b, addr) ∧ a < 0 ∧ a <= b.
Proof.
  assert (forall es t, slots_entries t es = Panic <->
    exists e a b addr, e ∈ es ∧ entry_master e = Some (a, b, addr) ∧ a < 0 ∧ a <= b) as H.
  { induction es as [|e es IH]; intros t; cbn.
    - split; [done|]. by intros (? & ? & ? & ? & ?%elem_of_nil & _).
    - destruct (slots_entry t e) as [t1|] eqn:E; cbn.
      + rewrite IH. split; [intros (x & ?); exists x; set_solver|].
        intros (x & a & b & addr & [->|Hx]%elem_of_cons & Hm); [|by exists x, a, b, addr].
        assert (slots_entry t e = Panic) by (apply slots_entry_panics; eauto). congruence.
      + split; [|done]. intros _. apply slots_entry_panics in E as (a & b & addr & ?).
        exists e, a, b, addr. split; [by left|done]. }
  unfold ParseSlots. case_bool_decide as E; cbn [negb orb].
  - destruct (vNull v) eqn:N; [split; [done|by intros (_ & ? & _)]|].
    destruct (slots_entries newEmptyTopology (vValues v)) as [t|] eqn:S; cbn.
    + split; [done|]. intros (_ & _ & Hp). apply (H _ newEmptyTopology) in Hp. congruence.
    + split; [|done]. intros _. split_and!; [done..|]. by apply H in S.
  - split; [done|]. by intros [? _].
Qed.

(** Every topology the proxy installs is well formed.  Whatever CLUSTER SLOTS or CLUSTER
    SHARDS reply a topology is parsed from, it has 16384 slots, each unknown or the index of a
    node, its master list points at nodes, and no two nodes have the same address. *)
Theorem parsed_topology_wf (v : value) (t : Topology)
  (H : ParseSlots v = Ret (inr t) ∨ ParseShards v = Ret (inr t)) (Hs : small t) : wf t.
Proof. by apply (parsed_wf v). Qed.

(** A MOVED redirect repairs exactly one slot.  After [UpdateSlot] the slot is served by the
    announced address, every other slot by the same address as before, the snapshot is well
    formed, and its generation is the next one. *)
Theorem UpdateSlot_spec (m : Map) (slot : Z) (addr : bytes)
  (Hs : 0 <= slot < SlotCount) (Ha : addr ≠ [])
  (Hwf : wf (default newEmptyTopology (Load m)))
  (Hsmall : Z.of_nat (length (tNodes (default newEmptyTopology (Load m)))) < 2^31) :
  exists m' t', UpdateSlot m slot addr [] = Ret m' ∧ Load m' = Some t' ∧ wf t'
  ∧ nAddr <$> NodeForSlot (Load m') slot false = Some addr
  ∧ (forall s, 0 <= s < SlotCount -> s ≠ slot ->
       nAddr <$> NodeForSlot (Load m') s false
       = nAddr <$> NodeForSlot (Some (default newEmptyTopology (Load m))) s false)
  ∧ tGeneration t' = (mGen m + 1) mod 2^64 ∧ mGen m' = tGeneration t'.
Proof.
  destruct (UpdateSlot_ok m slot addr Hs Ha Hwf Hsmall) as (m' & t' & H1 & H2 & H3 & H4 & H5 & H6 & H7 & _).
  exists m', t'. by split_and!.
Qed.

Lemma parsed_topology_wf_witness :
  let v := Array [slots_reply 0 2 [("a", 1); ("r", 2)]] in
  exists t, ParseSlots v = Ret (inr t) ∧ wf t.
Proof.
  cbv zeta.
  assert (match ParseSlots (Array [slots_reply 0 2 [("a", 1); ("r", 2)]]) with
          | Ret (inr t) => Z.of_nat (length (tNodes t)) <=? 2^31 | _ => false end = true) as H by vm_refl.
  destruct (ParseSlots (Array [slots_reply 0 2 [("a", 1); ("r", 2)]])) as [[|t]|] eqn:E;
    [discriminate H| |discriminate H].
  exists t. split; [reflexivity|]. apply (parsed_topology_wf _ t (or_introl E)). by apply Z.leb_le in H.
Defined.

Lemma UpdateSlot_spec_witness :
  exists m' t', UpdateSlot (mkMap None 0) 5 (B "h:1") [] = Ret m' ∧ Load m' = Some t' ∧ wf t'
  ∧ nAddr <$> NodeForSlot (Load m') 5 false = Some (B "h:1").
Proof.
  destruct (UpdateSlot_spec (mkMap None 0) 5 (B "h:1")) as (m' & t' & H1 & H2 & H3 & H4 & _);
    [unfold SlotCount; lia|done|apply wf_newEmpty|done|].
  by exists m', t'.
Defined.

(** ** Field order in CLUSTER SHARDS *)

(** A node and a shard as Redis 7 sends them: the port comes before the address. *)
Definition redis_node (id host : bytes) (port : Z) (role health : bytes) : value :=
  Array [bulk "id"; BulkString (Some id); bulk "port"; Integer port; bulk "ip"; BulkString (Some host);
         bulk "endpoint"; BulkString (Some host); bulk "role"; BulkString (Some role);
         bulk "replication-offset"; Integer 0; bulk "health"; BulkString (Some health)].

(** The same node as Dragonfly sends it: the address first. *)
Definition dragonfly_node (id host : bytes) (port : Z) (role health : bytes) : value :=
  Array [bulk "id"; BulkString (Some id); bulk "endpoint"; BulkString (Some host);
         bulk "ip"; BulkString (Some host); bulk "port"; Integer port; bulk "role"; BulkString (Some role);
         bulk "replication-offset"; Integer 0; bulk "health"; BulkString (Some health)].

Definition shard_value (ranges : list value) (nodes : list value) : value :=
  Array [bulk "slots"; Array ranges; bulk "nodes"; Array nodes].

Lemma contains_byte s c : contains s [c] = bool_decide (c ∈ s).
Proof.
  induction s as [|d s IH]; [done|]. cbn. rewrite IH, andb_true_r.
  assert (c ∈ d :: s <-> c = d ∨ c ∈ s) as E by apply elem_of_cons. rewrite (bool_decide_ext _ _ E).
  by rewrite bool_decide_or.
Qed.

Section FieldOrder.
Context (id host role health : bytes) (port : Z) (Hne : host ≠ []) (Hh : ":"%byte ∉ host).

Lemma field_host n k : str_in k ["endpoint"; "ip"] = true -> nAddr n = [] ∨ nAddr n = host ->
  shard_node_field n k (BulkString (Some host)) = mkNode (nID n) host (nRole n) (nHealth n) (nMaster n).
Proof.
  intros (x & Hx & ->)%str_in_true Ha. unfold shard_node_field. cbn [BulkString vStr content].
  rewrite (bool_decide_false (host = [])) by done.
  repeat destruct Hx as [<-|Hx]; try done; eval_tests; cbn [negb]; rewrite andb_true_r, ?orb_true_r, ?orb_false_r.
  - done.
  - case_bool_decide as E; [done|]. destruct Ha as [?|Ha]; [done|]. destruct n; cbn in *. by subst.
Qed.

Lemma field_port n : shard_node_field n (to_lower (B "port")) (Integer port)
  = if bool_decide (nAddr n = []) || bool_decide (":"%byte ∈ nAddr n) then n
    else mkNode (nID n) (join_addr (nAddr n) port) (nRole n) (nHealth n) (nMaster n).
Proof.
  unfold shard_node_field. eval_tests. cbv iota zeta. change (B ":") with [":"%byte].
  rewrite contains_byte. change (port_of (Integer port) _) with port.
  by do 2 case_bool_decide.
Qed.

Lemma field_other_addr n k v :
  str_in k ["id"; "role"; "replication-offset"; "health"] = true ->
  nAddr (shard_node_field n k v) = nAddr n.
Proof.
  intros (x & Hx & ->)%str_in_true. unfold shard_node_field.
  repeat destruct Hx as [<-|Hx]; try done; by eval_tests.
Qed.

Lemma redis_node_rejected : parseShardNode (redis_node id host port role health) = None.
Proof.
  unfold parseShardNode, redis_node. cbn [Array vType vValues].
  change (TypeArray ==b TypeArray) with true. cbn [negb shard_node_fields].
  unfold bulk, BS. cbn [BulkString vStr]. change (content (Some ?b)) with b.
  set (n0 := mkNode _ _ _ _ _). set (n1 := shard_node_field n0 _ _). assert (nAddr n1 = []) as H1 by done.
  assert (shard_node_field n1 (to_lower (B "port")) (Integer port) = n1) as ->.
  { rewrite field_port, H1. by rewrite bool_decide_true. }
  rewrite (field_host n1) by (vm_refl || by left).
  rewrite field_host by (vm_refl || by right). cbn [nID nRole nHealth nMaster].
  rewrite !field_other_addr by vm_refl. cbn [nAddr].
  rewrite (bool_decide_false (host = [])) by done. change (B ":") with [":"%byte].
  rewrite contains_byte, bool_decide_false by done. done.
Qed.

Lemma dragonfly_node_accepted :
  exists n, parseShardNode (dragonfly_node id host port role health) = Some n
  ∧ nID n = id ∧ nAddr n = join_addr host port ∧ nRole n = to_lower role
  ∧ nMaster n = (to_lower role ==b B "master") ∧ nHealth n = parseHealth health.
Proof.
  unfold parseShardNode, dragonfly_node. cbn [Array vType vValues].
  change (TypeArray ==b TypeArray) with true. cbn [negb shard_node_fields]. unfold bulk, BS. cbn [BulkString vStr].
  change (content (Some ?b)) with b. set (n0 := mkNode _ _ _ _ _). set (n1 := shard_node_field n0 _ _).
  rewrite (field_host n1) by (vm_refl || by left).
  rewrite field_host by (vm_refl || by right). cbn [nID nRole nHealth nMaster].
  rewrite field_port. cbn [nAddr].
  rewrite (bool_decide_false (host = [])), (bool_decide_false (_ ∈ host)) by done. cbn [orb].
  cbn [nID nRole nHealth nMaster]. set (n := shard_node_field _ _ _).
  assert (n = mkNode id (join_addr host port) (to_lower role) (parseHealth health)
    (to_lower role ==b B "master")) as -> by done.
  cbn [nAddr]. assert (join_addr host port ≠ []) as Hj by (unfold join_addr; by intros [? _]%app_nil).
  rewrite bool_decide_false by done. change (B ":") with [":"%byte]. rewrite contains_byte.
  rewrite bool_decide_true; [by eexists|]. unfold join_addr. apply elem_of_app. right. by left.
Qed.
End FieldOrder.

(** CLUSTER SHARDS depends on the order of the fields.  A node description in Dragonfly's
    order (address before port) is parsed in full, but in the order of Redis 7 (port before
    address) every node is rejected, so that a whole Redis 7 reply, whatever its slots and nodes,
    is parsed without error as the topology that has no node and owns no slot. *)
Theorem ParseShards_field_order (shards : list (list value * list (bytes * bytes * Z * bytes * bytes)))
  (id host role health : bytes) (port : Z) (Hne : host ≠ []) (Hh : ":"%byte ∉ host)
  (Hall : Forall (fun s => Forall (fun n => let '(_, h, _, _, _) := n in
            h ≠ [] ∧ ":"%byte ∉ h) s.2) shards) :
  (exists n, parseShardNode (dragonfly_node id host port role health) = Some n
     ∧ nID n = id ∧ nAddr n = join_addr host port ∧ nRole n = to_lower role
     ∧ nMaster n = (to_lower role ==b B "master") ∧ nHealth n = parseHealth health)
  ∧ parseShardNode (redis_node id host port role health) = None
  ∧ ParseShards (Array (map (fun s => shard_value s.1
      (map (fun n => let '(i, h, p, r, l) := n in redis_node i h p r l) s.2)) shards))
    = Ret (inr newEmptyTopology).
Proof.
  split_and!; [by apply dragonfly_node_accepted|by apply redis_node_rejected|].
  unfold ParseShards. cbn [Array vType vNull vValues]. eval_tests. cbn [negb orb].
  set (es := map _ shards). assert (shard_entries newEmptyTopology es = Ret newEmptyTopology) as ->; [|done].
  subst es. induction Hall as [|[ranges nodes] shards Hn _ IH]; [done|].
  cbn [map shard_entries fst snd].
  assert (omap parseShardNode (map (fun n : bytes * bytes * Z * bytes * bytes =>
    let '(i, h, p, r, l) := n in redis_node i h p r l) nodes) = []) as Ho.
  { clear -Hn. cbn in Hn. induction Hn as [|[[[[i h] p] r] l] nodes [Hh1 Hh2] _ IH]; [done|].
    cbn. by rewrite redis_node_rejected. }
  assert (shard_entry newEmptyTopology (shard_value ranges (map (fun n => let '(i, h, p, r, l) := n in
    redis_node i h p r l) nodes)) = Ret newEmptyTopology) as ->; [|exact IH].
  unfold shard_entry, shard_value. cbn [Array vType vValues]. eval_tests. cbn [negb shard_fields].
  unfold bulk, BS. cbn [BulkString vStr Array vValues]. change (content (Some ?b)) with b.
  eval_tests. cbv iota zeta.
  rewrite Ho. done.
Qed.

Lemma ParseShards_field_order_witness :
  ParseShards (Array (map (fun s => shard_value s.1
      (map (fun n => let '(i, h, p, r, l) := n in redis_node i h p r l) s.2))
      [([Integer 0; Integer 16383], [(B "n1", B "10.0.0.1", 6379, B "master", B "online")])]))
    = Ret (inr newEmptyTopology).
Proof.
  apply (ParseShards_field_order [([Integer 0; Integer 16383],
    [(B "n1", B "10.0.0.1", 6379, B "master", B "online")])] (B "n1") (B "h") (B "master") (B "online") 1).
  - done.
  - apply (bool_decide_eq_true_1 _). vm_refl.
  - repeat constructor; [done|]. apply (bool_decide_eq_true_1 _). vm_refl.
Defined.
