(* ===== verification/Pool.v ===== *)
(** * internal/pool/pool.go: the connection pool under concurrency

    A pool is a bounded channel of idle connections with atomic counters and a mutex.  Its
    operations run in goroutines, so they are modelled as a step relation: a fixed number of
    goroutines, each with a program counter inside [Get], [Put], [Drop] or [Close], and one step
    per atomic action of the code (an atomic load or add, a channel operation, a lock).  The
    outcome of a dial and the cancellation of a context are choices of the environment.

    Connections are numbered in the order they are dialed.  The invariant [Inv] is proved for
    every reachable state; it accounts for every connection ever dialed.  The last section shows
    two behaviours the comments do not announce: the size bound can be exceeded, and a failed dial
    on an empty pool waits for the context. *)

From Stdlib Require Import ZArith Lia Permutation.
From stdpp Require Import base list numbers option sets relations.
From S2P Require Import Prelude.

Abbreviation conn := nat.

(** Program counters; the comment gives the action that comes next. *)
Inductive pc :=
| Out                        (* outside the pool, holding nothing *)
| GWait                      (* waiters.Add(1) *)
| GTry                       (* first select on the channel *)
| GLoad                      (* active.Load() *)
| GLen (a : Z)               (* len(p.conns), comparison with MaxSize *)
| GDial                      (* p.dial *)
| GBlock                     (* second select: channel or ctx.Done() *)
| GGot (c : conn)            (* active.Add(1) *)
| GRet (r : option conn)     (* deferred waiters.Add(-1), return *)
| Hold (c : conn)            (* outside the pool, holding c *)
| DClose (c : conn)          (* Drop: c.close() *)
| PLock (c : conn)           (* Put: mu.Lock() *)
| PCheck (c : conn)          (* Put: closed.Load() *)
| PSend (c : conn)           (* Put: send on the channel, or close c when it is full *)
| PUnlock                    (* Put: mu.Unlock() *)
| CLock                      (* Close: mu.Lock() *)
| CSwap                      (* Close: closed.Swap(true) *)
| CClose                     (* Close: close(p.conns) *)
| CDrain                     (* Close: range over the closed channel *)
| CUnlock.                   (* Close: mu.Unlock() *)

Record pool := mkPool {
  idle : list conn;          (* the buffered channel, front first *)
  chClosed : bool;
  closed : bool;
  active : Z;
  waiters : Z;
  mutex : option nat;
  dials : nat;               (* connections dialed so far *)
  gone : list conn;          (* connections closed so far *)
  threads : list pc;
  panicked : bool }.

Definition set_idle l s := mkPool l (chClosed s) (closed s) (active s) (waiters s) (mutex s) (dials s) (gone s) (threads s) (panicked s).
Definition set_chClosed b s := mkPool (idle s) b (closed s) (active s) (waiters s) (mutex s) (dials s) (gone s) (threads s) (panicked s).
Definition set_closed b s := mkPool (idle s) (chClosed s) b (active s) (waiters s) (mutex s) (dials s) (gone s) (threads s) (panicked s).
Definition add_active n s := mkPool (idle s) (chClosed s) (closed s) (active s + n) (waiters s) (mutex s) (dials s) (gone s) (threads s) (panicked s).
Definition add_waiters n s := mkPool (idle s) (chClosed s) (closed s) (active s) (waiters s + n) (mutex s) (dials s) (gone s) (threads s) (panicked s).
Definition set_mutex m s := mkPool (idle s) (chClosed s) (closed s) (active s) (waiters s) m (dials s) (gone s) (threads s) (panicked s).
Definition set_dials n s := mkPool (idle s) (chClosed s) (closed s) (active s) (waiters s) (mutex s) n (gone s) (threads s) (panicked s).
Definition close_conn c s := mkPool (idle s) (chClosed s) (closed s) (active s) (waiters s) (mutex s) (dials s) (c :: gone s) (threads s) (panicked s).
Definition set_panic s := mkPool (idle s) (chClosed s) (closed s) (active s) (waiters s) (mutex s) (dials s) (gone s) (threads s) true.
Definition goto t p s := mkPool (idle s) (chClosed s) (closed s) (active s) (waiters s) (mutex s) (dials s) (gone s) (<[t := p]> (threads s)) (panicked s).

Section Pool.
Context (MaxSize : nat).

(** One atomic action of goroutine [t], at program counter [p]. *)
Inductive pstep (t : nat) (s : pool) : pc -> pool -> Prop :=
(* Get *)
| get_closed : closed s = true -> pstep t s Out (goto t Out s)
| get_open : closed s = false -> pstep t s Out (goto t GWait s)
| get_enter : pstep t s GWait (goto t GTry (add_waiters 1 s))
| get_try c l : idle s = c :: l -> pstep t s GTry (goto t (GGot c) (set_idle l s))
| get_empty : idle s = [] -> pstep t s GTry (goto t GLoad s)
| get_load : pstep t s GLoad (goto t (GLen (active s)) s)
| get_room a : a + Z.of_nat (length (idle s)) < Z.of_nat MaxSize -> pstep t s (GLen a) (goto t GDial s)
| get_full a : Z.of_nat MaxSize <= a + Z.of_nat (length (idle s)) -> pstep t s (GLen a) (goto t GBlock s)
| dial_ok : pstep t s GDial (goto t (GGot (dials s)) (set_dials (S (dials s)) s))
| dial_fail : pstep t s GDial (goto t GBlock s)
| dial_fail_ctx : pstep t s GDial (goto t (GRet None) s)
| block_recv c l : idle s = c :: l -> pstep t s GBlock (goto t (GGot c) (set_idle l s))
| block_closed : idle s = [] -> chClosed s = true -> pstep t s GBlock (goto t (GRet None) s)
| block_ctx : pstep t s GBlock (goto t (GRet None) s)
| get_count c : pstep t s (GGot c) (goto t (GRet (Some c)) (add_active 1 s))
| get_ret c : pstep t s (GRet (Some c)) (goto t (Hold c) (add_waiters (-1) s))
| get_err : pstep t s (GRet None) (goto t Out (add_waiters (-1) s))
(* Drop *)
| drop_start c : pstep t s (Hold c) (goto t (DClose c) (add_active (-1) s))
| drop_close c : pstep t s (DClose c) (goto t Out (close_conn c s))
(* Put *)
| put_start c : pstep t s (Hold c) (goto t (PLock c) (add_active (-1) s))
| put_lock c : mutex s = None -> pstep t s (PLock c) (goto t (PCheck c) (set_mutex (Some t) s))
| put_closed c : closed s = true -> pstep t s (PCheck c) (goto t PUnlock (close_conn c s))
| put_open c : closed s = false -> pstep t s (PCheck c) (goto t (PSend c) s)
| put_panic c : chClosed s = true -> pstep t s (PSend c) (set_panic s)
| put_send c : chClosed s = false -> (length (idle s) < MaxSize)%nat ->
    pstep t s (PSend c) (goto t PUnlock (set_idle (idle s ++ [c]) s))
| put_full c : chClosed s = false -> (MaxSize <= length (idle s))%nat ->
    pstep t s (PSend c) (goto t PUnlock (close_conn c s))
| put_unlock : pstep t s PUnlock (goto t Out (set_mutex None s))
(* Close *)
| close_start : pstep t s Out (goto t CLock s)
| close_lock : mutex s = None -> pstep t s CLock (goto t CSwap (set_mutex (Some t) s))
| close_again : closed s = true -> pstep t s CSwap (goto t CUnlock s)
| close_first : closed s = false -> pstep t s CSwap (goto t CClose (set_closed true s))
| close_panic : chClosed s = true -> pstep t s CClose (set_panic s)
| close_chan : chClosed s = false -> pstep t s CClose (goto t CDrain (set_chClosed true s))
| close_drain c l : idle s = c :: l -> pstep t s CDrain (goto t CDrain (close_conn c (set_idle l s)))
| close_done : idle s = [] -> pstep t s CDrain (goto t CUnlock s)
| close_unlock : pstep t s CUnlock (goto t Out (set_mutex None s)).

(** Any goroutine may move. *)
Definition step (s s' : pool) : Prop := exists t p, threads s !! t = Some p ∧ pstep t s p s'.

(** [New]: [n] connections dialed up front ([n <= MaxSize]), [k] goroutines. *)
Definition New (n k : nat) : pool :=
  mkPool (seq 0 n) false false 0 0 None n [] (repeat Out k) false.

Definition reachable (n k : nat) (s : pool) : Prop := rtc step (New n k) s.
End Pool.

(** ** The invariant *)

(** The connection a goroutine owns at a program counter, and what it adds to the counters. *)
Definition owns (p : pc) : list conn :=
  match p with
  | GGot c | GRet (Some c) | Hold c | DClose c | PLock c | PCheck c | PSend c => [c]
  | _ => []
  end.
Definition counted (p : pc) : nat := match p with GRet (Some _) | Hold _ => 1 | _ => 0 end.
Definition in_get (p : pc) : nat :=
  match p with GTry | GLoad | GLen _ | GDial | GBlock | GGot _ | GRet _ => 1 | _ => 0 end.
Definition critical (p : pc) : bool :=
  match p with PCheck _ | PSend _ | PUnlock | CSwap | CClose | CDrain | CUnlock => true | _ => false end.

Definition owned (l : list pc) : list conn := concat (map owns l).

(** How often a connection occurs in a list. *)
Definition cnt (c : conn) (l : list conn) : nat := count_occ Nat.eq_dec l c.

Record Inv (MaxSize : nat) (s : pool) : Prop := mkInv {
  inv_conns : forall c, (cnt c (idle s) + cnt c (owned (threads s)) + cnt c (gone s)
                         = if decide (c < dials s)%nat then 1 else 0)%nat;
  inv_active : active s = Z.of_nat (sum_list_with counted (threads s));
  inv_waiters : waiters s = Z.of_nat (sum_list_with in_get (threads s));
  inv_idle : (length (idle s) <= MaxSize)%nat;
  inv_mutex : forall t p, threads s !! t = Some p -> critical p = true -> mutex s = Some t;
  inv_send : forall t c, threads s !! t = Some (PSend c) -> closed s = false;
  inv_closer : forall t, threads s !! t = Some CClose -> closed s = true ∧ chClosed s = false;
  inv_ch : chClosed s = true -> closed s = true;
  inv_closed : closed s = true -> chClosed s = true ∨ exists t, threads s !! t = Some CClose;
  inv_drained : chClosed s = true -> idle s = [] ∨ exists t, threads s !! t = Some CDrain;
  inv_no_panic : panicked s = false }.

Lemma cnt_app c l1 l2 : cnt c (l1 ++ l2) = (cnt c l1 + cnt c l2)%nat.
Proof. apply count_occ_app. Qed.

Lemma cnt_cons c x l : cnt c (x :: l) = ((if decide (c = x) then 1 else 0) + cnt c l)%nat.
Proof. unfold cnt. cbn. destruct (Nat.eq_dec x c), (decide (c = x)); congruence || done. Qed.

Lemma cnt_nil c : cnt c [] = 0%nat.
Proof. done. Qed.

Lemma cnt_seq c n : cnt c (seq 0 n) = (if decide (c < n) then 1 else 0)%nat.
Proof.
  induction n as [|n IH]; [done|]. rewrite seq_S, cnt_app, IH, cnt_cons, cnt_nil. cbn.
  repeat case_decide; lia.
Qed.

Lemma owned_insert l t p q c :
  l !! t = Some p -> (cnt c (owned (<[t := q]> l)) + cnt c (owns p) = cnt c (owned l) + cnt c (owns q))%nat.
Proof.
  unfold owned. revert t. induction l as [|x l IH]; intros [|t] H; simplify_eq/=; rewrite !cnt_app; [lia|].
  specialize (IH t H). lia.
Qed.

Lemma insert_cases {A} (l : list A) t p t' q :
  <[t := p]> l !! t' = Some q -> (t' = t ∧ q = p) ∨ (t' ≠ t ∧ l !! t' = Some q).
Proof. rewrite list_lookup_insert_Some. naive_solver. Qed.

Lemma sum_repeat_Out (f : pc -> nat) k : f Out = 0%nat -> sum_list_with f (repeat Out k) = 0%nat.
Proof. intros H. induction k as [|k IH]; cbn; [done|lia]. Qed.

Lemma Inv_New MaxSize n k : (n <= MaxSize)%nat -> Inv MaxSize (New n k).
Proof.
  intros Hn. assert (forall t p, repeat Out k !! t = Some p -> p = Out) as Ho.
  { intros t p H%list_elem_of_lookup_2%list_elem_of_In. by apply repeat_spec in H. }
  split; unfold New; cbn [idle chClosed closed active waiters mutex dials gone threads panicked]; try done.
  - intros c. rewrite cnt_seq. assert (owned (repeat Out k) = []) as ->; [|rewrite !cnt_nil; lia].
    induction k as [|k IH]; [done|]. cbn. apply IH. intros t p H. apply (Ho (S t)). done.
  - by rewrite sum_repeat_Out.
  - by rewrite sum_repeat_Out.
  - by rewrite length_seq.
  - by intros t p ->%Ho.
  - by intros t ?%Ho.
Qed.

Ltac inv_split :=
  split; cbn [idle chClosed closed active waiters mutex dials gone threads panicked
    goto set_idle set_chClosed set_closed add_active add_waiters set_mutex set_dials close_conn set_panic].

(** Preserving "some goroutine is at [x]" when the moving one is not. *)
Lemma keep_thread (l : list pc) t p x q :
  l !! t = Some p -> p ≠ x -> (exists t', l !! t' = Some x) -> exists t', <[t := q]> l !! t' = Some x.
Proof.
  intros Ht Hp [t' H]. exists t'. rewrite list_lookup_insert_ne; [done|]. intros <-. congruence.
Qed.

Section Preservation.
Context (MaxSize : nat) (s : pool) (t : nat) (p : pc).
Context (Ht : threads s !! t = Some p).

(** The counting fields. *)
Lemma step_counts s' :
  Inv MaxSize s -> pstep MaxSize t s p s' ->
  (forall c, (cnt c (idle s') + cnt c (owned (threads s')) + cnt c (gone s')
              = if decide (c < dials s')%nat then 1 else 0)%nat)
  ∧ active s' = Z.of_nat (sum_list_with counted (threads s'))
  ∧ waiters s' = Z.of_nat (sum_list_with in_get (threads s'))
  ∧ (length (idle s') <= MaxSize)%nat.
Proof.
  intros [I1 I2 I3 I4 _ _ _ _ _ _ _] Hs.
  assert (forall f q, (sum_list_with f (<[t := q]> (threads s)) + f p
    = sum_list_with f (threads s) + f q)%nat) as Hf by (intros; by apply sum_insert).
  assert (forall q c, (cnt c (owned (<[t := q]> (threads s))) + cnt c (owns p)
    = cnt c (owned (threads s)) + cnt c (owns q))%nat) as Ho by (intros; by apply owned_insert).
  destruct Hs;
    cbn [idle chClosed closed active waiters mutex dials gone threads panicked
      goto set_idle set_chClosed set_closed add_active add_waiters set_mutex set_dials close_conn set_panic];
    (split_and!; [
      intros c0; specialize (I1 c0);
      try match goal with |- context [owned (<[_ := ?q]> _)] => specialize (Ho q c0) end;
      cbn [owns] in Ho; try match goal with H : idle s = _ |- _ => rewrite H in * end;
      rewrite ?cnt_app, ?cnt_cons, ?cnt_nil in *; repeat case_decide; lia
    | try match goal with |- context [sum_list_with ?f (<[_ := ?q]> _)] => specialize (Hf f q) end;
      cbn [counted] in Hf; lia
    | try match goal with |- context [sum_list_with ?f (<[_ := ?q]> _)] => specialize (Hf f q) end;
      cbn [in_get] in Hf; lia
    | try match goal with H : idle s = _ |- _ => rewrite H in * end; rewrite ?length_app; cbn [length] in *; lia ]).
Qed.

(** At most one goroutine is in a critical section. *)
Lemma critical_unique t' p' :
  Inv MaxSize s -> threads s !! t' = Some p' -> critical p' = true -> critical p = true -> t' = t.
Proof.
  intros I H1 H2 H3. pose proof (inv_mutex _ _ I _ _ H1 H2). pose proof (inv_mutex _ _ I _ _ Ht H3).
  congruence.
Qed.

Lemma step_mutex s' :
  Inv MaxSize s -> pstep MaxSize t s p s' ->
  forall t' p', threads s' !! t' = Some p' -> critical p' = true -> mutex s' = Some t'.
Proof.
  intros I Hs t' p' Ht' Hc. pose proof (inv_mutex _ _ I) as I5. revert Ht'.
  destruct Hs; cbn in *; try (by eauto);
    intros [[-> ->]|[Hne Hl]]%insert_cases; try done; try (by apply (I5 _ _ Ht));
    pose proof (I5 _ _ Hl Hc) as H5; try pose proof (I5 _ _ Ht eq_refl) as H6; congruence.
Qed.

Lemma step_closing s' :
  Inv MaxSize s -> pstep MaxSize t s p s' ->
  (forall t' c, threads s' !! t' = Some (PSend c) -> closed s' = false)
  ∧ (forall t', threads s' !! t' = Some CClose -> closed s' = true ∧ chClosed s' = false)
  ∧ (chClosed s' = true -> closed s' = true).
Proof.
  intros I Hs. pose proof (fun t' p' => critical_unique t' p' I) as Hu.
  pose proof (inv_send _ _ I) as I6. pose proof (inv_closer _ _ I) as I7. pose proof (inv_ch _ _ I) as I8.
  pose proof (inv_closed _ _ I) as I9. clear I.
  destruct Hs; cbn in *; (split_and!; [intros t' c' Ht'|intros t' Ht'|]);
    try (apply insert_cases in Ht' as [[-> E]|[Hne Hl]]; [try discriminate E; simplify_eq|]);
    first [ done | exact (I6 _ _ Hl) | exact (I7 _ Hl) | exact I8 | exact (I6 _ _ Ht') | exact (I7 _ Ht')
          | destruct (Hne (Hu _ _ Hl eq_refl eq_refl)) | idtac ].
  - split; [done|]. destruct (chClosed s); [|done]. by rewrite (I8 eq_refl) in H.
  - intros _. by apply (I7 t).
Qed.

Lemma step_draining s' :
  Inv MaxSize s -> pstep MaxSize t s p s' ->
  (closed s' = true -> chClosed s' = true ∨ exists t', threads s' !! t' = Some CClose)
  ∧ (chClosed s' = true -> idle s' = [] ∨ exists t', threads s' !! t' = Some CDrain)
  ∧ panicked s' = false.
Proof.
  intros I Hs. assert (t < length (threads s))%nat as Hlen by (by eapply lookup_lt_Some).
  pose proof (inv_send _ _ I) as I6. pose proof (inv_closer _ _ I) as I7. pose proof (inv_ch _ _ I) as I8.
  pose proof (inv_closed _ _ I) as I9. pose proof (inv_drained _ _ I) as I10.
  pose proof (inv_no_panic _ _ I) as I11. clear I.
  destruct Hs; cbn [idle chClosed closed threads panicked goto set_idle set_chClosed set_closed
    add_active add_waiters set_mutex set_dials close_conn set_panic]; (split_and!; [intros Hc|intros Hc|]);
    first
    [ exact I11
    | exact (I9 Hc) | exact (I10 Hc)
    | destruct (I9 Hc) as [?|?]; [by left|right; eapply keep_thread; [exact Ht|discriminate|done]]
    | destruct (I10 Hc) as [?|?]; [by left|right; eapply keep_thread; [exact Ht|discriminate|done]]
    | by left
    | by right; exists t; apply list_lookup_insert_eq
    | idtac ].
  1-2: destruct (I10 Hc) as [E|?]; [by rewrite H in E|right; eapply keep_thread; [exact Ht|discriminate|done]].
  - pose proof (I6 _ _ Ht). rewrite (I8 H) in *. done.
  - congruence.
  - destruct (I7 _ Ht). congruence.
Qed.
End Preservation.

Lemma step_Inv MaxSize s s' : Inv MaxSize s -> step MaxSize s s' -> Inv MaxSize s'.
Proof.
  intros I (t & p & Ht & Hs).
  destruct (step_counts _ _ _ _ Ht _ I Hs) as (H1 & H2 & H3 & H4).
  pose proof (step_mutex _ _ _ _ Ht _ I Hs) as H5.
  destruct (step_closing _ _ _ _ Ht _ I Hs) as (H6 & H7 & H8).
  destruct (step_draining _ _ _ _ Ht _ I Hs) as (H9 & H10 & H11).
  by split.
Qed.

Lemma reachable_Inv MaxSize n k s : (n <= MaxSize)%nat -> reachable MaxSize n k s -> Inv MaxSize s.
Proof.
  intros Hn H. unfold reachable in H. assert (Inv MaxSize (New n k)) as I by (by apply Inv_New).
  induction H as [|x y z Hs _ IH]; [done|]. apply IH. by eapply step_Inv.
Qed.

(** ** Properties *)

(** C15: every connection has one place.  In every reachable state, whatever the interleaving of
    Get, Put, Drop and Close, each connection ever dialed is exactly once either idle in the
    channel, owned by one goroutine, or closed: none is handed to two clients, none is leaked and
    none is closed twice. *)
Theorem pool_ownership (MaxSize n k : nat) (s : pool)
  (Hn : (n <= MaxSize)%nat) (H : reachable MaxSize n k s) :
  idle s ++ owned (threads s) ++ gone s ≡ₚ seq 0 (dials s).
Proof.
  apply (Permutation_count_occ Nat.eq_dec). intros c. change (count_occ Nat.eq_dec ?l c) with (cnt c l).
  rewrite !cnt_app, cnt_seq, Nat.add_assoc. by apply (inv_conns MaxSize s), (reachable_Inv _ n k).
Qed.

(** The counters are exact and the channel bounded.  [active] is the number of goroutines
    that hold a connection (from the moment Get counts it to the moment Put or Drop does),
    [waiters] the number inside Get, and at most MaxSize connections are idle. *)
Theorem pool_counters (MaxSize n k : nat) (s : pool)
  (Hn : (n <= MaxSize)%nat) (H : reachable MaxSize n k s) :
  active s = Z.of_nat (sum_list_with counted (threads s))
  ∧ waiters s = Z.of_nat (sum_list_with in_get (threads s))
  ∧ (length (idle s) <= MaxSize)%nat.
Proof. by destruct (reachable_Inv _ _ _ _ Hn H). Qed.

(** Closing is safe.  No reachable state has sent on, or closed again, a closed channel (both
    panic in Go), the mutex serialises the critical sections, and once a Close is over (the
    channel closed and nobody draining) no connection is idle any more. *)
Theorem pool_close_safe (MaxSize n k : nat) (s : pool)
  (Hn : (n <= MaxSize)%nat) (H : reachable MaxSize n k s) :
  panicked s = false
  ∧ (forall t1 t2 p1 p2, threads s !! t1 = Some p1 -> threads s !! t2 = Some p2 ->
       critical p1 = true -> critical p2 = true -> t1 = t2)
  ∧ (chClosed s = true -> (forall t, threads s !! t ≠ Some CDrain) -> idle s = []).
Proof.
  pose proof (reachable_Inv _ _ _ _ Hn H) as I. split_and!.
  - apply (inv_no_panic MaxSize s I).
  - intros t1 t2 p1 p2 H1 H2 C1 C2. pose proof (inv_mutex _ _ I _ _ H1 C1).
    pose proof (inv_mutex _ _ I _ _ H2 C2). congruence.
  - intros Hc Hd. destruct (inv_drained _ _ I Hc) as [?|[t Ht]]; [done|]. by destruct (Hd t).
Qed.

(** ** Concrete runs *)

(** One step of goroutine [t]. *)
Lemma run_step MaxSize s s' s'' t p :
  threads s !! t = Some p -> pstep MaxSize t s p s' -> rtc (step MaxSize) s' s'' -> rtc (step MaxSize) s s''.
Proof. intros H1 H2 H3. eapply rtc_l; [|exact H3]. by exists t, p. Qed.

(** A checkout from a pool with one idle connection. *)
Definition checked_out : pool := mkPool [] false false 1 0 None 1 [] [Hold 0] false.

Lemma checked_out_reachable : reachable 1 1 1 checked_out.
Proof.
  eapply (run_step 1 _ _ _ 0); [done|by apply get_open|].
  eapply (run_step 1 _ _ _ 0); [done|apply get_enter|].
  eapply (run_step 1 _ _ _ 0); [done|by apply get_try|].
  eapply (run_step 1 _ _ _ 0); [done|apply get_count|].
  eapply (run_step 1 _ _ _ 0); [done|apply get_ret|]. apply rtc_refl.
Qed.

Lemma pool_ownership_witness :
  idle checked_out ++ owned (threads checked_out) ++ gone checked_out ≡ₚ seq 0 (dials checked_out).
Proof. apply (pool_ownership 1 1 1); [lia|apply checked_out_reachable]. Defined.

Lemma pool_counters_witness :
  active checked_out = Z.of_nat (sum_list_with counted (threads checked_out))
  ∧ waiters checked_out = Z.of_nat (sum_list_with in_get (threads checked_out))
  ∧ (length (idle checked_out) <= 1)%nat.
Proof. apply (pool_counters 1 1 1); [lia|apply checked_out_reachable]. Defined.

Lemma pool_close_safe_witness :
  panicked checked_out = false
  ∧ (forall t1 t2 p1 p2, threads checked_out !! t1 = Some p1 -> threads checked_out !! t2 = Some p2 ->
       critical p1 = true -> critical p2 = true -> t1 = t2)
  ∧ (chClosed checked_out = true -> (forall t, threads checked_out !! t ≠ Some CDrain) ->
     idle checked_out = []).
Proof. apply (pool_close_safe 1 1 1); [lia|apply checked_out_reachable]. Defined.

(** ** The size bound *)

Lemma insert_middle (l1 l2 : list pc) x y : <[length l1 := y]> (l1 ++ x :: l2) = l1 ++ y :: l2.
Proof. rewrite insert_app_r_alt, Nat.sub_diag by lia. done. Qed.

(** [i] of [i + j] goroutines have dialed and not yet counted their connection. *)
Definition dialed (i j : nat) : pool :=
  mkPool [] false false 0 (Z.of_nat i) None i [] (map GGot (seq 0 i) ++ repeat Out j) false.

(** ... and [i] of [i + j] have counted it. *)
Definition held (i j : nat) : pool :=
  mkPool [] false false (Z.of_nat i) (Z.of_nat (i + j)) None (i + j) []
    (map (fun c => GRet (Some c)) (seq 0 i) ++ map GGot (seq i j)) false.

Lemma dial_one MaxSize i j : (1 <= MaxSize)%nat -> rtc (step MaxSize) (dialed i (S j)) (dialed (S i) j).
Proof.
  intros Hm. unfold dialed. set (l1 := map GGot (seq 0 i)).
  assert (length l1 = i) as Hl by (subst l1; by rewrite length_map, length_seq).
  cbn [repeat]. set (l2 := repeat Out j).
  assert (forall x, (l1 ++ x :: l2) !! i = Some x) as Hx by (intros; by rewrite list_lookup_middle).
  assert (forall x y, <[i := y]> (l1 ++ x :: l2) = l1 ++ y :: l2) as Hi
    by (intros; rewrite <- Hl; apply insert_middle).
  eapply (run_step _ _ _ _ i); [apply Hx|by apply get_open|]. unfold goto. cbn. rewrite Hi.
  eapply (run_step _ _ _ _ i); [apply Hx|apply get_enter|]. unfold goto. cbn. rewrite Hi.
  eapply (run_step _ _ _ _ i); [apply Hx|by apply get_empty|]. unfold goto. cbn. rewrite Hi.
  eapply (run_step _ _ _ _ i); [apply Hx|apply get_load|]. unfold goto. cbn. rewrite Hi.
  eapply (run_step _ _ _ _ i); [apply Hx|apply get_room; cbn; lia|]. unfold goto. cbn. rewrite Hi.
  eapply (run_step _ _ _ _ i); [apply Hx|apply dial_ok|]. unfold goto. cbn. rewrite Hi.
  replace (Z.of_nat i + 1) with (Z.of_nat (S i)) by lia.
  assert (l1 ++ GGot i :: l2 = map GGot (seq 0 (S i)) ++ repeat Out j) as ->; [|apply rtc_refl].
  rewrite seq_S, map_app, <- app_assoc. done.
Qed.

Lemma count_one MaxSize i j : rtc (step MaxSize) (held i (S j)) (held (S i) j).
Proof.
  unfold held. set (l1 := map (fun c => GRet (Some c)) (seq 0 i)).
  assert (length l1 = i) as Hl by (subst l1; by rewrite length_map, length_seq).
  cbn [seq map]. set (l2 := map GGot (seq (S i) j)).
  assert ((l1 ++ GGot i :: l2) !! i = Some (GGot i)) as Hx by (by rewrite list_lookup_middle).
  assert (forall x y, <[i := y]> (l1 ++ x :: l2) = l1 ++ y :: l2) as Hi
    by (intros; rewrite <- Hl; apply insert_middle).
  eapply (run_step _ _ _ _ i); [apply Hx|apply get_count|]. unfold goto. cbn. rewrite Hi.
  replace (Z.of_nat i + 1) with (Z.of_nat (S i)) by lia. rewrite Nat.add_succ_r.
  assert (l1 ++ GRet (Some i) :: l2 = map (fun c => GRet (Some c)) (seq 0 (S i)) ++ map GGot (seq (S i) j)) as ->.
  { rewrite seq_S, map_app, <- app_assoc. done. }
  apply rtc_refl.
Qed.

(** The size bound is not enforced.  For any MaxSize, [k] goroutines that call Get on a fresh
    pool at the same time can all dial: the check of the size and the counting of the connection
    are separate steps, so [k] connections are in use however small MaxSize is. *)
Theorem pool_overshoot (MaxSize k : nat) (H : (1 <= MaxSize)%nat) :
  exists s, reachable MaxSize 0 k s ∧ active s = Z.of_nat k ∧ length (owned (threads s)) = k.
Proof.
  exists (held k 0). split_and!; [|done|].
  - unfold reachable. transitivity (dialed k 0).
    + assert (forall i, rtc (step MaxSize) (dialed 0 (i + (k - i))) (dialed i (k - i)) ∨ (k < i)%nat) as D.
      { induction i as [|i [IH|IH]]; [left; apply rtc_refl| |right; lia].
        destruct (decide (k < S i)%nat) as [?|Hk]; [by right|]. left.
        replace (S i + (k - S i))%nat with (i + (k - i))%nat by lia.
        etransitivity; [exact IH|]. replace (k - i)%nat with (S (k - S i)) by lia. by apply dial_one. }
      destruct (D k) as [D'|]; [|lia]. rewrite Nat.sub_diag, Nat.add_0_r in D'. exact D'.
    + assert (dialed k 0 = held 0 k) as -> by (unfold dialed, held; by rewrite app_nil_r).
      assert (forall i, (i <= k)%nat -> rtc (step MaxSize) (held 0 k) (held i (k - i))) as C.
      { induction i as [|i IH]; intros Hi; [rewrite Nat.sub_0_r; apply rtc_refl|].
        etransitivity; [apply IH; lia|]. replace (k - i)%nat with (S (k - S i)) by lia. apply count_one. }
      specialize (C k (le_n k)). by rewrite Nat.sub_diag in C.
  - cbn [held threads]. rewrite app_nil_r. unfold owned. generalize 0%nat. clear.
    induction k as [|k IH]; intros n; [done|]. cbn. by rewrite IH.
Qed.

Lemma pool_overshoot_witness :
  exists s, reachable 1 0 5 s ∧ active s = 5 ∧ length (owned (threads s)) = 5%nat.
Proof. apply (pool_overshoot 1 5). lia. Defined.

(** A failed dial on an empty pool waits for the context.  A Get whose dial fails while no
    connection exists reaches a state in which the only step left, with no other goroutine in the
    pool, is the cancellation of its context: the dial error is not reported. *)
Theorem Get_waits_after_failed_dial (MaxSize : nat) (H : (1 <= MaxSize)%nat) :
  exists s, reachable MaxSize 0 1 s ∧ threads s = [GBlock] ∧ dials s = 0%nat
  ∧ forall s', step MaxSize s s' -> s' = goto 0 (GRet None) s.
Proof.
  exists (mkPool [] false false 0 1 None 0 [] [GBlock] false). split_and!; [|done|done|].
  - eapply (run_step _ _ _ _ 0); [done|by apply get_open|].
    eapply (run_step _ _ _ _ 0); [done|apply get_enter|].
    eapply (run_step _ _ _ _ 0); [done|by apply get_empty|].
    eapply (run_step _ _ _ _ 0); [done|apply get_load|].
    eapply (run_step _ _ _ _ 0); [done|apply get_room; cbn; lia|].
    eapply (run_step _ _ _ _ 0); [done|apply dial_fail|]. apply rtc_refl.
  - intros s' (t & p & Ht & Hs). destruct t as [|t]; [|done]. cbn in Ht. simplify_eq.
    inversion Hs; subst; done.
Qed.

Lemma Get_waits_after_failed_dial_witness :
  exists s, reachable 2 0 1 s ∧ threads s = [GBlock] ∧ dials s = 0%nat
  ∧ forall s', step 2 s s' -> s' = goto 0 (GRet None) s.
Proof. apply (Get_waits_after_failed_dial 2). lia. Defined.
