(* ===== verification/Router.v ===== *)
(** * internal/cluster/router.go: routing and redirects

    The router keeps the slot map and a pool per address, sends a command to the owner of its
    slot and follows MOVED and ASK redirects up to a hop limit.

    What it needs from the pools and the network is the class [Network]: check a connection out,
    send a frame and read a reply, return or drop the connection.  [NetworkLaws] states what the
    pool promises about it (who holds which connection, which frames were sent where); the
    theorems are proved against the class for every implementation, and [script] is a concrete
    one: a network that answers from a list of replies. *)

From Stdlib Require Import ZArith Lia Strings.Byte Permutation.
From stdpp Require Import base list strings numbers option sets gmap.
From S2P Require Import Prelude Resp RespTheory Slot Command Topology.

(** ** Configuration and state *)

Record RouterConfig := mkRouterConfig {
  MovedHopLimit : Z; ReadFromReplicas : bool; ClusterSeeds : list bytes;
  AddressMap : gmap bytes bytes; BackendFlavor : bytes; tagOpen : byte; tagClose : byte }.

(** [pools]: for every address with a pool, whether it was made for a replica that needs
    READONLY (decided when the pool is created). *)
Record Router := mkRouter { slots : Map; flavor : Flavor; pools : gmap bytes bool }.

Definition set_rslots (m : Map) (r : Router) : Router := mkRouter m (flavor r) (pools r).
Definition set_rflavor (f : Flavor) (r : Router) : Router := mkRouter (slots r) f (pools r).
Definition set_pools (p : gmap bytes bool) (r : Router) : Router := mkRouter (slots r) (flavor r) p.

Section RouterPure.
Context (cfg : RouterConfig).

Definition Router_Flavor (r : Router) : Flavor :=
  match Load (slots r) with
  | Some t => if negb (tFlavor t ==b FlavorUnknown) then tFlavor t else flavor r
  | None => flavor r
  end.

Definition SlotOf (key : bytes) : Z := KeySlot key (tagOpen cfg) (tagClose cfg).

Definition key_slot (k : slice) : Z := SlotOf (content k).

Definition CrossSlot (keys : list slice) : bool :=
  match keys with
  | k0 :: (_ :: _) as rest => existsb (fun k => negb (key_slot k =? key_slot k0)) rest
  | _ => false
  end.

Definition UniqueSlot (keys : list slice) : option Z :=
  match keys with
  | [] => None
  | k0 :: rest =>
      if existsb (fun k => negb (key_slot k =? key_slot k0)) rest then None else Some (key_slot k0)
  end.

Definition Generation (r : Router) : Z :=
  match Load (slots r) with Some t => tGeneration t | None => 0 end.

(** The closure [add] of [candidateAddrs]: no empty and no repeated address. *)
Definition add_addr (out : list bytes) (a : bytes) : list bytes :=
  if a ==b [] then out else if bool_decide (a ∈ out) then out else out ++ [a].

Definition candidateAddrs (r : Router) : list bytes :=
  let masters := match Load (slots r) with
                 | Some t => map nAddr (filter (fun n => nMaster n = true) (tNodes t))
                 | None => []
                 end in
  fold_left add_addr (masters ++ ClusterSeeds cfg) [].

Definition MasterAddrs (r : Router) : list bytes := candidateAddrs r.

Definition rewrite_addr (addr : bytes) : bytes :=
  match AddressMap cfg !! addr with
  | Some mapped => if mapped ==b [] then addr else mapped
  | None => addr
  end.

(** [ReadOnly: replica && r.Flavor() == FlavorRedis]. *)
Definition newPool (r : Router) (replica : bool) : bool :=
  replica && (Router_Flavor r ==b FlavorRedis).

Definition poolFor (r : Router) (addr : bytes) (replica : bool) : Router * bytes :=
  let addr := rewrite_addr addr in
  match pools r !! addr with
  | Some _ => (r, addr)
  | None => (set_pools (<[addr := newPool r replica]> (pools r)) r, addr)
  end.

(** Pools of addresses that left the topology are closed and removed. *)
Definition syncPools (r : Router) (t : Topology) : Router :=
  let live := map (fun n => rewrite_addr (nAddr n)) (tNodes t) in
  let added := fold_left (fun ps n =>
    let addr := rewrite_addr (nAddr n) in
    match ps !! addr with
    | Some _ => ps
    | None => <[addr := newPool r (negb (nMaster n) && ReadFromReplicas cfg)]> ps
    end) (tNodes t) (pools r) in
  set_pools (filter (fun kv => kv.1 ∈ live) added) r.

Definition Router_NodeForSlot (r : Router) (slot : Z) (read : bool) : option Node :=
  NodeForSlot (Load (slots r)) slot (read && ReadFromReplicas cfg).

Definition AnyMaster (r : Router) : option Node :=
  match FirstMaster (Load (slots r)) with
  | Some n => Some n
  | None =>
      match ClusterSeeds cfg with
      | s :: _ => Some (mkNode [] s [] HealthOnline true)
      | [] => None
      end
  end.

Definition seed_node (seed : bytes) : Node := mkNode [] seed (B "master") HealthOnline true.

Definition installSeeds (r : Router) : Router :=
  let t := set_flavor (flavor r) newEmptyTopology in
  let t := fold_left (fun t seed => (upsertNode t (seed_node seed)).1) (ClusterSeeds cfg) t in
  let t := match tNodes t with
           | [] => t
           | _ => set_slots (map (fun _ => 0) (tSlots t)) t
           end in
  set_rslots (Store (slots r) (Some t)) r.

Definition isClusterNotConfigured (err : bytes) : bool :=
  contains err (B "Cluster is not yet configured").
End RouterPure.

(** ** The network *)

Class Network (W C : Type) := {
  net_ctx : W -> option bytes;                          (* ctx.Err() *)
  net_get : W -> bytes -> W * (bytes + C);              (* pool.Get of an address *)
  net_write : W -> C -> bytes -> W * option bytes;      (* Conn.WriteRaw: an error or none *)
  net_read : W -> C -> W * (bytes + value);             (* Conn.Read *)
  net_put : W -> bytes -> C -> W;                       (* Pool.Put *)
  net_drop : W -> bytes -> C -> W }.                    (* Pool.Drop *)

(** [Conn.DoRaw]: write the frame, read one reply. *)
Definition net_do `{Network W C} (w : W) (c : C) (frame : bytes) : W * (bytes + value) :=
  let '(w, err) := net_write w c frame in
  match err with
  | Some e => (w, inl e)
  | None => net_read w c
  end.

(** [Conn.Do] encodes the command and sends the frame. *)
Definition net_cmd `{Network W C} (w : W) (c : C) (argv : list slice) : W * (bytes + value) :=
  net_do w c (EncodeCommand [] argv).

(** What the pool promises: [held] are the connections checked out, [sent] the frames written, with
    the address of their connection, in order. *)
Class NetworkLaws (W C : Type) `{Network W C} := {
  held : W -> list C;
  sent : W -> list (bytes * bytes);
  conn_addr : C -> bytes;
  get_ok w a w' c : net_get w a = (w', inr c) ->
    held w' ≡ₚ c :: held w ∧ sent w' = sent w ∧ conn_addr c = a;
  get_fails w a w' e : net_get w a = (w', inl e) -> held w' = held w ∧ sent w' = sent w;
  write_sends w c f w' res : net_write w c f = (w', res) ->
    held w' = held w ∧ sent w' = sent w ++ [(conn_addr c, f)];
  read_keeps w c w' res : net_read w c = (w', res) -> held w' = held w ∧ sent w' = sent w;
  put_returns w a c l : held w ≡ₚ c :: l ->
    held (net_put w a c) ≡ₚ l ∧ sent (net_put w a c) = sent w;
  drop_returns w a c l : held w ≡ₚ c :: l ->
    held (net_drop w a c) ≡ₚ l ∧ sent (net_drop w a c) = sent w }.

Lemma do_sends `{NetworkLaws W C} w c f w' res :
  net_do w c f = (w', res) -> held w' = held w ∧ sent w' = sent w ++ [(conn_addr c, f)].
Proof.
  unfold net_do. destruct (net_write w c f) as [w1 [e|]] eqn:E; apply write_sends in E as [E1 E2].
  - by intros [= <- <-].
  - intros [R1 R2]%read_keeps. split; congruence.
Qed.

(** ** Execution *)

Section Exec.
Context {W C : Type} `{!Network W C} (cfg : RouterConfig).

(** The loop variables of [execFrame]. *)
Record hopst := mkHop {
  hRouter : Router; hNet : W; hSlot : Z; hHint : bytes; hRead : bool; hAsking : bool; hLast : value }.

Inductive hopres :=
| HDone (r : Router) (w : W) (res : bytes + value)
| HMore (h : hopst).

Definition no_backend : bytes := B "no backend nodes".

(** The address of the next attempt: the redirect's, or the owner of the slot, or any master. *)
Definition hop_addr (h : hopst) : option bytes :=
  if hHint h ==b [] then
    match Router_NodeForSlot cfg (hRouter h) (hSlot h) (hRead h && negb (hAsking h)) with
    | Some n => Some (nAddr n)
    | None => nAddr <$> AnyMaster cfg (hRouter h)
    end
  else Some (hHint h).

(** What the loop does with the reply: return it, or follow the redirect. *)
Definition after_reply (h : hopst) (r : Router) (w : W) (v : value) : outcome hopres :=
  if negb (IsError v) then Ret (HDone r w (inr v))
  else match ParseRedirect (content (vStr v)) with
  | None => Ret (HDone r w (inr v))
  | Some red =>
      if rKind red ==b B "MOVED" then
        m ← UpdateSlot (slots r) (rSlot red) (rAddr red) [];
        Ret (HMore (mkHop (set_rslots m r) w (rSlot red) (rAddr red) (hRead h) false v))
      else Ret (HMore (mkHop r w (rSlot red) (rAddr red) false true v))
  end.

Definition asking_frame : bytes := EncodeCommand [] [BS "ASKING"].

(** One iteration; [payload] is the raw frame or the encoded command. *)
Definition hop (payload : bytes) (h : hopst) : outcome hopres :=
  match net_ctx (hNet h) with
  | Some e => Ret (HDone (hRouter h) (hNet h) (inl e))
  | None =>
    match hop_addr h with
    | None => Ret (HDone (hRouter h) (hNet h) (inl no_backend))
    | Some addr =>
      let '(r, a) := poolFor cfg (hRouter h) addr (hRead h && ReadFromReplicas cfg) in
      let '(w, got) := net_get (hNet h) a in
      match got with
      | inl e => Ret (HDone r w (inl e))
      | inr c =>
        let '(w, asked) := if hAsking h then net_cmd w c [BS "ASKING"] else (w, inr zeroValue) in
        match asked with
        | inl e => Ret (HDone r (net_drop w a c) (inl e))
        | inr _ =>
          let '(w, res) := net_do w c payload in
          match res with
          | inl e => Ret (HDone r (net_drop w a c) (inl e))
          | inr v => after_reply h r (net_put w a c) v
          end
        end
      end
    end
  end.

Fixpoint hops (fuel : nat) (payload : bytes) (h : hopst) : outcome (Router * W * (bytes + value)) :=
  match fuel with
  | O => Ret (hRouter h, hNet h, inr (hLast h))
  | S f =>
      res ← hop payload h;
      match res with
      | HDone r w x => Ret (r, w, x)
      | HMore h => hops f payload h
      end
  end.

(** [frame] is the raw frame, [None] when the command is to be encoded. *)
Definition execFrame (r : Router) (w : W) (slot : Z) (frame : slice) (argv : list slice)
  (read asking : bool) : outcome (Router * W * (bytes + value)) :=
  let payload := match frame with Some f => f | None => EncodeCommand [] argv end in
  hops (Z.to_nat (MovedHopLimit cfg)) payload (mkHop r w slot [] read asking zeroValue).

Definition Exec (r : Router) (w : W) (slot : Z) (argv : list slice) (read : bool) :=
  execFrame r w slot None argv read false.

Definition ExecRaw (r : Router) (w : W) (slot : Z) (frame : slice) (read : bool) :=
  execFrame r w slot frame [] read false.

(** [r.Pool(addr)]: the pool for an address, made if there is none. *)
Definition Pool_of (r : Router) (addr : bytes) : Router * bytes := poolFor cfg r addr false.

(** A connection with the address of its pool. *)
Definition CheckoutAddr (r : Router) (w : W) (addr : bytes) : Router * W * (bytes + C * bytes) :=
  let '(r, a) := poolFor cfg r addr false in
  let '(w, got) := net_get w a in
  (r, w, match got with inl e => inl e | inr c => inr (c, a) end).

Definition Checkout (r : Router) (w : W) (slot : Z) : Router * W * (bytes + C * bytes) :=
  let node := match Router_NodeForSlot cfg r slot false with
              | Some n => Some n
              | None => AnyMaster cfg r
              end in
  match node with
  | None => (r, w, inl no_backend)
  | Some n => CheckoutAddr r w (nAddr n)
  end.

(** ** Topology refresh *)

(** The flavour probe: INFO server, its errors ignored. *)
Definition probe_flavor (r : Router) (w : W) (c : C) : Router * W :=
  if (flavor r ==b FlavorUnknown) || (BackendFlavor cfg ==b B "auto") then
    let '(w, info) := net_cmd w c [BS "INFO"; BS "server"] in
    match info with
    | inr v => if negb (IsError v) then (set_rflavor (DetectFlavor (content (vStr v))) r, w) else (r, w)
    | inl _ => (r, w)
    end
  else (r, w).

(** CLUSTER SHARDS, or CLUSTER SLOTS when it fails or answers with an error. *)
Definition fetch_topology (w : W) (c : C) : W * outcome (bytes + Topology) :=
  let '(w, shards) := net_cmd w c [BS "CLUSTER"; BS "SHARDS"] in
  match shards with
  | inr v =>
      if negb (IsError v) then (w, ParseShards v)
      else
        let '(w, sl) := net_cmd w c [BS "CLUSTER"; BS "SLOTS"] in
        (w, match sl with
            | inl e => Ret (inl e)
            | inr v => if IsError v then Ret (inl (content (vStr v))) else ParseSlots v
            end)
  | inl _ =>
      let '(w, sl) := net_cmd w c [BS "CLUSTER"; BS "SLOTS"] in
      (w, match sl with
          | inl e => Ret (inl e)
          | inr v => if IsError v then Ret (inl (content (vStr v))) else ParseSlots v
          end)
  end.

(** The deferred [p.Put(c)] runs on every path, a panic included. *)
Definition refreshFrom (r : Router) (w : W) (addr : bytes) : outcome (Router * W * option bytes) :=
  let '(r, a) := poolFor cfg r addr false in
  let '(w, got) := net_get w a in
  match got with
  | inl e => Ret (r, w, Some e)
  | inr c =>
      let '(r, w) := probe_flavor r w c in
      let '(w, topo) := fetch_topology w c in
      topo ← topo;
      let w := net_put w a c in
      match topo with
      | inl e => Ret (r, w, Some e)
      | inr t =>
          let t := set_flavor (flavor r) t in
          let r := set_rslots (Store (slots r) (Some t)) r in
          Ret (syncPools cfg r t, w, None)
      end
  end.

Fixpoint refresh_go (addrs : list bytes) (r : Router) (w : W) (last : option bytes) :
  outcome (Router * W * option bytes) :=
  match addrs with
  | [] => Ret (r, w, Some (default (B "no cluster seeds") last))
  | addr :: rest =>
      res ← refreshFrom r w addr;
      let '(r, w, err) := res in
      match err with
      | None => Ret (r, w, None)
      | Some e => refresh_go rest r w (Some e)
      end
  end.

Definition Refresh (r : Router) (w : W) : outcome (Router * W * option bytes) :=
  refresh_go (candidateAddrs cfg r) r w None.

(** Without the TLS setup. *)
Definition NewRouter (w : W) : outcome (Router * W) :=
  let f := to_lower (BackendFlavor cfg) in
  let r := mkRouter (mkMap None 0)
             (if f ==b B "dragonfly" then FlavorDragonfly
              else if f ==b B "redis" then FlavorRedis else FlavorUnknown) ∅ in
  res ← Refresh r w;
  let '(r, w, err) := res in
  match err with
  | Some _ => Ret (installSeeds cfg r, w)
  | None => Ret (r, w)
  end.
End Exec.
Arguments hopst : clear implicits.
Arguments hopres : clear implicits.

(** ** Theory of the redirect loop *)

(** A MOVED or ASK error. *)
Definition is_redirect (v : value) : bool :=
  IsError v && match ParseRedirect (content (vStr v)) with Some _ => true | None => false end.

Lemma ParseRedirect_range p red :
  ParseRedirect p = Some red ->
  0 <= rSlot red < SlotCount ∧ rAddr red ≠ [] ∧ (rKind red = B "MOVED" ∨ rKind red = B "ASK").
Proof.
  intros (d & _ & Hk & Hd & Hr)%ParseRedirect_inv. apply parse_uint_nonneg in Hd.
  apply str_in_true in Hk as (x & Hx & ->). split_and!; [lia|tauto|tauto|].
  destruct Hx as [<-|[<-|[]]]; auto.
Qed.

Lemma UpdateSlot_total m slot addr : slot < SlotCount -> exists m', UpdateSlot m slot addr [] = Ret m'.
Proof.
  intros H. unfold UpdateSlot. destruct (moved_node _ _ _). rewrite (proj2 (Z.leb_gt _ _)) by lia. eauto.
Qed.

Section LoopTheory.
Context {W C : Type} `{!Network W C} `{!NetworkLaws W C} (cfg : RouterConfig).

Definition res_net (x : hopres W) : W := match x with HDone _ w _ => w | HMore h => hNet h end.

(** The connections held are the same and [log] are the frames sent in between. *)
Definition traffic (payload : bytes) (w w' : W) (log : list (bytes * bytes)) : Prop :=
  held w' ≡ₚ held w ∧ sent w' = sent w ++ log
  ∧ Forall (fun e => e.2 = payload ∨ e.2 = asking_frame) log.

Lemma traffic_nil payload w : traffic payload w w [].
Proof. split_and!; [done|by rewrite app_nil_r|constructor]. Qed.

Lemma traffic_app payload w1 w2 w3 l1 l2 :
  traffic payload w1 w2 l1 -> traffic payload w2 w3 l2 -> traffic payload w1 w3 (l1 ++ l2).
Proof.
  intros (H1 & S1 & F1) (H2 & S2 & F2). split_and!.
  - by rewrite H2.
  - by rewrite S2, S1, app_assoc.
  - by apply Forall_app.
Qed.

Lemma after_reply_ok h r w v :
  exists res, after_reply h r w v = Ret res ∧ res_net res = w
  ∧ match res with
    | HDone _ _ x => x = inr v ∧ is_redirect v = false
    | HMore h' => hLast h' = v ∧ is_redirect v = true
    end.
Proof.
  unfold after_reply, is_redirect. destruct (IsError v); cbn [negb andb]; [|by eexists].
  destruct (ParseRedirect _) as [red|] eqn:E; [|by eexists].
  apply ParseRedirect_range in E as (Hr & _). case_if; [|by eexists].
  destruct (UpdateSlot_total (slots r) (rSlot red) (rAddr red)) as [m ->]; [lia|]. by eexists.
Qed.

(** One iteration never panics, holds nothing more at its end, and sends at most two frames; when
    the loop goes on it has sent at least one and got a redirect. *)
Lemma hop_ok payload h :
  exists res log, hop cfg payload h = Ret res ∧ traffic payload (hNet h) (res_net res) log
  ∧ (length log <= 2)%nat
  ∧ match res with
    | HDone _ _ x => forall v, x = inr v -> is_redirect v = false
    | HMore h' => (1 <= length log)%nat ∧ is_redirect (hLast h') = true
    end.
Proof.
  unfold hop. destruct (net_ctx (hNet h)) as [e|].
  { eexists _, []. split_and!; [done|apply traffic_nil|cbn; lia|done]. }
  destruct (hop_addr cfg h) as [addr|].
  2: { eexists _, []. split_and!; [done|apply traffic_nil|cbn; lia|done]. }
  destruct (poolFor _ _ _ _) as [r a]. destruct (net_get (hNet h) a) as [w1 [e|c]] eqn:G.
  { apply get_fails in G as [Hh Hs]. eexists _, []. split_and!; [done| |cbn; lia|done].
    cbn [res_net]. split_and!; [by rewrite Hh|by rewrite app_nil_r|constructor]. }
  apply get_ok in G as (Hh & Hs & Ha).
  (* the optional ASKING *)
  assert (exists log1 w2 asked, (if hAsking h then net_cmd w1 c [BS "ASKING"] else (w1, inr zeroValue))
    = (w2, asked) ∧ held w2 ≡ₚ c :: held (hNet h) ∧ sent w2 = sent (hNet h) ++ log1
      ∧ (length log1 <= 1)%nat ∧ Forall (fun e => e.2 = payload ∨ e.2 = asking_frame) log1)
    as (log1 & w2 & asked & -> & Hh2 & Hs2 & Hl1 & Hf1).
  { destruct (hAsking h).
    - unfold net_cmd. destruct (net_do w1 c _) as [w2 asked] eqn:D. apply do_sends in D as [D1 D2].
      eexists [_], w2, asked. split_and!; [done|by rewrite D1|by rewrite D2, Hs|cbn; lia|].
      constructor; [by right|constructor].
    - exists [], w1, (inr zeroValue). split_and!; [done..|by rewrite app_nil_r|cbn; lia|constructor]. }
  destruct asked as [e|_].
  { destruct (drop_returns w2 a c _ Hh2) as [D1 D2]. eexists _, log1.
    split_and!; [done| |lia|done]. cbn [res_net]. split_and!; [done|by rewrite <- Hs2|done]. }
  destruct (net_do w2 c payload) as [w3 res] eqn:D. apply do_sends in D as [D1 D2].
  assert (held w3 ≡ₚ c :: held (hNet h)) as Hh3 by (by rewrite D1).
  assert (forall w4, held w4 ≡ₚ held (hNet h) -> sent w4 = sent w3 ->
    traffic payload (hNet h) w4 (log1 ++ [(conn_addr c, payload)])) as Ht.
  { intros w4 E1 E2. split_and!; [done|by rewrite E2, D2, Hs2, app_assoc|].
    apply Forall_app. split; [done|]. constructor; [by left|constructor]. }
  exists (match res with inl e => HDone r (net_drop w3 a c) (inl e)
          | inr v => match after_reply h r (net_put w3 a c) v with Ret x => x | Panic => HDone r w3 (inr v) end
          end), (log1 ++ [(conn_addr c, payload)]). rewrite length_app. cbn [length].
  destruct res as [e|v].
  - destruct (drop_returns w3 a c _ Hh3). split_and!; [done|by apply Ht|lia|done].
  - destruct (after_reply_ok h r (net_put w3 a c) v) as (x & -> & Hn & Hx).
    destruct (put_returns w3 a c _ Hh3). split_and!; [done|rewrite Hn; by apply Ht|lia|].
    destruct x; [destruct Hx as [-> ?]; by intros ? [= <-]|]. destruct Hx as [<- ?]. split; [lia|done].
Qed.

Lemma hops_ok fuel payload h :
  exists r w x log, hops cfg fuel payload h = Ret (r, w, x) ∧ traffic payload (hNet h) w log
  ∧ (length log <= 2 * fuel)%nat
  ∧ (forall v, x = inr v -> is_redirect v = true -> (fuel <= length log)%nat).
Proof.
  revert h. induction fuel as [|f IH]; intros h.
  { eexists _, _, _, []. split_and!; [done|apply traffic_nil|cbn; lia|cbn; lia]. }
  cbn [hops]. destruct (hop_ok payload h) as (res & log & -> & Ht & Hl & Hx). cbn [mbind outcome_bind].
  destruct res as [r w x|h'].
  - exists r, w, x, log. split_and!; [done..|lia|]. intros v Hv. rewrite (Hx v Hv). done.
  - destruct Hx as [Hl1 _]. destruct (IH h') as (r & w & x & log' & -> & Ht' & Hl' & Hx').
    exists r, w, x, (log ++ log'). rewrite length_app.
    split_and!; [done|by eapply traffic_app|lia|]. intros v Hv Hr. specialize (Hx' v Hv Hr). lia.
Qed.
End LoopTheory.

(** ** The slot map in the loop *)

(** Well formed, with room for [k] more nodes. *)
Definition map_ok (k : nat) (m : Map) : Prop :=
  wf (default newEmptyTopology (Load m))
  ∧ Z.of_nat (length (tNodes (default newEmptyTopology (Load m))) + k) < 2^31.

(** The address the map gives for a slot. *)
Definition map_addr (m : Map) (s : Z) : option bytes :=
  nAddr <$> NodeForSlot (Some (default newEmptyTopology (Load m))) s false.

Lemma UpdateSlot_map m slot addr k :
  map_ok (S k) m -> 0 <= slot < SlotCount -> addr ≠ [] ->
  exists m', UpdateSlot m slot addr [] = Ret m' ∧ map_ok k m' ∧ map_addr m' slot = Some addr
  ∧ forall s, 0 <= s < SlotCount -> s ≠ slot -> map_addr m' s = map_addr m s.
Proof.
  intros [W K] Hs Ha. destruct (UpdateSlot_ok m slot addr Hs Ha W) as
    (m' & t' & E & L & W' & H1 & H2 & _ & _ & Hn); [lia|].
  exists m'. unfold map_ok, map_addr. rewrite L in *. cbn [default from_option id] in *.
  split_and!; [done|done|lia|done|done].
Qed.

Lemma poolFor_slots cfg r a b : slots (poolFor cfg r a b).1 = slots r.
Proof. unfold poolFor. by destruct (pools r !! _). Qed.

Section Redirects.
Context {W C : Type} `{!Network W C} (cfg : RouterConfig).

(** What the loop remembers of a redirect. *)
Definition follows (m : Map) (h' : hopst W) (red : Redirect) : Prop :=
  hop_addr cfg h' = Some (rAddr red)
  ∧ ((rKind red = B "MOVED" ∧ hAsking h' = false
      ∧ map_addr (slots (hRouter h')) (rSlot red) = Some (rAddr red)
      ∧ forall s, 0 <= s < SlotCount -> s ≠ rSlot red ->
          map_addr (slots (hRouter h')) s = map_addr m s)
     ∨ (rKind red = B "ASK" ∧ hAsking h' = true ∧ hRead h' = false ∧ slots (hRouter h') = m)).

Lemma after_reply_follows h r w v k x :
  map_ok (S k) (slots r) -> after_reply h r w v = Ret x ->
  match x with
  | HDone r' _ _ => slots r' = slots r
  | HMore h' => map_ok k (slots (hRouter h'))
                ∧ exists red, ParseRedirect (content (vStr (hLast h'))) = Some red ∧ follows (slots r) h' red
  end.
Proof.
  intros Hm. unfold after_reply. destruct (IsError v); cbn [negb]; [|by intros [= <-]].
  destruct (ParseRedirect _) as [red|] eqn:E; [|by intros [= <-]].
  destruct (ParseRedirect_range _ _ E) as (Hr & Ha & Hk). case_bool_decide as Ek.
  - destruct (UpdateSlot_map (slots r) (rSlot red) (rAddr red) k Hm Hr Ha) as (m' & -> & Hm' & H1 & H2).
    cbn. intros [= <-]. cbn. split; [done|]. exists red. split; [done|]. split.
    + unfold hop_addr. cbn. by rewrite bool_decide_false.
    + left. by split_and!.
  - intros [= <-]. cbn. destruct Hm as [W1 K1]. split; [split; [done|lia]|]. exists red. split; [done|]. split.
    + unfold hop_addr. cbn. by rewrite bool_decide_false.
    + right. split_and!; [|done..]. by destruct Hk.
Qed.

Lemma hop_follows payload h k x :
  map_ok (S k) (slots (hRouter h)) -> hop cfg payload h = Ret x ->
  match x with
  | HDone r' _ _ => slots r' = slots (hRouter h)
  | HMore h' => map_ok k (slots (hRouter h'))
                ∧ exists red, ParseRedirect (content (vStr (hLast h'))) = Some red
                              ∧ follows (slots (hRouter h)) h' red
  end.
Proof.
  intros Hm. unfold hop. destruct (net_ctx _); [by intros [= <-]|].
  destruct (hop_addr cfg h) as [addr|]; [|by intros [= <-]].
  pose proof (poolFor_slots cfg (hRouter h) addr (hRead h && ReadFromReplicas cfg)) as Hp.
  destruct (poolFor _ _ _ _) as [r a]. cbn [fst] in Hp. rewrite <- Hp in *.
  destruct (net_get _ a) as [w1 [e|c]]; [by intros [= <-]|].
  destruct (if hAsking h then _ else _) as [w2 [e|asked]]; [by intros [= <-]|].
  destruct (net_do w2 c payload) as [w3 [e|v]]; [by intros [= <-]|].
  by apply after_reply_follows.
Qed.

Lemma hops_map fuel payload h r w x :
  map_ok fuel (slots (hRouter h)) -> hops cfg fuel payload h = Ret (r, w, x) -> map_ok 0 (slots r).
Proof.
  revert h. induction fuel as [|f IH]; intros h Hm; cbn [hops]; [by intros [= <- <- <-]|].
  destruct (hop cfg payload h) as [res|] eqn:E; [|done]. cbn.
  apply (hop_follows _ _ f) in E; [|done]. destruct res as [r' w' x'|h'].
  - intros [= <- <- <-]. rewrite E. destruct Hm as [W1 K1]. split; [done|lia].
  - destruct E as [Hm' _]. by apply IH.
Qed.
End Redirects.

(** ** A scripted network *)

Record script := mkScript {
  sReplies : list (bytes + value); sHeld : list bytes; sSent : list (bytes * bytes) }.

Fixpoint remove_one (c : bytes) (l : list bytes) : list bytes :=
  match l with
  | [] => []
  | x :: l' => if x ==b c then l' else x :: remove_one c l'
  end.

#[global] Instance script_network : Network script bytes := {
  net_ctx _ := None;
  net_get w a := (mkScript (sReplies w) (a :: sHeld w) (sSent w), inr a);
  net_write w c f := (mkScript (sReplies w) (sHeld w) (sSent w ++ [(c, f)]), None);
  net_read w c :=
    (mkScript (tl (sReplies w)) (sHeld w) (sSent w),
     match sReplies w with x :: _ => x | [] => inl (B "EOF") end);
  net_put w a c := mkScript (sReplies w) (remove_one c (sHeld w)) (sSent w);
  net_drop w a c := mkScript (sReplies w) (remove_one c (sHeld w)) (sSent w) }.

Lemma remove_one_perm c l k : l ≡ₚ c :: k -> remove_one c l ≡ₚ k.
Proof.
  intros H. apply (Permutation_cons_inv (a := c)). rewrite <- H.
  assert (c ∈ l) as Hc by (rewrite H; by left). clear H.
  induction l as [|x l IH]; [by apply elem_of_nil in Hc|]. cbn. case_bool_decide as E; [by subst|].
  apply elem_of_cons in Hc as [->|Hc]; [done|]. rewrite Permutation_swap. by rewrite IH.
Qed.

#[global, refine] Instance script_laws : NetworkLaws script bytes := {
  held := sHeld; sent := sSent; conn_addr c := c }.
Proof.
  - by intros w a w' c [= <- <-].
  - done.
  - by intros w c f w' res [= <- <-].
  - by intros w c w' res [= <- <-].
  - intros w a c l H. split; [by apply remove_one_perm|done].
  - intros w a c l H. split; [by apply remove_one_perm|done].
Defined.

(** ** Slots of several keys, candidate addresses, pools *)

Lemma CrossSlot_false cfg k0 keys :
  CrossSlot cfg (k0 :: keys) = false <-> Forall (fun k => key_slot cfg k = key_slot cfg k0) keys.
Proof.
  assert (existsb (fun k => negb (key_slot cfg k =? key_slot cfg k0)) keys = false
    <-> Forall (fun k => key_slot cfg k = key_slot cfg k0) keys) as H.
  { induction keys as [|k keys IH]; cbn; [split; [constructor|done]|].
    rewrite orb_false_iff, IH, negb_false_iff, Z.eqb_eq, list.Forall_cons. done. }
  rewrite <- H. by destruct keys.
Qed.

Lemma add_addr_elem out a x : x ∈ add_addr out a <-> x ∈ out ∨ (x = a ∧ a ≠ []).
Proof.
  unfold add_addr. repeat case_bool_decide; subst.
  - naive_solver.
  - naive_solver.
  - rewrite elem_of_app, list_elem_of_singleton. naive_solver.
Qed.

Lemma add_addrs l out :
  NoDup out ->
  NoDup (fold_left add_addr l out)
  ∧ (forall x, x ∈ fold_left add_addr l out <-> x ∈ out ∨ (x ∈ l ∧ x ≠ []))
  ∧ out `prefix_of` fold_left add_addr l out.
Proof.
  revert out. induction l as [|a l IH]; intros out Hn; cbn [fold_left].
  - split_and!; [done| |done]. intros x. rewrite elem_of_nil. naive_solver.
  - destruct (IH (add_addr out a)) as (H1 & H2 & H3).
    { unfold add_addr. repeat case_bool_decide; [done..|]. apply NoDup_app.
      split_and!; [done| |apply NoDup_singleton]. by intros x Hx ->%list_elem_of_singleton. }
    split_and!; [done| |].
    + intros x. rewrite H2, add_addr_elem, elem_of_cons. naive_solver.
    + etransitivity; [|exact H3]. unfold add_addr. repeat case_bool_decide; [done..|]. by eexists.
Qed.

(** The addresses of a topology, as the pools see them. *)
Definition live_addrs (cfg : RouterConfig) (t : Topology) : list bytes :=
  map (fun n => rewrite_addr cfg (nAddr n)) (tNodes t).

Lemma syncPools_dom cfg r t a :
  is_Some (pools (syncPools cfg r t) !! a) <-> a ∈ live_addrs cfg t.
Proof.
  unfold syncPools, live_addrs. cbn [pools set_pools].
  set (step := fun (ps : gmap bytes bool) (n : Node) => _).
  assert (forall ns ps a, is_Some (fold_left step ns ps !! a)
    <-> is_Some (ps !! a) ∨ a ∈ map (fun n => rewrite_addr cfg (nAddr n)) ns) as H.
  { induction ns as [|n ns IH]; intros ps b; cbn [fold_left map].
    - rewrite elem_of_nil. tauto.
    - rewrite IH, elem_of_cons. subst step. cbv beta zeta.
      destruct (ps !! rewrite_addr cfg (nAddr n)) as [x|] eqn:E.
      + split; [tauto|]. intros [?|[->|?]]; [tauto|left; by eexists|tauto].
      + rewrite lookup_insert_is_Some'. intuition congruence. }
  split.
  - intros [x [_ Hx]%map_lookup_filter_Some]. done.
  - intros Ha. destruct (proj2 (H (tNodes t) (pools r) a)) as [x Hx]; [by right|].
    exists x. by apply map_lookup_filter_Some.
Qed.

Lemma syncPools_slots cfg r t : slots (syncPools cfg r t) = slots r.
Proof. done. Qed.

Section RefreshTheory.
Context {W C : Type} `{!Network W C} `{!NetworkLaws W C} (cfg : RouterConfig).

Lemma cmd_held (w : W) c argv w' res : net_cmd w c argv = (w', res) -> held w' = held w.
Proof. unfold net_cmd. intros [H _]%do_sends. done. Qed.

Lemma probe_flavor_ok r w c r' w' :
  probe_flavor cfg r w c = (r', w') -> held w' = held w ∧ slots r' = slots r.
Proof.
  unfold probe_flavor. case_if; [|by intros [= <- <-]].
  destruct (net_cmd w c _) as [w1 [e|v]] eqn:D; apply cmd_held in D; [by intros [= <- <-]|].
  case_if; by intros [= <- <-].
Qed.

Lemma fetch_topology_ok w c w' res :
  fetch_topology w c = (w', res) -> held w' = held w
  ∧ forall t, res = Ret (inr t) -> exists v, ParseSlots v = Ret (inr t) ∨ ParseShards v = Ret (inr t).
Proof.
  unfold fetch_topology. destruct (net_cmd w c _) as [w1 [e|v]] eqn:D; apply cmd_held in D.
  - destruct (net_cmd w1 c _) as [w2 sl] eqn:D2. apply cmd_held in D2. intros [= <- <-].
    split; [congruence|]. intros t. destruct sl as [?|v]; [done|]. case_if; [done|]. eauto.
  - case_if; [intros [= <- <-]; split; [done|eauto]|].
    destruct (net_cmd w1 c _) as [w2 sl] eqn:D2. apply cmd_held in D2. intros [= <- <-].
    split; [congruence|]. intros t. destruct sl as [?|v']; [done|]. case_if; [done|]. eauto.
Qed.

Lemma wf_set_flavor f t : wf t -> wf (set_flavor f t).
Proof. by intros []. Qed.

(** After a successful refresh: a parsed topology with the next generation, and its pools. *)
Definition refreshed (r r' : Router) : Prop :=
  exists t, Load (slots r') = Some t ∧ tGeneration t = (mGen (slots r) + 1) mod 2^64
  ∧ (small t -> wf t) ∧ (forall a, is_Some (pools r' !! a) <-> a ∈ live_addrs cfg t).

Lemma refreshFrom_result r w addr r' w' err :
  refreshFrom cfg r w addr = Ret (r', w', err) ->
  held w' ≡ₚ held w ∧ match err with None => refreshed r r' | Some _ => slots r' = slots r end.
Proof.
  unfold refreshFrom. pose proof (poolFor_slots cfg r addr false) as Hp.
  destruct (poolFor cfg r addr false) as [r1 a]. cbn [fst] in Hp.
  destruct (net_get w a) as [w1 [e|c]] eqn:G.
  { apply get_fails in G as [Hh _]. intros [= <- <- <-]. by rewrite Hh. }
  apply get_ok in G as (Hh & _ & _).
  destruct (probe_flavor cfg r1 w1 c) as [r2 w2] eqn:P. apply probe_flavor_ok in P as [P1 P2].
  destruct (fetch_topology w2 c) as [w3 topo] eqn:F. apply fetch_topology_ok in F as [F1 F2].
  destruct topo as [topo|]; [|done]. cbn.
  assert (held w3 ≡ₚ c :: held w) as Hw by (by rewrite F1, P1).
  destruct (put_returns w3 a c _ Hw) as [Hput _]. destruct topo as [e|t].
  - intros [= <- <- <-]. split; [done|]. congruence.
  - intros [= <- <- <-]. split; [done|]. destruct (F2 t eq_refl) as [v Hv].
    eexists. split_and!; [reflexivity| | |].
    + cbn. by rewrite P2, Hp.
    + intros Hs. apply wf_set_generation, wf_set_flavor. by eapply parsed_wf.
    + intros x. rewrite syncPools_dom. done.
Qed.
End RefreshTheory.

(** ** Seeds *)

Lemma seeds_fold seeds t :
  wf t -> Forall (fun s => s ≠ []) seeds ->
  let t' := fold_left (fun t seed => (upsertNode t (seed_node seed)).1) seeds t in
  wf t' ∧ (length (tNodes t) <= length (tNodes t') <= length (tNodes t) + length seeds)%nat
  ∧ forall j, (j < length (tNodes t))%nat -> nAddr <$> tNodes t' !! j = nAddr <$> tNodes t !! j.
Proof.
  intros W H. revert t W. induction H as [|s seeds Hs _ IH]; intros t W; cbn [fold_left].
  - split_and!; [done|lia|cbn; lia|done].
  - pose proof (upsert_length t (seed_node s)) as ((L1 & L2) & _).
    destruct (IH (upsertNode t (seed_node s)).1) as (W' & Hl & Ha); [by apply wf_upsert|].
    cbn [length]. split_and!; [done|lia|lia|]. intros j Hj. rewrite Ha by lia. by apply upsert_addr.
Qed.

Lemma installSeeds_ok cfg r s0 rest :
  ClusterSeeds cfg = s0 :: rest -> Forall (fun s => s ≠ []) (ClusterSeeds cfg) ->
  exists t, Load (slots (installSeeds cfg r)) = Some t ∧ wf t
  ∧ forall s, 0 <= s < SlotCount -> nAddr <$> NodeForSlot (Some t) s false = Some s0.
Proof.
  intros E Hf. unfold installSeeds. rewrite E in *. cbn [fold_left].
  apply list.Forall_cons in Hf as [H0 Hf].
  set (t1 := (upsertNode _ (seed_node s0)).1).
  assert (t1 = mkTopology 0 (flavor r) (tSlots newEmptyTopology) [seed_node s0] [0%nat]) as E1 by done.
  assert (wf t1) as W1 by (apply wf_upsert; [apply wf_set_flavor, wf_newEmpty|done]).
  destruct (seeds_fold rest t1 W1 Hf) as (W2 & L & Ha). set (t2 := fold_left _ rest t1) in *.
  assert (length (tNodes t1) = 1%nat) as L1 by (by rewrite E1). rewrite L1 in *.
  specialize (Ha 0%nat ltac:(lia)). rewrite E1 in Ha. clear E1 L1.
  cbn [tNodes lookup list_lookup fmap option_fmap option_map nAddr seed_node] in Ha.
  destruct (tNodes t2) as [|n0 ns] eqn:En; [cbn in L; lia|]. injection Ha as Ha.
  set (t3 := set_slots (map (fun _ => 0) (tSlots t2)) t2).
  assert (wf t3) as W3.
  { destruct W2 as [V1 V2 V3 V4 V5]. split; cbn; [by rewrite length_map| |done..].
    apply list.Forall_forall. intros x (y & -> & _)%list_elem_of_fmap. rewrite En. cbn. lia. }
  cbn [Store]. eexists. split_and!; [done|by apply wf_set_generation|].
  intros s Hs. rewrite NodeForSlot_addr by (done || by apply wf_set_generation).
  assert (slot_at (set_generation ((mGen (slots r) + 1) mod 2 ^ 64) t3) s = 0) as Hz.
  { apply slot_at_lookup. cbn. rewrite list_lookup_fmap.
    destruct (lookup_lt_is_Some_2 (tSlots t2) (Z.to_nat s)) as [x ->]; [|done].
    rewrite (wf_len t2 W2). lia. }
  unfold slot_addr. rewrite Hz. change (0 <? 0) with false. cbv iota.
  cbn [set_generation tNodes t3 set_slots]. rewrite En. change (Z.to_nat 0) with 0%nat. cbn. by rewrite <- Ha.
Qed.

(** ** Properties *)

Section RouterProperties.
Context {W C : Type} `{!Network W C} `{!NetworkLaws W C} (cfg : RouterConfig).

(** C12: a routed command is bounded and leaks nothing.  For any network behind the router,
    executing a command never panics, ends with the same connections checked out as before, and
    sends at most two frames per allowed hop, each the command or ASKING; a MOVED or ASK error is
    returned only after at least MovedHopLimit frames, that is, when every hop was redirected. *)
Theorem execFrame_bounded (r : Router) (w : W) (slot : Z) (frame : slice) (argv : list slice)
  (read asking : bool) :
  let payload := match frame with Some f => f | None => EncodeCommand [] argv end in
  exists r' w' res log, execFrame cfg r w slot frame argv read asking = Ret (r', w', res)
  ∧ held w' ≡ₚ held w ∧ sent w' = sent w ++ log
  ∧ Forall (fun e => e.2 = payload ∨ e.2 = asking_frame) log
  ∧ (length log <= 2 * Z.to_nat (MovedHopLimit cfg))%nat
  ∧ forall v, res = inr v -> is_redirect v = true -> (Z.to_nat (MovedHopLimit cfg) <= length log)%nat.
Proof.
  cbv zeta. unfold execFrame.
  destruct (hops_ok cfg (Z.to_nat (MovedHopLimit cfg))
    (match frame with Some f => f | None => EncodeCommand [] argv end)
    (mkHop r w slot [] read asking zeroValue)) as (r' & w' & x & log & E & (H1 & H2 & H3) & H4 & H5).
  exists r', w', x, log. by split_and!.
Qed.


(** The slot map stays well formed under traffic.  Whatever redirects the backends send, a
    command leaves the router with a well-formed slot map. *)
Theorem exec_keeps_map (r r' : Router) (w w' : W) (slot : Z) (argv : list slice) (read : bool)
  (res : bytes + value) (Hm : map_ok (Z.to_nat (MovedHopLimit cfg)) (slots r))
  (H : Exec cfg r w slot argv read = Ret (r', w', res)) :
  wf (default newEmptyTopology (Load (slots r'))).
Proof. by apply hops_map in H as [H _]. Qed.

End RouterProperties.

(** Cross-slot detection is exact.  [CrossSlot] accepts a list of keys exactly when all hash
    to one slot, and [UniqueSlot] then returns that slot. *)
Theorem CrossSlot_spec (cfg : RouterConfig) (keys : list slice) :
  (CrossSlot cfg keys = false <-> forall a b, a ∈ keys -> b ∈ keys -> key_slot cfg a = key_slot cfg b)
  ∧ forall s, UniqueSlot cfg keys = Some s <->
      keys ≠ [] ∧ forall a, a ∈ keys -> key_slot cfg a = s.
Proof.
  destruct keys as [|k0 keys].
  { split; [split; [by intros _ a b ?%elem_of_nil|done]|]. intros s. split; [done|by intros [? _]]. }
  split.
  - rewrite CrossSlot_false, list.Forall_forall. split.
    + intros H. assert (forall a, a ∈ k0 :: keys -> key_slot cfg a = key_slot cfg k0) as G
        by (intros a [->|Ha]%elem_of_cons; [done|by apply H]).
      intros a b Ha Hb. by rewrite (G a Ha), (G b Hb).
    + intros H a Ha. apply H; [by right|by left].
  - intros s. pose proof (CrossSlot_false cfg k0 keys) as Hc.
    assert (UniqueSlot cfg (k0 :: keys)
      = if CrossSlot cfg (k0 :: keys) then None else Some (key_slot cfg k0)) as -> by (by destruct keys).
    destruct (CrossSlot cfg (k0 :: keys)).
    + split; [done|]. intros [_ H]. exfalso. destruct Hc as [_ Hc]. discriminate Hc.
      apply list.Forall_forall. intros a Ha. rewrite !H; [done|by left|by right].
    + rewrite list.Forall_forall in Hc. split.
      * intros [= <-]. split; [done|]. intros a [->|Ha]%elem_of_cons; [done|]. by apply (proj1 Hc).
      * intros [_ H]. f_equal. apply H. by left.
Qed.

(** Refresh candidates are the known masters, then the seeds: every non-empty one appears,
    none twice, and the masters come first. *)
Theorem candidateAddrs_spec (cfg : RouterConfig) (r : Router) :
  let masters := match Load (slots r) with
                 | Some t => map nAddr (filter (fun n => nMaster n = true) (tNodes t))
                 | None => []
                 end in
  NoDup (candidateAddrs cfg r)
  ∧ (forall a, a ∈ candidateAddrs cfg r <-> a ≠ [] ∧ (a ∈ masters ∨ a ∈ ClusterSeeds cfg))
  ∧ fold_left add_addr masters [] `prefix_of` candidateAddrs cfg r.
Proof.
  cbv zeta. unfold candidateAddrs. set (masters := match Load (slots r) with Some _ => _ | None => _ end).
  destruct (add_addrs (masters ++ ClusterSeeds cfg) []) as (H1 & H2 & _); [constructor|].
  split_and!; [done| |].
  - intros a. rewrite H2, elem_of_nil, elem_of_app. tauto.
  - rewrite fold_left_app. apply add_addrs. apply add_addrs. constructor.
Qed.

(** Without a topology the first seed serves every slot.  The seed topology is well formed
    and maps all 16384 slots to the first seed. *)
Theorem installSeeds_spec (cfg : RouterConfig) (r : Router) (s0 : bytes) (rest : list bytes)
  (E : ClusterSeeds cfg = s0 :: rest) (Hf : Forall (fun s => s ≠ []) (ClusterSeeds cfg)) :
  exists t, Load (slots (installSeeds cfg r)) = Some t ∧ wf t
  ∧ forall s, 0 <= s < SlotCount -> nAddr <$> NodeForSlot (Some t) s false = Some s0.
Proof. by apply (installSeeds_ok cfg r s0 rest). Qed.

(** ** Witnesses: a cluster of two seeds, and a slot that has moved *)

Definition demo_cfg : RouterConfig :=
  mkRouterConfig 5 false [B "s1:1"; B "s2:2"] ∅ (B "auto") "{" "}".
Definition demo_router : Router := installSeeds demo_cfg (mkRouter (mkMap None 0) FlavorRedis ∅).
Definition moved_reply : value := RError (B "MOVED 7 n:9").
Definition demo_net : script := mkScript [inr moved_reply; inr (SimpleString (B "OK"))] [] [].

Lemma demo_map_ok k : (k <= 10)%nat -> map_ok k (slots demo_router).
Proof.
  intros Hk. destruct (installSeeds_ok demo_cfg (mkRouter (mkMap None 0) FlavorRedis ∅) (B "s1:1") [B "s2:2"])
    as (t & E & Hw & _); [done|by repeat constructor|].
  split.
  - unfold demo_router. by rewrite E.
  - assert (length (tNodes (default newEmptyTopology (Load (slots demo_router)))) = 2%nat) as -> by vm_refl.
    lia.
Qed.

Lemma execFrame_bounded_witness :
  exists r' w' res log,
    execFrame demo_cfg demo_router demo_net 7 None (cmd ["GET"; "k"]) false false = Ret (r', w', res)
    ∧ held w' ≡ₚ held demo_net ∧ sent w' = sent demo_net ++ log ∧ (length log <= 10)%nat.
Proof.
  destruct (execFrame_bounded demo_cfg demo_router demo_net 7 None (cmd ["GET"; "k"]) false false)
    as (r' & w' & res & log & H1 & H2 & H3 & _ & H5 & _).
  exists r', w', res, log. by split_and!.
Defined.


Lemma exec_keeps_map_witness :
  match Exec demo_cfg demo_router demo_net 7 (cmd ["GET"; "k"]) false with
  | Ret (r', _, _) => wf (default newEmptyTopology (Load (slots r')))
  | Panic => False
  end.
Proof.
  assert (match Exec demo_cfg demo_router demo_net 7 (cmd ["GET"; "k"]) false with
          | Ret _ => true | Panic => false end = true) as R by vm_refl. revert R.
  destruct (Exec demo_cfg demo_router demo_net 7 (cmd ["GET"; "k"]) false) as [[[r' w'] res]|] eqn:E;
    [|discriminate]. intros _.
  exact (exec_keeps_map demo_cfg demo_router r' demo_net w' _ _ _ _ (demo_map_ok 5 ltac:(lia)) E).
Defined.

(** A refresh answered by an INFO, a failing SHARDS and a SLOTS reply. *)
Definition refresh_net : script :=
  mkScript [inr (bulk "redis_version:7"); inr (RError (B "ERR unknown subcommand"));
            inr (Array [slots_reply 0 3 [("a", 1)]])] [] [].


Lemma installSeeds_spec_witness :
  exists t, Load (slots demo_router) = Some t ∧ wf t
  ∧ forall s, 0 <= s < SlotCount -> nAddr <$> NodeForSlot (Some t) s false = Some (B "s1:1").
Proof.
  apply (installSeeds_spec demo_cfg (mkRouter (mkMap None 0) FlavorRedis ∅) (B "s1:1") [B "s2:2"]);
    [done|by repeat constructor].
Defined.
