(* ===== verification/Cluster.v ===== *)
(** * The backend cluster, and routing to it

    The servers are not part of the program: this file states what the proxy relies on from them.
    [rcmd] are the data commands, [decode] reads one from an argument vector, [run] is its documented
    effect on a key space.  What a single-key command does to the value of its key is a parameter
    ([Server]), as is the format of DUMP.

    [Cluster] is a cluster whose slots are spread over nodes: a node executes the commands of its
    slots, answers the others by MOVED with the owner's address, and by ASK for keys that are being
    migrated away.  Owners may change whenever a command executes.  [exec_runs] shows that
    [execFrame] hides all of this: whatever the slot map says, the command is executed exactly once
    and its reply returned.  The instance [cluster_store] discharges the interface the fan-out is
    proved against, and [demo_cluster] shows that the class can be satisfied. *)

From Stdlib Require Import ZArith Lia Strings.Byte Permutation.
From stdpp Require Import base list strings numbers option sets gmap fin_maps fin_sets.
From S2P Require Import Prelude Resp RespTheory Slot Command VirtualDB Fanout FanoutTheory Topology Router.

(** ** Data commands *)

(** Commands whose only key is their first argument. *)
Definition one_key_names : list string :=
  ["GET"; "SET"; "SETNX"; "SETEX"; "PSETEX"; "GETSET"; "GETDEL"; "GETEX"; "APPEND"; "STRLEN"; "INCR";
   "DECR"; "INCRBY"; "DECRBY"; "INCRBYFLOAT"; "GETRANGE"; "SETRANGE"; "SETBIT"; "GETBIT"; "BITCOUNT";
   "BITPOS"; "BITFIELD"; "SUBSTR"; "TYPE"; "HGET"; "HSET"; "HSETNX"; "HMGET"; "HMSET"; "HDEL";
   "HEXISTS"; "HGETALL"; "HINCRBY"; "HINCRBYFLOAT"; "HKEYS"; "HVALS"; "HLEN"; "HSCAN"; "HSTRLEN";
   "HRANDFIELD"; "LPUSH"; "RPUSH"; "LPUSHX"; "RPUSHX"; "LPOP"; "RPOP"; "LLEN"; "LINDEX"; "LRANGE";
   "LSET"; "LTRIM"; "LREM"; "LINSERT"; "LPOS"; "SADD"; "SREM"; "SMEMBERS"; "SISMEMBER"; "SMISMEMBER";
   "SCARD"; "SPOP"; "SRANDMEMBER"; "SSCAN"; "ZADD"; "ZREM"; "ZSCORE"; "ZINCRBY"; "ZCARD"; "ZCOUNT";
   "ZRANGE"; "ZREVRANGE"; "ZRANGEBYSCORE"; "ZREVRANGEBYSCORE"; "ZRANK"; "ZREVRANK"; "ZRANGEBYLEX";
   "ZREVRANGEBYLEX"; "ZLEXCOUNT"; "ZREMRANGEBYRANK"; "ZREMRANGEBYSCORE"; "ZREMRANGEBYLEX"; "ZPOPMIN";
   "ZPOPMAX"; "ZSCAN"; "ZMSCORE"; "ZRANDMEMBER"; "XADD"; "XLEN"; "XRANGE"; "XREVRANGE"; "XACK"; "XDEL";
   "XPENDING"; "XCLAIM"; "XAUTOCLAIM"; "XTRIM"; "PFADD"; "GEOADD"; "GEODIST"; "GEOHASH"; "GEOPOS";
   "GEOSEARCH"; "JSON.GET"; "JSON.SET"; "JSON.DEL"].

Definition one_key (name : bytes) : bool := str_in name one_key_names.

Inductive rcmd :=
| COne (name : bytes) (k : slice) (args : list slice)
| CMget (ks : list slice)
| CMset (kvs : list (slice * slice))
| CDel (ks : list slice)
| CExists (ks : list slice)
| CDump (k : slice)
| CRestore (k payload : slice) (replace : bool)
| CRename (a b : slice)
| CCopy (a b : slice) (replace : bool).

Definition cmd_keys (c : rcmd) : list slice :=
  match c with
  | COne _ k _ | CDump k | CRestore k _ _ => [k]
  | CMget ks | CDel ks | CExists ks => ks
  | CMset kvs => map fst kvs
  | CRename a b | CCopy a b _ => [a; b]
  end.

(** The option REPLACE, or nothing. *)
Definition replace_opt (l : list slice) : option bool :=
  match l with
  | [] => Some false
  | [o] => if EqualFoldASCII (content o) (B "REPLACE") then Some true else None
  | _ => None
  end.

(** The command an argument vector stands for, when it is one of them. *)
Definition decode (argv : list slice) : option rcmd :=
  let name := cmd_name argv in
  match drop 1 argv with
  | [] => None
  | k :: rest =>
    if one_key name then Some (COne name k rest)
    else if name ==b B "MGET" then Some (CMget (k :: rest))
    else if name ==b B "MSET" then
      if Nat.even (length (k :: rest)) then Some (CMset (pair_up (k :: rest))) else None
    else if str_in name ["DEL"; "UNLINK"] then Some (CDel (k :: rest))
    else if str_in name ["EXISTS"; "TOUCH"] then Some (CExists (k :: rest))
    else if name ==b B "DUMP" then match rest with [] => Some (CDump k) | _ => None end
    else if name ==b B "RESTORE" then
      match rest with
      | ttl :: p :: opts => if content ttl ==b B "0" then CRestore k p <$> replace_opt opts else None
      | _ => None
      end
    else if name ==b B "RENAME" then match rest with [b] => Some (CRename k b) | _ => None end
    else if name ==b B "COPY" then
      match rest with b :: opts => CCopy k b <$> replace_opt opts | [] => None end
    else None
  end.

(** Not a MOVED or ASK error. *)
Definition no_redirect (v : value) : Prop := EqualKind v "MOVED" = false ∧ EqualKind v "ASK" = false.

(** [one e name args old] is the new value of the key and the reply; [e] stands for the time and the
    random choices at that moment.  Values are opaque: a value is whatever the server keeps at a key.
    Values do not expire. *)
Class Server := {
  one : Z -> bytes -> list bytes -> option bytes -> option bytes * value;
  dump : bytes -> bytes;
  undump : bytes -> option bytes;
  one_reply e name args old : vRaw (one e name args old).2 = [] ∧ no_redirect (one e name args old).2;
  dump_nonempty v : dump v ≠ [];
  undump_dump v : undump (dump v) = Some v }.

Definition ok_value : value := SimpleString (B "OK").

Section Run.
Context `{!Server}.

Definition run (e : Z) (c : rcmd) (m : store) : store * value :=
  match c with
  | COne name k args =>
      let '(v, r) := one e name (map content args) (m !! content k) in
      (partial_alter (fun _ => v) (content k) m, r)
  | CMget ks => (m, Array (mget_ref ks m))
  | CMset kvs => (mset_ref kvs m, ok_value)
  | CDel ks => (del_ref ks m, Integer (Z.of_nat (del_count ks m)))
  | CExists ks => (m, Integer (Z.of_nat (exists_count ks m)))
  | CDump k => (m, get_reply (dump <$> m !! content k))
  | CRestore k p replace =>
      match undump (content p), m !! content k with
      | None, _ => (m, RError (B "ERR DUMP payload version or checksum are wrong"))
      | Some v, Some _ =>
          if replace then (<[content k := v]> m, ok_value)
          else (m, RError (B "BUSYKEY Target key name already exists."))
      | Some v, None => (<[content k := v]> m, ok_value)
      end
  | CRename a b =>
      match m !! content a with
      | None => (m, RError (B "ERR no such key"))
      | Some v => (<[content b := v]> (delete (content a) m), ok_value)
      end
  | CCopy a b replace =>
      if content a ==b content b then (m, RError (B "ERR source and destination objects are the same"))
      else match m !! content a, m !! content b with
      | None, _ => (m, Integer 0)
      | Some v, Some _ => if replace then (<[content b := v]> m, Integer 1) else (m, Integer 0)
      | Some v, None => (<[content b := v]> m, Integer 1)
      end
  end.

Lemma run_reply e c m : vRaw (run e c m).2 = [] ∧ no_redirect (run e c m).2.
Proof.
  destruct c as [name k args|ks|kvs|ks|ks|k|k p rep|a b|a b rep]; cbn [run];
    try (split; [reflexivity|split; vm_refl]).
  - pose proof (one_reply e name (map content args) (m !! content k)) as Ho. by destruct (one _ _ _ _).
  - by destruct (dump <$> _).
  - destruct (undump (content p)), (m !! content k), rep; (split; [reflexivity|split; vm_refl]).
  - destruct (m !! content a); (split; [reflexivity|split; vm_refl]).
  - case_if; [split; [reflexivity|split; vm_refl]|].
    destruct (m !! content a), (m !! content b), rep; (split; [reflexivity|split; vm_refl]).
Qed.
End Run.

Section RunSeq.
Context `{!Server}.

(** Commands one after the other; [es] has the time and choices of each. *)
Fixpoint run_seq (es : list Z) (q : list rcmd) (m : store) : store * list value :=
  match q with
  | [] => (m, [])
  | c :: q =>
      let '(m, v) := run (default 0 (head es)) c m in
      let '(m, vs) := run_seq (tail es) q m in (m, v :: vs)
  end.
End RunSeq.

(** An error that is a redirect has the kind MOVED or ASK. *)
Lemma no_redirect_followed r v :
  no_redirect v -> set_raw [] r = v -> IsError r = false ∨ ParseRedirect (content (vStr r)) = None.
Proof.
  intros [Hm Ha] E. assert (EqualKind r "MOVED" = false ∧ EqualKind r "ASK" = false) as [Hm' Ha']
    by (subst v; by destruct r). clear Hm Ha E v.
  destruct (IsError r) eqn:Ei; [|by left]. right.
  destruct (ParseRedirect _) as [red|] eqn:E; [|done]. exfalso.
  apply ParseRedirect_inv in E as (d & Ed & Hk & _).
  assert (" "%byte ∉ rKind red) as Hs by (apply str_in_true in Hk as (x & Hx & ->); destruct Hx as [<-|[<-|[]]]; by apply index_byte_None).
  unfold EqualKind, ErrorKind in *. rewrite Ei in *. cbn [negb] in *. rewrite Ed, index_byte_app, take_app_length in * by done.
  apply str_in_true in Hk as (x & Hx & Hr). rewrite Hr in *. destruct Hx as [<-|[<-|[]]]; done.
Qed.

(** ** The cluster *)

Definition redirect_msg (kind : string) (slot : Z) (addr : bytes) : bytes :=
  B kind ++ B " " ++ itoa slot ++ B " " ++ addr.

(** [view]: the key space of the whole cluster.  [place w s]: the announced address of the owner of
    slot [s].  [asks w argv]: the node the keys of a command have been migrated to, while its slot is
    being migrated.  [node c]: the address a connection was dialled to.  [asking w c]: ASKING was the
    last command on the connection.  [txn w c]: the commands queued on it since MULTI. *)
Class Cluster (W C : Type) `{!Network W C} `{!Server} (cfg : RouterConfig) := {
  view : W -> store;
  place : W -> Z -> bytes;
  asks : W -> list slice -> option bytes;
  node : C -> bytes;
  asking : W -> C -> bool;
  txn : W -> C -> option (list rcmd);
  same (w w' : W) : Prop :=
    view w' = view w ∧ (forall s, place w' s = place w s) ∧ (forall argv, asks w' argv = asks w argv);
  place_addr w s : place w s ≠ [];
  asks_addr w argv a : asks w argv = Some a -> a ≠ [];
  cl_ctx w : net_ctx w = None;
  cl_get w a : exists w' c, net_get w a = (w', inr c) ∧ node c = a ∧ asking w' c = false ∧ txn w' c = None ∧ same w w';
  cl_put w a c : same w (net_put w a c);
  cl_drop w a c : same w (net_drop w a c);
  cl_asking w c : txn w c = None ->
    exists w' r, net_cmd w c [BS "ASKING"] = (w', inr r) ∧ asking w' c = true ∧ txn w' c = None ∧ same w w';
  (* a node that serves the command executes it *)
  cl_run w c argv rc s :
    sendable argv -> decode argv = Some rc -> in_slot (SlotOf cfg) s (cmd_keys rc) -> txn w c = None ->
    (asks w argv = None ∧ node c = rewrite_addr cfg (place w s))
    ∨ (asking w c = true ∧ exists a, asks w argv = Some a ∧ node c = rewrite_addr cfg a) ->
    exists e w' r, net_do w c (EncodeCommand [] argv) = (w', inr r)
      ∧ (view w', set_raw [] r) = run e rc (view w);
  (* the owner refers to the node the keys were migrated to *)
  cl_ask w c argv rc s a :
    sendable argv -> decode argv = Some rc -> in_slot (SlotOf cfg) s (cmd_keys rc) -> txn w c = None ->
    asks w argv = Some a -> asking w c = false -> node c = rewrite_addr cfg (place w s) ->
    exists w' r, net_do w c (EncodeCommand [] argv) = (w', inr r) ∧ same w w'
      ∧ set_raw [] r = RError (redirect_msg "ASK" s a);
  (* any other node refers to the owner *)
  cl_moved w c argv rc s :
    sendable argv -> decode argv = Some rc -> in_slot (SlotOf cfg) s (cmd_keys rc) -> txn w c = None ->
    asking w c = false -> node c ≠ rewrite_addr cfg (place w s) ->
    exists w' r, net_do w c (EncodeCommand [] argv) = (w', inr r) ∧ same w w'
      ∧ set_raw [] r = RError (redirect_msg "MOVED" s (place w s)) }.

(** The configuration the theorems need: a seed, reads from masters, and room for the redirects of
    one command (one MOVED and one ASK). *)
Record cluster_cfg (cfg : RouterConfig) : Prop := mkClusterCfg {
  cc_seeds : ClusterSeeds cfg ≠ [];
  cc_masters : ReadFromReplicas cfg = false;
  cc_hops : 3 <= MovedHopLimit cfg }.

Section Routing.
Context {W C : Type} `{!Network W C} `{!Server} (cfg : RouterConfig) `{!Cluster W C cfg}.
Context (Hcfg : cluster_cfg cfg).

Lemma same_trans (w1 w2 w3 : W) : same w1 w2 -> same w2 w3 -> same w1 w3.
Proof. intros (A1 & A2 & A3) (B1 & B2 & B3). split_and!; intros; congruence. Qed.

Lemma hop_addr_Some (h : hopst W) : exists a, hop_addr cfg h = Some a.
Proof.
  unfold hop_addr. case_if; [|eauto]. destruct (Router_NodeForSlot _ _ _ _) as [n|]; [eauto|].
  unfold AnyMaster. destruct (FirstMaster _) as [n|]; [cbn; eauto|].
  pose proof (cc_seeds cfg Hcfg). destruct (ClusterSeeds cfg); [done|]. cbn. eauto.
Qed.

Lemma hop_addr_hint (h : hopst W) a : hHint h = a -> a ≠ [] -> hop_addr cfg h = Some a.
Proof. intros E Ha. unfold hop_addr. rewrite E. by rewrite bool_decide_false. Qed.

(** The reply of one attempt, from the network's answer. *)
Lemma hop_step payload (h : hopst W) a :
  hop_addr cfg h = Some a ->
  exists r w c, poolFor cfg (hRouter h) a (hRead h && ReadFromReplicas cfg) = (r, rewrite_addr cfg a)
  ∧ node c = rewrite_addr cfg a ∧ asking w c = hAsking h ∧ txn w c = None ∧ same (hNet h) w
  ∧ forall w' v, net_do w c payload = (w', inr v) ->
      hop cfg payload h = after_reply h r (net_put w' (rewrite_addr cfg a) c) v.
Proof.
  intros Ha. destruct (poolFor cfg (hRouter h) a (hRead h && ReadFromReplicas cfg)) as [r a'] eqn:Hp.
  assert (a' = rewrite_addr cfg a) as -> by (unfold poolFor in Hp; destruct (_ !! _); by simplify_eq).
  destruct (cl_get (hNet h) (rewrite_addr cfg a)) as (w1 & c & Hg & Hn & Hf & Htx & Hs).
  destruct (hAsking h) eqn:Hk.
  - destruct (cl_asking w1 c Htx) as (w2 & x & Hc & Hf2 & Htx2 & Hs2).
    exists r, w2, c. split_and!; [done..|by eapply same_trans|]. intros w' v Hd. unfold hop.
    by rewrite cl_ctx, Ha, Hp, Hg, Hk, Hc, Hd.
  - exists r, w1, c. split_and!; [done..|]. intros w' v Hd. unfold hop.
    by rewrite cl_ctx, Ha, Hp, Hg, Hk, Hd.
Qed.

(** *** The outcomes of one attempt *)

Context (argv : list slice) (rc : rcmd) (s : Z).
Context (Hsend : sendable argv) (Hdec : decode argv = Some rc) (Hslot : in_slot (SlotOf cfg) s (cmd_keys rc)).

Local Abbreviation payload := (EncodeCommand [] argv).

(** [execution w0 w' v]: the command was executed once, from [w0] to [w'], and answered by [v]. *)
Definition execution (w0 w' : W) (v : value) : Prop :=
  exists e, (view w', set_raw [] v) = run e rc (view w0).

Definition hop_runs (h : hopst W) : Prop :=
  exists r' w' v, hop cfg payload h = Ret (HDone r' w' (inr v)) ∧ execution (hNet h) w' v.

(** An attempt at a node that serves the command ends the loop. *)
Lemma hop_serves h a :
  hop_addr cfg h = Some a ->
  (asks (hNet h) argv = None ∧ rewrite_addr cfg a = rewrite_addr cfg (place (hNet h) s))
  ∨ (hAsking h = true ∧ asks (hNet h) argv = Some a) ->
  hop_runs h.
Proof.
  intros Ha Hv. destruct (hop_step payload h a Ha) as (r & w & c & _ & Hn & Hf & Htx & (S1 & S2 & S3) & Hop).
  destruct (cl_run w c argv rc s Hsend Hdec Hslot Htx) as (e & w' & v & Hd & Hr).
  { destruct Hv as [[Hv Hv']|[Hk Hv]]; [left|right].
    - by rewrite S2, S3, Hn.
    - rewrite S3, Hf. eauto. }
  apply Hop in Hd. destruct (cl_put w' (rewrite_addr cfg a) c) as (P1 & _).
  exists r, (net_put w' (rewrite_addr cfg a) c), v. split; [|exists e; by rewrite P1, <- S1].
  rewrite Hd. unfold after_reply. destruct (run_reply e rc (view w)) as [_ Hnr].
  rewrite <- Hr in Hnr. destruct (no_redirect_followed v _ Hnr eq_refl) as [-> | ->]; [done|]. by case_if.
Qed.

Lemma slot_range : 0 <= s < SlotCount.
Proof.
  destruct Hslot as [Hne Hf]. destruct (cmd_keys rc) as [|k ks]; [done|]. apply Forall_inv in Hf.
  rewrite <- Hf. apply KeySlot_range.
Qed.

Lemma parse_slot : parse_uint (itoa s) = Some s.
Proof.
  pose proof slot_range as Hr. unfold SlotCount in Hr. unfold itoa. rewrite (proj2 (Z.ltb_ge s 0)) by lia.
  apply parse_uint_digits. lia.
Qed.

Lemma redirect_parses kind a v :
  str_in (B kind) ["MOVED"; "ASK"] = true -> a ≠ [] -> set_raw [] v = RError (redirect_msg kind s a) ->
  IsError v = true ∧ ParseRedirect (content (vStr v)) = Some (mkRedirect (B kind) s a).
Proof.
  intros Hk Ha E. assert (vType v = TypeError ∧ vStr v = Some (redirect_msg kind s a)) as [Et Es]
    by (by destruct v; injection E). split; [unfold IsError; by rewrite Et|]. rewrite Es. cbn [content].
  apply (ParseRedirect_build (B kind) (itoa s) s a Hk parse_slot); [apply slot_range|done].
Qed.

(** At the owner the command runs, or is referred to the node its keys were migrated to. *)
Lemma hop_at_owner h a :
  hop_addr cfg h = Some a -> hAsking h = false -> rewrite_addr cfg a = rewrite_addr cfg (place (hNet h) s) ->
  hop_runs h ∨ exists h' b, hop cfg payload h = Ret (HMore h') ∧ same (hNet h) (hNet h')
    ∧ asks (hNet h') argv = Some b ∧ hAsking h' = true ∧ hHint h' = b.
Proof.
  intros Ha Hk Hown. destruct (hop_step payload h a Ha) as (r & w & c & _ & Hn & Hf & Htx & Hs & Hop).
  pose proof Hs as (S1 & S2 & S3). destruct (asks (hNet h) argv) as [b|] eqn:Hb.
  - right. destruct (cl_ask w c argv rc s b Hsend Hdec Hslot Htx) as (w' & v & Hd & Hs' & Hv);
      [by rewrite S3|congruence|by rewrite Hn, S2|].
    apply Hop in Hd. rewrite Hd. unfold after_reply.
    destruct (redirect_parses "ASK" b v) as [-> ->]; [done|by eapply asks_addr|done|].
    eexists _, b. assert (same (hNet h) (net_put w' (rewrite_addr cfg a) c)) as Hw
      by (eapply same_trans; [exact Hs|]; eapply same_trans; [exact Hs'|apply cl_put]).
    split_and!; [reflexivity|exact Hw| |done|done]. destruct Hw as (_ & _ & ->). done.
  - left. apply (hop_serves h a Ha). by left.
Qed.

(** Anywhere else it is referred to the owner. *)
Lemma hop_elsewhere h a :
  hop_addr cfg h = Some a -> hAsking h = false -> rewrite_addr cfg a ≠ rewrite_addr cfg (place (hNet h) s) ->
  exists h', hop cfg payload h = Ret (HMore h') ∧ same (hNet h) (hNet h')
    ∧ hAsking h' = false ∧ hHint h' = place (hNet h') s.
Proof.
  intros Ha Hk Hown. destruct (hop_step payload h a Ha) as (r & w & c & _ & Hn & Hf & Htx & Hs & Hop).
  pose proof Hs as (S1 & S2 & S3).
  destruct (cl_moved w c argv rc s Hsend Hdec Hslot Htx) as (w' & v & Hd & Hs' & Hv);
    [congruence|by rewrite Hn, S2|].
  apply Hop in Hd. rewrite Hd. unfold after_reply.
  destruct (redirect_parses "MOVED" (place w s) v) as [-> ->]; [done|apply place_addr|done|].
  cbn [negb rKind rSlot rAddr]. eval_tests. cbv iota.
  destruct (UpdateSlot_total (slots r) s (place w s)) as [m ->]; [apply slot_range|]. cbn [mbind outcome_bind].
  assert (same (hNet h) (net_put w' (rewrite_addr cfg a) c)) as Hw
    by (eapply same_trans; [exact Hs|]; eapply same_trans; [exact Hs'|apply cl_put]).
  eexists. split_and!; [reflexivity|exact Hw|done|]. cbn [hHint hNet]. destruct Hw as (_ & -> & _). by rewrite S2.
Qed.

(** *** The loop *)

Definition loop_runs (n : nat) (h : hopst W) : Prop :=
  exists r' w' v, hops cfg n payload h = Ret (r', w', inr v) ∧ execution (hNet h) w' v.

Lemma runs_now n h : hop_runs h -> loop_runs (S n) h.
Proof. intros (r' & w' & v & E & Hx). exists r', w', v. split; [|done]. cbn [hops]. by rewrite E. Qed.

Lemma runs_next n h h' :
  hop cfg payload h = Ret (HMore h') -> same (hNet h) (hNet h') -> loop_runs n h' -> loop_runs (S n) h.
Proof.
  intros E (S1 & _) (r' & w' & v & E' & [e Hx]). exists r', w', v. split; [cbn [hops]; by rewrite E|].
  exists e. by rewrite <- S1.
Qed.

Lemma loop_from_owner n h a :
  hop_addr cfg h = Some a -> hAsking h = false -> rewrite_addr cfg a = rewrite_addr cfg (place (hNet h) s) ->
  loop_runs (S (S n)) h.
Proof.
  intros Ha Hk Ho. destruct (hop_at_owner h a Ha Hk Ho) as [Hr|(h' & b & E & Hs & Hb & Hk' & Hh)].
  - by apply runs_now.
  - eapply runs_next; [exact E|done|]. apply runs_now. eapply hop_serves; [|right; split; [done|exact Hb]].
    apply hop_addr_hint; [done|]. by eapply asks_addr.
Qed.

Lemma loop_runs_ok n h : hAsking h = false -> loop_runs (S (S (S n))) h.
Proof.
  intros Hk. destruct (hop_addr_Some h) as [a Ha].
  destruct (decide (rewrite_addr cfg a = rewrite_addr cfg (place (hNet h) s))) as [Ho|Ho];
    [by eapply loop_from_owner|].
  destruct (hop_elsewhere h a Ha Hk Ho) as (h' & E & Hs & Hk' & Hh).
  eapply runs_next; [exact E|done|].
  eapply loop_from_owner; [apply hop_addr_hint; [exact Hh|apply place_addr]|done|done].
Qed.

Lemma execution_shown (e : Z) (m : store) (w' : W) v : (view w', set_raw [] v) = run e rc m -> no_redirect v.
Proof. intros E. pose proof (run_reply e rc m) as [_ Hn]. rewrite <- E in Hn. by destruct v. Qed.

(** [execFrame], by frame or by arguments, from any router state and for any guess of the slot. *)
Lemma execFrame_runs r w guess frame args read :
  match frame with Some f => f | None => EncodeCommand [] args end = payload ->
  exists r' w' v, execFrame cfg r w guess frame args read false = Ret (r', w', inr v) ∧ execution w w' v.
Proof.
  intros Hp. unfold execFrame. rewrite Hp. pose proof (cc_hops cfg Hcfg).
  replace (Z.to_nat (MovedHopLimit cfg)) with (S (S (S (Z.to_nat (MovedHopLimit cfg) - 3)))) by lia.
  by apply loop_runs_ok.
Qed.
End Routing.

(** ** Properties *)


(** ** A cluster of two nodes, one slot of which is being migrated to a third *)

Definition demo_one (e : Z) (name : bytes) (args : list bytes) (old : option bytes) : option bytes * value :=
  if name ==b B "GET" then (old, get_reply old)
  else match name ==b B "SET", args with
       | true, v :: _ => (Some v, ok_value)
       | _, _ => (old, RError (B "ERR unknown command"))
       end.

#[global, refine] Instance demo_server : Server := {
  one := demo_one;
  dump v := "D"%byte :: v;
  undump p := match p with _ :: v => Some v | [] => None end }.
Proof.
  - intros e name args old. unfold demo_one. case_if; [by destruct old|].
    case_if; [destruct args|]; (split; [reflexivity|split; vm_refl]).
  - done.
  - done.
Defined.

(** [dAsk]: the connections on which ASKING was just sent; [dTxn]: the queues of the transactions;
    [dDirty]: those in which a command was refused; [dReply], [dMore]: the replies to be read. *)
Record dcluster := mkDCluster {
  dView : store; dMigrating : option Z; dAsk : gset bytes; dTxn : gmap bytes (list rcmd);
  dDirty : gset bytes; dReply : value; dMore : list value }.

Definition d_new (m : store) (mig : option Z) : dcluster := mkDCluster m mig ∅ ∅ ∅ zeroValue [].

Definition d_place (s : Z) : bytes := if s <? 8192 then B "s1:1" else B "s2:2".
Definition d_slot (rc : rcmd) : Z := match cmd_keys rc with k :: _ => key_slot demo_cfg k | [] => 0 end.
Definition d_asks (w : dcluster) (argv : list slice) : option bytes :=
  rc ← decode argv; if bool_decide (dMigrating w = Some (d_slot rc)) then Some (B "s3:3") else None.

(** SCAN: all keys of the node with the prefix in front of the star, in one reply. *)
Definition d_home (k : bytes) : bytes := d_place (SlotOf demo_cfg k).
Definition d_scan (w : dcluster) (c : bytes) (argv : list slice) : list bytes :=
  let pat := arg argv 3 in
  filter (fun k => has_prefix k (take (length pat - 1) pat) = true ∧ d_home k = c) (elements (dom (dView w))).
Definition d_scan_reply (ks : list bytes) : value :=
  Array [BulkString (BS "0"); Array (map (fun k => BulkString (Some k)) ks)].

(** What the node at [c] does with a command, outside and inside a transaction. *)
Definition d_set (w : dcluster) (ask : gset bytes) (v : value) : dcluster :=
  mkDCluster (dView w) (dMigrating w) ask (dTxn w) (dDirty w) v [].

Definition d_single (w : dcluster) (c : bytes) (argv : list slice) : dcluster :=
  match decode argv with
  | None =>
      if cmd_name argv ==b B "SCAN" then d_set w (dAsk w) (d_scan_reply (d_scan w c argv))
      else if cmd_name argv ==b B "MULTI"
      then mkDCluster (dView w) (dMigrating w) (dAsk w ∖ {[c]}) (<[c := []]> (dTxn w)) (dDirty w ∖ {[c]}) ok_value []
      else d_set w ({[c]} ∪ dAsk w) ok_value
  | Some rc =>
      let refer kind addr := d_set w (dAsk w ∖ {[c]}) (RError (redirect_msg kind (d_slot rc) addr)) in
      let '(m, v) := run 0 rc (dView w) in
      let run_it := mkDCluster m (dMigrating w) (dAsk w ∖ {[c]}) (dTxn w) (dDirty w) v [] in
      match d_asks w argv with
      | Some a => if bool_decide (c ∈ dAsk w ∧ c = a) then run_it
                  else if c ==b d_place (d_slot rc) then refer "ASK" a else refer "MOVED" (d_place (d_slot rc))
      | None => if c ==b d_place (d_slot rc) then run_it else refer "MOVED" (d_place (d_slot rc))
      end
  end.

(** A command the node does not serve is refused, and the transaction with it. *)
Definition d_queued (w : dcluster) (c : bytes) (q : list rcmd) (argv : list slice) : dcluster :=
  match decode argv with
  | Some rc =>
      if bool_decide (d_asks w argv = None) && (c ==b d_place (d_slot rc))
      then mkDCluster (dView w) (dMigrating w) (dAsk w) (<[c := q ++ [rc]]> (dTxn w)) (dDirty w)
             (SimpleString (B "QUEUED")) []
      else mkDCluster (dView w) (dMigrating w) (dAsk w) (dTxn w) ({[c]} ∪ dDirty w)
             (RError (redirect_msg "MOVED" (d_slot rc) (d_place (d_slot rc)))) []
  | None =>
      if bool_decide (c ∈ dDirty w)
      then mkDCluster (dView w) (dMigrating w) (dAsk w) (delete c (dTxn w)) (dDirty w)
             (RError (B "EXECABORT Transaction discarded because of previous errors.")) []
      else let '(m, vs) := run_seq [] q (dView w) in
           mkDCluster m (dMigrating w) (dAsk w) (delete c (dTxn w)) (dDirty w) (Array vs) []
  end.

Definition d_serve (w : dcluster) (c : bytes) (argv : list slice) : dcluster :=
  match dTxn w !! c with
  | None => d_single w c argv
  | Some q => d_queued w c q argv
  end.

(** All commands of a write, and the replies of all of them. *)
Fixpoint d_frames (fuel : nat) (s : stream) : option (list (list slice)) :=
  match s, fuel with
  | [], _ => Some []
  | _, O => None
  | _, S fuel =>
      match ReadValue s with
      | ROk v _ s => match ArrayToArgv v with inr argv => cons argv <$> d_frames fuel s | inl _ => None end
      | _ => None
      end
  end.

Definition d_replies (w : dcluster) (v : value) (vs : list value) : dcluster :=
  mkDCluster (dView w) (dMigrating w) (dAsk w) (dTxn w) (dDirty w) v vs.

Fixpoint d_serve_all (w : dcluster) (c : bytes) (argvs : list (list slice)) : dcluster :=
  match argvs with
  | [] => w
  | [argv] => d_serve w c argv
  | argv :: argvs =>
      let w1 := d_serve w c argv in
      let w2 := d_serve_all w1 c argvs in d_replies w2 (dReply w1) (dReply w2 :: dMore w2)
  end.

Definition d_write (w : dcluster) (c : bytes) (f : bytes) : dcluster * option bytes :=
  match d_frames (S (length f)) (gots f) with
  | Some argvs => (d_serve_all w c argvs, None)
  | None => (w, Some (B "protocol"))
  end.

Definition d_read (w : dcluster) : dcluster :=
  match dMore w with [] => w | v :: vs => d_replies w v vs end.

#[global] Instance demo_cluster_net : Network dcluster bytes := {
  net_ctx _ := None;
  net_get w a := (mkDCluster (dView w) (dMigrating w) (dAsk w ∖ {[a]}) (delete a (dTxn w)) (dDirty w) (dReply w) [], inr a);
  net_write := d_write;
  net_read w c := (d_read w, inr (dReply w));
  net_put w a c := w;
  net_drop w a c := w }.

Lemma d_frames_ok argvs : Forall sendable argvs -> forall fuel, (length argvs <= fuel)%nat ->
  d_frames (S fuel) (gots (concat (map (EncodeCommand []) argvs))) = Some argvs.
Proof.
  induction 1 as [|argv argvs Hs _ IH]; intros fuel Hf; [done|]. cbn [map concat]. cbn [length] in Hf.
  destruct (command_reads_back argv (gots (concat (map (EncodeCommand []) argvs))) Hs) as [E1 E2].
  destruct fuel as [|fuel]; [lia|]. specialize (IH fuel ltac:(lia)). revert IH E1. unfold gots. rewrite map_app.
  generalize (map Got (concat (map (EncodeCommand []) argvs))) as rest. intros rest IH E1.
  remember (S fuel) as f. cbn [d_frames]. destruct (map Got (EncodeCommand [] argv) ++ rest) as [|x s] eqn:E; [done|].
  by rewrite E1, E2, IH.
Qed.

Lemma d_serve_single w c argv : dMore (d_serve w c argv) = [].
Proof.
  unfold d_serve, d_single, d_queued, d_set. repeat case_match; try done; simplify_eq/=; done.
Qed.

Lemma frame_nonempty argv : sendable argv -> EncodeCommand [] argv ≠ [].
Proof. intros Hs E. destruct (command_reads_back argv [] Hs) as [H _]. by rewrite E in H. Qed.

Lemma frames_long argvs :
  Forall sendable argvs -> (length argvs <= length (concat (map (EncodeCommand []) argvs)))%nat.
Proof.
  induction 1 as [|argv argvs Hs _ IH]; [done|]. cbn [map concat length]. rewrite length_app.
  apply frame_nonempty in Hs. destruct (EncodeCommand [] argv); [done|]. cbn [length]. lia.
Qed.

Lemma d_write_all w c argvs :
  Forall sendable argvs -> d_write w c (concat (map (EncodeCommand []) argvs)) = (d_serve_all w c argvs, None).
Proof. intros Hs. unfold d_write. rewrite d_frames_ok; [done|done|]. by apply frames_long. Qed.

Lemma d_do w c argv :
  sendable argv -> net_do w c (EncodeCommand [] argv) = (d_serve w c argv, inr (dReply (d_serve w c argv))).
Proof.
  intros Hs. unfold net_do. cbn [net_write net_read demo_cluster_net].
  pose proof (d_write_all w c [argv] ltac:(by constructor)) as E. cbn [map concat] in E. rewrite app_nil_r in E.
  rewrite E. cbn [d_serve_all]. unfold d_read. by rewrite d_serve_single.
Qed.

Lemma rewrite_demo a : rewrite_addr demo_cfg a = a.
Proof. done. Qed.

Lemma d_in_slot rc s : in_slot (SlotOf demo_cfg) s (cmd_keys rc) -> d_slot rc = s.
Proof.
  intros [Hne Hf]. unfold d_slot. destruct (cmd_keys rc) as [|k ks]; [done|]. by apply Forall_inv in Hf.
Qed.

#[global, refine] Instance demo_cluster : Cluster dcluster bytes demo_cfg := {
  view := dView;
  place _ := d_place;
  asks := d_asks;
  node c := c;
  asking w c := bool_decide (c ∈ dAsk w);
  txn w c := dTxn w !! c }.
Proof.
  - intros w s. unfold d_place. by case_if.
  - intros w argv a. unfold d_asks. destruct (decode argv); [|done]. cbn. case_bool_decide; [|done]. by intros [= <-].
  - done.
  - intros w a. eexists _, a. split_and!; try done; [apply bool_decide_eq_false; cbn; set_solver|].
    cbn. by rewrite lookup_delete_eq.
  - done.
  - done.
  - intros w c Htx. eexists _, _. unfold net_cmd. rewrite d_do by (apply sendableb_ok; vm_refl).
    split; [reflexivity|]. unfold d_serve. rewrite Htx. change (d_single w c [BS "ASKING"]) with (d_set w ({[c]} ∪ dAsk w) ok_value).
    cbn. split_and!; try done. apply bool_decide_eq_true. set_solver.
  - intros w c argv rc s Hs Hd Hk Htx Hv. exists 0. eexists _, _. split; [by apply d_do|].
    apply d_in_slot in Hk. unfold d_serve, d_single. rewrite Htx, Hd, Hk. destruct (run 0 rc (dView w)) as [m v] eqn:Er.
    assert (vRaw v = []) as Hraw by (pose proof (run_reply 0 rc (dView w)) as [Hr _]; by rewrite Er in Hr).
    assert (set_raw [] v = v) as Hset by (destruct v; by cbn in Hraw; subst).
    destruct Hv as [[Ha Hn]|[Hask (a & Ha & Hn)]]; rewrite Ha; rewrite rewrite_demo in Hn; subst c.
    + rewrite bool_decide_true by done. cbn. by rewrite Hset.
    + apply bool_decide_eq_true in Hask. rewrite bool_decide_true by done. cbn. by rewrite Hset.
  - intros w c argv rc s a Hs Hd Hk Htx Ha Hf Hn. eexists _, _. split; [by apply d_do|].
    apply d_in_slot in Hk. rewrite rewrite_demo in Hn. apply bool_decide_eq_false in Hf.
    unfold d_serve, d_single. rewrite Htx, Hd, Hk, Ha. destruct (run 0 rc (dView w)).
    rewrite bool_decide_false by tauto. rewrite bool_decide_true by done. done.
  - intros w c argv rc s Hs Hd Hk Htx Hf Hn. eexists _, _. split; [by apply d_do|].
    apply d_in_slot in Hk. rewrite rewrite_demo in Hn. apply bool_decide_eq_false in Hf.
    unfold d_serve, d_single. rewrite Htx, Hd, Hk. destruct (run 0 rc (dView w)). destruct (d_asks w argv).
    + rewrite bool_decide_false by tauto. by rewrite bool_decide_false.
    + by rewrite bool_decide_false.
Defined.

Lemma demo_cluster_cfg : cluster_cfg demo_cfg.
Proof. by split. Qed.

