(* ===== verification/Databases.v ===== *)
(** * Many databases in one key space

    The specification of the proxy is [redis], a standalone server with numbered databases, one of
    them selected; [redis_step] is one command of it.  The cluster has a single key space.
    [stores] relates the two: key [k] of database [d] lives at [loc d k].  [run_loc] is the heart of
    the refinement: a data command on prefixed keys does to the cluster's key space what the command
    does to the selected database, gives the same reply and leaves all other databases alone. *)

From Stdlib Require Import ZArith Lia Strings.Byte Permutation.
From stdpp Require Import base list strings numbers option sets gmap fin_maps fin_sets.
From S2P Require Import Prelude Resp RespTheory Slot Command VirtualDB Fanout FanoutTheory Topology Router Cluster.

(** ** Where keys live *)

Definition loc (d : Z) (k : bytes) : bytes := DBPrefix d ++ k.

(** Keys of database 0 are not prefixed, so a key there that looks prefixed is another database's. *)
Definition unprefixed (d : Z) (k : bytes) : Prop := d = 0 -> HasVirtualDBPrefix k = false.

Lemma loc_0 k : loc 0 k = k.
Proof. done. Qed.

Lemma loc_inj d1 d2 k1 k2 :
  0 <= d1 < 2^63 -> 0 <= d2 < 2^63 -> unprefixed d1 k1 -> unprefixed d2 k2 ->
  loc d1 k1 = loc d2 k2 -> d1 = d2 ∧ k1 = k2.
Proof.
  intros H1 H2 U1 U2 E. destruct (decide (d1 = 0)) as [->|N1], (decide (d2 = 0)) as [->|N2].
  - done.
  - rewrite loc_0 in E. specialize (U1 eq_refl). rewrite E in U1. unfold loc in U1.
    by rewrite HasVirtualDBPrefix_prefixed in U1 by lia.
  - rewrite loc_0 in E. specialize (U2 eq_refl). rewrite <- E in U2. unfold loc in U2.
    by rewrite HasVirtualDBPrefix_prefixed in U2 by lia.
  - apply (DBPrefix_inj d1 d2); [unfold valid_db; lia..|done].
Qed.

Lemma content_loc d k : content (PrefixKey d k) = loc d (content k).
Proof. apply content_PrefixKey. Qed.

Lemma del_ref_lookup ks m k : del_ref ks m !! k = if bool_decide (k ∈ key_set ks) then None else m !! k.
Proof.
  unfold del_ref. case_bool_decide as E.
  - apply map_lookup_filter_None. right. intros v _. cbn. tauto.
  - destruct (m !! k) as [v|] eqn:Hk; [by apply map_lookup_filter_Some|].
    apply map_lookup_filter_None. by left.
Qed.

Lemma size_map_inj (f : bytes -> bytes) (X : gset bytes) :
  (forall x y, f x = f y -> x = y) -> size (set_map (D := gset bytes) f X) = size X.
Proof.
  intros Hf. induction X as [|x X Hx IH] using set_ind_L; [by rewrite set_map_empty, !size_empty|].
  rewrite set_map_union_L, set_map_singleton_L, !size_union, !size_singleton, IH; [done|set_solver|].
  apply disjoint_singleton_l. intros (y & E & Hy)%elem_of_map. by apply Hf in E as ->.
Qed.

(** ** The relation *)

Definition upd (d : Z) (m : store) (data : Z -> store) : Z -> store := fun d' => if d' =? d then m else data d'.

Definition stores (lim : Z) (data : Z -> store) (m : store) : Prop :=
  forall d k, 0 <= d < lim -> unprefixed d k -> data d !! k = m !! loc d k.

Section Stores.
Context (lim : Z) (Hlim : lim <= 2^63).
Implicit Types (data : Z -> store) (m : store).

Lemma stores_ext data data' m :
  (forall d, data' d = data d) -> stores lim data m -> stores lim data' m.
Proof. intros E H d k Hd Hk. rewrite E. by apply H. Qed.

Lemma upd_eq d m data : upd d m data d = m.
Proof. unfold upd. by rewrite Z.eqb_refl. Qed.
Lemma upd_ne d d' m data : d' ≠ d -> upd d m data d' = data d'.
Proof. intros H. unfold upd. by rewrite (proj2 (Z.eqb_neq _ _)). Qed.
Lemma upd_same d data : forall d', upd d (data d) data d' = data d'.
Proof. intros d'. unfold upd. destruct (d' =? d) eqn:E; bool_simp; by subst. Qed.

(** A change at one key. *)
Lemma stores_alter data m d k f :
  0 <= d < lim -> unprefixed d k -> stores lim data m ->
  stores lim (upd d (partial_alter f k (data d)) data) (partial_alter f (loc d k) m).
Proof.
  intros Hd Hk H d' k' Hd' Hk'. destruct (decide (d' = d)) as [->|Hne].
  - rewrite upd_eq. destruct (decide (k' = k)) as [->|Hnk].
    + rewrite !lookup_partial_alter_eq. f_equal. by apply H.
    + rewrite !lookup_partial_alter_ne; [by apply H| |done].
      intros E. apply loc_inj in E as [_ E]; [congruence|lia|lia|done|done].
  - rewrite upd_ne by done. rewrite lookup_partial_alter_ne; [by apply H|].
    intros E. apply loc_inj in E as [E _]; [congruence|lia|lia|done|done].
Qed.

Lemma stores_insert data m d k v :
  0 <= d < lim -> unprefixed d k -> stores lim data m ->
  stores lim (upd d (<[k := v]> (data d)) data) (<[loc d k := v]> m).
Proof. intros Hd Hk H. by apply (stores_alter data m d k (fun _ => Some v)). Qed.

Lemma stores_delete data m d k :
  0 <= d < lim -> unprefixed d k -> stores lim data m ->
  stores lim (upd d (delete k (data d)) data) (delete (loc d k) m).
Proof. intros Hd Hk H. by apply (stores_alter data m d k (fun _ => None)). Qed.

(** ** Commands on one database *)

Context (d : Z) (Hd : 0 <= d < lim).
Local Abbreviation P := (PrefixKey d).
Definition plain_keys (ks : list slice) : Prop := Forall (fun k => unprefixed d (content k)) ks.

Lemma plain_elem ks k : plain_keys ks -> k ∈ ks -> unprefixed d (content k).
Proof. unfold plain_keys. rewrite list.Forall_forall. auto. Qed.

Lemma stores_lookup data m k :
  stores lim data m -> unprefixed d (content k) -> m !! content (P k) = data d !! content k.
Proof. intros H Hk. rewrite content_loc. symmetry. by apply H. Qed.

Lemma mget_loc data m ks :
  stores lim data m -> plain_keys ks -> mget_ref (map P ks) m = mget_ref ks (data d).
Proof.
  intros H Hk. unfold mget_ref. rewrite map_map. apply map_ext_in. intros k Hin%list_elem_of_In.
  rewrite (stores_lookup data) by (done || by eapply plain_elem). done.
Qed.

Lemma exists_loc data m ks :
  stores lim data m -> plain_keys ks -> exists_count (map P ks) m = exists_count ks (data d).
Proof.
  intros H. unfold exists_count. induction 1 as [|k ks Hk _ IH]; [done|]. cbn [map].
  rewrite !filter_cons, (stores_lookup data) by done. case_decide; cbn; by rewrite IH.
Qed.

Lemma mset_loc kvs : forall data m,
  stores lim data m -> plain_keys (map fst kvs) ->
  stores lim (upd d (mset_ref kvs (data d)) data) (mset_ref (map (fun kv => (P kv.1, kv.2)) kvs) m).
Proof.
  induction kvs as [|[k v] kvs IH]; intros data m H Hk; cbn [map] in *.
  - eapply stores_ext; [apply upd_same|done].
  - apply list.Forall_cons in Hk as [Hk Hks]. cbn [mset_ref fold_left fst snd] in *. rewrite content_loc.
    pose proof (IH _ _ (stores_insert data m d (content k) (content v) Hd Hk H) Hks) as G.
    eapply stores_ext; [|exact G]. intros d'. unfold upd. rewrite Z.eqb_refl. by case_if.
Qed.

Lemma elem_of_key_set_loc ks d' k :
  0 <= d' < lim -> unprefixed d' k -> plain_keys ks ->
  loc d' k ∈ key_set (map P ks) <-> d' = d ∧ k ∈ key_set ks.
Proof.
  intros Hd' Hk Hp. rewrite !elem_of_key_set. change (map P ks) with (P <$> ks).
  setoid_rewrite list_elem_of_fmap. split.
  - intros (a & (b & -> & Hb) & E). rewrite content_loc in E.
    apply loc_inj in E as [<- <-]; [|lia|lia|by eapply plain_elem|done].
    split; [done|eauto].
  - intros [-> (a & Ha & <-)]. exists (P a). rewrite content_loc. eauto.
Qed.

Lemma del_loc data m ks :
  stores lim data m -> plain_keys ks ->
  stores lim (upd d (del_ref ks (data d)) data) (del_ref (map P ks) m).
Proof.
  intros H Hp d' k Hd' Hk. rewrite del_ref_lookup.
  rewrite (bool_decide_ext _ _ (elem_of_key_set_loc ks d' k Hd' Hk Hp)).
  destruct (decide (d' = d)) as [->|Hne].
  - rewrite upd_eq, del_ref_lookup. rewrite (H d k Hd' Hk).
    do 2 case_bool_decide; tauto.
  - rewrite upd_ne by done. rewrite bool_decide_false by tauto. by apply H.
Qed.

Lemma del_count_loc data m ks :
  stores lim data m -> plain_keys ks -> del_count (map P ks) m = del_count ks (data d).
Proof.
  intros H Hp. unfold del_count.
  assert (dom m ∩ key_set (map P ks) = set_map (D := gset bytes) (loc d) (dom (data d) ∩ key_set ks)) as ->.
  { apply set_eq. intros x. rewrite elem_of_map, elem_of_intersection, elem_of_dom. split.
    - intros [Hx (a & Ha & <-)%elem_of_key_set]. apply list_elem_of_fmap in Ha as (b & -> & Hb).
      rewrite content_loc in *. exists (content b). split; [done|].
      rewrite elem_of_intersection, elem_of_dom, (H d) by (done || by eapply plain_elem).
      split; [done|]. apply elem_of_key_set. eauto.
    - intros (k & -> & [Hk Hin]%elem_of_intersection). apply elem_of_dom in Hk.
      apply elem_of_key_set in Hin as (b & Hb & <-). rewrite (H d) in Hk by (done || by eapply plain_elem).
      split; [done|]. apply elem_of_key_set. exists (P b).
      rewrite content_loc. split; [|done]. change (map P ks) with (P <$> ks). by apply list_elem_of_fmap_2. }
  apply size_map_inj. intros x y E. by apply (inj (app (DBPrefix d))) in E.
Qed.

(** ** Data commands *)

Context `{!Server}.

(** The commands a client sends as they are; the others are what MOVE and COPY send. *)
Definition client_cmd (c : rcmd) : bool :=
  match c with COne _ _ _ | CMget _ | CMset _ | CDel _ | CExists _ => true | _ => false end.

Definition on_keys (f : slice -> slice) (c : rcmd) : rcmd :=
  match c with
  | COne name k args => COne name (f k) args
  | CMget ks => CMget (map f ks)
  | CMset kvs => CMset (map (fun kv => (f kv.1, kv.2)) kvs)
  | CDel ks => CDel (map f ks)
  | CExists ks => CExists (map f ks)
  | CDump k => CDump (f k)
  | CRestore k p replace => CRestore (f k) p replace
  | CRename a b => CRename (f a) (f b)
  | CCopy a b replace => CCopy (f a) (f b) replace
  end.

Lemma run_loc e c data m :
  client_cmd c = true -> plain_keys (cmd_keys c) -> stores lim data m ->
  (run e (on_keys P c) m).2 = (run e c (data d)).2
  ∧ stores lim (upd d (run e c (data d)).1 data) (run e (on_keys P c) m).1.
Proof.
  intros Hc Hk Hst. destruct c as [name k args|ks|kvs|ks|ks| | | |]; try done; cbn [on_keys run cmd_keys] in *.
  - apply list.Forall_cons in Hk as [Hk _]. rewrite (stores_lookup data m k Hst Hk), content_loc.
    destruct (one e name (map content args) (data d !! content k)) as [v r].
    split; [done|]. by apply stores_alter.
  - rewrite (mget_loc data) by done. split; [done|]. eapply stores_ext; [apply upd_same|done].
  - split; [done|]. by apply mset_loc.
  - rewrite (del_count_loc data) by done. split; [done|]. by apply del_loc.
  - rewrite (exists_loc data) by done. split; [done|]. eapply stores_ext; [apply upd_same|done].
Qed.

Lemma cmd_keys_on f c : client_cmd c = true -> cmd_keys (on_keys f c) = map f (cmd_keys c).
Proof. intros Hc. destruct c; try done. cbn. by rewrite !map_map. Qed.
End Stores.

Lemma on_keys_id f c : (forall k, f k = k) -> on_keys f c = c.
Proof.
  intros Hf. assert (forall l, map f l = l) as Hl by (intros l; rewrite <- (map_id l) at 2; by apply map_ext).
  destruct c; cbn; rewrite ?Hf, ?Hl; try done. f_equal. rewrite <- (map_id kvs) at 2. apply map_ext.
  intros [k v]. by rewrite Hf.
Qed.

(** ** The specification: a server with databases *)

Record redis := mkRedis { rDB : Z; rData : Z -> store }.

Section Spec.
Context `{!Server} (lim : Z).

Definition db_index (b : bytes) : option Z :=
  n ← parse_int b; if (0 <=? n) && (n <? lim) then Some n else None.

(** The options of COPY: the database and REPLACE. *)
Fixpoint copy_target (opts : list slice) (d : Z) (replace : bool) : option (Z * bool) :=
  match opts with
  | [] => Some (d, replace)
  | o :: rest =>
      if EqualFoldASCII (content o) (B "REPLACE") then copy_target rest d true
      else if EqualFoldASCII (content o) (B "DB") then
        match rest with
        | n :: rest => i ← db_index (content n); copy_target rest i replace
        | [] => None
        end
      else None
  end.

Definition write_key (d : Z) (k v : bytes) (data : Z -> store) : Z -> store :=
  upd d (<[k := v]> (data d)) data.
Definition delete_key (d : Z) (k : bytes) (data : Z -> store) : Z -> store :=
  upd d (delete k (data d)) data.

(** One command: the state after it and its reply. *)
Inductive redis_step (s : redis) (argv : list slice) : redis -> value -> Prop :=
| RSelect a0 n i :
    argv = [a0; n] -> cmd_name argv = B "SELECT" -> db_index (content n) = Some i ->
    redis_step s argv (mkRedis i (rData s)) ok_value
| RSelectBad a0 n v :
    argv = [a0; n] -> cmd_name argv = B "SELECT" -> db_index (content n) = None -> IsError v = true ->
    redis_step s argv s v
| RDataCmd c e :
    decode argv = Some c -> client_cmd c = true ->
    redis_step s argv (mkRedis (rDB s) (upd (rDB s) (run e c (rData s (rDB s))).1 (rData s)))
      (run e c (rData s (rDB s))).2
| RMove a0 k n i v :
    argv = [a0; k; n] -> cmd_name argv = B "MOVE" -> db_index (content n) = Some i -> i ≠ rDB s ->
    rData s (rDB s) !! content k = Some v -> rData s i !! content k = None ->
    redis_step s argv (mkRedis (rDB s) (delete_key (rDB s) (content k) (write_key i (content k) v (rData s))))
      (Integer 1)
| RMoveNot a0 k n i :
    argv = [a0; k; n] -> cmd_name argv = B "MOVE" -> db_index (content n) = Some i -> i ≠ rDB s ->
    rData s (rDB s) !! content k = None ∨ is_Some (rData s i !! content k) ->
    redis_step s argv s (Integer 0)
(* A standalone server answers 0 here; the proxy answers an error when both keys share a slot. *)
| RMoveMissing a0 k n i v :
    argv = [a0; k; n] -> cmd_name argv = B "MOVE" -> db_index (content n) = Some i -> i ≠ rDB s ->
    rData s (rDB s) !! content k = None -> IsError v = true ->
    redis_step s argv s v
| RCopy a0 src dst opts i replace v :
    argv = a0 :: src :: dst :: opts -> cmd_name argv = B "COPY" ->
    copy_target opts (rDB s) false = Some (i, replace) -> (i, content dst) ≠ (rDB s, content src) ->
    rData s (rDB s) !! content src = Some v -> replace = true ∨ rData s i !! content dst = None ->
    redis_step s argv (mkRedis (rDB s) (write_key i (content dst) v (rData s))) (Integer 1)
| RCopyNot a0 src dst opts i replace :
    argv = a0 :: src :: dst :: opts -> cmd_name argv = B "COPY" ->
    copy_target opts (rDB s) false = Some (i, replace) -> (i, content dst) ≠ (rDB s, content src) ->
    rData s (rDB s) !! content src = None ∨ (replace = false ∧ is_Some (rData s i !! content dst)) ->
    redis_step s argv s (Integer 0).
End Spec.
