(* ===== verification/Reorder.v ===== *)
(** * Reordering commands on different slots

    The commands of a pipelined batch reach the nodes in another order than the client sent them.
    Commands of one slot keep their order, and commands of different slots have no key in common.
    [play_sort] shows that such an order gives the same replies and the same key space as the order of
    the batch. *)

From Stdlib Require Import ZArith Lia Strings.Byte Permutation.
From stdpp Require Import base list strings numbers option sets gmap fin_maps fin_sets.
From S2P Require Import Prelude Resp RespTheory Slot Command VirtualDB Fanout FanoutTheory Topology Router Cluster Databases.

(** ** What a command depends on *)

Definition agree_on (ks : list slice) (m1 m2 : store) : Prop :=
  forall k, k ∈ key_set ks -> m1 !! k = m2 !! k.

Lemma agree_on_sym ks m1 m2 : agree_on ks m1 m2 -> agree_on ks m2 m1.
Proof. intros H k Hk. symmetry. by apply H. Qed.

Lemma agree_elem ks m1 m2 k : agree_on ks m1 m2 -> k ∈ ks -> m1 !! content k = m2 !! content k.
Proof. intros H Hk. apply H, elem_of_key_set. by exists k. Qed.

Lemma key_set_cons k ks : key_set (k :: ks) = {[content k]} ∪ key_set ks.
Proof. done. Qed.

Lemma elem_of_key_set_one x k : x ∈ key_set [k] <-> x = content k.
Proof. rewrite key_set_cons, elem_of_union, elem_of_singleton. split; [by intros [?|?]|by left]. Qed.

Lemma mset_ref_at kvs : forall m k,
  mset_ref kvs m !! k = if bool_decide (k ∈ key_set (map fst kvs)) then mset_ref kvs ∅ !! k else m !! k.
Proof.
  induction kvs as [|[k0 v0] kvs IH]; intros m k; [by rewrite bool_decide_false|].
  cbn [mset_ref fold_left fst snd map] in *. rewrite IH, (IH (<[_ := _]> ∅)), key_set_cons.
  destruct (decide (k ∈ key_set (map fst kvs))) as [E|E].
  - rewrite !(bool_decide_true (k ∈ key_set _)), bool_decide_true; [done|by apply elem_of_union_r|done].
  - rewrite !(bool_decide_false (k ∈ key_set _)) by done. case_bool_decide as E2.
    + apply elem_of_union in E2 as [->%elem_of_singleton|?]; [by rewrite !lookup_insert_eq|done].
    + rewrite lookup_insert_ne; [done|]. intros <-. apply E2, elem_of_union_l. by apply elem_of_singleton.
Qed.

Lemma exists_count_agree ks m1 m2 : agree_on ks m1 m2 -> exists_count ks m1 = exists_count ks m2.
Proof.
  unfold exists_count. intros Ha. assert (Forall (fun k => m1 !! content k = m2 !! content k) ks) as Hf
    by (apply list.Forall_forall; intros k; by apply agree_elem). clear Ha.
  induction Hf as [|k ks Hk _ IH]; [done|]. rewrite !filter_cons, Hk. case_decide; cbn; by rewrite IH.
Qed.

Section Frame.
Context `{!Server}.

(** The reply, and what is left at the keys, depend on the keys only. *)
Lemma run_local e c m1 m2 :
  client_cmd c = true -> agree_on (cmd_keys c) m1 m2 ->
  (run e c m1).2 = (run e c m2).2 ∧ agree_on (cmd_keys c) (run e c m1).1 (run e c m2).1.
Proof.
  intros Hc Ha. destruct c as [name k args|ks|kvs|ks|ks| | | |]; try done; cbn [run cmd_keys] in *.
  - rewrite (agree_elem _ _ _ k Ha) by (by left). destruct (one _ _ _ _) as [v r]. split; [done|].
    intros x ->%elem_of_key_set_one. cbn [fst]. by rewrite !lookup_partial_alter_eq.
  - split; [|done]. cbn. f_equal. apply map_ext_in. intros k Hk%list_elem_of_In. by rewrite (agree_elem _ _ _ k Ha).
  - split; [done|]. intros k Hk. cbn [fst]. by rewrite (mset_ref_at kvs m1), (mset_ref_at kvs m2), bool_decide_true.
  - assert (dom m1 ∩ key_set ks = dom m2 ∩ key_set ks) as Hd.
    { apply set_eq. intros x. rewrite !elem_of_intersection, !elem_of_dom. split; intros [H1 H2]; (split; [|done]).
      - by rewrite <- (Ha x).
      - by rewrite (Ha x). }
    unfold del_count. rewrite Hd. split; [done|]. intros k Hk. cbn [fst]. by rewrite !del_ref_lookup, bool_decide_true.
  - split; [|done]. cbn [snd]. do 2 f_equal. by apply exists_count_agree.
Qed.

(** Other keys are not touched. *)
Lemma run_outside e c m k : client_cmd c = true -> k ∉ key_set (cmd_keys c) -> (run e c m).1 !! k = m !! k.
Proof.
  intros Hc Hk. destruct c as [name k0 args|ks|kvs|ks|ks| | | |]; try done; cbn [run cmd_keys] in *.
  - destruct (one _ _ _ _) as [v r]. cbn [fst]. rewrite lookup_partial_alter_ne; [done|]. intros <-. by apply Hk, elem_of_key_set_one.
  - cbn [fst]. by rewrite mset_ref_at, bool_decide_false.
  - cbn [fst]. by rewrite del_ref_lookup, bool_decide_false.
Qed.

Definition disjoint_cmds (c1 c2 : rcmd) : Prop := key_set (cmd_keys c1) ## key_set (cmd_keys c2).

(** Two commands without a common key commute. *)
Lemma run_swap e1 c1 e2 c2 m :
  client_cmd c1 = true -> client_cmd c2 = true -> disjoint_cmds c1 c2 ->
  (run e2 c2 (run e1 c1 m).1).1 = (run e1 c1 (run e2 c2 m).1).1
  ∧ (run e2 c2 (run e1 c1 m).1).2 = (run e2 c2 m).2 ∧ (run e1 c1 (run e2 c2 m).1).2 = (run e1 c1 m).2.
Proof.
  intros H1 H2 Hd. unfold disjoint_cmds in Hd.
  assert (agree_on (cmd_keys c2) (run e1 c1 m).1 m) as A2 by (intros k Hk; apply run_outside; [done|set_solver]).
  assert (agree_on (cmd_keys c1) (run e2 c2 m).1 m) as A1 by (intros k Hk; apply run_outside; [done|set_solver]).
  destruct (run_local e2 c2 _ _ H2 A2) as [R2 S2]. destruct (run_local e1 c1 _ _ H1 A1) as [R1 S1].
  split_and!; [|done|done]. apply map_eq. intros k.
  destruct (decide (k ∈ key_set (cmd_keys c2))) as [K2|K2].
  - rewrite S2, (run_outside e1 c1) by (done || set_solver). done.
  - rewrite (run_outside e2 c2) by done. destruct (decide (k ∈ key_set (cmd_keys c1))) as [K1|K1].
    + symmetry. by apply S1.
    + by rewrite !(run_outside e1 c1), (run_outside e2 c2) by done.
Qed.
End Frame.

(** ** Orders of execution *)

Section Orders.
Context `{!Server} {A : Type} (slot : A -> Z) (command : A -> rcmd).

(** Executing the commands of [l], each with its time and choices, from [m]. *)
Fixpoint play (l : list (Z * A)) (m : store) : store * list (A * value) :=
  match l with
  | [] => (m, [])
  | (e, a) :: l =>
      let '(m, v) := run e (command a) m in
      let '(m, vs) := play l m in (m, (a, v) :: vs)
  end.

Lemma play_cons e a l m :
  play ((e, a) :: l) m
  = ((play l (run e (command a) m).1).1, (a, (run e (command a) m).2) :: (play l (run e (command a) m).1).2).
Proof. cbn [play]. destruct (run e (command a) m) as [m1 v]. cbn [fst snd]. by destruct (play l m1). Qed.

Lemma play_app l1 l2 m :
  play (l1 ++ l2) m = ((play l2 (play l1 m).1).1, (play l1 m).2 ++ (play l2 (play l1 m).1).2).
Proof.
  revert m. induction l1 as [|[e a] l1 IH]; intros m; cbn [app].
  - cbn. by destruct (play l2 m).
  - rewrite !play_cons, IH. done.
Qed.

Lemma play_fst l m : map fst (play l m).2 = map snd l.
Proof. revert m. induction l as [|[e a] l IH]; intros m; [done|]. rewrite play_cons. cbn [snd map fst]. by rewrite IH. Qed.

Definition of_slot (s : Z) (l : list A) : list A := filter (fun a => slot a = s) l.

Definition independent (l : list A) : Prop :=
  Forall (fun a => client_cmd (command a) = true) l
  ∧ forall a b, a ∈ l -> b ∈ l -> slot a ≠ slot b -> disjoint_cmds (command a) (command b).

(** Same key space, same replies. *)
Definition same_play (p1 p2 : store * list (A * value)) : Prop := p1.1 = p2.1 ∧ p1.2 ≡ₚ p2.2.

#[local] Instance same_play_equiv : Equivalence same_play.
Proof.
  split.
  - intros p. by split.
  - intros p q [H1 H2]. by split.
  - intros p q r [H1 H2] [H3 H4]. split; [congruence|]. by rewrite H2.
Qed.

Lemma same_play_cons e a l1 l2 m :
  same_play (play l1 (run e (command a) m).1) (play l2 (run e (command a) m).1) ->
  same_play (play ((e, a) :: l1) m) (play ((e, a) :: l2) m).
Proof. intros [H1 H2]. rewrite !play_cons. split; cbn [fst snd]; [done|]. by rewrite H2. Qed.

Lemma play_swap e1 a1 e2 a2 l m :
  client_cmd (command a1) = true -> client_cmd (command a2) = true -> disjoint_cmds (command a1) (command a2) ->
  same_play (play ((e1, a1) :: (e2, a2) :: l) m) (play ((e2, a2) :: (e1, a1) :: l) m).
Proof.
  intros H1 H2 Hd. destruct (run_swap e1 (command a1) e2 (command a2) m H1 H2 Hd) as (Hm & R2 & R1).
  rewrite !play_cons. split; cbn [fst snd]; rewrite Hm; [done|]. rewrite R1, R2. constructor.
Qed.

(** A command moves in front of commands of other slots. *)
Lemma play_front l1 e a l2 m :
  independent (map snd l1 ++ [a]) -> Forall (fun b => slot b ≠ slot a) (map snd l1) ->
  same_play (play (l1 ++ (e, a) :: l2) m) (play ((e, a) :: l1 ++ l2) m).
Proof.
  intros [Hc Hd] Hs. revert m. induction l1 as [|[e1 a1] l1 IH]; intros m; [done|]. cbn [app map snd] in *.
  apply list.Forall_cons in Hc as [H1 Hc]. apply list.Forall_cons in Hs as [Hs1 Hs].
  etransitivity; [apply same_play_cons, IH; [done| |done]|].
  { intros x y Hx Hy. apply Hd; by right. }
  apply play_swap; [done| |].
  - apply Forall_app in Hc as [_ Hc]. by apply Forall_inv in Hc.
  - apply Hd; [by left| |done]. right. apply elem_of_app. right. by left.
Qed.

Lemma of_slot_elem l1 l2 a : (forall s, of_slot s l1 = of_slot s l2) -> a ∈ l1 -> a ∈ l2.
Proof.
  intros Hs Ha. assert (a ∈ of_slot (slot a) l2) as [_ ?]%list_elem_of_filter; [|done].
  rewrite <- Hs. by apply list_elem_of_filter.
Qed.

Lemma independent_sub l1 l2 : independent l2 -> (forall a, a ∈ l1 -> a ∈ l2) -> independent l1.
Proof.
  intros [Hc Hd] Hs. split.
  - apply list.Forall_forall. intros a Ha. rewrite list.Forall_forall in Hc. auto.
  - intros a b Ha Hb. apply Hd; auto.
Qed.

Lemma first_of_slot (a : A) (l : list (Z * A)) r :
  of_slot (slot a) (map snd l) = a :: r ->
  exists (l1 : list (Z * A)) e l2, l = l1 ++ (e, a) :: l2 ∧ Forall (fun b => slot b ≠ slot a) (map snd l1).
Proof.
  induction l as [|[e b] l IH]; [done|]. cbn [map snd]. unfold of_slot in *. rewrite filter_cons. case_decide as E.
  - intros [= -> _]. exists [], e, l. by split.
  - intros (l1 & e1 & l2 & -> & Hf)%IH. exists ((e, b) :: l1), e1, l2. split; [done|]. by constructor.
Qed.

(** An order that keeps the order of every slot is as good as the order [r]. *)
Lemma play_sort r : forall l m,
  independent r -> (forall s, of_slot s (map snd l) = of_slot s r) ->
  exists es, length es = length r ∧ same_play (play l m) (play (zip es r) m).
Proof.
  induction r as [|a r IH]; intros l m Hi Hs.
  { exists []. split; [done|]. destruct l as [|[e b] l]; [done|]. specialize (Hs (slot b)). unfold of_slot in Hs.
    cbn [map snd] in Hs. by rewrite filter_cons, decide_True in Hs. }
  pose proof (Hs (slot a)) as Ha. unfold of_slot at 2 in Ha. rewrite filter_cons, decide_True in Ha by done.
  destruct (first_of_slot _ _ _ Ha) as (l1 & e & l2 & -> & Hf).
  assert (forall x, x ∈ map snd (l1 ++ (e, a) :: l2) -> x ∈ a :: r) as Hin.
  { intros x. by apply of_slot_elem. }
  rewrite map_app in *. cbn [map snd] in *.
  destruct (IH (l1 ++ l2) (run e (command a) m).1) as (es & Hl & Hp).
  - apply (independent_sub _ _ Hi). intros x Hx. by right.
  - intros s. specialize (Hs s). unfold of_slot in *. rewrite map_app, filter_app in *. rewrite !filter_cons in Hs.
    case_decide as E; [|done]. subst s.
    assert (filter (fun b => slot b = slot a) (map snd l1) = []) as Hnil.
    { clear -Hf. induction Hf as [|b l Hb _ IH]; [done|]. by rewrite filter_cons, decide_False. }
    rewrite Hnil in *. cbn [app] in *. by injection Hs.
  - exists (e :: es). split; [cbn; by rewrite Hl|]. cbn [zip_with zip]. etransitivity; [apply play_front|].
    + apply (independent_sub _ _ Hi). intros x Hx. apply Hin. apply elem_of_app in Hx as [Hx|Hx]; apply elem_of_app;
        [by left|right]. apply list_elem_of_singleton in Hx as ->. by left.
    + done.
    + by apply same_play_cons.
Qed.

(** In the order of [r], a run of the commands one after the other. *)
Lemma play_seq r : forall es m, length es = length r ->
  (play (zip es r) m).1 = (run_seq es (map command r) m).1
  ∧ (play (zip es r) m).2 = zip r (run_seq es (map command r) m).2.
Proof.
  induction r as [|a r IH]; intros [|e es] m Hl; try done. injection Hl as Hl. cbn [zip_with zip map run_seq head tail default].
  rewrite play_cons. cbn [from_option id]. destruct (run e (command a) m) as [m1 v]. cbn [fst snd].
  destruct (IH es m1 Hl) as [H1 H2]. destruct (run_seq es (map command r) m1) as [m2 vs]. cbn [fst snd zip_with zip] in *.
  by rewrite H1, H2.
Qed.
End Orders.

(** ** Grouping by address *)

Section Grouping.
Context {A : Type} (slot : A -> Z) (key : A -> bytes) (home : Z -> bytes).

Lemma of_slot_key l k s :
  Forall (fun a => key a = home (slot a)) l ->
  of_slot slot s (filter (fun a => key a = k) l) = if decide (home s = k) then of_slot slot s l else [].
Proof.
  unfold of_slot. induction 1 as [|a l Ha _ IH]; [by case_decide|]. rewrite !filter_cons.
  destruct (decide (slot a = s)) as [Hs|Hs]; (destruct (decide (key a = k)) as [Hk|Hk]; [rewrite filter_cons|]).
  - rewrite decide_True by done. rewrite IH. assert (home s = k) by congruence. by rewrite !decide_True.
  - rewrite IH. assert (home s ≠ k) by congruence. by rewrite !decide_False.
  - by rewrite decide_False.
  - done.
Qed.

Lemma of_slot_groups l ks s :
  Forall (fun a => key a = home (slot a)) l -> NoDup ks ->
  of_slot slot s (concat (map (fun k => filter (fun a => key a = k) l) ks))
  = if decide (home s ∈ ks) then of_slot slot s l else [].
Proof.
  intros Hf. induction 1 as [|k ks Hk _ IH]; [done|]. cbn [map concat]. pose proof (of_slot_key l k s Hf) as E.
  unfold of_slot in *. rewrite filter_app, IH, E. destruct (decide (home s = k)) as [<-|Hne].
  - rewrite decide_False by done. rewrite app_nil_r, decide_True by (by left). done.
  - cbn [app]. apply decide_ext. rewrite elem_of_cons. tauto.
Qed.

(** When the slot determines the group, grouping keeps the order of every slot. *)
Lemma grouped_slot l ks s :
  Forall (fun a => key a = home (slot a)) l -> NoDup ks -> (forall a, a ∈ l -> key a ∈ ks) ->
  of_slot slot s (concat (map (fun k => filter (fun a => key a = k) l) ks)) = of_slot slot s l.
Proof.
  intros Hf Hn Hk. rewrite of_slot_groups by done. case_decide as Hs; [done|].
  destruct (of_slot slot s l) as [|a r] eqn:E; [done|]. exfalso. apply Hs.
  assert (a ∈ of_slot slot s l) as [<- Ha]%list_elem_of_filter by (rewrite E; by left).
  rewrite list.Forall_forall in Hf. rewrite <- (Hf a Ha). by apply Hk.
Qed.
End Grouping.
