(* ===== verification/Backend.v ===== *)
(** * internal/pool/pool.go: backend connections and the pools behind the router

    [Pool] models the pool under concurrency and leaves dialing to the environment.  This file has
    the rest of pool.go: dialing with TLS, AUTH and READONLY, reading and writing on a connection,
    and [Get], [Put], [Drop], [Close] and [New] as functions, run by one goroutine at a time, over the
    sockets of the operating system (class [Transport]).

    The two models are related: every sequence of these functions is a run of the step relation of
    [Pool] ([pool_refines]).  A set of pools, one per address, implements the interface the router
    and the sessions are verified against ([pools_network], [pools_laws]).

    A [Get] that finds the pool full waits for another goroutine or for the end of its context; here
    nobody else runs, so the context ends.  Pools are created at the first [Get] of their address. *)

From Stdlib Require Import ZArith Lia Strings.Byte Permutation.
From stdpp Require Import base list strings numbers option sets gmap relations.
From S2P Require Import Prelude Resp Pool Router.

(** ** Sockets *)

Class Transport (T H : Type) := {
  tr_ctx : T -> option bytes;                    (* ctx.Err() *)
  tr_expire : T -> T * bytes;                    (* wait for ctx.Done(); ctx.Err() *)
  tr_dial : T -> bytes -> T * (bytes + H);       (* net.Dialer.DialContext *)
  tr_handshake : T -> H -> T * option bytes;     (* tls.Conn.HandshakeContext *)
  tr_write : T -> H -> bytes -> T * option bytes;(* net.Conn.Write before the deadline *)
  tr_read : T -> H -> T * (bytes + value);       (* resp.Reader.ReadValue before the deadline *)
  tr_close : T -> H -> T }.                      (* net.Conn.Close *)

(** The sockets that are open, and the frames written to each. *)
Class TransportLaws (T H : Type) `{!Transport T H} := {
  opened : T -> list H;
  log : T -> H -> list bytes;
  expire_keeps t t' e : tr_expire t = (t', e) -> opened t' = opened t ∧ log t' = log t;
  dial_fails t a t' e : tr_dial t a = (t', inl e) -> opened t' = opened t ∧ log t' = log t;
  dial_opens t a t' h : tr_dial t a = (t', inr h) ->
    opened t' ≡ₚ h :: opened t ∧ h ∉ opened t ∧ log t' h = [] ∧ forall h', h' ≠ h -> log t' h' = log t h';
  handshake_keeps t h t' e : tr_handshake t h = (t', e) -> opened t' = opened t ∧ log t' = log t;
  write_logs t h f t' e : tr_write t h f = (t', e) ->
    opened t' = opened t ∧ log t' h = log t h ++ [f] ∧ forall h', h' ≠ h -> log t' h' = log t h';
  tread_keeps t h t' r : tr_read t h = (t', r) -> opened t' = opened t ∧ log t' = log t;
  close_closes t h l : opened t ≡ₚ h :: l -> opened (tr_close t h) ≡ₚ l ∧ log (tr_close t h) = log t }.

(** [newPool] of the router fixes these; [MinIdle] and [MaxSize] come from the configuration. *)
Record Options := mkOptions {
  oMinIdle : Z; oMaxSize : Z; oTLS : bool; oUsername : bytes; oPassword : bytes; oReadOnly : bool }.

Section Backend.
Context {T H : Type} `{!Transport T H}.

(** ** Connections *)

Definition WriteRaw (t : T) (h : H) (frame : bytes) : T * option bytes := tr_write t h frame.

Definition DoRaw (t : T) (h : H) (frame : bytes) : T * (bytes + value) :=
  let '(t, err) := tr_write t h frame in
  match err with
  | Some e => (t, inl e)
  | None => tr_read t h
  end.

Definition Do (t : T) (h : H) (argv : list slice) : T * (bytes + value) := DoRaw t h (EncodeCommand [] argv).

Definition conn_roundTrip (t : T) (h : H) (argv : list slice) : T * option bytes :=
  let '(t, res) := Do t h argv in
  (t, match res with
      | inl e => Some e
      | inr v => if IsError v then Some (B "backend: " ++ content (vStr v)) else None
      end).

Definition auth_argv (user pass : bytes) : list slice :=
  if negb (user ==b []) then [BS "AUTH"; Some user; Some pass] else [BS "AUTH"; Some pass].

Definition auth (t : T) (h : H) (user pass : bytes) : T * option bytes :=
  conn_roundTrip t h (auth_argv user pass).

(** The three steps of [dial] after the connection is open; the connection is closed when one of them
    fails. *)
Definition guarded (step : T -> H -> T * option bytes) (need : bool) (h : H) (t : T) : T * option bytes :=
  if need then
    let '(t, err) := step t h in
    match err with Some e => (tr_close t h, Some e) | None => (t, None) end
  else (t, None).

Definition dial (o : Options) (addr : bytes) (t : T) : T * (bytes + H) :=
  let '(t, got) := tr_dial t addr in
  match got with
  | inl e => (t, inl (B "dial " ++ addr ++ B ": " ++ e))
  | inr h =>
    let '(t, err) := guarded tr_handshake (oTLS o) h t in
    match err with Some e => (t, inl e) | None =>
      let '(t, err) := guarded (fun t h => auth t h (oUsername o) (oPassword o)) (negb (oPassword o ==b [])) h t in
      match err with Some e => (t, inl e) | None =>
        let '(t, err) := guarded (fun t h => conn_roundTrip t h [BS "READONLY"]) (oReadOnly o) h t in
        match err with Some e => (t, inl e) | None => (t, inr h) end
      end
    end
  end.

(** ** One pool

    Connections are numbered in the order they were dialed; [spIdle] is the channel, [spGone] the
    connections closed. *)

Record spool := mkSpool {
  spIdle : list (nat * H); spClosed : bool; spActive : Z; spDials : nat; spGone : list nat }.

Definition limit (o : Options) : Z := if oMaxSize o <? 1 then 1 else oMaxSize o.

(** The connections [New] dials up front, until one fails. *)
Fixpoint prefill (o : Options) (addr : bytes) (n : nat) (p : spool) (t : T) : spool * T :=
  match n with
  | O => (p, t)
  | S n =>
      let '(t, got) := dial o addr t in
      match got with
      | inl _ => (p, t)
      | inr h => prefill o addr n
          (mkSpool (spIdle p ++ [(spDials p, h)]) (spClosed p) (spActive p) (S (spDials p)) (spGone p)) t
      end
  end.

Definition pool_New (o : Options) (addr : bytes) (t : T) : spool * T :=
  prefill o addr (Z.to_nat (if limit o <? oMinIdle o then limit o else oMinIdle o)) (mkSpool [] false 0 0 []) t.

Definition pool_wait (p : spool) (t : T) : spool * T * (bytes + nat * H) :=
  let '(t, e) := tr_expire t in (p, t, inl e).

Definition pool_Get (o : Options) (addr : bytes) (p : spool) (t : T) : spool * T * (bytes + nat * H) :=
  if spClosed p then (p, t, inl (B "pool closed")) else
  match spIdle p with
  | c :: l => (mkSpool l (spClosed p) (spActive p + 1) (spDials p) (spGone p), t, inr c)
  | [] =>
      if spActive p + Z.of_nat (length (spIdle p)) <? limit o then
        let '(t, got) := dial o addr t in
        match got with
        | inr h =>
            (mkSpool [] (spClosed p) (spActive p + 1) (S (spDials p)) (spGone p), t, inr (spDials p, h))
        | inl e => if bool_decide (tr_ctx t = None) then pool_wait p t else (p, t, inl e)
        end
      else pool_wait p t
  end.

Definition pool_Drop (c : nat * H) (p : spool) (t : T) : spool * T :=
  (mkSpool (spIdle p) (spClosed p) (spActive p - 1) (spDials p) (c.1 :: spGone p), tr_close t c.2).

Definition pool_Put (o : Options) (c : nat * H) (p : spool) (t : T) : spool * T :=
  if spClosed p || negb (Z.of_nat (length (spIdle p)) <? limit o) then pool_Drop c p t
  else (mkSpool (spIdle p ++ [c]) (spClosed p) (spActive p - 1) (spDials p) (spGone p), t).

Definition pool_Close (p : spool) (t : T) : spool * T :=
  if spClosed p then (p, t)
  else (mkSpool [] true (spActive p) (spDials p) (rev (map fst (spIdle p)) ++ spGone p),
        fold_left (fun t c => tr_close t c.2) (spIdle p) t).
End Backend.
Arguments spool : clear implicits.

(** ** The functions are runs of the concurrent pool

    [emb p ths]: the pool between two functions, with the goroutines [ths]. *)

Section Refinement.
Context {T H : Type} `{!Transport T H} (o : Options) (addr : bytes).
Implicit Types (p : spool H) (t : T) (ths : list pc) (i : nat).

Definition size : nat := Z.to_nat (limit o).

Definition emb p ths : pool :=
  mkPool (map fst (spIdle p)) (spClosed p) (spClosed p) (spActive p) 0 None (spDials p) (spGone p) ths false.

Lemma limit_pos : 1 <= limit o.
Proof. unfold limit. case_if; bool_simp; lia. Qed.

(** One step of goroutine [i], whose program counter was written last; [rule] is a rule of [pstep]. *)
Ltac prun i rule :=
  eapply (run_step _ _ _ _ i); [by apply list_lookup_insert_eq|by apply rule|];
  unfold goto; cbn [idle chClosed closed active waiters mutex dials gone threads panicked
    set_idle set_chClosed set_closed add_active add_waiters set_mutex set_dials close_conn];
  rewrite list_insert_insert_eq.

Lemma emb_at p ths i q : ths !! i = Some q -> emb p ths = emb p (<[i := q]> ths).
Proof. intros Hq. by rewrite list_insert_id. Qed.

(** A goroutine that waits until its context ends. *)
Lemma wait_refines idl cl act dl gn ths i :
  (i < length ths)%nat ->
  rtc (step size) (mkPool idl cl cl act 1 None dl gn (<[i := GBlock]> ths) false)
    (mkPool idl cl cl act 0 None dl gn (<[i := Out]> ths) false).
Proof. intros Hl. prun i block_ctx. prun i get_err. apply rtc_refl. Qed.

Lemma Get_refines p t p' t' res ths i :
  ths !! i = Some Out -> pool_Get o addr p t = (p', t', res) ->
  rtc (step size) (emb p ths)
    (emb p' (<[i := match res with inr c => Hold c.1 | inl _ => Out end]> ths)).
Proof.
  intros Hi. pose proof (lookup_lt_Some _ _ _ Hi) as Hl. rewrite (emb_at p ths i Out Hi). unfold pool_Get, emb.
  destruct p as [idl cl act dl gn]. cbn [spIdle spClosed spActive spDials spGone].
  destruct cl; [intros [= <- <- <-]; cbn; apply rtc_refl|]. pose proof limit_pos as HL.
  intros E. prun i get_open. prun i get_enter. revert E. destruct idl as [|c idl].
  - intros E. cbn [map]. prun i get_empty. prun i get_load. revert E. destruct (_ <? limit o) eqn:Elt; bool_simp.
    + intros E. eapply (run_step _ _ _ _ i); [by apply list_lookup_insert_eq|apply get_room; unfold size; cbn in *; lia|].
      unfold goto. cbn. rewrite list_insert_insert_eq. revert E.
      destruct (dial o addr t) as [t1 [e|h]]; [case_if|]; [unfold pool_wait; destruct (tr_expire t1) as [t2 e2]|..];
        intros [= <- <- <-]; cbn.
      * prun i dial_fail. by apply wait_refines.
      * prun i dial_fail_ctx. prun i get_err. apply rtc_refl.
      * prun i dial_ok. prun i get_count. prun i get_ret. apply rtc_refl.
    + intros E. eapply (run_step _ _ _ _ i); [by apply list_lookup_insert_eq|apply get_full; unfold size; cbn in *; lia|].
      unfold goto. cbn. rewrite list_insert_insert_eq. revert E.
      unfold pool_wait. destruct (tr_expire t) as [t2 e2]. intros [= <- <- <-]. by apply wait_refines.
  - intros [= <- <- <-]. cbn [map]. prun i get_try. prun i get_count. prun i get_ret. apply rtc_refl.
Qed.

Lemma Drop_refines c p t ths i :
  ths !! i = Some (Hold c.1) -> rtc (step size) (emb p ths) (emb (pool_Drop c p t).1 (<[i := Out]> ths)).
Proof.
  intros Hi. pose proof (lookup_lt_Some _ _ _ Hi) as Hl. rewrite (emb_at p ths i _ Hi). unfold emb.
  prun i drop_start. prun i drop_close. apply rtc_refl.
Qed.

Lemma Put_refines c p t ths i :
  ths !! i = Some (Hold c.1) -> rtc (step size) (emb p ths) (emb (pool_Put o c p t).1 (<[i := Out]> ths)).
Proof.
  intros Hi. pose proof (lookup_lt_Some _ _ _ Hi) as Hl. rewrite (emb_at p ths i _ Hi). unfold emb, pool_Put.
  destruct p as [idl cl act dl gn]. cbn [spIdle spClosed spActive spDials spGone]. pose proof limit_pos as HL.
  prun i put_start. prun i put_lock. destruct cl; cbn [orb].
  - prun i put_closed. prun i put_unlock. apply rtc_refl.
  - prun i put_open. destruct (Z.of_nat (length idl) <? limit o) eqn:E; bool_simp; cbn [negb].
    + eapply (run_step _ _ _ _ i); [by apply list_lookup_insert_eq|
        apply put_send; [done|cbn; rewrite length_map; unfold size; lia]|].
      unfold goto. cbn. rewrite list_insert_insert_eq. prun i put_unlock. rewrite map_app. apply rtc_refl.
    + eapply (run_step _ _ _ _ i); [by apply list_lookup_insert_eq|
        apply put_full; [done|cbn; rewrite length_map; unfold size; lia]|].
      unfold goto. cbn. rewrite list_insert_insert_eq. prun i put_unlock. apply rtc_refl.
Qed.

Lemma drain_refines l act dl gn ths i :
  (i < length ths)%nat ->
  rtc (step size) (mkPool l true true act 0 (Some i) dl gn (<[i := CDrain]> ths) false)
    (mkPool [] true true act 0 None dl (rev l ++ gn) (<[i := Out]> ths) false).
Proof.
  intros Hl. revert gn. induction l as [|c l IH]; intros gn.
  - prun i close_done. prun i close_unlock. apply rtc_refl.
  - prun i close_drain. etrans; [apply IH|]. cbn [rev]. rewrite <- app_assoc. apply rtc_refl.
Qed.

Lemma Close_refines p t ths i :
  ths !! i = Some Out -> rtc (step size) (emb p ths) (emb (pool_Close p t).1 ths).
Proof.
  intros Hi. pose proof (lookup_lt_Some _ _ _ Hi) as Hl. rewrite (emb_at p ths i _ Hi).
  rewrite (emb_at (pool_Close p t).1 ths i _ Hi). unfold emb, pool_Close.
  destruct p as [idl cl act dl gn]. cbn [spIdle spClosed spActive spDials spGone].
  destruct cl; [apply rtc_refl|].
  prun i close_start. prun i close_lock. prun i close_first. prun i close_chan. by apply drain_refines.
Qed.

(** A new pool has dialed some number of connections, all idle. *)
Lemma prefill_shape n p t :
  map fst (spIdle p) = seq 0 (spDials p) ->
  let p' := (prefill o addr n p t).1 in
  map fst (spIdle p') = seq 0 (spDials p') ∧ (spDials p' <= spDials p + n)%nat
  ∧ spClosed p' = spClosed p ∧ spActive p' = spActive p ∧ spGone p' = spGone p.
Proof.
  revert p t. induction n as [|n IH]; intros p t Hp; cbn [prefill]; [cbn; split_and!; [done|lia|done..]|].
  destruct (dial o addr t) as [t1 [e|h]]; [split_and!; [done|cbn; lia|done..]|].
  destruct (IH (mkSpool (spIdle p ++ [(spDials p, h)]) (spClosed p) (spActive p) (S (spDials p)) (spGone p)) t1)
    as (H1 & H2 & H3).
  { cbn [spIdle spDials]. by rewrite map_app, Hp, seq_S. }
  split_and!; [exact H1|cbn [spDials] in H2; lia|apply H3..].
Qed.

Lemma New_refines k t : exists n, (n <= size)%nat ∧ emb (pool_New o addr t).1 (repeat Out k) = New n k.
Proof.
  unfold pool_New. pose proof limit_pos.
  destruct (prefill_shape (Z.to_nat (if limit o <? oMinIdle o then limit o else oMinIdle o)) (mkSpool [] false 0 0 []) t)
    as (H1 & H2 & H3 & H4 & H5); [done|].
  eexists. split; [|unfold emb; rewrite H1, H3, H4, H5; reflexivity].
  revert H2. cbn [spDials]. unfold size. case_if; bool_simp; lia.
Qed.

(** *** Sequences of calls

    Goroutine [i] calls a function; a goroutine that already holds a connection does not call [Get]
    or [Close], one that holds none does not call [Put] or [Drop]. *)

Inductive call := CGet (i : nat) | CPut (i : nat) | CDrop (i : nat) | CClosePool (i : nat).

Definition do_call (st : spool H * T * list (option (nat * H))) (e : call) :
  spool H * T * list (option (nat * H)) :=
  let '(p, t, hs) := st in
  match e with
  | CGet i =>
      match hs !! i with
      | Some None =>
          let '(p, t, res) := pool_Get o addr p t in
          (p, t, <[i := match res with inr c => Some c | inl _ => None end]> hs)
      | _ => st
      end
  | CPut i =>
      match hs !! i with
      | Some (Some c) => let '(p, t) := pool_Put o c p t in (p, t, <[i := None]> hs)
      | _ => st
      end
  | CDrop i =>
      match hs !! i with
      | Some (Some c) => let '(p, t) := pool_Drop c p t in (p, t, <[i := None]> hs)
      | _ => st
      end
  | CClosePool i =>
      match hs !! i with
      | Some None => let '(p, t) := pool_Close p t in (p, t, hs)
      | _ => st
      end
  end.

Definition calls (es : list call) (k : nat) (t : T) : spool H * T * list (option (nat * H)) :=
  fold_left do_call es ((pool_New o addr t).1, (pool_New o addr t).2, repeat None k).

Definition pc_of (h : option (nat * H)) : pc := match h with Some c => Hold c.1 | None => Out end.

Definition emb_state (st : spool H * T * list (option (nat * H))) : pool := emb st.1.1 (map pc_of st.2).

Lemma pc_of_lookup hs i h : hs !! i = Some h -> map pc_of hs !! i = Some (pc_of h).
Proof. intros Hi. change (map ?f ?l) with (f <$> l). by rewrite list_lookup_fmap, Hi. Qed.
Lemma pc_of_insert hs i h : map pc_of (<[i := h]> hs) = <[i := pc_of h]> (map pc_of hs).
Proof. change (map ?f ?l) with (f <$> l). apply list_fmap_insert. Qed.

Lemma do_call_refines st e : rtc (step size) (emb_state st) (emb_state (do_call st e)).
Proof.
  destruct st as [[p t] hs]. unfold emb_state, do_call.
  destruct e as [i|i|i|i]; destruct (hs !! i) as [[c|]|] eqn:Ei; try apply rtc_refl; apply pc_of_lookup in Ei.
  - destruct (pool_Get o addr p t) as [[p' t'] res] eqn:E. cbn. rewrite pc_of_insert.
    pose proof (Get_refines _ _ _ _ _ _ _ Ei E) as G. by destruct res.
  - pose proof (Put_refines c p t _ _ Ei) as G. destruct (pool_Put o c p t) as [p' t']. cbn. by rewrite pc_of_insert.
  - pose proof (Drop_refines c p t _ _ Ei) as G. destruct (pool_Drop c p t) as [p' t']. cbn. by rewrite pc_of_insert.
  - pose proof (Close_refines p t _ _ Ei) as G. by destruct (pool_Close p t) as [p' t'].
Qed.

Lemma owned_pcs hs : owned (map pc_of hs) = map fst (omap id hs).
Proof. unfold owned. induction hs as [|[c|] hs IH]; cbn; [done|by rewrite IH|done]. Qed.
Lemma counted_pcs hs : sum_list_with counted (map pc_of hs) = length (omap id hs).
Proof. induction hs as [|[c|] hs IH]; cbn; [done|by rewrite IH|done]. Qed.

Lemma calls_reachable es k t : exists n, (n <= size)%nat ∧ reachable size n k (emb_state (calls es k t)).
Proof.
  destruct (New_refines k t) as (n & Hn & E). exists n. split; [done|]. unfold reachable. rewrite <- E.
  assert (map pc_of (repeat None k) = repeat Out k) as <- by (clear; induction k as [|k IH]; cbn; [done|by rewrite IH]).
  unfold calls. change (emb _ (map pc_of (repeat None k)))
    with (emb_state ((pool_New o addr t).1, (pool_New o addr t).2, repeat None k)).
  clear E. generalize ((pool_New o addr t).1, (pool_New o addr t).2, repeat (@None (nat * H)) k) as st.
  induction es as [|e es IH]; intros st; [apply rtc_refl|]. cbn [fold_left]. etrans; [apply do_call_refines|apply IH].
Qed.

(** C16: the pool functions refine the concurrent pool.  After any sequence of calls of Get, Put, Drop
    and Close by any goroutines, whatever the dials do, the pool is in a state the step relation of the
    concurrent pool reaches from a new one; so the connections idle, held and closed are exactly those
    dialed, and the active counter is the number held. *)
Theorem pool_refines (es : list call) (k : nat) (t : T) :
  let st := calls es k t in
  (exists n, (n <= Z.to_nat (limit o))%nat ∧ reachable (Z.to_nat (limit o)) n k (emb_state st))
  ∧ map fst (spIdle st.1.1) ++ map fst (omap id st.2) ++ spGone st.1.1 ≡ₚ seq 0 (spDials st.1.1)
  ∧ spActive st.1.1 = Z.of_nat (length (omap id st.2)).
Proof.
  cbv zeta. destruct (calls_reachable es k t) as (n & Hn & Hr). split; [by exists n|].
  pose proof (reachable_Inv _ _ _ _ Hn Hr) as I. destruct (calls es k t) as [[p t'] hs]. cbn [fst snd]. split.
  - rewrite <- owned_pcs. apply (Permutation_count_occ Nat.eq_dec). intros c.
    change (count_occ Nat.eq_dec ?l c) with (cnt c l). rewrite !cnt_app, cnt_seq, Nat.add_assoc.
    apply (inv_conns _ _ I).
  - rewrite <- counted_pcs. apply (inv_active _ _ I).
Qed.
End Refinement.

(** ** Sockets *)

Section Sockets.
Context {T H : Type} `{!Transport T H} `{!TransportLaws T H}.
Implicit Types (t : T) (h : H).

(** What [dial] writes before a connection is handed out. *)
Definition handshake (o : Options) : list bytes :=
  (if negb (oPassword o ==b []) then [EncodeCommand [] (auth_argv (oUsername o) (oPassword o))] else [])
  ++ (if oReadOnly o then [EncodeCommand [] [BS "READONLY"]] else []).

(** [t'] differs from [t] by [frames] written on the open socket [h]. *)
Definition wrote_on h (frames : list bytes) t t' : Prop :=
  opened t' = opened t ∧ log t' h = log t h ++ frames ∧ forall h', h' ≠ h -> log t' h' = log t h'.

Lemma conn_roundTrip_wrote t h argv t' e :
  conn_roundTrip t h argv = (t', e) -> wrote_on h [EncodeCommand [] argv] t t'.
Proof.
  unfold conn_roundTrip, Do, DoRaw. destruct (tr_write t h _) as [t1 [e1|]] eqn:E; apply write_logs in E as (E1 & E2 & E3).
  - by intros [= <- <-].
  - destruct (tr_read t1 h) as [t2 r] eqn:R. apply tread_keeps in R as [R1 R2]. intros [= <- <-].
    split_and!; [congruence|by rewrite R2|]. intros h' Hh. rewrite R2. by apply E3.
Qed.

Lemma handshake_wrote t h t' e : tr_handshake t h = (t', e) -> wrote_on h [] t t'.
Proof. intros [E1 E2]%handshake_keeps. split_and!; [done|by rewrite E2, app_nil_r|by rewrite E2]. Qed.

Lemma guarded_spec (stp : T -> H -> T * option bytes) need frames h l t t' err :
  (forall t t' e, stp t h = (t', e) -> wrote_on h frames t t') -> opened t ≡ₚ h :: l ->
  guarded stp need h t = (t', err) ->
  (forall h', h' ≠ h -> log t' h' = log t h')
  ∧ match err with
    | Some _ => opened t' ≡ₚ l
    | None => opened t' ≡ₚ h :: l ∧ log t' h = log t h ++ (if need then frames else [])
    end.
Proof.
  intros Hs Ho. unfold guarded. destruct need.
  - destruct (stp t h) as [t1 [e|]] eqn:E; apply Hs in E as (E1 & E2 & E3); intros [= <- <-].
    + destruct (close_closes t1 h l) as [C1 C2]; [by rewrite E1|]. split; [|done]. intros h' Hh. rewrite C2. by apply E3.
    + split_and!; [done|by rewrite E1|done].
  - intros [= <- <-]. by rewrite app_nil_r.
Qed.

(** A dial that fails leaves no socket open; one that succeeds opens one, after the handshake. *)
Lemma dial_spec o addr t t' res :
  dial o addr t = (t', res) ->
  (forall h, h ∈ opened t -> log t' h = log t h)
  ∧ match res with
    | inl _ => opened t' ≡ₚ opened t
    | inr h => opened t' ≡ₚ h :: opened t ∧ log t' h = handshake o
    end.
Proof.
  unfold dial. destruct (tr_dial t addr) as [t1 [e|h]] eqn:E.
  { apply dial_fails in E as [E1 E2]. intros [= <- <-]. by rewrite E1, E2. }
  apply dial_opens in E as (O1 & N & L1 & F1).
  assert (forall h', h' ∈ opened t -> h' ≠ h) as Hne by (by intros h' Hh ->).
  destruct (guarded tr_handshake (oTLS o) h t1) as [t2 e2] eqn:G2.
  eapply (guarded_spec _ _ [] h (opened t)) in G2 as [F2 G2]; [|by intros ???; apply handshake_wrote|done].
  destruct e2 as [e2|]; [intros [= <- <-]; split; [intros h' Hh; rewrite F2, F1; auto|done]|].
  destruct G2 as [O2 L2].
  destruct (guarded (fun t h => auth t h (oUsername o) (oPassword o)) _ h t2) as [t3 e3] eqn:G3.
  eapply (guarded_spec _ _ [EncodeCommand [] (auth_argv (oUsername o) (oPassword o))] h (opened t)) in G3 as [F3 G3];
    [|by intros ???; apply conn_roundTrip_wrote|done].
  destruct e3 as [e3|]; [intros [= <- <-]; split; [intros h' Hh; rewrite F3, F2, F1; auto|done]|].
  destruct G3 as [O3 L3].
  destruct (guarded (fun t h => conn_roundTrip t h [BS "READONLY"]) _ h t3) as [t4 e4] eqn:G4.
  eapply (guarded_spec _ _ [EncodeCommand [] [BS "READONLY"]] h (opened t)) in G4 as [F4 G4];
    [|by intros ???; apply conn_roundTrip_wrote|done].
  destruct e4 as [e4|]; [intros [= <- <-]; split; [intros h' Hh; rewrite F4, F3, F2, F1; auto|done]|].
  destruct G4 as [O4 L4]. intros [= <- <-]. split; [intros h' Hh; rewrite F4, F3, F2, F1; auto|]. split; [done|].
  rewrite L4, L3, L2, L1. cbn. by destruct (oTLS o).
Qed.

(** *** One pool: idle sockets are open and have seen the handshake *)

Definition socks (p : spool H) : list H := map snd (spIdle p).
Definition ready (o : Options) t h : Prop := handshake o `prefix_of` log t h.
(** Nothing is forgotten that was written on an open socket. *)
Definition grows t t' : Prop := forall h, h ∈ opened t -> log t h `prefix_of` log t' h.

Lemma ready_grows o t t' l : grows t t' -> (forall h, h ∈ l -> h ∈ opened t) -> Forall (ready o t) l -> Forall (ready o t') l.
Proof. rewrite !list.Forall_forall. intros G Hl F h Hh. unfold ready in *. etrans; [by apply F|]. apply G. auto. Qed.

Lemma grows_trans t1 t2 t3 l : grows t1 t2 -> grows t2 t3 -> opened t2 ≡ₚ l ++ opened t1 -> grows t1 t3.
Proof. intros G1 G2 Ho h Hh. etrans; [by apply G1|]. apply G2. rewrite Ho, elem_of_app. auto. Qed.

Lemma grows_same t t' : (forall h, h ∈ opened t -> log t' h = log t h) -> grows t t'.
Proof. intros E h Hh. by rewrite E. Qed.

Lemma elem_of_perm_l {A} (x : A) (k l m : list A) : m ≡ₚ k ++ l -> x ∈ k -> x ∈ m.
Proof. intros -> Hx. rewrite elem_of_app. auto. Qed.

Lemma prefill_sockets o addr n p t l p' t' :
  prefill o addr n p t = (p', t') -> opened t ≡ₚ socks p ++ l -> Forall (ready o t) (socks p) ->
  grows t t' ∧ opened t' ≡ₚ socks p' ++ l ∧ Forall (ready o t') (socks p').
Proof.
  revert p t. induction n as [|n IH]; intros p t; cbn [prefill]; [intros [= <- <-] Ho Hr; split_and!; [by apply grows_same|done|done]|].
  destruct (dial o addr t) as [t1 [e|h]] eqn:E; apply dial_spec in E as [F E].
  - intros [= <- <-] Ho Hr. split_and!; [by apply grows_same|by rewrite E|].
    eapply ready_grows; [by apply grows_same| |done]. intros h. by apply elem_of_perm_l with l.
  - destruct E as [E L]. intros G Ho Hr. apply IH in G as (G1 & G2 & G3).
    + split_and!; [|done|done]. eapply (grows_trans _ _ _ [h]); [by apply grows_same|done|done].
    + unfold socks. cbn [spIdle]. rewrite map_app. cbn. rewrite E, Ho. by rewrite <- (app_assoc _ [h]), Permutation_middle.
    + unfold socks. cbn [spIdle]. rewrite map_app. apply Forall_app. split.
      * eapply ready_grows; [by apply grows_same| |done]. intros h'. by apply elem_of_perm_l with l.
      * constructor; [|done]. unfold ready. cbn. by rewrite L.
Qed.

Lemma Get_sockets o addr p t l p' t' res :
  pool_Get o addr p t = (p', t', res) -> opened t ≡ₚ socks p ++ l -> Forall (ready o t) (socks p) ->
  grows t t' ∧ Forall (ready o t') (socks p')
  ∧ match res with
    | inl _ => opened t' ≡ₚ socks p' ++ l
    | inr c => opened t' ≡ₚ c.2 :: socks p' ++ l ∧ ready o t' c.2
    end.
Proof.
  intros E Ho Hr. assert (forall t1 t2 : T, opened t2 ≡ₚ opened t -> log t2 = log t1 -> grows t t1 -> grows t t2) as Hg
    by (intros t1 t2 _ E2 G h Hh; rewrite E2; auto).
  assert (forall t1 t2, grows t t1 -> log t2 = log t1 -> Forall (ready o t2) (socks p)) as Hk.
  { intros t1 t2 G E2. eapply ready_grows in Hr; [|exact G|intros h; by apply elem_of_perm_l with l].
    apply (list.Forall_impl _ _ _ Hr). intros h. unfold ready. by rewrite E2. }
  assert (forall t1 p2 t2 r2, opened t1 ≡ₚ opened t -> grows t t1 -> pool_wait p t1 = (p2, t2, r2) ->
    grows t t2 ∧ Forall (ready o t2) (socks p2) ∧
    match r2 with inl _ => opened t2 ≡ₚ socks p2 ++ l | inr c => opened t2 ≡ₚ c.2 :: socks p2 ++ l ∧ ready o t2 c.2 end) as Hwait.
  { intros t1 p2 t2 r2 O1 G1. unfold pool_wait. destruct (tr_expire t1) as [t3 e3] eqn:X.
    apply expire_keeps in X as [X1 X2]. intros [= <- <- <-]. split_and!; [|by eapply Hk|by rewrite X1, O1].
    eapply Hg; [|exact X2|done]. by rewrite X1. }
  revert E. unfold pool_Get. destruct (spClosed p); [intros [= <- <- <-]; split_and!; [by apply grows_same|done|done]|].
  destruct p as [[|c idl] cl act dl gn]; cbn [spIdle spClosed spActive spDials spGone].
  - case_if; [|intros E2; apply (Hwait t) in E2; [done|done|by apply grows_same]].
    destruct (dial o addr t) as [t1 [e|h]] eqn:D; apply dial_spec in D as [F D].
    + case_if; [intros E2; eapply Hwait in E2; [done|done|by apply grows_same]|].
      intros [= <- <- <-]. split_and!; [by apply grows_same|done|by rewrite D].
    + destruct D as [D L]. intros [= <- <- <-]. split_and!; [by apply grows_same|done|by rewrite D, Ho|].
      unfold ready. cbn. by rewrite L.
  - intros [= <- <- <-]. apply list.Forall_cons in Hr as [Hr1 Hr2]. split_and!; [by apply grows_same|done..].
Qed.

Lemma Drop_sockets o c p t l p' t' :
  pool_Drop c p t = (p', t') -> opened t ≡ₚ c.2 :: socks p ++ l -> Forall (ready o t) (socks p) ->
  log t' = log t ∧ opened t' ≡ₚ socks p' ++ l ∧ Forall (ready o t') (socks p').
Proof.
  unfold pool_Drop. intros [= <- <-] Ho Hr. apply close_closes in Ho as [C1 C2]. split_and!; [done|done|].
  apply (list.Forall_impl _ _ _ Hr). intros h. unfold ready. by rewrite C2.
Qed.

Lemma Put_sockets o c p t l p' t' :
  pool_Put o c p t = (p', t') -> opened t ≡ₚ c.2 :: socks p ++ l -> Forall (ready o t) (c.2 :: socks p) ->
  log t' = log t ∧ opened t' ≡ₚ socks p' ++ l ∧ Forall (ready o t') (socks p').
Proof.
  intros E Ho Hr. apply list.Forall_cons in Hr as [Hr1 Hr2]. revert E. unfold pool_Put. case_if.
  { intros E2. by eapply Drop_sockets in E2. }
  intros [= <- <-]. unfold socks. cbn [spIdle]. rewrite map_app. split_and!; [done| |apply Forall_app; split; [done|by constructor]].
  rewrite Ho. cbn. by rewrite <- (app_assoc _ [c.2]), Permutation_middle.
Qed.
End Sockets.

(** ** The pools of all addresses as the network of the router *)

Fixpoint remove_first {A} `{!EqDecision A} (x : A) (l : list A) : list A :=
  match l with
  | [] => []
  | y :: l => if decide (y = x) then l else y :: remove_first x l
  end.

Lemma remove_first_perm {A} `{!EqDecision A} (x : A) l k : l ≡ₚ x :: k -> remove_first x l ≡ₚ k.
Proof.
  intros Hl. apply (Permutation_cons_inv (a := x)). rewrite <- Hl.
  assert (x ∈ l) as Hx by (rewrite Hl; by left). clear Hl.
  induction l as [|y l IH]; [by apply elem_of_nil in Hx|]. cbn [remove_first]. case_decide as E; [by subst|].
  apply elem_of_cons in Hx as [->|Hx]; [done|]. rewrite Permutation_swap. by rewrite IH.
Qed.

Section Network.
Context {T H : Type} `{!Transport T H} `{!EqDecision H} (opts : bytes -> Options).

Record bconn := mkBConn { bcAddr : bytes; bcNum : nat; bcSock : H }.
#[global] Instance bconn_eq_dec : EqDecision bconn.
Proof. solve_decision. Defined.

(** [nHeld], [nSent]: the connections checked out and the frames written on them. *)
Record net := mkNet {
  nTr : T; nPools : gmap bytes (spool H); nHeld : list bconn; nSent : list (bytes * bytes) }.

Definition pool_at (n : net) (addr : bytes) : spool H * T :=
  match nPools n !! addr with
  | Some p => (p, nTr n)
  | None => pool_New (opts addr) addr (nTr n)
  end.

Definition pools_get (n : net) (addr : bytes) : net * (bytes + bconn) :=
  let '(p, t) := pool_at n addr in
  let '(p, t, res) := pool_Get (opts addr) addr p t in
  match res with
  | inl e => (mkNet t (<[addr := p]> (nPools n)) (nHeld n) (nSent n), inl e)
  | inr c => let c := mkBConn addr c.1 c.2 in
             (mkNet t (<[addr := p]> (nPools n)) (c :: nHeld n) (nSent n), inr c)
  end.

(** [Put] or [Drop] on the pool of the address. *)
Definition pools_give (give : nat * H -> spool H -> T -> spool H * T) (n : net) (addr : bytes) (c : bconn) : net :=
  let '(p, t) := match nPools n !! addr with
                 | Some p => let '(p, t) := give (bcNum c, bcSock c) p (nTr n) in (<[addr := p]> (nPools n), t)
                 | None => (nPools n, nTr n)
                 end in
  mkNet t p (remove_first c (nHeld n)) (nSent n).

#[global] Instance pools_network : Network net bconn := {
  net_ctx n := tr_ctx (nTr n);
  net_get := pools_get;
  net_write n c f :=
    let '(t, e) := WriteRaw (nTr n) (bcSock c) f in
    (mkNet t (nPools n) (nHeld n) (nSent n ++ [(bcAddr c, f)]), e);
  net_read n c := let '(t, r) := tr_read (nTr n) (bcSock c) in (mkNet t (nPools n) (nHeld n) (nSent n), r);
  net_put n addr c := pools_give (pool_Put (opts addr)) n addr c;
  net_drop n addr c := pools_give pool_Drop n addr c }.

(** The laws the router and the sessions rely on. *)
#[global, refine] Instance pools_laws : NetworkLaws net bconn := {
  held := nHeld; sent := nSent; conn_addr := bcAddr }.
Proof.
  - intros n a n' c. unfold net_get, pools_network, pools_get.
    destruct (pool_at n a) as [p t]. destruct (pool_Get _ a p t) as [[p' t'] [e|x]]; by intros [= <- <-].
  - intros n a n' e. unfold net_get, pools_network, pools_get.
    destruct (pool_at n a) as [p t]. destruct (pool_Get _ a p t) as [[p' t'] [e'|x]]; by intros [= <- <-].
  - intros n c f n' r. unfold net_write, pools_network. destruct (WriteRaw _ _ f) as [t e]. by intros [= <- <-].
  - intros n c n' r. unfold net_read, pools_network. destruct (tr_read _ _) as [t e]. by intros [= <- <-].
  - intros n a c l Hl. unfold net_put, pools_network, pools_give. destruct (nPools n !! a) as [p|];
      [destruct (pool_Put _ _ p _)|]; (split; [by apply remove_first_perm|done]).
  - intros n a c l Hl. unfold net_drop, pools_network, pools_give. destruct (nPools n !! a) as [p|];
      [destruct (pool_Drop _ p _)|]; (split; [by apply remove_first_perm|done]).
Defined.
End Network.

(** ** All sockets are accounted for *)

Section Accounting.
Context {T H : Type} `{!Transport T H} `{!TransportLaws T H} `{!EqDecision H} (opts : bytes -> Options).
Abbreviation net := (net (T := T) (H := H)).
Implicit Types (n : net) (c : bconn (H := H)).

Definition pool_socks (m : gmap bytes (spool H)) : list H := concat (map (fun ap => socks ap.2) (map_to_list m)).

Lemma pool_socks_insert m a p : m !! a = None -> pool_socks (<[a := p]> m) ≡ₚ socks p ++ pool_socks m.
Proof. intros Ha. unfold pool_socks. by rewrite (map_to_list_insert m a p Ha). Qed.

Lemma pool_socks_update m a p : pool_socks (<[a := p]> m) ≡ₚ socks p ++ pool_socks (delete a m).
Proof. rewrite <- insert_delete_eq. apply pool_socks_insert. apply lookup_delete_eq. Qed.

Lemma pool_socks_split m a p : m !! a = Some p -> pool_socks m ≡ₚ socks p ++ pool_socks (delete a m).
Proof. intros Ha. rewrite <- (pool_socks_update m a p). by rewrite insert_id. Qed.

(** The open sockets are those checked out, those idle in a pool and [base]; each has seen the
    handshake of its address. *)
Record good (base : list H) n : Prop := mkGood {
  good_open : opened (nTr n) ≡ₚ map bcSock (nHeld n) ++ pool_socks (nPools n) ++ base;
  good_held : Forall (fun c => ready (opts (bcAddr c)) (nTr n) (bcSock c)) (nHeld n);
  good_idle : forall a p, nPools n !! a = Some p -> Forall (ready (opts a) (nTr n)) (socks p) }.

Lemma good_idle_open base n a p h : good base n -> nPools n !! a = Some p -> h ∈ socks p -> h ∈ opened (nTr n).
Proof.
  intros G Ha Hh. rewrite (good_open _ _ G), !elem_of_app, (pool_socks_split _ _ _ Ha), elem_of_app. auto.
Qed.
Lemma good_held_open base n c : good base n -> c ∈ nHeld n -> bcSock c ∈ opened (nTr n).
Proof. intros G Hc. rewrite (good_open _ _ G), elem_of_app. left. change (map ?f ?l) with (f <$> l). by apply list_elem_of_fmap_2. Qed.

(** Replace the pool of one address. *)
Lemma good_replace base n a p t hl snt :
  good base n -> grows (nTr n) t ->
  opened t ≡ₚ map bcSock hl ++ socks p ++ pool_socks (delete a (nPools n)) ++ base ->
  Forall (ready (opts a) t) (socks p) ->
  (forall c, c ∈ hl -> c ∈ nHeld n ∨ ready (opts (bcAddr c)) t (bcSock c)) ->
  good base (mkNet t (<[a := p]> (nPools n)) hl snt).
Proof.
  intros G Hg Ho Hp Hh. split; cbn.
  - by rewrite Ho, pool_socks_update, <- (app_assoc (socks p)).
  - rewrite list.Forall_forall. intros c Hc. destruct (Hh c Hc) as [Hn|]; [|done].
    pose proof (good_held _ _ G) as GH. rewrite list.Forall_forall in GH. unfold ready in *.
    etrans; [by apply GH|]. apply Hg. by eapply good_held_open.
  - intros b q. rewrite lookup_insert_Some. intros [[<- <-]|[Hne Hq]]; [done|].
    eapply ready_grows; [exact Hg| |by eapply good_idle]. intros h. by eapply good_idle_open.
Qed.

Lemma good_get base n a : good base n -> good base (pools_get opts n a).1.
Proof.
  intros G. unfold pools_get.
  assert (exists p t, pool_at opts n a = (p, t) ∧ grows (nTr n) t ∧ Forall (ready (opts a) t) (socks p)
    ∧ opened t ≡ₚ socks p ++ (map bcSock (nHeld n) ++ pool_socks (delete a (nPools n)) ++ base)
    ∧ (forall h, h ∈ opened (nTr n) -> h ∈ opened t)) as (p & t & -> & G1 & R1 & O1 & S1).
  { unfold pool_at. destruct (nPools n !! a) as [p|] eqn:Ha.
    - exists p, (nTr n). split_and!; [done|by apply grows_same|by eapply good_idle| |done].
      rewrite (good_open _ _ G), (pool_socks_split _ _ _ Ha). by rewrite <- app_assoc, Permutation_app_swap_app.
    - destruct (pool_New (opts a) a (nTr n)) as [p t] eqn:E. exists p, t.
      eapply (prefill_sockets _ _ _ _ _ (opened (nTr n))) in E as (E1 & E2 & E3); [|done|constructor].
      split_and!; [done|done|done| |intros h Hh; rewrite E2, elem_of_app; auto].
      rewrite E2, (good_open _ _ G). by rewrite delete_id. }
  destruct (pool_Get (opts a) a p t) as [[p' t'] res] eqn:E.
  eapply Get_sockets in E as (G2 & R2 & E); [|exact O1|done].
  assert (grows (nTr n) t') as G3. { intros h Hh. etrans; [by apply G1|]. apply G2. auto. }
  destruct res as [e|x]; cbn.
  - apply good_replace; [done|done| |done|auto]. rewrite E. by rewrite Permutation_app_swap_app.
  - destruct E as [E R]. apply good_replace; [done|done| |done|].
    + rewrite E. cbn. by rewrite Permutation_app_swap_app.
    + intros c. rewrite elem_of_cons. intros [->|]; auto.
Qed.

(** Both ways of giving a connection back to the pool it came from. *)
Lemma good_give base give n c :
  (forall x p t l p' t', give x p t = (p', t') -> opened t ≡ₚ x.2 :: socks p ++ l ->
     Forall (ready (opts (bcAddr c)) t) (x.2 :: socks p) ->
     log t' = log t ∧ opened t' ≡ₚ socks p' ++ l ∧ Forall (ready (opts (bcAddr c)) t') (socks p')) ->
  c ∈ nHeld n -> is_Some (nPools n !! bcAddr c) -> good base n -> good base (pools_give give n (bcAddr c) c).
Proof.
  intros Hg Hc [p Ha] G. unfold pools_give. rewrite Ha.
  destruct (elem_of_Permutation (nHeld n) c) as [[l Hl] _]; [done|].
  destruct (give (bcNum c, bcSock c) p (nTr n)) as [p' t'] eqn:E.
  eapply (Hg _ _ _ (map bcSock l ++ pool_socks (delete (bcAddr c) (nPools n)) ++ base)) in E as (E1 & E2 & E3).
  - apply good_replace; [done|by apply grows_same; rewrite E1| |done|].
    + rewrite E2, (remove_first_perm c (nHeld n) l Hl). by rewrite Permutation_app_swap_app.
    + intros x. rewrite (remove_first_perm c (nHeld n) l Hl). intros Hx. left. rewrite Hl. by right.
  - rewrite (good_open _ _ G), (pool_socks_split _ _ _ Ha), Hl. cbn.
    by rewrite <- app_assoc, Permutation_app_swap_app.
  - constructor; [|by eapply good_idle]. pose proof (good_held _ _ G) as F. rewrite list.Forall_forall in F. by apply F.
Qed.

Lemma good_io base n t snt : good base n -> opened t = opened (nTr n) -> grows (nTr n) t ->
  good base (mkNet t (nPools n) (nHeld n) snt).
Proof.
  intros G Ho Hg. split; cbn; [by rewrite Ho; apply good_open| |].
  - pose proof (good_held _ _ G) as F. rewrite list.Forall_forall in F |- *. intros c Hc. unfold ready in *.
    etrans; [by apply F|]. apply Hg. by eapply good_held_open.
  - intros a p Ha. eapply ready_grows; [exact Hg| |by eapply good_idle]. intros h. by eapply good_idle_open.
Qed.

(** *** Runs: operations on the connections checked out, in any order *)

Inductive nop := NGet (a : bytes) | NWrite (i : nat) (f : bytes) | NRead (i : nat) | NPut (i : nat) | NDrop (i : nat).

Definition do_nop n (e : nop) : net :=
  match e with
  | NGet a => (net_get (Network := pools_network opts) n a).1
  | NWrite i f => match nHeld n !! i with Some c => (net_write (Network := pools_network opts) n c f).1 | None => n end
  | NRead i => match nHeld n !! i with Some c => (net_read (Network := pools_network opts) n c).1 | None => n end
  | NPut i => match nHeld n !! i with Some c => net_put (Network := pools_network opts) n (bcAddr c) c | None => n end
  | NDrop i => match nHeld n !! i with Some c => net_drop (Network := pools_network opts) n (bcAddr c) c | None => n end
  end.

Definition net_run (es : list nop) (t : T) : net := fold_left do_nop es (mkNet t ∅ [] []).

(** The pool of a connection that is checked out exists. *)
Definition homed n : Prop := Forall (fun c => is_Some (nPools n !! bcAddr c)) (nHeld n).

Lemma homed_sub n (m : gmap bytes (spool H)) hl t snt :
  homed n -> (forall a, is_Some (nPools n !! a) -> is_Some (m !! a)) -> (forall c, c ∈ hl -> c ∈ nHeld n) ->
  homed (mkNet t m hl snt).
Proof. unfold homed. rewrite !list.Forall_forall. cbn. intros Hn Hm Hh c Hc. auto. Qed.

Lemma remove_first_sub {A} `{!EqDecision A} (x y : A) l : y ∈ remove_first x l -> y ∈ l.
Proof.
  induction l as [|z l IH]; cbn [remove_first]; [done|]. case_decide; [by right|].
  rewrite !elem_of_cons. naive_solver.
Qed.

Lemma insert_is_Some (m : gmap bytes (spool H)) a p b : is_Some (m !! b) -> is_Some (<[a := p]> m !! b).
Proof. intros Hb. rewrite lookup_insert_is_Some. destruct (decide (a = b)); auto. Qed.

Lemma homed_give give n c : homed n -> homed (pools_give give n (bcAddr c) c).
Proof.
  intros Hn. unfold pools_give. destruct (nPools n !! bcAddr c); [destruct (give _ _ _) as [p t]|];
    apply homed_sub with n; try done; try (intros x; apply remove_first_sub). intros a. apply insert_is_Some.
Qed.

Lemma homed_get n a : homed n -> homed (pools_get opts n a).1.
Proof.
  intros Hn. unfold pools_get. destruct (pool_at opts n a) as [p t].
  destruct (pool_Get (opts a) a p t) as [[p' t'] [e|x]]; cbn.
  - apply homed_sub with n; try done. intros b. apply insert_is_Some.
  - constructor; [cbn; rewrite lookup_insert_eq; by eexists|].
    refine (homed_sub n (<[a := p']> (nPools n)) (nHeld n) t' [] Hn _ _); [|done]. intros b. apply insert_is_Some.
Qed.

Lemma do_nop_good base n e : good base n ∧ homed n -> good base (do_nop n e) ∧ homed (do_nop n e).
Proof.
  intros [G Hn]. destruct e as [a|i f|i|i|i]; cbn [do_nop];
    try (destruct (nHeld n !! i) as [c|] eqn:Ec; [|done]; apply list_elem_of_lookup_2 in Ec;
      pose proof Hn as Hc; unfold homed in Hc; rewrite list.Forall_forall in Hc; specialize (Hc c Ec)).
  - split; [by apply good_get|by apply homed_get].
  - unfold net_write, pools_network, WriteRaw. destruct (tr_write _ _ f) as [t x] eqn:E. apply write_logs in E as (E1 & E2 & E3).
    cbn. split; [|by apply homed_sub with n]. apply good_io; [done|done|]. intros h _.
    destruct (decide (h = bcSock c)) as [->|Hne]; [rewrite E2; by apply prefix_app_r|by rewrite E3].
  - unfold net_read, pools_network. destruct (tr_read _ _) as [t x] eqn:E. apply tread_keeps in E as [E1 E2].
    cbn. split; [|by apply homed_sub with n]. apply good_io; [done|done|]. apply grows_same. by rewrite E2.
  - split; [|by apply homed_give]. apply good_give; [|done|done|done]. intros x p t l p' t'. apply Put_sockets.
  - split; [|by apply homed_give]. apply good_give; [|done|done|done]. intros x p t l p' t' E Ho Hr.
    eapply Drop_sockets; [done|done|]. by apply list.Forall_cons in Hr as [_ Hr].
Qed.

Lemma net_run_good es t : good (opened t) (net_run es t).
Proof.
  unfold net_run. assert (good (opened t) (mkNet t ∅ [] []) ∧ homed (mkNet t ∅ [] [])) as G.
  { split; [|constructor]. split; [done|constructor|]. intros a p Ha. cbn in Ha. by apply lookup_empty_Some in Ha. }
  revert G. generalize (mkNet t (∅ : gmap bytes (spool H)) [] []) as n. induction es as [|e es IH]; intros n G; [apply G|].
  cbn [fold_left]. by apply IH, do_nop_good.
Qed.

(** C31: no socket is lost.  Whatever dials, handshakes, reads and writes fail, after any sequence of
    operations the sockets that are open are exactly those of the connections checked out, those idle
    in the pools, and those that were open before. *)
Theorem sockets_accounted (es : list nop) (t : T) :
  let n := net_run es t in
  opened (nTr n) ≡ₚ map bcSock (nHeld n)
    ++ concat (map (fun ap => map snd (spIdle ap.2)) (map_to_list (nPools n))) ++ opened t.
Proof. apply (good_open _ _ (net_run_good es t)). Qed.

(** C26: commands are sent on authenticated connections only.  What was written on the socket of any
    connection that is checked out or idle begins with the AUTH of the configured user (when there is
    a password) and READONLY (for a replica), before anything else. *)
Theorem backend_authenticated (es : list nop) (t : T) :
  let n := net_run es t in
  Forall (fun c => handshake (opts (bcAddr c)) `prefix_of` log (nTr n) (bcSock c)) (nHeld n)
  ∧ forall a p, nPools n !! a = Some p ->
      Forall (fun x => handshake (opts a) `prefix_of` log (nTr n) x.2) (spIdle p).
Proof.
  pose proof (net_run_good es t) as G. split; [apply (good_held _ _ G)|].
  intros a p Ha. apply (good_idle _ _ G) in Ha. unfold socks in Ha. by rewrite Forall_map in Ha.
Qed.
End Accounting.

(** ** A transport that satisfies the laws *)

(** A network that answers with the given replies; a new socket gets the first unused number. *)
Record lan := mkLan { lReplies : list (bytes + value); lOpen : list nat; lLog : list (nat * bytes) }.

Definition lan_fresh (t : lan) : nat := S (max_list (lOpen t ++ map fst (lLog t))).
Definition lan_log (t : lan) (h : nat) : list bytes := map snd (filter (fun x => x.1 = h) (lLog t)).

#[global] Instance lan_transport : Transport lan nat := {
  tr_ctx _ := None;
  tr_expire t := (t, B "context deadline exceeded");
  tr_dial t a := (mkLan (lReplies t) (lan_fresh t :: lOpen t) (lLog t), inr (lan_fresh t));
  tr_handshake t h := (t, None);
  tr_write t h f := (mkLan (lReplies t) (lOpen t) (lLog t ++ [(h, f)]), None);
  tr_read t h := (mkLan (tl (lReplies t)) (lOpen t) (lLog t),
                  match lReplies t with x :: _ => x | [] => inl (B "EOF") end);
  tr_close t h := mkLan (lReplies t) (remove_first h (lOpen t)) (lLog t) }.

Lemma lan_fresh_lt t h : h ∈ lOpen t ++ map fst (lLog t) -> (h < lan_fresh t)%nat.
Proof. intros Hh. unfold lan_fresh. apply max_list_elem_of_le in Hh. lia. Qed.

#[global, refine] Instance lan_laws : TransportLaws lan nat := { opened := lOpen; log := lan_log }.
Proof.
  - by intros t t' e [= <- <-].
  - done.
  - intros t a t' h [= <- <-]. split_and!; [done| | |done].
    + intros Hh. assert (lan_fresh t < lan_fresh t)%nat; [|lia]. apply lan_fresh_lt. rewrite elem_of_app. auto.
    + unfold lan_log. cbn. rewrite filter_none; [done|]. intros x Hx E.
      assert (x.1 < lan_fresh t)%nat; [|lia]. apply lan_fresh_lt. rewrite elem_of_app. right.
      change (map ?f ?l) with (f <$> l). by apply list_elem_of_fmap_2.
  - by intros t h t' e [= <- <-].
  - intros t h f t' e [= <- <-]. unfold lan_log. cbn. split_and!; [done| |]; intros; rewrite filter_app, map_app.
    + cbn. by rewrite decide_True.
    + rewrite filter_cons_False, filter_nil, app_nil_r; done.
  - by intros t h t' r [= <- <-].
  - intros t h l Hl. split; [by apply remove_first_perm|done].
Defined.

(** A password and no idle connections up front. *)
Definition demo_opts (addr : bytes) : Options := mkOptions 0 2 false [] (B "secret") false.

(** The first Get dials and authenticates; the connection is used, given back and taken again; a
    refused AUTH closes the socket. *)
Example demo_backend :
  let t := mkLan [inr (SimpleString (B "OK")); inr (Integer 1); inr (RError (B "ERR invalid password"))] [] [] in
  let n := net_run demo_opts [NGet (B "a:1"); NWrite 0 (B "x"); NRead 0; NPut 0; NGet (B "a:1"); NGet (B "b:1")] t in
  map bcSock (nHeld n) = [1%nat] ∧ lOpen (nTr n) = [1%nat]
  ∧ lan_log (nTr n) 1 = [EncodeCommand [] [BS "AUTH"; BS "secret"]; B "x"].
Proof. cbv zeta. split_and!; vm_refl. Qed.
