(* ===== verification/PubSub.v ===== *)
(** * internal/pubsub/pubsub.go: subscribe sessions

    A client that subscribes gets a [pubsub] session: the channels it follows with the node each was
    subscribed on, and one backend connection per node.  For every backend connection a goroutine
    ([forward]) reads values and hands acknowledgements to the command that waits for them, messages
    to the client, and, after a forced unsubscription, starts a goroutine that subscribes again.

    The command handlers are functions on the session, the router and the network.  Goroutines are
    explicit: [forward_read] is one round of the reader of a backend, [resub] the goroutine that
    subscribes again; a handler that waits for an acknowledgement lets its reader run for at most
    [patience] rounds, after which its timer has expired.  The channels for acknowledgements and pushes
    have no bound here (in the code a reader blocks when 16 acknowledgements or 64 messages are
    waiting).  [bytes.EqualFold] is modelled on ASCII. *)

From Stdlib Require Import ZArith Lia Strings.Byte Permutation.
From stdpp Require Import base list strings numbers option sets gmap.
From S2P Require Import Prelude Resp RespTheory Slot Command Topology Router.

(** ** Values *)

Inductive Mode := ModePassthrough | ModeShardedRewrite.
#[global] Instance Mode_eq_dec : EqDecision Mode.
Proof. solve_decision. Defined.

(** [len(v.Values) == 0] or the bytes of [v.Values[0]]. *)
Definition kind_of (v : value) : option bytes := content ∘ vStr <$> head (vValues v).

Definition is_kind (v : value) (lits : list string) : bool :=
  match kind_of v with
  | None => false
  | Some k => existsb (fun l => EqualFoldASCII k (B l)) lits
  end.

Definition aggregate (v : value) : bool := (vType v ==b TypeArray) || (vType v ==b TypePush).

Definition isAck (v : value) : bool :=
  aggregate v && is_kind v
    ["subscribe"; "ssubscribe"; "unsubscribe"; "sunsubscribe"; "psubscribe"; "punsubscribe"].

Definition isUnsub (v : value) : bool := is_kind v ["unsubscribe"; "sunsubscribe"].

Definition set_str (s : slice) (v : value) : value :=
  mkValue (vType v) s (vInt v) (vValues v) (vRaw v) (vNull v).

(** [v.Values[0].Str = name; v.Raw = nil]. *)
Definition set_kind (name : string) (v : value) : value :=
  mkValue (vType v) (vStr v) (vInt v)
    (match vValues v with x :: l => set_str (BS name) x :: l | [] => [] end) [] (vNull v).

Definition rewriteIncoming (v : value) : value :=
  if negb (aggregate v) then v
  else if is_kind v ["smessage"] then set_kind "message" v
  else if is_kind v ["ssubscribe"] then set_kind "subscribe" v
  else if is_kind v ["sunsubscribe"] then set_kind "unsubscribe" v
  else v.

Definition ack_reply (kind : bytes) (ch : slice) (count : Z) : value :=
  Array [BulkString (Some kind); BulkString ch; Integer count].

Definition clientAck (v : value) (kind : bytes) (ch : slice) (count : Z) (rewrite : bool) : value :=
  if negb rewrite && negb (Nat.eqb (length (vRaw v)) 0) then v else ack_reply kind ch count.

Definition RewritePublish (flavor : Flavor) (argv : list slice) : list slice * bool :=
  if negb (flavor ==b FlavorDragonfly) || (argc argv <? 2) then (argv, false)
  else if negb (ClassifyPubSub (arg argv 0) ==b PubSubPublish) then (argv, false)
  else (<[0%nat := BS "SPUBLISH"]> argv, true).

(** ** Sessions *)

Section PubSub.
Context {W C : Type} `{!Network W C} (cfg : RouterConfig).

(** [beLive]: the reader goroutine has not ended. *)
Record backend := mkBackend { bePool : bytes; beConn : C; beAcks : list value; beLive : bool }.

(** [psPushed] are the values sent on the push channel, [psResubs] the goroutines started by
    [maybeResub] that have not run yet. *)
Record pubsub := mkPubSub {
  psMode : Mode; psSubs : gmap bytes bytes; psBackends : gmap bytes backend; psCount : Z;
  psPushed : list value; psResubs : list bytes }.

Definition set_subs (subs : gmap bytes bytes) (count : Z) (p : pubsub) : pubsub :=
  mkPubSub (psMode p) subs (psBackends p) count (psPushed p) (psResubs p).
Definition set_backend (addr : bytes) (be : backend) (p : pubsub) : pubsub :=
  mkPubSub (psMode p) (psSubs p) (<[addr := be]> (psBackends p)) (psCount p) (psPushed p) (psResubs p).
Definition add_push (v : value) (p : pubsub) : pubsub :=
  mkPubSub (psMode p) (psSubs p) (psBackends p) (psCount p) (psPushed p ++ [v]) (psResubs p).
Definition set_resubs (l : list bytes) (p : pubsub) : pubsub :=
  mkPubSub (psMode p) (psSubs p) (psBackends p) (psCount p) (psPushed p) l.
Definition set_acks (l : list value) (be : backend) : backend :=
  mkBackend (bePool be) (beConn be) l (beLive be).
Definition set_live (b : bool) (be : backend) : backend :=
  mkBackend (bePool be) (beConn be) (beAcks be) b.

Definition NewSession (r : Router) : pubsub :=
  mkPubSub (if Router_Flavor r ==b FlavorDragonfly then ModeShardedRewrite else ModePassthrough)
    ∅ ∅ 0 [] [].

Definition sharded (p : pubsub) : bool := psMode p ==b ModeShardedRewrite.

(** The channel to subscribe to again, if the value is about one that is still followed. *)
Definition maybeResub (p : pubsub) (v : value) : option bytes :=
  match vValues v with
  | _ :: c :: _ => let ch := content (vStr c) in
                   match psSubs p !! ch with Some _ => Some ch | None => None end
  | _ => None
  end.

(** What the reader of the backend [be] at [addr] does with a value. *)
Definition forward_value (p : pubsub) (addr : bytes) (be : backend) (v : value) : pubsub :=
  let v' := if sharded p then rewriteIncoming v else v in
  if isAck v then
    match (if isUnsub v' then maybeResub p v' else None) with
    | Some ch => set_resubs (psResubs p ++ [ch]) p
    | None => set_backend addr (set_acks (beAcks be ++ [v']) be) p
    end
  else add_push v' p.

(** One round of [forward]: read a value; the end of the stream ends the goroutine, other errors
    are retried. *)
Definition forward_read (p : pubsub) (w : W) (addr : bytes) (be : backend) : pubsub * W :=
  if negb (beLive be) then (p, w) else
  match net_ctx w with
  | Some _ => (set_backend addr (set_live false be) p, w)
  | None =>
    let '(w, res) := net_read w (beConn be) in
    match res with
    | inl e => if e ==b B "EOF" then (set_backend addr (set_live false be) p, w) else (p, w)
    | inr v => (forward_value p addr be v, w)
    end
  end.

Definition ack_timeout : bytes := B "timeout waiting for subscribe ack".

Fixpoint waitAck (patience : nat) (p : pubsub) (w : W) (addr : bytes) : pubsub * W * (bytes + value) :=
  match psBackends p !! addr with
  | None => (p, w, inl ack_timeout)
  | Some be =>
    match beAcks be with
    | v :: rest => (set_backend addr (set_acks rest be) p, w, inr v)
    | [] =>
      match net_ctx w with
      | Some e => (p, w, inl e)
      | None =>
        match patience with
        | O => (p, w, inl ack_timeout)
        | S n => let '(p, w) := forward_read p w addr be in waitAck n p w addr
        end
      end
    end
  end.

Definition ensureBackend (p : pubsub) (r : Router) (w : W) (addr : bytes) :
  pubsub * Router * W * (bytes + backend) :=
  match psBackends p !! addr with
  | Some be => (p, r, w, inr be)
  | None =>
      let '(r, w, got) := CheckoutAddr cfg r w addr in
      match got with
      | inl e => (p, r, w, inl e)
      | inr (c, a) => let be := mkBackend a c [] true in (set_backend addr be p, r, w, inr be)
      end
  end.

(** The node of a channel. *)
Definition channel_node (r : Router) (ch : slice) : option Node :=
  match Router_NodeForSlot cfg r (key_slot cfg ch) false with
  | Some n => Some n
  | None => AnyMaster cfg r
  end.

(** [if _, exists := s.subs[ch]; !exists { s.count++ }; s.subs[ch] = addr]. *)
Definition track (ch addr : bytes) (p : pubsub) : pubsub :=
  set_subs (<[ch := addr]> (psSubs p))
    (match psSubs p !! ch with Some _ => psCount p | None => psCount p + 1 end) p.

(** [delete(s.subs, ch); if s.count > 0 { s.count-- }]. *)
Definition untrack (ch : bytes) (p : pubsub) : pubsub :=
  set_subs (delete ch (psSubs p)) (if 0 <? psCount p then psCount p - 1 else psCount p) p.

Definition err_reply (e : bytes) : value := RError (B "ERR " ++ e).

(** Write a command on a backend of the session and wait for its acknowledgement. *)
Definition write_wait (patience : nat) (p : pubsub) (w : W) (addr : bytes) (c : C) (argv : list slice) :
  pubsub * W * (bytes + value) :=
  let '(w, err) := net_write w c (EncodeCommand [] argv) in
  match err with
  | Some e => (p, w, inl e)
  | None => waitAck patience p w addr
  end.

(** The loop of [subscribe]; on a failure only its error is returned. *)
Fixpoint subscribe_go (patience : nat) (cmd kind : bytes) (rewrite : bool) (channels : list slice)
  (replies : list value) (p : pubsub) (r : Router) (w : W) : pubsub * Router * W * list value :=
  match channels with
  | [] => (p, r, w, replies)
  | ch :: rest =>
    match channel_node r ch with
    | None => (p, r, w, [err_reply no_backend])
    | Some n =>
      let '(p, r, w, got) := ensureBackend p r w (nAddr n) in
      match got with
      | inl e => (p, r, w, [err_reply e])
      | inr be =>
        let '(p, w, ack) := write_wait patience p w (nAddr n) (beConn be) [Some cmd; ch] in
        match ack with
        | inl e => (p, r, w, [err_reply e])
        | inr ack =>
            let p := track (content ch) (nAddr n) p in
            subscribe_go patience cmd kind rewrite rest
              (replies ++ [clientAck ack kind ch (psCount p) rewrite]) p r w
        end
      end
    end
  end.

Definition sub_cmd (p : pubsub) (fromGlobal : bool) (base : string) : bytes :=
  if (sharded p && fromGlobal) || negb fromGlobal then B ("S" ++ base) else B base.

Definition subscribe (patience : nat) (p : pubsub) (r : Router) (w : W) (channels : list slice)
  (fromGlobal : bool) : pubsub * Router * W * list value :=
  match channels with
  | [] => (p, r, w, [RError (B "ERR wrong number of arguments for 'subscribe' command")])
  | _ =>
      subscribe_go patience (sub_cmd p fromGlobal "SUBSCRIBE")
        (if fromGlobal then B "subscribe" else B "ssubscribe")
        (sharded p && fromGlobal) channels [] p r w
  end.

(** One channel of [unsubscribe]: the write error is ignored, a missing acknowledgement too. *)
Definition unsubscribe_one (patience : nat) (cmd kind : bytes) (rewrite : bool) (p : pubsub) (w : W)
  (ch : slice) : pubsub * W * value :=
  let addr := default [] (psSubs p !! content ch) in
  match psBackends p !! addr with
  | Some be =>
      let '(w, _) := net_write w (beConn be) (EncodeCommand [] [Some cmd; ch]) in
      let '(p, w, ack) := waitAck patience p w addr in
      let p := untrack (content ch) p in
      (p, w, match ack with
             | inr ack => clientAck ack kind ch (psCount p) rewrite
             | inl _ => ack_reply kind ch (psCount p)
             end)
  | None =>
      let p := untrack (content ch) p in
      (p, w, ack_reply kind ch (psCount p))
  end.

Fixpoint unsubscribe_go (patience : nat) (cmd kind : bytes) (rewrite : bool) (channels : list slice)
  (replies : list value) (p : pubsub) (w : W) : pubsub * W * list value :=
  match channels with
  | [] => (p, w, replies)
  | ch :: rest =>
      let '(p, w, v) := unsubscribe_one patience cmd kind rewrite p w ch in
      unsubscribe_go patience cmd kind rewrite rest (replies ++ [v]) p w
  end.

(** Without arguments all channels are unsubscribed, in the order [order] of the map's iteration. *)
Definition unsubscribe (patience : nat) (order : list bytes) (p : pubsub) (w : W)
  (channels : list slice) (fromGlobal : bool) : pubsub * W * list value :=
  let channels := match channels with [] => map Some order | _ => channels end in
  unsubscribe_go patience (sub_cmd p fromGlobal "UNSUBSCRIBE")
    (if fromGlobal then B "unsubscribe" else B "sunsubscribe")
    (sharded p && fromGlobal) channels [] p w.

Definition roundTrip (patience : nat) (p : pubsub) (r : Router) (w : W) (argv : list slice) :
  pubsub * Router * W * list value :=
  match AnyMaster cfg r with
  | None => (p, r, w, [err_reply no_backend])
  | Some n =>
      let '(p, r, w, got) := ensureBackend p r w (nAddr n) in
      match got with
      | inl e => (p, r, w, [err_reply e])
      | inr be =>
          let '(p, w, ack) := write_wait patience p w (nAddr n) (beConn be) argv in
          (p, r, w, match ack with inl e => [err_reply e] | inr v => [v] end)
      end
  end.

Definition HandleClientCmd (patience : nat) (order : list bytes) (p : pubsub) (r : Router) (w : W)
  (argv : list slice) : pubsub * Router * W * (bytes + list value) :=
  match argv with
  | [] => (p, r, w, inl (B "empty"))
  | a0 :: rest =>
    let op := ClassifyPubSub (content a0) in
    let '(p, r, w, replies) :=
      match op with
      | PubSubPSubscribe | PubSubPUnsubscribe =>
          if sharded p
          then (p, r, w, [RError (B "ERR PSUBSCRIBE is not supported against Dragonfly cluster")])
          else roundTrip patience p r w argv
      | PubSubSubscribe | PubSubSSubscribe =>
          subscribe patience p r w rest (op ==b PubSubSubscribe)
      | PubSubUnsubscribe | PubSubSUnsubscribe =>
          let '(p, w, l) := unsubscribe patience order p w rest (op ==b PubSubUnsubscribe) in
          (p, r, w, l)
      | _ => (p, r, w, [RError (B "ERR only (UN)SUBSCRIBE / PING / QUIT allowed in this mode")])
      end in
    (p, r, w, inr replies)
  end.

(** The goroutine [maybeResub] starts; its replies are discarded. *)
Definition resub (patience : nat) (p : pubsub) (r : Router) (w : W) : pubsub * Router * W :=
  match psResubs p with
  | [] => (p, r, w)
  | ch :: rest => (subscribe patience (set_resubs rest p) r w [Some ch] true).1
  end.

Definition Close (p : pubsub) (w : W) : pubsub * W :=
  (mkPubSub (psMode p) ∅ ∅ (psCount p) (psPushed p) (psResubs p),
   fold_left (fun w be => net_drop w (bePool be) (beConn be)) (map snd (map_to_list (psBackends p))) w).
End PubSub.
Arguments backend : clear implicits.
Arguments pubsub : clear implicits.

(** ** Runs of a session *)

(** What can happen to a session, one after the other: a client command, a round of the reader of
    one backend, the start of a pending resubscription. *)
Inductive ps_event :=
| EvCmd (patience : nat) (order : list bytes) (argv : list slice)
| EvRead (addr : bytes)
| EvResub (patience : nat).

Section Runs.
Context {W C : Type} `{!Network W C} (cfg : RouterConfig).

Definition ps_step (st : pubsub C * Router * W) (e : ps_event) : pubsub C * Router * W :=
  let '(p, r, w) := st in
  match e with
  | EvCmd n order argv => (HandleClientCmd cfg n order p r w argv).1
  | EvRead addr =>
      match psBackends p !! addr with
      | Some be => let '(p, w) := forward_read p w addr be in (p, r, w)
      | None => st
      end
  | EvResub n => resub cfg n p r w
  end.

Definition ps_run (evs : list ps_event) (r : Router) (w : W) : pubsub C * Router * W :=
  fold_left ps_step evs (NewSession r, r, w).
End Runs.

(** ** Invariants

    A property of the session and the network is an invariant of every command, reader round and
    resubscription when the elementary effects preserve it. *)

Section Invariants.
Context {W C : Type} `{!Network W C} (cfg : RouterConfig).
Implicit Types (p : pubsub C) (be : backend C) (w : W).

Record ps_inv (I : pubsub C -> W -> Prop) : Prop := mkPsInv {
  inv_set p w addr be acks live : I p w -> psBackends p !! addr = Some be ->
    I (set_backend addr (mkBackend (bePool be) (beConn be) acks live) p) w;
  inv_push p w v : I p w -> I (add_push (if sharded p then rewriteIncoming v else v) p) w;
  inv_resubs p w l : I p w -> I (set_resubs l p) w;
  inv_track p w ch addr : I p w -> I (track ch addr p) w;
  inv_untrack p w ch : I p w -> I (untrack ch p) w;
  inv_new p w addr w' c : I p w -> psBackends p !! addr = None ->
    net_get w (rewrite_addr cfg addr) = (w', inr c) ->
    I (set_backend addr (mkBackend (rewrite_addr cfg addr) c [] true) p) w';
  inv_get_fails p w addr w' e : I p w -> net_get w addr = (w', inl e) -> I p w';
  inv_read p w addr be w' res : I p w -> psBackends p !! addr = Some be ->
    net_read w (beConn be) = (w', res) -> I p w';
  inv_write p w addr be f w' res : I p w -> psBackends p !! addr = Some be ->
    net_write w (beConn be) f = (w', res) -> I p w' }.

Context (I : pubsub C -> W -> Prop) (HI : ps_inv I).

Lemma forward_value_inv p w addr be v :
  I p w -> psBackends p !! addr = Some be -> I (forward_value p addr be v) w.
Proof.
  intros H Hb. unfold forward_value. destruct (isAck v); [|by apply HI].
  destruct (if isUnsub _ then _ else _); [by apply HI|]. by apply (inv_set I HI).
Qed.

Lemma forward_read_inv p w addr be p' w' :
  forward_read p w addr be = (p', w') -> psBackends p !! addr = Some be -> I p w -> I p' w'.
Proof.
  unfold forward_read. intros E Hb H. destruct (beLive be) eqn:L; cbn [negb] in E; [|by simplify_eq].
  destruct (net_ctx w); [simplify_eq; by apply (inv_set I HI)|].
  destruct (net_read w (beConn be)) as [w1 res] eqn:R. eapply inv_read in R; [|done..].
  destruct res as [e|v]; [case_if|]; simplify_eq; [by apply (inv_set I HI)|done|by apply forward_value_inv].
Qed.

Lemma waitAck_inv n p w addr p' w' res :
  waitAck n p w addr = (p', w', res) -> I p w -> I p' w'.
Proof.
  revert p w. induction n as [|n IH]; intros p w; cbn [waitAck];
    (destruct (psBackends p !! addr) as [be|] eqn:Hb; [|by intros [= <- <- <-]]);
    (destruct (beAcks be) as [|v rest]; [|intros [= <- <- <-] H; by apply (inv_set I HI)]);
    (destruct (net_ctx w); [by intros [= <- <- <-]|]); [by intros [= <- <- <-]|].
  destruct (forward_read p w addr be) as [p1 w1] eqn:F. intros H Hp. eapply IH; [done|].
  by eapply forward_read_inv.
Qed.

Lemma write_wait_inv n p w addr be argv p' w' res :
  write_wait n p w addr (beConn be) argv = (p', w', res) -> psBackends p !! addr = Some be ->
  I p w -> I p' w'.
Proof.
  unfold write_wait. destruct (net_write w (beConn be) _) as [w1 err] eqn:E. intros H Hb Hp.
  eapply inv_write in E; [|done..]. destruct err; [by simplify_eq|]. by eapply waitAck_inv.
Qed.

Lemma CheckoutAddr_eq r w addr :
  CheckoutAddr cfg r w addr
  = let '(w, got) := net_get w (rewrite_addr cfg addr) in
    ((poolFor cfg r addr false).1, w,
     match got with inl e => inl e | inr c => inr (c, rewrite_addr cfg addr) end).
Proof. unfold CheckoutAddr, poolFor. by destruct (pools r !! _). Qed.

Lemma ensureBackend_inv p r w addr p' r' w' res :
  ensureBackend cfg p r w addr = (p', r', w', res) -> I p w ->
  I p' w' ∧ forall be, res = inr be -> psBackends p' !! addr = Some be.
Proof.
  unfold ensureBackend. destruct (psBackends p !! addr) as [be|] eqn:Hb.
  { intros [= <- <- <- <-] H. split; [done|]. by intros ? [= <-]. }
  rewrite CheckoutAddr_eq. destruct (net_get w _) as [w1 [e|c]] eqn:G; intros [= <- <- <- <-] H.
  - split; [by eapply inv_get_fails|done].
  - split; [by eapply inv_new|]. intros ? [= <-]. apply lookup_insert_eq.
Qed.

Lemma subscribe_inv n p r w channels g p' r' w' out :
  subscribe cfg n p r w channels g = (p', r', w', out) -> I p w -> I p' w'.
Proof.
  unfold subscribe. destruct channels as [|ch0 rest0]; [by intros [= <- <- <- <-]|].
  generalize (sub_cmd p g "SUBSCRIBE") as cmd, (if g then B "subscribe" else B "ssubscribe") as kind,
    (sharded p && g) as rw, (@nil value) as replies, (ch0 :: rest0) as channels.
  intros cmd kind rw replies channels. revert replies p r w.
  induction channels as [|ch rest IH]; intros replies p r w; cbn [subscribe_go]; [by intros [= <- <- <- <-]|].
  destruct (channel_node cfg r ch) as [nd|]; [|by intros [= <- <- <- <-]].
  destruct (ensureBackend cfg p r w (nAddr nd)) as [[[p1 r1] w1] got] eqn:E. intros H Hp.
  eapply ensureBackend_inv in E as [E1 E2]; [|done]. destruct got as [e|be]; [by simplify_eq|].
  destruct (write_wait n p1 w1 (nAddr nd) (beConn be) _) as [[p2 w2] ack] eqn:A.
  eapply write_wait_inv in A; [|by apply E2|done]. destruct ack as [e|ack]; [by simplify_eq|].
  eapply IH; [done|]. by apply HI.
Qed.

Lemma unsubscribe_inv n order p w channels g p' w' out :
  unsubscribe n order p w channels g = (p', w', out) -> I p w -> I p' w'.
Proof.
  unfold unsubscribe.
  generalize (sub_cmd p g "UNSUBSCRIBE") as cmd, (if g then B "unsubscribe" else B "sunsubscribe") as kind,
    (sharded p && g) as rw, (@nil value) as replies, (match channels with [] => map Some order | _ => channels end) as l.
  intros cmd kind rw replies l. revert replies p w.
  induction l as [|ch rest IH]; intros replies p w; cbn [unsubscribe_go]; [by intros [= <- <- <-]|].
  destruct (unsubscribe_one n cmd kind rw p w ch) as [[p1 w1] v] eqn:E. intros H Hp.
  eapply IH; [done|]. revert E. unfold unsubscribe_one.
  destruct (psBackends p !! _) as [be|] eqn:Hb; [|intros [= <- <- <-]; by apply HI].
  destruct (net_write w (beConn be) _) as [w2 err] eqn:A. eapply inv_write in A; [|done..].
  destruct (waitAck n p w2 _) as [[p2 w3] ack] eqn:A2. apply waitAck_inv in A2; [|done].
  intros [= <- <- <-]. by apply HI.
Qed.

Lemma roundTrip_inv n p r w argv p' r' w' out :
  roundTrip cfg n p r w argv = (p', r', w', out) -> I p w -> I p' w'.
Proof.
  unfold roundTrip. destruct (AnyMaster cfg r) as [nd|]; [|by intros [= <- <- <- <-]].
  destruct (ensureBackend cfg p r w (nAddr nd)) as [[[p1 r1] w1] got] eqn:E. intros H Hp.
  eapply ensureBackend_inv in E as [E1 E2]; [|done]. destruct got as [e|be]; [by simplify_eq|].
  destruct (write_wait n p1 w1 (nAddr nd) (beConn be) argv) as [[p2 w2] ack] eqn:A.
  eapply write_wait_inv in A; [|by apply E2|done]. by simplify_eq.
Qed.

Lemma HandleClientCmd_inv n order p r w argv p' r' w' out :
  HandleClientCmd cfg n order p r w argv = (p', r', w', out) -> I p w -> I p' w'.
Proof.
  unfold HandleClientCmd. destruct argv as [|a0 rest]; [by intros [= <- <- <- <-]|].
  destruct (match ClassifyPubSub _ with PubSubNone => _ | _ => _ end) as [[[p1 r1] w1] l] eqn:E.
  intros [= <- <- <- <-] Ho. revert E.
  destruct (ClassifyPubSub (content a0)); try (by intros [= <- <- <- <-]);
    try (destruct (sharded p); [by intros [= <- <- <- <-]|intros E; by eapply roundTrip_inv]);
    try (intros E; by eapply subscribe_inv);
    (destruct (unsubscribe _ _ _ _ _ _) as [[p2 w2] l2] eqn:E2; intros [= <- <- <- <-];
     by eapply unsubscribe_inv).
Qed.

Lemma resub_inv n p r w p' r' w' : resub cfg n p r w = (p', r', w') -> I p w -> I p' w'.
Proof.
  unfold resub. destruct (psResubs p) as [|ch rest]; [by intros [= <- <- <-]|].
  destruct (subscribe _ _ _ _ _ _ _) as [[[p1 r1] w1] out] eqn:E. intros [= <- <- <-] Hp.
  eapply subscribe_inv; [done|]. by apply HI.
Qed.

Lemma run_inv evs r w : I (NewSession r) w -> let '(p, _, w') := ps_run cfg evs r w in I p w'.
Proof.
  unfold ps_run. intros H. assert (forall st, (let '(p, _, w) := st in I p w) ->
    let '(p, _, w) := fold_left (ps_step cfg) evs st in I p w) as G; [|by apply G].
  clear H. induction evs as [|e evs IH]; intros [[p r1] w1] H; [done|]. cbn [fold_left]. apply IH.
  destruct e as [n order argv|addr|n]; cbn [ps_step].
  - destruct (HandleClientCmd cfg n order p r1 w1 argv) as [[[p' r'] w'] out] eqn:E. cbn.
    by eapply HandleClientCmd_inv.
  - destruct (psBackends p !! addr) as [be|] eqn:Hb; [|done].
    destruct (forward_read p w1 addr be) as [p' w'] eqn:E. by eapply forward_read_inv.
  - destruct (resub cfg n p r1 w1) as [[p' r'] w'] eqn:E. by eapply resub_inv.
Qed.
End Invariants.

(** *** The connections of a session *)

Section Ownership.
Context {W C : Type} `{!Network W C} `{!NetworkLaws W C} (cfg : RouterConfig).
Implicit Types (p : pubsub C) (be : backend C) (w : W).

Definition ps_conns p : list C := map beConn (map snd (map_to_list (psBackends p))).

Lemma conns_insert (m : gmap bytes (backend C)) addr be :
  m !! addr = None ->
  map beConn (map snd (map_to_list (<[addr := be]> m)))
  ≡ₚ beConn be :: map beConn (map snd (map_to_list m)).
Proof. intros H. by rewrite map_to_list_insert. Qed.

(** Replacing a backend keeps the connections when it keeps its connection. *)
Lemma conns_update p addr be be' :
  psBackends p !! addr = Some be -> beConn be' = beConn be ->
  ps_conns (set_backend addr be' p) ≡ₚ ps_conns p.
Proof.
  intros H Hc. unfold ps_conns. cbn [psBackends set_backend].
  rewrite <- (insert_delete_id (psBackends p) addr be H) at 2.
  rewrite <- insert_delete_eq, !conns_insert by apply lookup_delete_eq. by rewrite Hc.
Qed.

(** The session owns its backend connections; [base] is held by the rest of the program.  Every
    backend's connection goes to the address it is filed under. *)
Definition owns (base : list C) p w : Prop :=
  held w ≡ₚ ps_conns p ++ base
  ∧ forall addr be, psBackends p !! addr = Some be -> conn_addr (beConn be) = rewrite_addr cfg addr.

Lemma owns_inv base : ps_inv cfg (owns base).
Proof.
  unfold owns. split; try done.
  - intros p w addr be acks live [H1 H2] Hb. split; [by rewrite (conns_update p addr be)|].
    intros a b. cbn. destruct (decide (a = addr)) as [->|Hn].
    + rewrite lookup_insert_eq. intros [= <-]. cbn. by apply H2.
    + rewrite lookup_insert_ne by done. apply H2.
  - intros p w addr w' c [H1 H2] Hb (G1 & G2 & G3)%get_ok. split.
    + unfold ps_conns. cbn [psBackends set_backend]. rewrite conns_insert by done. by rewrite G1, H1.
    + intros a b. cbn. destruct (decide (a = addr)) as [->|Hn].
      * rewrite lookup_insert_eq. by intros [= <-].
      * rewrite lookup_insert_ne by done. apply H2.
  - intros p w addr w' e [H1 H2] [-> _]%get_fails. done.
  - intros p w addr be w' res [H1 H2] _ [-> _]%read_keeps. done.
  - intros p w addr be f w' res [H1 H2] _ [-> _]%write_sends. done.
Qed.

Lemma owns_new r w : owns (held w) (NewSession r) w.
Proof. split; [|done]. unfold ps_conns. cbn. by rewrite map_to_list_empty. Qed.

Lemma drop_all base (l : list (backend C)) w :
  held w ≡ₚ map beConn l ++ base ->
  held (fold_left (fun w be => net_drop w (bePool be) (beConn be)) l w) ≡ₚ base
  ∧ sent (fold_left (fun w be => net_drop w (bePool be) (beConn be)) l w) = sent w.
Proof.
  revert w. induction l as [|be l IH]; intros w H; [done|]. cbn [fold_left].
  destruct (drop_returns w (bePool be) (beConn be) _ H) as [D1 D2]. rewrite <- D2. by apply IH.
Qed.

Lemma Close_owns base p w :
  owns base p w -> held (Close p w).2 ≡ₚ base ∧ sent (Close p w).2 = sent w.
Proof. intros [H _]. by apply drop_all. Qed.
End Ownership.

(** *** The kinds of what a client receives *)

Definition sharded_kinds : list string := ["smessage"; "ssubscribe"; "sunsubscribe"].
Definition plain (v : value) : Prop := aggregate v = true -> is_kind v sharded_kinds = false.

Lemma set_kind_plain v name :
  existsb (fun l => EqualFoldASCII (B name) (B l)) sharded_kinds = false -> plain (set_kind name v).
Proof.
  intros H _. unfold is_kind, kind_of, set_kind. destruct (vValues v); [done|]. cbn [vValues]. exact H.
Qed.

Lemma is_kind_cons v l ls : is_kind v (l :: ls) = is_kind v [l] || is_kind v ls.
Proof. unfold is_kind. destruct (kind_of v); [|done]. cbn. by rewrite orb_false_r. Qed.

Lemma rewriteIncoming_plain v : plain (rewriteIncoming v).
Proof.
  unfold rewriteIncoming. destruct (aggregate v) eqn:A; cbn [negb]; [|by unfold plain; rewrite A].
  destruct (is_kind v ["smessage"]) eqn:E1; [by apply set_kind_plain|].
  destruct (is_kind v ["ssubscribe"]) eqn:E2; [by apply set_kind_plain|].
  destruct (is_kind v ["sunsubscribe"]) eqn:E3; [by apply set_kind_plain|].
  intros _. unfold sharded_kinds. rewrite is_kind_cons, (is_kind_cons _ _ ["sunsubscribe"]).
  by rewrite E1, E2, E3.
Qed.

(** The mode does not change, and in sharded mode everything pushed is plain. *)
Definition pushes_plain {W C} (m : Mode) (p : pubsub C) (w : W) : Prop :=
  psMode p = m ∧ (m = ModeShardedRewrite -> Forall plain (psPushed p)).

Lemma plain_inv {W C} `{!Network W C} cfg m : ps_inv (W := W) (C := C) cfg (pushes_plain m).
Proof.
  split; try done. intros p w v [Hm Hp]. split; [done|]. intros ->. cbn. apply Forall_app.
  split; [by apply Hp|]. unfold sharded. rewrite Hm, bool_decide_true by done.
  constructor; [apply rewriteIncoming_plain|constructor].
Qed.

(** ** Subscribing *)

(** The counter is the number of channels. *)
Definition exact {C} (p : pubsub C) : Prop := psCount p = Z.of_nat (size (psSubs p)).

Lemma track_exact {C} ch addr (p : pubsub C) : exact p -> exact (track ch addr p).
Proof.
  unfold exact, track. cbn. intros H. destruct (psSubs p !! ch) eqn:E.
  - by rewrite map_size_insert_Some.
  - rewrite map_size_insert_None by done. lia.
Qed.

Lemma untrack_exact {C} ch (p : pubsub C) :
  is_Some (psSubs p !! ch) -> exact p -> exact (untrack ch p).
Proof.
  unfold exact, untrack. cbn. intros Hs H. rewrite map_size_delete_Some by done.
  assert (size (psSubs p) ≠ 0%nat) by (intros Hz%map_size_empty_inv; rewrite Hz in Hs; by destruct Hs).
  case_if; bool_simp; lia.
Qed.

Section Subscribing.
Context {W C : Type} `{!Network W C} `{!NetworkLaws W C} (cfg : RouterConfig).
Implicit Types (p : pubsub C) (be : backend C) (w : W).

(** What waiting for an acknowledgement leaves alone. *)
Definition same_subs p p' : Prop :=
  psSubs p' = psSubs p ∧ psCount p' = psCount p ∧ psMode p' = psMode p.

Lemma forward_read_frame p w addr be p' w' :
  forward_read p w addr be = (p', w') -> same_subs p p' ∧ sent w' = sent w.
Proof.
  unfold forward_read. destruct (beLive be); cbn [negb]; [|by intros [= <- <-]].
  destruct (net_ctx w); [by intros [= <- <-]|].
  destruct (net_read w (beConn be)) as [w1 [e|v]] eqn:R; apply read_keeps in R as [_ R].
  - case_if; by intros [= <- <-].
  - intros [= <- <-]. split; [|done]. unfold forward_value.
    destruct (isAck v); [|done]. by destruct (if isUnsub _ then _ else _).
Qed.

Lemma waitAck_frame n p w addr p' w' res :
  waitAck n p w addr = (p', w', res) -> same_subs p p' ∧ sent w' = sent w.
Proof.
  revert p w. induction n as [|n IH]; intros p w; cbn [waitAck];
    (destruct (psBackends p !! addr) as [be|]; [|by intros [= <- <- <-]]);
    (destruct (beAcks be); [|by intros [= <- <- <-]]);
    (destruct (net_ctx w); [by intros [= <- <- <-]|]); [by intros [= <- <- <-]|].
  destruct (forward_read p w addr be) as [p1 w1] eqn:F. apply forward_read_frame in F as [(F1 & F2 & F3) F4].
  intros [(I1 & I2 & I3) I4]%IH. unfold same_subs. split_and!; congruence.
Qed.

Lemma write_wait_frame n p w addr c argv p' w' res :
  write_wait n p w addr c argv = (p', w', res) ->
  same_subs p p' ∧ sent w' = sent w ++ [(conn_addr c, EncodeCommand [] argv)].
Proof.
  unfold write_wait. destruct (net_write w c _) as [w1 err] eqn:E. apply write_sends in E as [_ E].
  destruct err; [by intros [= <- <- <-]|]. intros [? ->]%waitAck_frame. done.
Qed.

Lemma ensureBackend_frame p r w addr p' r' w' res :
  ensureBackend cfg p r w addr = (p', r', w', res) ->
  same_subs p p' ∧ sent w' = sent w ∧ slots r' = slots r.
Proof.
  unfold ensureBackend. destruct (psBackends p !! addr); [by intros [= <- <- <- <-]|].
  rewrite CheckoutAddr_eq. pose proof (poolFor_slots cfg r addr false) as Hp.
  destruct (net_get w _) as [w1 [e|c]] eqn:G; intros [= <- <- <- <-].
  - by apply get_fails in G as [_ ?].
  - by apply get_ok in G as (_ & ? & _).
Qed.

(** The address a channel is subscribed at. *)
Definition sub_target (r : Router) (ch : slice) : bytes :=
  match channel_node cfg r ch with Some n => rewrite_addr cfg (nAddr n) | None => [] end.

Lemma channel_node_slots r r' ch : slots r' = slots r -> channel_node cfg r' ch = channel_node cfg r ch.
Proof. unfold channel_node, Router_NodeForSlot, AnyMaster. by intros ->. Qed.

Lemma subscribe_go_ok base n cmd kind rw channels replies p r w p' r' w' out :
  subscribe_go cfg n cmd kind rw channels replies p r w = (p', r', w', out) ->
  owns cfg base p w ->
  (exact p -> exact p') ∧ exists k, (k <= length channels)%nat
  ∧ sent w' = sent w ++ map (fun ch => (sub_target r ch, EncodeCommand [] [Some cmd; ch])) (take k channels)
  ∧ (k = length channels ∧ (exists acks, out = replies ++ acks ∧ length acks = length channels)
     ∨ exists e, out = [err_reply e]).
Proof.
  revert replies p r w. induction channels as [|ch rest IH]; intros replies p r w; cbn [subscribe_go].
  { intros [= <- <- <- <-] Ho. split; [done|]. exists 0%nat. cbn. rewrite app_nil_r.
    split_and!; [lia|done|]. left. split; [done|]. exists []. by rewrite app_nil_r. }
  destruct (channel_node cfg r ch) as [nd|] eqn:En.
  2: { intros [= <- <- <- <-] Ho. split; [done|]. exists 0%nat. cbn. rewrite app_nil_r.
       split_and!; [lia|done|]. right. by eexists. }
  destruct (ensureBackend cfg p r w (nAddr nd)) as [[[p1 r1] w1] got] eqn:E. intros H Ho.
  pose proof E as E'. apply ensureBackend_frame in E' as ((S1 & S2 & S3) & S4 & S5).
  apply (ensureBackend_inv cfg _ (owns_inv cfg base)) in E as [E1 E2]; [|done].
  destruct got as [e|be].
  { simplify_eq. split; [unfold exact; congruence|]. exists 0%nat. cbn. rewrite app_nil_r. split_and!; [lia|done|]. right. by eexists. }
  assert (conn_addr (beConn be) = sub_target r ch) as Ha.
  { unfold sub_target. rewrite En. destruct E1 as [_ E1]. apply E1. by apply E2. }
  destruct (write_wait n p1 w1 (nAddr nd) (beConn be) _) as [[p2 w2] ack] eqn:A.
  pose proof A as A'. apply write_wait_frame in A' as ((T1 & T2 & T3) & T4).
  eapply (write_wait_inv cfg _ (owns_inv cfg base)) in A; [|by apply E2|done].
  assert (exact p -> exact p2) as He2 by (unfold exact; congruence).
  assert (sent w2 = sent w ++ [(sub_target r ch, EncodeCommand [] [Some cmd; ch])]) as Hs by congruence.
  destruct ack as [e|ack].
  { simplify_eq. split; [done|]. exists 1%nat. cbn. split_and!; [lia|done|]. right. by eexists. }
  apply IH in H as (H1 & k & Hk & H2 & H3); [|done].
  split; [intros He; by apply H1, track_exact, He2|]. exists (S k). cbn [take map length]. rewrite H2, Hs, <- app_assoc. split_and!; [lia| |].
  - f_equal. cbn [app]. f_equal. apply map_ext. intros c. unfold sub_target.
    by rewrite (channel_node_slots r r1).
  - destruct H3 as [(-> & acks & -> & L)|H3]; [left|by right]. split; [done|].
    eexists (_ :: acks). rewrite <- app_assoc. by cbn; rewrite L.
Qed.
End Subscribing.

(** ** Unsubscribing *)

Section Unsubscribing.
Context {W C : Type} `{!Network W C} (cfg : RouterConfig).
Implicit Types (p : pubsub C) (be : backend C) (w : W).

(** The backend [c] sends nothing more: reads fail, now and later. *)
Definition silent (c : C) (w : W) : Prop :=
  exists P : W -> Prop, P w ∧ forall w, P w -> net_ctx w = None ∧ exists e w', net_read w c = (w', inl e) ∧ P w'.

Lemma waitAck_silent n p w addr be :
  psBackends p !! addr = Some be -> beAcks be = [] -> silent (beConn be) w ->
  exists p' w', waitAck n p w addr = (p', w', inl ack_timeout)
  ∧ same_subs p p' ∧ psResubs p' = psResubs p.
Proof.
  intros Hb Ha (P & Hw & HP). revert p w be Hb Ha Hw HP.
  induction n as [|n IH]; intros p w be Hb Ha Hw HP; cbn [waitAck]; rewrite Hb, Ha;
    destruct (HP _ Hw) as [-> (e & w' & R & Hw')].
  { by eexists _, _. }
  unfold forward_read. destruct (beLive be) eqn:L; cbn [negb]; [|by eapply IH].
  destruct (HP _ Hw) as [-> _]. rewrite R. case_if; [|by eapply IH].
  destruct (IH (set_backend addr (set_live false be) p) w' (set_live false be)) as (p' & w2 & H1 & H2 & H3);
    [apply lookup_insert_eq|done|done|done|]. by exists p', w2.
Qed.

(** The acknowledgement a server sends for an unsubscription of [ch]. *)
Definition unsub_ack (name : string) (ch : bytes) (v : value) : Prop :=
  vType v = TypeArray ∧ exists a c rest, vValues v = a :: c :: rest ∧ content (vStr a) = B name
  ∧ content (vStr c) = ch.

Lemma unsub_ack_resub p addr be v name ch :
  name = "unsubscribe" ∨ name = "sunsubscribe" -> unsub_ack name ch v -> is_Some (psSubs p !! ch) ->
  forward_value p addr be v = set_resubs (psResubs p ++ [ch]) p.
Proof.
  intros Hn (Ht & a & c & rest & Hv & Ha & Hc) [x Hs].
  assert (kind_of v = Some (B name)) as Hk by (unfold kind_of; rewrite Hv; cbn; by rewrite Ha).
  unfold forward_value. assert (isAck v = true) as ->.
  { unfold isAck, is_kind, aggregate. rewrite Hk, Ht. destruct Hn as [->| ->]; vm_refl. }
  set (v' := if sharded p then _ else _).
  assert (isUnsub v' = true ∧ maybeResub p v' = Some ch) as [-> ->]; [|done].
  assert (isUnsub v = true ∧ maybeResub p v = Some ch) as G.
  { split; [unfold isUnsub, is_kind; rewrite Hk; destruct Hn as [->| ->]; vm_refl|].
    unfold maybeResub. by rewrite Hv, Hc, Hs. }
  unfold v'. destruct (sharded p); [|done]. unfold rewriteIncoming. case_if; [done|].
  assert (forall m, is_kind v [m] = EqualFoldASCII (B name) (B m) || false) as Hm
    by (intros m; unfold is_kind; by rewrite Hk).
  rewrite !Hm. destruct Hn as [->| ->].
  - repeat (match goal with |- context [if ?b then _ else _] =>
      let r := eval vm_compute in b in change b with r end; cbv iota). done.
  - repeat (match goal with |- context [if ?b then _ else _] =>
      let r := eval vm_compute in b in change b with r end; cbv iota).
    split; [|unfold maybeResub, set_kind; cbn; by rewrite Hv, Hc, Hs].
    unfold isUnsub, is_kind, kind_of, set_kind. rewrite Hv. vm_refl.
Qed.
End Unsubscribing.

(** ** Properties *)

Section PubSubProperties.
Context {W C : Type} `{!Network W C} `{!NetworkLaws W C} (cfg : RouterConfig).


(** C35: a client never sees sharded pub/sub.  On a Dragonfly cluster, where subscriptions are sent
    as SSUBSCRIBE, no message delivered to the client is an smessage, ssubscribe or sunsubscribe. *)
Theorem client_sees_plain_kinds (evs : list ps_event) (r : Router) (w : W)
  (Hf : Router_Flavor r = FlavorDragonfly) :
  let '(p, _, _) := ps_run (W := W) (C := C) cfg evs r w in
  Forall (fun v => aggregate v = true -> is_kind v ["smessage"; "ssubscribe"; "sunsubscribe"] = false)
    (psPushed p).
Proof.
  pose proof (run_inv cfg _ (plain_inv (W := W) (C := C) cfg ModeShardedRewrite) evs r w) as H.
  destruct (ps_run cfg evs r w) as [[p r'] w']. apply H; [|done].
  split; [|constructor]. cbn. by rewrite Hf.
Qed.

(** C34: subscriptions are sent to the owner of the channel.  From any state a session can reach,
    SUBSCRIBE writes one frame per channel, in order, each to the node that owns the channel's slot,
    and answers one reply per channel; if something fails it stops there and the only reply is the
    error. *)
Theorem subscribe_routed (evs : list ps_event) (r0 : Router) (w0 : W) (n : nat)
  (channels : list slice) (fromGlobal : bool) (Hc : channels ≠ []) :
  let '(p, r, w) := ps_run cfg evs r0 w0 in
  let '(_, _, w', out) := subscribe cfg n p r w channels fromGlobal in
  let cmd := sub_cmd p fromGlobal "SUBSCRIBE" in
  exists k, (k <= length channels)%nat
  ∧ sent w' = sent w ++ map (fun ch => (sub_target cfg r ch, EncodeCommand [] [Some cmd; ch])) (take k channels)
  ∧ (k = length channels ∧ length out = length channels ∨ exists e, out = [err_reply e]).
Proof.
  pose proof (run_inv cfg _ (owns_inv cfg (held w0)) evs r0 w0 (owns_new cfg r0 w0)) as H.
  destruct (ps_run cfg evs r0 w0) as [[p r] w].
  destruct (subscribe cfg n p r w channels fromGlobal) as [[[p' r'] w'] out] eqn:E. cbv zeta.
  unfold subscribe in E. destruct channels as [|ch rest]; [done|].
  eapply subscribe_go_ok in E as (_ & k & H1 & H2 & H3); [|done].
  exists k. split_and!; [done|done|]. destruct H3 as [(Hk & acks & -> & L)|H3]; [left|by right]. done.
Qed.

(** The subscription count is exact as long as clients unsubscribe from channels they follow:
    SUBSCRIBE and the unsubscription of a followed channel keep it equal to the number of channels;
    unsubscribing from another channel decrements it although no channel was removed. *)
Theorem subscription_count (base : list C) (n : nat) (p : pubsub C) (r : Router) (w : W)
  (Ho : owns cfg base p w) (He : psCount p = Z.of_nat (size (psSubs p))) :
  (forall channels g, let p' := (subscribe cfg n p r w channels g).1.1.1 in
     psCount p' = Z.of_nat (size (psSubs p')))
  ∧ (forall cmd kind rw ch, let p' := (unsubscribe_one n cmd kind rw p w ch).1.1 in
     psCount p' = Z.of_nat (size (psSubs p'))
       - (if bool_decide (is_Some (psSubs p !! content ch) ∨ psSubs p = ∅) then 0 else 1)).
Proof.
  split.
  - intros channels g. cbv zeta. destruct (subscribe cfg n p r w channels g) as [[[p' r'] w'] out] eqn:E.
    unfold subscribe in E. destruct channels as [|ch rest]; [by simplify_eq|].
    eapply subscribe_go_ok in E as [E _]; [|done]. by apply E.
  - intros cmd kind rw ch. cbv zeta.
    assert (exists p1, same_subs p p1 ∧ (unsubscribe_one n cmd kind rw p w ch).1.1 = untrack (content ch) p1)
      as (p1 & (S1 & S2 & S3) & ->).
    { unfold unsubscribe_one. destruct (psBackends p !! _) as [be|]; [|by exists p].
      destruct (net_write w (beConn be) _) as [w1 err].
      destruct (waitAck n p w1 _) as [[p1 w2] ack] eqn:A. apply waitAck_frame in A as [A _]. by exists p1. }
    case_bool_decide as D.
    + destruct (decide (is_Some (psSubs p !! content ch))) as [Hs|Hs].
      * rewrite Z.sub_0_r. apply untrack_exact; [by rewrite S1|]. unfold exact. by rewrite S1, S2.
      * destruct D as [D|D]; [done|]. cbn. rewrite S1, S2, He, D, delete_empty, map_size_empty. done.
    + cbn. rewrite S1, S2, He. rewrite delete_id by (apply eq_None_not_Some; tauto).
      assert (size (psSubs p) ≠ 0%nat) by (intros Hz%map_size_empty_inv; tauto).
      case_if; bool_simp; lia.
Qed.
End PubSubProperties.

(** C36: UNSUBSCRIBE is undone.  When the server acknowledges the unsubscription of a followed
    channel, the reader takes the acknowledgement for a forced unsubscription and schedules a new
    subscription; the command itself sees no acknowledgement, waits until its timer expires, and
    reports success. *)
Theorem unsubscribe_resubscribes {W C} `{!Network W C} (n : nat) (order : list bytes) (p : pubsub C)
  (w w1 w2 : W) (ch addr : bytes) (be : backend C) (v : value) (name : string)
  (Hn : name = "unsubscribe" ∨ name = "sunsubscribe")
  (Hs : psSubs p !! ch = Some addr) (Hb : psBackends p !! addr = Some be)
  (Hl : beLive be = true) (Ha : beAcks be = [])
  (Hw : net_write w (beConn be) (EncodeCommand [] [Some (sub_cmd p true "UNSUBSCRIBE"); Some ch]) = (w1, None))
  (Hx : net_ctx w1 = None) (Hr : net_read w1 (beConn be) = (w2, inr v)) (Hv : unsub_ack name ch v)
  (Hq : silent (beConn be) w2) :
  let '(p', _, replies) := unsubscribe (S n) order p w [Some ch] true in
  replies = [ack_reply (B "unsubscribe") (Some ch) (psCount p')]
  ∧ psSubs p' !! ch = None ∧ psResubs p' = psResubs p ++ [ch].
Proof.
  unfold unsubscribe. cbn [unsubscribe_go]. unfold unsubscribe_one. cbn [content default from_option id].
  change (content (Some ch)) with ch. rewrite Hs. cbn [default from_option id]. rewrite Hb, Hw.
  cbn [waitAck]. rewrite Hb, Ha, Hx. unfold forward_read. rewrite Hl, Hx, Hr. cbn [negb].
  rewrite (unsub_ack_resub p addr be v name ch) by (done || by eexists).
  destruct (waitAck_silent n (set_resubs (psResubs p ++ [ch]) p) w2 addr be Hb Ha Hq)
    as (p' & w' & -> & (S1 & S2 & S3) & S4).
  cbn [app]. split_and!; [done| |done]. cbn. apply lookup_delete_eq.
Qed.

(** ** Witnesses: one channel on the cluster of two seeds *)

Definition demo_ack (kind : string) : value := Array [bulk kind; bulk "ch"; Integer 1].
Definition demo_dragonfly : Router := installSeeds demo_cfg (mkRouter (mkMap None 0) FlavorDragonfly ∅).
Definition demo_subs : list ps_event := [EvCmd 5 [] (cmd ["SUBSCRIBE"; "ch"]); EvRead (B "s1:1")].
Definition demo_sub_net (k1 k2 : string) : script := mkScript [inr (demo_ack k1); inr (demo_ack k2)] [] [].

(** The whole story: the channel is followed again after UNSUBSCRIBE, and the backend was sent
    three commands. *)
Example unsubscribe_undone :
  let timeouts := repeat (inl (B "timeout")) 4 in
  let w := mkScript (inr (demo_ack "subscribe") :: inr (demo_ack "unsubscribe") :: timeouts
                     ++ [inr (demo_ack "subscribe")]) [] [] in
  let '(p, _, w) := ps_run demo_cfg [EvCmd 5 [] (cmd ["SUBSCRIBE"; "ch"]);
                                     EvCmd 5 [] (cmd ["UNSUBSCRIBE"; "ch"]); EvResub 5] demo_router w in
  (psSubs p !! B "ch", psCount p, map snd (sent w))
  = (Some (B "s1:1"), 1, map (fun c => EncodeCommand [] (cmd [c; "ch"])) ["SUBSCRIBE"; "UNSUBSCRIBE"; "SUBSCRIBE"]).
Proof. vm_refl. Qed.

Lemma client_sees_plain_kinds_witness :
  let '(p, _, _) := ps_run demo_cfg demo_subs demo_dragonfly (demo_sub_net "ssubscribe" "smessage") in
  length (psPushed p) = 1%nat
  ∧ Forall (fun v => aggregate v = true -> is_kind v ["smessage"; "ssubscribe"; "sunsubscribe"] = false)
      (psPushed p).
Proof.
  pose proof (client_sees_plain_kinds (W := script) (C := bytes) demo_cfg demo_subs demo_dragonfly
    (demo_sub_net "ssubscribe" "smessage") ltac:(vm_refl)) as H.
  assert ((let '(p, _, _) := ps_run demo_cfg demo_subs demo_dragonfly (demo_sub_net "ssubscribe" "smessage")
           in length (psPushed p)) = 1%nat) as L by vm_refl.
  destruct (ps_run demo_cfg demo_subs demo_dragonfly (demo_sub_net "ssubscribe" "smessage")) as [[p r] w].
  exact (conj L H).
Defined.

Lemma subscribe_routed_witness :
  let '(p, r, w) := ps_run demo_cfg demo_subs demo_router (demo_sub_net "subscribe" "message") in
  let '(_, _, w', _) := subscribe demo_cfg 3 p r w (cmd ["a"; "b"]) true in
  exists k, (k <= 2)%nat ∧ sent w' = sent w ++ map (fun ch =>
    (sub_target demo_cfg r ch, EncodeCommand [] [Some (sub_cmd p true "SUBSCRIBE"); ch])) (take k (cmd ["a"; "b"])).
Proof.
  pose proof (subscribe_routed demo_cfg demo_subs demo_router (demo_sub_net "subscribe" "message") 3
    (cmd ["a"; "b"]) true ltac:(done)) as H.
  destruct (ps_run demo_cfg demo_subs demo_router (demo_sub_net "subscribe" "message")) as [[p r] w].
  destruct (subscribe demo_cfg 3 p r w (cmd ["a"; "b"]) true) as [[[p' r'] w'] out].
  destruct H as (k & H1 & H2 & _). by exists k.
Defined.

Definition demo_pubsub : pubsub bytes :=
  mkPubSub ModePassthrough {[B "ch" := B "s1:1"]}
    {[B "s1:1" := mkBackend (B "s1:1") (B "s1:1") [] true]} 1 [] [].

Lemma subscription_count_witness :
  let p := (subscribe demo_cfg 3 demo_pubsub demo_router
              (mkScript [inr (demo_ack "subscribe")] [B "s1:1"] []) (cmd ["new"]) true).1.1.1 in
  psCount p = Z.of_nat (size (psSubs p)).
Proof.
  assert (owns demo_cfg [] demo_pubsub (mkScript [inr (demo_ack "subscribe")] [B "s1:1"] [])) as Ho.
  { split; [done|]. intros addr be H.
    assert (B "s1:1" = addr ∧ mkBackend (B "s1:1") (B "s1:1") [] true = be) as [<- <-]; [|done].
    by apply (lookup_singleton_Some (M := gmap bytes)). }
  exact (proj1 (subscription_count demo_cfg [] 3 demo_pubsub demo_router _ Ho eq_refl) (cmd ["new"]) true).
Defined.

Lemma unsubscribe_resubscribes_witness :
  let '(p', _, replies) := unsubscribe 4 [] demo_pubsub
      (mkScript [inr (demo_ack "unsubscribe")] [B "s1:1"] []) [BS "ch"] true in
  psSubs p' !! B "ch" = None ∧ psResubs p' = [B "ch"].
Proof.
  pose proof (unsubscribe_resubscribes 3 [] demo_pubsub
    (mkScript [inr (demo_ack "unsubscribe")] [B "s1:1"] [])
    (mkScript [inr (demo_ack "unsubscribe")] [B "s1:1"]
      [(B "s1:1", EncodeCommand [] (cmd ["UNSUBSCRIBE"; "ch"]))])
    (mkScript [] [B "s1:1"] [(B "s1:1", EncodeCommand [] (cmd ["UNSUBSCRIBE"; "ch"]))])
    (B "ch") (B "s1:1") (mkBackend (B "s1:1") (B "s1:1") [] true) (demo_ack "unsubscribe") "unsubscribe"
    ltac:(by left) eq_refl eq_refl eq_refl eq_refl eq_refl eq_refl eq_refl) as H.
  destruct (unsubscribe _ _ _ _ _ _) as [[p' w'] replies]. apply H.
  - split; [done|]. by exists (bulk "unsubscribe"), (bulk "ch"), [Integer 1].
  - exists (fun w => sReplies w = []). split; [done|]. intros [l h s] Hl. cbn in Hl. subst l.
    split; [done|]. by eexists _, _.
Defined.
