(* ===== verification/Session.v ===== *)
(** * internal/proxy/session.go and internal/proxy/local.go: client sessions

    A session answers the commands of one client: some locally, most by routing them, transactions
    by queueing and replaying them on one connection, subscriptions by a pub/sub session.

    The code is written in the monad [M] of computations on the [world]: the session, the router, the
    network behind it and the replies written to the client.  A computation returns, panics, or runs
    out of the fuel given to the one unbounded loop of the code ([scanDeleteOn]).  [choices] are the
    decisions of the scheduler during a command: the completion order of a fan-out, the iteration
    order of a map, how long a timer runs.  A failed write to the client ends the session; it changes
    nothing else, so [reply] is modelled as succeeding.  Metrics and deadlines are left out. *)

From Stdlib Require Import ZArith Lia Strings.Byte Permutation.
From stdpp Require Import base list strings numbers option sets gmap.
From S2P Require Import Prelude Resp RespTheory Slot Command VirtualDB Fanout Topology Router PubSub.

(** ** Constant replies (local.go) *)

Definition errCluster : value := RError (B "ERR This instance has cluster support disabled").
Definition errSwapDB : value := RError (B "ERR SWAPDB is not supported").
Definition errFlushAll : value :=
  RError (B "ERR FLUSHALL is not supported; use FLUSHDB on a virtual database").
Definition errAuth : value :=
  RError (B "WRONGPASS invalid username-password pair or user is disabled.").
Definition errNoAuth : value := RError (B "NOAUTH Authentication required.").
Definition errNoMulti : value := RError (B "ERR EXEC without MULTI").
Definition errNested : value := RError (B "ERR MULTI calls can not be nested").
Definition errWatchTxn : value := RError (B "ERR WATCH inside MULTI is not allowed").
Definition queued_reply : value := SimpleString (B "QUEUED").
Definition plusPong : value := SimpleString (B "PONG").
Definition ok_reply : value := SimpleString (B "OK").
Definition wrong_args (name : string) : value :=
  RError (B ("ERR wrong number of arguments for '" ++ name ++ "' command")).

Definition upperName (b : bytes) : bytes := UpperASCII b.

(** ** State *)

Record SessionConfig := mkSessionConfig {
  routerCfg : RouterConfig; ClientAuthPassword : bytes; MaxDatabases : Z; Version : bytes }.

(** [fanOrder], [chanOrder]: see [cmdFanout], [unsubscribe]; [timer]: see [waitAck]. *)
Record choices := mkChoices {
  fanOrder : list nat; chanOrder : list bytes; timer : nat; scanFuel : nat }.

Section Session.
Context {W C : Type} `{!Network W C} (cfg : SessionConfig).

(** [pin] is the pinned connection with its pool ([pin] and [pinPool] are set together). *)
Record session := mkSession {
  requireAuth : bool; authed : bool; clientPass : bytes; quit : bool; db : Z;
  multi : bool; queued : list (list slice); watched : list slice;
  pin : option (C * bytes); pinGen : Z; sub : option (pubsub C) }.

Definition set_authed (b : bool) (s : session) : session :=
  mkSession (requireAuth s) b (clientPass s) (quit s) (db s) (multi s) (queued s) (watched s) (pin s) (pinGen s) (sub s).
Definition set_quit (s : session) : session :=
  mkSession (requireAuth s) (authed s) (clientPass s) true (db s) (multi s) (queued s) (watched s) (pin s) (pinGen s) (sub s).
Definition set_db (n : Z) (s : session) : session :=
  mkSession (requireAuth s) (authed s) (clientPass s) (quit s) n (multi s) (queued s) (watched s) (pin s) (pinGen s) (sub s).
Definition set_txn (m : bool) (q : list (list slice)) (s : session) : session :=
  mkSession (requireAuth s) (authed s) (clientPass s) (quit s) (db s) m q (watched s) (pin s) (pinGen s) (sub s).
Definition set_watched (l : list slice) (s : session) : session :=
  mkSession (requireAuth s) (authed s) (clientPass s) (quit s) (db s) (multi s) (queued s) l (pin s) (pinGen s) (sub s).
Definition set_pin (p : option (C * bytes)) (g : Z) (s : session) : session :=
  mkSession (requireAuth s) (authed s) (clientPass s) (quit s) (db s) (multi s) (queued s) (watched s) p g (sub s).
Definition set_sub (p : option (pubsub C)) (s : session) : session :=
  mkSession (requireAuth s) (authed s) (clientPass s) (quit s) (db s) (multi s) (queued s) (watched s) (pin s) (pinGen s) p.

Definition newSession : session :=
  let pass := ClientAuthPassword cfg in
  mkSession (negb (pass ==b [])) (pass ==b []) pass false 0 false [] [] None 0 None.

Record world := mkWorld { wSess : session; wRouter : Router; wNet : W; wOut : list value }.

(** ** The monad *)

Inductive sres (A : Type) :=
| SOk (w : world) (a : A)
| SPanic
| SFuel.
Arguments SOk {A}.
Arguments SPanic {A}.
Arguments SFuel {A}.

Definition M (A : Type) : Type := world -> sres A.

#[global] Instance M_ret : MRet M := fun A a w => SOk w a.
#[global] Instance M_bind : MBind M := fun A B f m w =>
  match m w with SOk w' a => f a w' | SPanic => SPanic | SFuel => SFuel end.

Definition get : M session := fun w => SOk w (wSess w).
Definition get_router : M Router := fun w => SOk w (wRouter w).
Definition modify (f : session -> session) : M unit := fun w =>
  SOk (mkWorld (f (wSess w)) (wRouter w) (wNet w) (wOut w)) tt.
Definition on_router (f : Router -> outcome Router) : M unit := fun w =>
  match f (wRouter w) with
  | Ret r => SOk (mkWorld (wSess w) r (wNet w) (wOut w)) tt
  | Panic => SPanic
  end.
(** A use of the network that may change the router. *)
Definition on_net {A} (f : Router -> W -> Router * W * A) : M A := fun w =>
  let '(r, n, a) := f (wRouter w) (wNet w) in SOk (mkWorld (wSess w) r n (wOut w)) a.
Definition lift {A} (o : outcome A) : M A := fun w =>
  match o with Ret a => SOk w a | Panic => SPanic end.
Definition out_of_fuel {A} : M A := fun _ => SFuel.

Definition reply (v : value) : M unit := fun w =>
  SOk (mkWorld (wSess w) (wRouter w) (wNet w) (wOut w ++ [v])) tt.
Definition reply_err (e : bytes) : M unit := reply (RError (B "ERR " ++ e)).
Fixpoint reply_all (vs : list value) : M unit :=
  match vs with [] => mret tt | v :: vs => reply v;; reply_all vs end.

(** *** The router and connections *)

Definition rcfg : RouterConfig := routerCfg cfg.

(** [execFrame] never panics ([execFrame_total] below), so the second case does not occur. *)
Definition exec_frame (r : Router) (n : W) (slot : Z) (frame : slice) (argv : list slice) (read : bool) :
  Router * W * (bytes + value) :=
  match execFrame rcfg r n slot frame argv read false with
  | Ret x => x
  | Panic => (r, n, inl [])
  end.
Definition exec (slot : Z) (argv : list slice) (read : bool) : M (bytes + value) :=
  on_net (fun r n => exec_frame r n slot None argv read).
Definition exec_raw (slot : Z) (frame : bytes) (read : bool) : M (bytes + value) :=
  on_net (fun r n => exec_frame r n slot (Some frame) [] read).

Definition checkout (slot : Z) : M (bytes + C * bytes) := on_net (fun r n => Checkout rcfg r n slot).
Definition checkout_addr (addr : bytes) : M (bytes + C * bytes) :=
  on_net (fun r n => CheckoutAddr rcfg r n addr).
Definition conn_do (c : C) (argv : list slice) : M (bytes + value) :=
  on_net (fun r n => let '(n, res) := net_cmd n c argv in (r, n, res)).
Definition conn_write (c : C) (f : bytes) : M (option bytes) :=
  on_net (fun r n => let '(n, res) := net_write n c f in (r, n, res)).
Definition conn_read (c : C) : M (bytes + value) :=
  on_net (fun r n => let '(n, res) := net_read n c in (r, n, res)).
Definition conn_put (a : bytes) (c : C) : M unit := on_net (fun r n => (r, net_put n a c, tt)).
Definition conn_drop (a : bytes) (c : C) : M unit := on_net (fun r n => (r, net_drop n a c, tt)).

(** ** Transaction state *)

Definition dropPin : M unit :=
  s ← get;
  match pin s with
  | Some (c, a) => conn_drop a c;; modify (set_pin None (pinGen s))
  | None => mret tt
  end.

Definition resetTxn : M unit :=
  modify (set_txn false []);; modify (set_watched []);; dropPin.

(** [append([]byte(nil), a...)] for every argument. *)
Definition clone_argv (argv : list slice) : list slice := map (fun a => append_nil (content a)) argv.

(** ** local.go *)

Definition doAuth (argv : list slice) : M value :=
  s ← get;
  if negb (requireAuth s) then mret ok_reply else
  let pass := match argv with
              | [_; p] => Some p
              | [_; _; p] => Some p
              | _ => None
              end in
  match pass with
  | None => mret (wrong_args "auth")
  | Some p => if content p ==b clientPass s then modify (set_authed true);; mret ok_reply else mret errAuth
  end.

Definition infoReply : value :=
  BulkString (Some (B "# Server" ++ CRLF ++ B "redis_version:7.2.0" ++ CRLF ++ B "redis_mode:standalone"
    ++ CRLF ++ B "os:proxy" ++ CRLF ++ B "dcrp_version:" ++ Version cfg ++ CRLF
    ++ B "cluster_enabled:0" ++ CRLF)).

Definition helloReply : value :=
  Array [bulk "server"; bulk "redis"; bulk "version"; bulk "7.2.0"; bulk "proto"; Integer 2;
         bulk "id"; Integer 1; bulk "mode"; bulk "standalone"; bulk "role"; bulk "master";
         bulk "modules"; Array []].

(** The first AUTH among the arguments before the last decides. *)
Definition helloAuth (argv : list slice) : M (option value) :=
  s ← get;
  match find_fold (B "AUTH") (args_but_last argv 1) 1 with
  | None => mret None
  | Some i =>
      match argv !! (i + 2)%nat with
      | None => mret (Some errAuth)
      | Some p => if content p ==b clientPass s
                  then modify (set_authed true);; mret (Some helloReply)
                  else mret (Some errAuth)
      end
  end.

Definition handleCluster (argv : list slice) : value :=
  match argv with
  | _ :: a :: _ =>
      let name := to_upper (content a) in
      if name ==b B "HELP" then
        Array [bulk "CLUSTER HELP"; bulk "This instance has cluster support disabled"]
      else if name ==b B "INFO" then
        BulkString (Some (B "cluster_state:fail" ++ CRLF ++ B "cluster_slots_assigned:0" ++ CRLF
                          ++ B "cluster_enabled:0" ++ CRLF))
      else errCluster
  | _ => errCluster
  end.

(** [None]: not answered locally. *)
Definition handleLocal (argv : list slice) : M (option value) :=
  s ← get;
  match argv with
  | [] => mret None
  | a0 :: rest =>
    let name := upperName (content a0) in
    let need_auth (v : value) := mret (Some (if authed s then v else errNoAuth)) in
    if name ==b B "PING" then
      need_auth (match rest with [] => plusPong | a :: _ => BulkString a end)
    else if name ==b B "ECHO" then
      need_auth (match rest with [a] => BulkString a | _ => wrong_args "echo" end)
    else if name ==b B "AUTH" then v ← doAuth argv; mret (Some v)
    else if name ==b B "QUIT" then modify set_quit;; mret (Some ok_reply)
    else if name ==b B "CLUSTER" then need_auth (handleCluster argv)
    else if name ==b B "COMMAND" then mret None
    else if name ==b B "INFO" then need_auth infoReply
    else if name ==b B "HELLO" then
      if negb (authed s) && requireAuth s then
        v ← helloAuth argv; mret (Some (default errNoAuth v))
      else mret (Some helloReply)
    else if name ==b B "RESET" then
      resetTxn;; modify (set_db 0);; modify (fun s => set_authed (negb (requireAuth s)) s);;
      mret (Some ok_reply)
    else if requireAuth s && negb (authed s) then mret (Some errNoAuth)
    else mret None
  end.

(** ** Transactions *)

Definition cmdMulti : M unit :=
  s ← get;
  if multi s then reply errNested
  else modify (set_txn true []);; reply ok_reply.

Definition cmdDiscard : M unit :=
  s ← get;
  if negb (multi s) then reply (RError (B "ERR DISCARD without MULTI"))
  else modify (set_txn false []);; reply ok_reply.

Definition enqueue (argv : list slice) : M unit :=
  modify (fun s => set_txn (multi s) (queued s ++ [clone_argv argv]) s);; reply queued_reply.

Definition cmdSelect (argv : list slice) : M unit :=
  s ← get;
  if negb (authed s) then reply errNoAuth
  else if negb (argc argv =? 2) then reply (wrong_args "select")
  else match ParseDBIndex (arg argv 1) (MaxDatabases cfg) with
       | inl e => reply (DBIndexError (Some e))
       | inr n => if multi s then enqueue argv else modify (set_db n);; reply ok_reply
       end.

(** [s.pin], or a new pin on the owner of [slot]. *)
Definition ensure_pin (slot : Z) : M (bytes + C) :=
  s ← get;
  match pin s with
  | Some (c, _) => mret (inr c)
  | None =>
      got ← checkout slot;
      match got with
      | inl e => mret (inl e)
      | inr (c, a) =>
          r ← get_router;
          modify (set_pin (Some (c, a)) (Generation r));; mret (inr c)
      end
  end.

Definition cmdWatch (argv : list slice) : M unit :=
  s ← get;
  if multi s then reply errWatchTxn else
  argv ← lift (RewriteArgv argv (db s));
  keys ← lift (ExtractKeys argv);
  match keys with
  | [] => reply (wrong_args "watch")
  | k0 :: _ =>
    if CrossSlot rcfg keys then reply errCross else
    got ← ensure_pin (key_slot rcfg k0);
    match got with
    | inl e => reply_err e
    | inr c =>
        res ← conn_do c argv;
        match res with
        | inl e => dropPin;; reply_err e
        | inr v => modify (fun s => set_watched (watched s ++ clone_argv keys) s);; reply v
        end
    end
  end.

Definition cmdUnwatch : M unit :=
  s ← get;
  match pin s with
  | Some (c, _) => conn_do c [BS "UNWATCH"];; dropPin
  | None => mret tt
  end;;
  modify (set_watched []);; reply ok_reply.

Inductive execItem := ItemLocal (v : value) | ItemArgv (argv : list slice).

(** The items of a transaction, the keys of its commands and the database it ends in. *)
Fixpoint exec_items (queued : list (list slice)) (db : Z) : outcome (list execItem * list slice * Z) :=
  match queued with
  | [] => Ret ([], [], db)
  | a :: rest =>
    if negb (Nat.eqb (length a) 0) && (upperName (arg a 0) ==b B "SELECT") then
      let '(v, db) :=
        if negb (argc a =? 2) then (wrong_args "select", db)
        else match ParseDBIndex (arg a 1) (MaxDatabases cfg) with
             | inl e => (DBIndexError (Some e), db)
             | inr n => (ok_reply, n)
             end in
      res ← exec_items rest db;
      let '(items, keys, db) := res in
      Ret (ItemLocal v :: items, keys, db)
    else
      rewritten ← RewriteArgv a db;
      ks ← ExtractKeys rewritten;
      res ← exec_items rest db;
      let '(items, keys, db) := res in
      Ret (ItemArgv rewritten :: items, ks ++ keys, db)
  end.

Definition backend_cmds (items : list execItem) : list (list slice) :=
  omap (fun it => match it with ItemArgv a => Some a | ItemLocal _ => None end) items.

(** The loop over the items; [vs] are the replies of the backend that are left. *)
Fixpoint merge_items (items : list execItem) (vs : list value) : list value :=
  match items with
  | [] => []
  | ItemLocal v :: items => v :: merge_items items vs
  | ItemArgv _ :: items =>
      match vs with
      | v :: vs => v :: merge_items items vs
      | [] => RError (B "ERR EXEC reply missing") :: merge_items items []
      end
  end.

Definition mergeExecReply (items : list execItem) (v : value) : value :=
  if negb (vType v ==b TypeArray) || vNull v then v else Array (merge_items items (vValues v)).

(** Write each command and read its reply: MULTI and the queued commands. *)
Fixpoint send_all (c : C) (cmds : list (list slice)) : M (option bytes) :=
  match cmds with
  | [] => mret None
  | a :: rest =>
      err ← conn_write c (EncodeCommand [] a);
      match err with
      | Some e => mret (Some e)
      | None =>
          res ← conn_read c;
          match res with
          | inl e => mret (Some e)
          | inr _ => send_all c rest
          end
      end
  end.

(** The transaction on the connection [c]: MULTI, the commands, EXEC. *)
Definition exec_on (c : C) (a : bytes) (items : list execItem) (db : Z) : M unit :=
  err ← send_all c ([BS "MULTI"] :: backend_cmds items);
  match err with
  | Some e => conn_drop a c;; reply_err e
  | None =>
      res ← conn_do c [BS "EXEC"];
      match res with
      | inl e => conn_drop a c;; reply_err e
      | inr v =>
          modify (set_watched []);;
          (if vNull v then reply v else modify (set_db db);; reply (mergeExecReply items v));;
          conn_put a c
      end
  end.

(** [c, p := s.pin, s.pinPool] or a connection to the owner of the first key. *)
Definition take_conn (slot : Z) : M (bytes + C * bytes) :=
  s ← get;
  match pin s with
  | Some ca => modify (set_pin None (pinGen s));; mret (inr ca)
  | None => checkout slot
  end.

Definition cmdExec : M unit :=
  s ← get;
  if negb (multi s) then reply errNoMulti else
  modify (set_txn false []);;
  r ← get_router;
  if negb (bool_decide (pin s = None)) && negb (pinGen s =? Generation r) then
    dropPin;; reply (RError (B "EXECABORT Transaction discarded because of topology change"))
  else
    res ← lift (exec_items (queued s) (db s));
    let '(items, ks, newdb) := res in
    let keys := watched s ++ ks in
    if (1 <? argc keys) && CrossSlot rcfg keys then dropPin;; reply errCross else
    match backend_cmds items with
    | [] =>
        modify (set_db newdb);; modify (set_watched []);; reply (Array (merge_items items []))
    | _ =>
        got ← take_conn (match keys with k :: _ => key_slot rcfg k | [] => 0 end);
        match got with
        | inl e => reply_err e
        | inr (c, a) => exec_on c a items newdb
        end
    end.

(** ** Commands over several keys or nodes *)

Definition errFromValue (v : value) : bytes :=
  if Nat.eqb (length (content (vStr v))) 0 then B "backend error" else content (vStr v).

Definition slot_of (k : slice) : Z := key_slot rcfg k.

(** The command when both keys are in one slot. *)
Definition transfer_local (src dst : slice) (delSrc replace : bool) : M (bytes + Z) :=
  let argv := if delSrc then [BS "RENAME"; src; dst]
              else [BS "COPY"; src; dst] ++ (if replace then [BS "REPLACE"] else []) in
  res ← exec (slot_of src) argv false;
  match res with
  | inl e => mret (inl e)
  | inr v =>
      if IsError v then mret (inl (errFromValue v))
      else if delSrc then mret (inr 1)
      else if vType v ==b TypeInteger then mret (inr (vInt v))
      else mret (inr 1)
  end.

(** DUMP, RESTORE and DEL when the keys are in different slots. *)
Definition transfer_remote (src dst : slice) (delSrc replace : bool) : M (bytes + Z) :=
  res ← exec (slot_of src) [BS "DUMP"; src] true;
  match res with
  | inl e => mret (inl e)
  | inr dump =>
    if IsError dump then mret (inl (errFromValue dump))
    else if vNull dump || Nat.eqb (length (content (vStr dump))) 0 then mret (inr 0)
    else
      res ← exec (slot_of dst)
        ([BS "RESTORE"; dst; BS "0"; vStr dump] ++ (if replace then [BS "REPLACE"] else [])) false;
      match res with
      | inl e => mret (inl e)
      | inr v =>
          if IsError v then mret (inl (errFromValue v))
          else
            (if delSrc then exec (slot_of src) [BS "DEL"; src] false;; mret tt else mret tt);;
            mret (inr 1)
      end
  end.

Definition transferKey (src dst : slice) (delSrc replace : bool) : M (bytes + Z) :=
  exists_ ← (if replace then mret (inr zeroValue) else exec (slot_of dst) [BS "EXISTS"; dst] true);
  match exists_ with
  | inl e => mret (inl e)
  | inr ex =>
      if negb replace && negb (IsError ex) && (vType ex ==b TypeInteger) && (0 <? vInt ex)
      then mret (inr 0)
      else if slot_of src =? slot_of dst then transfer_local src dst delSrc replace
      else transfer_remote src dst delSrc replace
  end.

Definition reply_count (res : bytes + Z) : M unit :=
  match res with inl e => reply_err e | inr n => reply (Integer n) end.

Definition cmdMove (argv : list slice) : M unit :=
  s ← get;
  match argv with
  | [_; key; dbarg] =>
      match ParseDBIndex (content dbarg) (MaxDatabases cfg) with
      | inl e => reply (DBIndexError (Some e))
      | inr destDB =>
          if destDB =? db s then reply (RError (B "ERR source and destination objects are the same"))
          else res ← transferKey (PrefixKey (db s) key) (PrefixKey destDB key) true false; reply_count res
      end
  | _ => reply (wrong_args "move")
  end.

(** The options of COPY: an error reply, or the database and REPLACE. *)
Fixpoint copy_options (l : list slice) (destDB : Z) (replace : bool) : value + Z * bool :=
  match l with
  | [] => inr (destDB, replace)
  | a :: rest =>
      if EqualFoldASCII (content a) (B "REPLACE") then copy_options rest destDB true
      else if EqualFoldASCII (content a) (B "DB") then
        match rest with
        | [] => inl (RError (B "ERR syntax error"))
        | n :: rest =>
            match ParseDBIndex (content n) (MaxDatabases cfg) with
            | inl e => inl (DBIndexError (Some e))
            | inr d => copy_options rest d replace
            end
        end
      else copy_options rest destDB replace
  end.

Definition cmdCopy (argv : list slice) : M unit :=
  s ← get;
  match argv with
  | _ :: src :: dst :: opts =>
      match copy_options opts (db s) false with
      | inl v => reply v
      | inr (destDB, replace) =>
          res ← transferKey (PrefixKey (db s) src) (PrefixKey destDB dst) false replace; reply_count res
      end
  | _ => reply (wrong_args "copy")
  end.

(** How the loop of [scanDeleteOn] ends: the connection is broken, an error, or done. *)
Inductive scan_end := ScanBroken (e : bytes) | ScanError (e : bytes) | ScanDone.

(** The keys of a SCAN reply that are deleted. *)
Definition scan_keys (keys : value) : list slice :=
  if vType keys ==b TypeArray
  then filter (fun k => content k ≠ []) (map vStr (vValues keys)) else [].

Fixpoint scan_loop (fuel : nat) (c : C) (pat : bytes) (cursor : slice) : M scan_end :=
  match fuel with
  | O => out_of_fuel
  | S fuel =>
    res ← conn_do c [BS "SCAN"; cursor; BS "MATCH"; Some pat; BS "COUNT"; BS "256"];
    match res with
    | inl e => mret (ScanBroken e)
    | inr v =>
      if IsError v then mret (ScanError (errFromValue v)) else
      match vType v ==b TypeArray, vValues v with
      | true, cur :: keys :: _ =>
          let cursor := append_nil (content (vStr cur)) in
          del ← match scan_keys keys with
                | [] => mret (inr zeroValue)
                | ks => conn_do c (BS "DEL" :: ks)
                end;
          match del with
          | inl e => mret (ScanBroken e)
          | inr _ => if content cursor ==b B "0" then mret ScanDone else scan_loop fuel c pat cursor
          end
      | _, _ => mret ScanDone
      end
    end
  end.

Definition scanDeleteOn (fuel : nat) (addr : bytes) (pat : bytes) : M (option bytes) :=
  got ← checkout_addr addr;
  match got with
  | inl e => mret (Some e)
  | inr (c, a) =>
      res ← scan_loop fuel c pat (BS "0");
      match res with
      | ScanBroken e => conn_drop a c;; mret (Some e)
      | ScanError e => conn_put a c;; mret (Some e)
      | ScanDone => conn_put a c;; mret None
      end
  end.

Fixpoint scan_all (fuel : nat) (addrs : list bytes) (pat : bytes) : M unit :=
  match addrs with
  | [] => reply ok_reply
  | addr :: rest =>
      err ← scanDeleteOn fuel addr pat;
      match err with Some e => reply_err e | None => scan_all fuel rest pat end
  end.

Definition db_pattern (n : Z) : bytes := DBPrefix n ++ B "*".

Definition reply_result (res : bytes + value) : M unit :=
  match res with inl e => reply_err e | inr v => reply v end.

Definition cmdFlushDB (fuel : nat) : M unit :=
  s ← get;
  if db s =? 0 then res ← exec 0 [BS "FLUSHDB"] false; reply_result res
  else r ← get_router; scan_all fuel (MasterAddrs rcfg r) (db_pattern (db s)).

(** The first key of a SCAN reply. *)
Definition first_scanned (v : value) : option value :=
  match vType v ==b TypeArray, vValues v with
  | true, _ :: keys :: _ => if vType keys ==b TypeArray then head (vValues keys) else None
  | _, _ => None
  end.

Definition cmdRandomKey : M unit :=
  s ← get;
  if db s =? 0 then
    res ← exec 0 [BS "RANDOMKEY"] true;
    match res with
    | inl e => reply_err e
    | inr v => if negb (vNull v) && HasVirtualDBPrefix (content (vStr v)) then reply NullBulk else reply v
    end
  else
    res ← exec 0 [BS "SCAN"; BS "0"; BS "MATCH"; Some (db_pattern (db s)); BS "COUNT"; BS "16"] true;
    match res with
    | inl e => reply_err e
    | inr v =>
        if IsError v then reply v
        else match first_scanned v with
             | Some k => reply (BulkString (StripKey (db s) (vStr k)))
             | None => reply NullBulk
             end
    end.

(** ** Pub/sub *)

Definition cmdPublish (argv : list slice) : M unit :=
  r ← get_router;
  let rewritten := (RewritePublish (Router_Flavor r) argv).1 in
  let slot := match rewritten with _ :: ch :: _ => slot_of ch | _ => 0 end in
  res ← exec slot rewritten false; reply_result res.

(** A command of the pub/sub session [p]. *)
Definition sub_cmd_on (ch : choices) (p : pubsub C) (argv : list slice) : M unit :=
  res ← on_net (fun r n =>
    let '(p, r, n, out) := HandleClientCmd rcfg (timer ch) (chanOrder ch) p r n argv in (r, n, (p, out)));
  let '(p, out) := res in
  modify (set_sub (Some p));;
  match out with inl e => reply_err e | inr vs => reply_all vs end.

Definition enterSub (ch : choices) (argv : list slice) : M unit :=
  r ← get_router; sub_cmd_on ch (NewSession r) argv.

Definition handleSub (ch : choices) (p : pubsub C) (argv : list slice) : M unit :=
  a0 ← lift (index argv 0);
  let name := upperName (content a0) in
  if name ==b B "PING" then
    reply (Array [bulk "pong"; BulkString (match argv with _ :: a :: _ => a | _ => Some [] end)])
  else if name ==b B "QUIT" then modify set_quit;; reply ok_reply
  else sub_cmd_on ch p argv.

(** ** Dispatch *)

Definition needsRewrite (argv : list slice) : bool := ClassifyPubSub (arg argv 0) ==b PubSubPublish.

Definition doBlocking (slot : Z) (argv : list slice) : M (bytes + value) :=
  got ← checkout slot;
  match got with
  | inl e => mret (inl e)
  | inr (c, a) =>
      res ← conn_do c argv;
      match res with
      | inl e => conn_drop a c;; mret (inl e)
      | inr v =>
          match (if IsError v then ParseRedirect (content (vStr v)) else None) with
          | Some red =>
              if rKind red ==b B "MOVED" then
                conn_drop a c;;
                on_router (fun r => m ← UpdateSlot (slots r) (rSlot red) (rAddr red) [];
                                    Ret (set_rslots m r));;
                exec (rSlot red) argv false
              else conn_put a c;; mret (inr v)
          | None => conn_put a c;; mret (inr v)
          end
      end
  end.

Definition fanout (ch : choices) (argv : list slice) : M unit :=
  s ← get;
  v ← (fun w =>
    match cmdFanout (fun st slot sub read =>
            let '(r, n, x) := exec_frame st.1 st.2 slot None sub read in ((r, n), x))
            (SlotOf rcfg) (db s) (fanOrder ch) (wRouter w, wNet w) argv with
    | Ret (r, n, v) => SOk (mkWorld (wSess w) r n (wOut w)) v
    | Panic => SPanic
    end);
  reply v.

(** The reply for the client: redirects are hidden, keys stripped. *)
Definition client_reply (name : bytes) (db : Z) (v : value) : value :=
  if IsError v then if EqualKind v "MOVED" || EqualKind v "ASK" then errRedirect else v
  else StripReplyKeys name db v.

(** The command that is not special in any way: rewrite, route, answer. *)
Definition route (ch : choices) (name : bytes) (argv : list slice) (raw : bytes) : M unit :=
  s ← get;
  rewritten ← lift (RewriteArgv argv (db s));
  let '(argv, raw) := if 0 <? db s then (rewritten, []) else (argv, raw) in
  keys ← lift (ExtractKeys argv);
  if (1 <? argc keys) && CrossSlot rcfg keys then
    if negb (FanoutOf argv ==b FanoutNone) then fanout ch argv else reply errCross
  else
    let slot := match keys with k :: _ => slot_of k | [] => 0 end in
    let read := KindOf (arg argv 0) ==b KindRead in
    res ← (if IsBlocking argv then doBlocking slot argv
           else if negb (Nat.eqb (length raw) 0) && negb (needsRewrite argv) then exec_raw slot raw read
           else exec slot argv read);
    match res with
    | inl e => reply_err e
    | inr v => reply (client_reply name (db s) v)
    end.

(** The switch on the command names that are not routed. *)
Definition dispatch (ch : choices) (name : bytes) (argv : list slice) (raw : bytes) : M unit :=
  if name ==b B "SWAPDB" then reply errSwapDB
  else if name ==b B "FLUSHALL" then reply errFlushAll
  else if name ==b B "FLUSHDB" then cmdFlushDB (scanFuel ch)
  else if name ==b B "MOVE" then cmdMove argv
  else if name ==b B "COPY" then cmdCopy argv
  else if name ==b B "RANDOMKEY" then cmdRandomKey
  else route ch name argv raw.

(** What [handleLocal] does not answer: transactions, queueing, pub/sub, the rest. *)
Definition handle_backend (ch : choices) (name : bytes) (argv : list slice) (raw : bytes) : M unit :=
  if name ==b B "MULTI" then cmdMulti
  else if name ==b B "DISCARD" then cmdDiscard
  else if name ==b B "EXEC" then cmdExec
  else if name ==b B "WATCH" then cmdWatch argv
  else if name ==b B "UNWATCH" then cmdUnwatch
  else
    s ← get;
    if multi s then enqueue argv else
    a0 ← lift (index argv 0);
    match ClassifyPubSub (content a0) with
    | PubSubSubscribe | PubSubPSubscribe | PubSubSSubscribe => enterSub ch argv
    | PubSubPublish | PubSubSPublish => cmdPublish argv
    | _ => dispatch ch name argv raw
    end.

Definition command_name (argv : list slice) : bytes :=
  match argv with a0 :: _ => upperName (content a0) | [] => B "unknown" end.

Definition handle (ch : choices) (argv : list slice) (raw : bytes) : M unit :=
  let name := command_name argv in
  s ← get;
  match sub s with
  | Some p => handleSub ch p argv
  | None =>
    if name ==b B "SELECT" then cmdSelect argv else
    local ← handleLocal argv;
    match local with
    | Some v => reply v
    | None => handle_backend ch name argv raw
    end
  end.

Definition cleanup : M unit :=
  resetTxn;;
  s ← get;
  match sub s with
  | None => mret tt
  | Some p =>
      p ← on_net (fun r n => let '(p, n) := Close p n in (r, n, p));
      modify (set_sub (Some p))
  end.
End Session.
Arguments session : clear implicits.
Arguments world : clear implicits.
Arguments sres : clear implicits.
Arguments SOk {W C A}.
Arguments SPanic {W C A}.
Arguments SFuel {W C A}.
Arguments M : clear implicits.
