(* ===== verification/SessionTheory.v ===== *)
(** * Properties of client sessions

    [wp m Q w]: if the computation [m] returns from the world [w], its result satisfies [Q].
    [inv I m]: [m] preserves [I].  The rules for sequencing and for the elementary operations are in
    the hint database [sess]; [inv_auto] follows the structure of a computation with them, so that
    an invariant of all commands is proved by giving the few rules that are special to it. *)

From Stdlib Require Import ZArith Lia Strings.Byte Permutation.
From stdpp Require Import base list strings numbers option sets gmap.
From S2P Require Import Prelude Resp RespTheory Slot Command VirtualDB Fanout Topology Router PubSub Session.

Create HintDb sess.

(** ** Rules *)

Section Rules.
Context {W C : Type}.
Implicit Types (w : world W C).

Definition wp {A} (m : M W C A) (Q : A -> world W C -> Prop) w : Prop :=
  match m w with SOk w' a => Q a w' | _ => True end.

Definition inv (I : world W C -> Prop) {A} (m : M W C A) : Prop := forall w, I w -> wp m (fun _ w' => I w') w.

Lemma wp_ret {A} (a : A) Q w : Q a w -> wp (mret a) Q w.
Proof. done. Qed.

Lemma wp_bind {A B} (m : M W C A) (f : A -> M W C B) Q w :
  wp m (fun a w' => wp (f a) Q w') w -> wp (m ≫= f) Q w.
Proof.
  unfold wp.
  change ((m ≫= f) w) with (match m w with SOk w' a => f a w' | SPanic => SPanic | SFuel => SFuel end).
  by destruct (m w).
Qed.

Lemma wp_mono {A} (m : M W C A) (Q Q' : A -> world W C -> Prop) w :
  (forall a w', Q a w' -> Q' a w') -> wp m Q w -> wp m Q' w.
Proof. unfold wp. intros H. destruct (m w); [by apply H|done|done]. Qed.

Lemma wp_and {A} (m : M W C A) (Q Q' : A -> world W C -> Prop) w :
  wp m Q w -> wp m Q' w -> wp m (fun a w' => Q a w' ∧ Q' a w') w.
Proof. unfold wp. by destruct (m w). Qed.

Lemma wp_get f Q w : wp (f (wSess w)) Q w -> wp (A := unit) (get ≫= f) Q w.
Proof. done. Qed.

Lemma wp_done {A} (m : M W C A) Q w w' a : wp m Q w -> m w = SOk w' a -> Q a w'.
Proof. unfold wp. intros H E. by rewrite E in H. Qed.

Lemma inv_ret I {A} (a : A) : inv I (mret a).
Proof. by intros w H. Qed.

Lemma inv_bind I {A B} (m : M W C A) (f : A -> M W C B) :
  inv I m -> (forall a, inv I (f a)) -> inv I (m ≫= f).
Proof. intros Hm Hf w Hw. apply wp_bind. eapply wp_mono, Hm; [|done]. intros a w'. apply Hf. Qed.

Lemma inv_get I : inv I get.
Proof. by intros w H. Qed.
Lemma inv_get_router I : inv I get_router.
Proof. by intros w H. Qed.
Lemma inv_lift I {A} (o : outcome A) : inv I (lift o).
Proof. intros w H. unfold wp, lift. by destruct o. Qed.
Lemma inv_fuel I {A} : inv I (out_of_fuel (A := A)).
Proof. by intros w H. Qed.
End Rules.
#[export] Hint Resolve inv_ret inv_get inv_get_router inv_lift inv_fuel : sess.

(** Follow the structure of a computation; leave what the hints do not solve. *)
Ltac inv_step :=
  match goal with
  | |- inv _ (_ ≫= _) => apply inv_bind; [|intros ?]
  | |- inv _ (if ?b then _ else _) => destruct b
  | |- inv _ (match ?x with _ => _ end) => destruct x
  | |- inv _ _ => solve [eauto with sess]
  end.
Ltac inv_auto := repeat (cbv zeta; inv_step).

(** ** Invariants of the session record

    A property of the session record only is preserved by everything but [modify]. *)

Section SessInv.
Context {W C : Type} `{!Network W C} (cfg : SessionConfig) (J : session C -> Prop).
Let I (w : world W C) : Prop := J (wSess w).

Lemma sess_modify f : (forall s, J s -> J (f s)) -> inv I (modify f).
Proof. intros H w Hw. by apply H. Qed.
Lemma sess_reply v : inv I (reply v).
Proof. by intros w H. Qed.
Lemma sess_on_router f : inv I (on_router f).
Proof. intros w H. unfold wp, on_router. by destruct (f (wRouter w)). Qed.
Lemma sess_on_net {A} (f : Router -> W -> Router * W * A) : inv I (on_net f).
Proof. intros w H. unfold wp, on_net. by destruct (f _ _) as [[r n] a]. Qed.
End SessInv.

(** ** Exactly one reply

    [quiet m]: [m] writes nothing to the client; [once P m]: it writes one reply, which satisfies
    [P]. *)

Section Once.
Context {W C : Type} `{!Network W C} (cfg : SessionConfig).

Definition quiet {A} (m : M W C A) : Prop := forall o, inv (fun w => wOut w = o) m.
Definition once (P : value -> Prop) {A} (m : M W C A) : Prop :=
  forall w, wp m (fun _ w' => exists v, wOut w' = wOut w ++ [v] ∧ P v) w.
Definition any (v : value) : Prop := True.

Lemma quiet_on_net {A} (f : Router -> W -> Router * W * A) o :
  inv (fun w : world W C => wOut w = o) (on_net f).
Proof. intros w H. unfold wp, on_net. by destruct (f _ _) as [[r n] a]. Qed.
Lemma quiet_modify (f : session C -> session C) o : inv (fun w : world W C => wOut w = o) (modify f).
Proof. by intros w H. Qed.
Lemma quiet_on_router f o : inv (fun w : world W C => wOut w = o) (on_router f).
Proof. intros w H. unfold wp, on_router. by destruct (f (wRouter w)). Qed.

Lemma once_reply P v : P v -> once P (reply (W := W) (C := C) v).
Proof. intros HP w. by exists v. Qed.
Lemma any_value v : any v.
Proof. done. Qed.
Lemma once_bind P {A B} (m : M W C A) (f : A -> M W C B) :
  quiet m -> (forall a, once P (f a)) -> once P (m ≫= f).
Proof.
  intros Hm Hf w. apply wp_bind. eapply wp_mono, (Hm (wOut w)); [|done].
  cbv beta. intros a w' <-. apply Hf.
Qed.
Lemma once_then P {A B} (m : M W C A) (f : A -> M W C B) :
  once P m -> (forall a, quiet (f a)) -> once P (m ≫= f).
Proof.
  intros Hm Hf w. apply wp_bind. eapply wp_mono, Hm. cbv beta. intros a w' (v & Hv & HP).
  eapply wp_mono, (Hf a (wOut w')); [|done]. cbv beta. intros _ w'' ->. by exists v.
Qed.
End Once.
#[export] Hint Resolve quiet_on_net quiet_modify quiet_on_router once_reply any_value : sess.

Ltac once_step :=
  match goal with
  | |- once _ (reply_err _) => unfold reply_err
  | |- once _ (_ ≫= _) => apply once_bind; [solve [intros ?; inv_auto]|intros ?]
  | |- once _ (if ?b then _ else _) => destruct b
  | |- once _ (match ?x with _ => _ end) => destruct x
  | |- once _ _ => solve [eauto with sess]
  end.
Ltac once_auto := repeat (cbv zeta; once_step).

Section OneReply.
Context {W C : Type} `{!Network W C} (cfg : SessionConfig).

Lemma quiet_dropPin o : inv (fun w : world W C => wOut w = o) dropPin.
Proof. unfold dropPin. inv_auto. Qed.
Hint Resolve quiet_dropPin : sess.

Lemma quiet_handleLocal argv o : inv (fun w : world W C => wOut w = o) (handleLocal cfg argv).
Proof. unfold handleLocal, doAuth, helloAuth, resetTxn. inv_auto. Qed.

Lemma quiet_send_all c cmds o : inv (fun w : world W C => wOut w = o) (send_all c cmds).
Proof. induction cmds; cbn [send_all]; inv_auto. Qed.

Lemma quiet_scan_loop fuel c pat cur o : inv (fun w : world W C => wOut w = o) (scan_loop fuel c pat cur).
Proof. revert cur. induction fuel; intros cur; cbn [scan_loop]; inv_auto. Qed.

Lemma quiet_transferKey src dst d r o :
  inv (fun w : world W C => wOut w = o) (transferKey cfg src dst d r).
Proof. unfold transferKey, transfer_local, transfer_remote. inv_auto. Qed.

Lemma quiet_doBlocking slot argv o : inv (fun w : world W C => wOut w = o) (doBlocking cfg slot argv).
Proof. unfold doBlocking. inv_auto. Qed.
Hint Resolve quiet_handleLocal quiet_send_all quiet_scan_loop quiet_transferKey quiet_doBlocking : sess.

Lemma once_exec_on c a items n : once (W := W) (C := C) any (exec_on c a items n).
Proof.
  unfold exec_on. once_auto. apply once_then; [once_auto|intros _ o; inv_auto].
Qed.
Hint Resolve once_exec_on : sess.

Lemma once_cmdExec : once (W := W) (C := C) any (cmdExec cfg).
Proof. unfold cmdExec, take_conn. once_auto. Qed.

Lemma once_cmdWatch argv : once (W := W) (C := C) any (cmdWatch cfg argv).
Proof. unfold cmdWatch, ensure_pin. once_auto. Qed.

Lemma once_scan_all fuel addrs pat : once (W := W) (C := C) any (scan_all cfg fuel addrs pat).
Proof. induction addrs; cbn [scan_all]; unfold scanDeleteOn; once_auto. Qed.
Hint Resolve once_cmdExec once_cmdWatch once_scan_all : sess.

Lemma once_fanout ch argv : once (W := W) (C := C) any (fanout cfg ch argv).
Proof.
  unfold fanout. apply once_bind; [intros o; inv_auto|intros s]. apply once_bind; [|intros v; once_auto].
  intros o w H. unfold wp. by destruct (cmdFanout _ _ _ _ _ _) as [[[r n] v]|].
Qed.

Lemma once_route ch name argv raw : once (W := W) (C := C) any (route cfg ch name argv raw).
Proof. unfold route. once_auto. all: try apply once_fanout. Qed.

Lemma once_dispatch ch name argv raw : once (W := W) (C := C) any (dispatch cfg ch name argv raw).
Proof.
  unfold dispatch, cmdFlushDB, cmdMove, cmdCopy, cmdRandomKey, reply_result, reply_count. once_auto.
  all: apply once_route.
Qed.
Hint Resolve once_dispatch : sess.

Definition enters_sub (argv : list slice) : bool :=
  match argv with
  | a0 :: _ => str_in (upperName (content a0)) ["SUBSCRIBE"; "PSUBSCRIBE"; "SSUBSCRIBE"]
  | [] => false
  end.

Lemma classify_sub a0 :
  match ClassifyPubSub a0 with
  | PubSubSubscribe | PubSubPSubscribe | PubSubSSubscribe => true | _ => false
  end = str_in (UpperASCII a0) ["SUBSCRIBE"; "PSUBSCRIBE"; "SSUBSCRIBE"].
Proof.
  unfold ClassifyPubSub, str_in, existsb. generalize (UpperASCII a0) as n. intros n.
  repeat (case_bool_decide; [subst; vm_refl|]). done.
Qed.

Lemma once_handle_backend ch name argv raw :
  enters_sub argv = false -> once (W := W) (C := C) any (handle_backend cfg ch name argv raw).
Proof.
  intros He. unfold handle_backend, cmdMulti, cmdDiscard, cmdUnwatch, enqueue.
  destruct argv as [|a0 rest].
  { assert (forall f : slice -> M W C unit, once any (lift (index (@nil slice) 0) ≫= f)) as Hp by (by intros f w).
    repeat (cbv zeta; first [apply Hp|once_step]). }
  unfold enters_sub, upperName in He. rewrite <- classify_sub in He.
  assert (forall f : slice -> M W C unit, once any (f a0) -> once any (lift (index (a0 :: rest) 0) ≫= f)) as Hl
    by (by intros f Hf w; apply Hf).
  repeat (cbv zeta; first [apply Hl; destruct (ClassifyPubSub (content a0)); try done; unfold cmdPublish, reply_result|once_step]).
Qed.

Lemma handle_once ch argv raw w :
  sub (wSess w) = None -> enters_sub argv = false ->
  wp (handle cfg ch argv raw) (fun _ w' => exists v, wOut w' = wOut w ++ [v] ∧ any v) w.
Proof.
  intros Hs He. unfold handle. apply wp_get. rewrite Hs.
  pose proof (once_handle_backend ch (command_name argv) argv raw He).
  enough (once (W := W) (C := C) any (if command_name argv ==b B "SELECT" then cmdSelect cfg argv
    else local ← handleLocal cfg argv;
         match local with Some v => reply v | None => handle_backend cfg ch (command_name argv) argv raw end))
    as G by apply G.
  unfold cmdSelect, enqueue. once_auto.
Qed.
End OneReply.

(** ** Ownership of connections

    Between commands a session holds its pinned connection and those of its pub/sub session.
    [own base ex]: these and the connections [ex] on hand are all that is checked out beyond [base]. *)

Section Ownership.
Context {W C : Type} `{!Network W C} `{!NetworkLaws W C} (cfg : SessionConfig) (base : list C).
Implicit Types (w : world W C) (s : session C) (ex : list C).

Definition pins s : list C := match pin s with Some (c, _) => [c] | None => [] end.
Definition sub_conns s : list C := match sub s with Some p => ps_conns p | None => [] end.
Definition sub_filed s : Prop :=
  match sub s with
  | Some p => forall addr be, psBackends p !! addr = Some be -> conn_addr (beConn be) = rewrite_addr (rcfg cfg) addr
  | None => True
  end.
Definition own ex w : Prop :=
  held (wNet w) ≡ₚ ex ++ pins (wSess w) ++ sub_conns (wSess w) ++ base ∧ sub_filed (wSess w).

Definition hoare (P : world W C -> Prop) {A} (m : M W C A) (Q : A -> world W C -> Prop) : Prop :=
  forall w, P w -> wp m Q w.

Lemma hoare_bind P {A B} (m : M W C A) (f : A -> M W C B) R Q :
  hoare P m R -> (forall a, hoare (R a) (f a) Q) -> hoare P (m ≫= f) Q.
Proof. intros Hm Hf w Hw. apply wp_bind. eapply wp_mono, Hm; [|done]. intros a w'. apply Hf. Qed.

Lemma own_perm ex ex' w r n o :
  own ex w -> (forall l, held (wNet w) ≡ₚ ex ++ l -> held n ≡ₚ ex' ++ l) -> own ex' (mkWorld (wSess w) r n o).
Proof. intros [H1 H2] Hn. split; [|done]. cbn. by apply Hn. Qed.

Lemma own_on_net ex {A} (post : A -> list C) (f : Router -> W -> Router * W * A) :
  (forall r n r' n' a, f r n = (r', n', a) -> forall l, held n ≡ₚ ex ++ l -> held n' ≡ₚ post a ++ l) ->
  hoare (own ex) (on_net f) (fun a => own (post a)).
Proof.
  intros H w Hw. unfold wp, on_net. destruct (f (wRouter w) (wNet w)) as [[r n] a] eqn:E.
  eapply own_perm; [done|]. intros l. by apply (H _ _ _ _ _ E).
Qed.

Lemma own_reply ex v : inv (own ex) (reply v).
Proof. by intros w H. Qed.
Lemma own_modify ex f : (forall s, pin (f s) = pin s ∧ sub (f s) = sub s) -> inv (own ex) (modify f).
Proof.
  intros Hf w [H1 H2]. destruct (Hf (wSess w)) as [Hp Hs].
  split; cbn; unfold pins, sub_conns, sub_filed; rewrite ?Hp, Hs; [exact H1|exact H2].
Qed.
Lemma own_on_router ex f : inv (own ex) (on_router f).
Proof. intros w H. unfold wp, on_router. by destruct (f (wRouter w)). Qed.

Lemma exec_frame_held r n slot frame argv read r' n' x :
  exec_frame cfg r n slot frame argv read = (r', n', x) -> held n' ≡ₚ held n.
Proof.
  unfold exec_frame, execFrame. destruct (hops_ok (rcfg cfg) (Z.to_nat (MovedHopLimit (rcfg cfg)))
    (match frame with Some f => f | None => EncodeCommand [] argv end)
    (mkHop r n slot [] read false zeroValue)) as (r1 & n1 & y & log & -> & (H & _) & _).
  intros [= <- <- <-]. exact H.
Qed.

Lemma own_exec ex slot argv read : inv (own ex) (exec cfg slot argv read).
Proof.
  apply (own_on_net ex (fun _ => ex)). intros r n r' n' a E l H. apply exec_frame_held in E. by rewrite E.
Qed.
Lemma own_exec_raw ex slot f read : inv (own ex) (exec_raw cfg slot f read).
Proof.
  apply (own_on_net ex (fun _ => ex)). intros r n r' n' a E l H. apply exec_frame_held in E. by rewrite E.
Qed.
Lemma own_conn_do ex c argv : inv (own ex) (conn_do c argv).
Proof.
  apply (own_on_net ex (fun _ => ex)). intros r n r' n' a. unfold net_cmd.
  destruct (net_do n c _) as [n1 res] eqn:E. apply do_sends in E as [E _]. intros [= <- <- <-] l H. by rewrite E.
Qed.
Lemma own_conn_write ex c f : inv (own ex) (conn_write c f).
Proof.
  apply (own_on_net ex (fun _ => ex)). intros r n r' n' a.
  destruct (net_write n c f) as [n1 res] eqn:E. apply write_sends in E as [E _]. intros [= <- <- <-] l H. by rewrite E.
Qed.
Lemma own_conn_read ex c : inv (own ex) (conn_read c).
Proof.
  apply (own_on_net ex (fun _ => ex)). intros r n r' n' a.
  destruct (net_read n c) as [n1 res] eqn:E. apply read_keeps in E as [E _]. intros [= <- <- <-] l H. by rewrite E.
Qed.

(** A checked out connection is on hand, until it is put back or dropped. *)
Definition got_conn ex (res : bytes + C * bytes) : list C :=
  match res with inl _ => ex | inr (c, _) => c :: ex end.

Lemma own_checkout_addr ex addr :
  hoare (own ex) (checkout_addr cfg addr) (fun res => own (got_conn ex res)).
Proof.
  apply own_on_net. intros r n r' n' a. rewrite CheckoutAddr_eq.
  destruct (net_get n _) as [n1 [e|c]] eqn:G; intros [= <- <- <-] l H; cbn.
  - apply get_fails in G as [G _]. by rewrite G.
  - apply get_ok in G as (G & _). by rewrite G, H.
Qed.

Lemma own_checkout ex slot : hoare (own ex) (checkout cfg slot) (fun res => own (got_conn ex res)).
Proof.
  intros w Hw. unfold checkout, wp, on_net, Checkout.
  destruct (match Router_NodeForSlot _ _ _ _ with Some n => Some n | None => _ end) as [nd|].
  - apply (own_checkout_addr ex (nAddr nd) w Hw).
  - by eapply own_perm.
Qed.

Lemma own_put ex c a : hoare (own (c :: ex)) (conn_put a c) (fun _ => own ex).
Proof.
  apply (own_on_net (c :: ex) (fun _ => ex)). intros r n r' n' [] [= <- <-] l H. by apply put_returns.
Qed.
Lemma own_drop ex c a : hoare (own (c :: ex)) (conn_drop a c) (fun _ => own ex).
Proof.
  apply (own_on_net (c :: ex) (fun _ => ex)). intros r n r' n' [] [= <- <-] l H. by apply drop_returns.
Qed.
End Ownership.
#[export] Hint Resolve own_reply own_modify own_on_router own_exec own_exec_raw own_conn_do
  own_conn_write own_conn_read : sess.

Section OwnCommands.
Context {W C : Type} `{!Network W C} `{!NetworkLaws W C} (cfg : SessionConfig) (base : list C).
Implicit Types (w : world W C) (s : session C).
Abbreviation own := (own cfg base).

Lemma hoare_inv (I : world W C -> Prop) {A} (m : M W C A) : inv I m -> hoare I m (fun _ => I).
Proof. done. Qed.

Lemma own_bind_inv ex {A B} (m : M W C A) (f : A -> M W C B) Q :
  inv (own ex) m -> (forall a, hoare (own ex) (f a) Q) -> hoare (own ex) (m ≫= f) Q.
Proof. intros Hm Hf. eapply hoare_bind; [by apply hoare_inv|done]. Qed.

(** Give a connection back and go on. *)
Lemma own_put_bind ex c a {B} (f : unit -> M W C B) Q :
  hoare (own ex) (f tt) Q -> hoare (own (c :: ex)) (conn_put a c ≫= f) Q.
Proof. intros Hf. eapply hoare_bind; [apply own_put|]. by intros []. Qed.
Lemma own_drop_bind ex c a {B} (f : unit -> M W C B) Q :
  hoare (own ex) (f tt) Q -> hoare (own (c :: ex)) (conn_drop a c ≫= f) Q.
Proof. intros Hf. eapply hoare_bind; [apply own_drop|]. by intros []. Qed.

Lemma own_dropPin ex : inv (own ex) dropPin.
Proof.
  intros w Hw. unfold dropPin. apply wp_bind. unfold wp at 1, get.
  destruct (pin (wSess w)) as [[c a]|] eqn:Hp; [|exact Hw].
  unfold conn_drop, modify, wp. cbn. destruct Hw as [H1 H2]. unfold SessionTheory.own. cbn.
  unfold pins in *. rewrite Hp in H1. cbn. split; [|exact H2].
  apply drop_returns. rewrite H1. symmetry. apply Permutation_middle.
Qed.
Hint Resolve own_dropPin : sess.

Lemma own_doBlocking ex slot argv : inv (own ex) (doBlocking cfg slot argv).
Proof.
  apply (hoare_bind _ _ _ _ (fun _ => own ex) (own_checkout cfg base ex slot)). intros [e|[c a]]; cbn [got_conn].
  { apply inv_ret. }
  apply own_bind_inv; [apply own_conn_do|]. intros [e|v].
  { apply own_drop_bind, inv_ret. }
  destruct (if IsError v then _ else _) as [red|]; [|apply own_put_bind, inv_ret].
  case_if; [|apply own_put_bind, inv_ret]. apply own_drop_bind, hoare_inv. inv_auto.
Qed.

Lemma own_scan_loop ex fuel c pat cur : inv (own ex) (scan_loop fuel c pat cur).
Proof. revert cur. induction fuel; intros cur; cbn [scan_loop]; inv_auto. Qed.

Lemma own_scanDeleteOn ex fuel addr pat : inv (own ex) (scanDeleteOn cfg fuel addr pat).
Proof.
  apply (hoare_bind _ _ _ _ (fun _ => own ex) (own_checkout_addr cfg base ex addr)).
  intros [e|[c a]]; cbn [got_conn]; [apply inv_ret|].
  apply own_bind_inv; [apply own_scan_loop|].
  intros [e|e|]; [apply own_drop_bind|apply own_put_bind|apply own_put_bind]; apply inv_ret.
Qed.

Lemma own_send_all ex c cmds : inv (own ex) (send_all c cmds).
Proof. induction cmds; cbn [send_all]; inv_auto. Qed.

Lemma own_exec_on ex c a items n : hoare (own (c :: ex)) (exec_on c a items n) (fun _ => own ex).
Proof.
  apply own_bind_inv; [apply own_send_all|]. intros [e|].
  { apply own_drop_bind, hoare_inv. unfold reply_err. inv_auto. }
  apply own_bind_inv; [apply own_conn_do|]. intros [e|v].
  { apply own_drop_bind, hoare_inv. unfold reply_err. inv_auto. }
  apply own_bind_inv; [apply own_modify; by intros|]. intros _.
  apply own_bind_inv; [inv_auto|]. intros _. apply own_put.
Qed.

Lemma own_take_conn slot :
  hoare (own []) (take_conn cfg slot) (fun res => own (got_conn [] res)).
Proof.
  intros w Hw. unfold take_conn. apply wp_bind. unfold wp at 1, get.
  destruct (pin (wSess w)) as [[c a]|] eqn:Hp; [|by apply own_checkout].
  destruct Hw as [H1 H2]. unfold modify, wp. cbn. split; [|exact H2]. cbn.
  unfold pins in *. rewrite Hp in H1. exact H1.
Qed.

Lemma own_cmdExec : inv (own []) (cmdExec cfg).
Proof.
  unfold cmdExec. apply own_bind_inv; [inv_auto|]. intros s. case_if; [apply own_reply|].
  apply own_bind_inv; [inv_auto|]. intros _. apply own_bind_inv; [inv_auto|]. intros r.
  case_if; [apply hoare_inv; inv_auto|].
  apply own_bind_inv; [inv_auto|]. intros [[items ks] newdb]. cbv zeta.
  case_if; [apply hoare_inv; inv_auto|]. destruct (backend_cmds items); [apply hoare_inv; inv_auto|].
  eapply hoare_bind; [apply own_take_conn|]. intros [e|[c a]]; cbn [got_conn]; [apply own_reply|].
  apply own_exec_on.
Qed.

Lemma own_ensure_pin slot : inv (own []) (ensure_pin cfg slot).
Proof.
  intros w Hw. unfold ensure_pin. apply wp_bind. unfold wp at 1, get.
  destruct (pin (wSess w)) as [[c a]|] eqn:Hp; [exact Hw|].
  apply wp_bind. pose proof (own_checkout cfg base [] slot w Hw) as H. unfold wp in *.
  assert (forall w' res, checkout cfg slot w = SOk w' res -> pin (wSess w') = None) as Hpin.
  { unfold checkout, on_net. intros w' res. by destruct (Checkout _ _ _ _) as [[r n] x]; intros [= <- <-]. }
  destruct (checkout cfg slot w) as [w' res| |] eqn:E; [|done|done]. specialize (Hpin _ _ eq_refl).
  destruct res as [e|[c a]]; [exact H|]. cbn in *. destruct H as [H1 H2]. split; [|exact H2].
  unfold pins in *. rewrite Hpin in H1. exact H1.
Qed.

Lemma own_cmdWatch argv : inv (own []) (cmdWatch cfg argv).
Proof. pose proof own_ensure_pin. unfold cmdWatch, reply_err. inv_auto. Qed.

Lemma own_transferKey ex src dst d r : inv (own ex) (transferKey cfg src dst d r).
Proof. unfold transferKey, transfer_local, transfer_remote. inv_auto. Qed.

Lemma own_scan_all ex fuel addrs pat : inv (own ex) (scan_all cfg fuel addrs pat).
Proof. pose proof own_scanDeleteOn. induction addrs; cbn [scan_all]; unfold reply_err; inv_auto. Qed.
Hint Resolve own_doBlocking own_scan_all own_transferKey own_cmdExec own_cmdWatch : sess.

Lemma own_fanout ex ch argv : inv (own ex) (fanout cfg ch argv).
Proof.
  unfold fanout. apply own_bind_inv; [inv_auto|]. intros s. apply own_bind_inv; [|intros v; apply own_reply].
  intros w Hw. unfold wp. destruct (cmdFanout _ _ _ _ _ _) as [[[r n] v]|] eqn:E; [|done].
  eapply own_perm; [done|]. intros l Hl. apply (cmdFanout_inv _ (fun st => held st.2 ≡ₚ ex ++ l)) in E; [done| |done].
  intros st slot argv' read H. destruct (exec_frame cfg st.1 st.2 slot None argv' read) as [[r' n'] x] eqn:X.
  apply exec_frame_held in X. cbn. by rewrite X.
Qed.

Lemma own_route ex ch name argv raw : inv (own ex) (route cfg ch name argv raw).
Proof. pose proof (own_fanout ex ch). unfold route, reply_err. inv_auto. Qed.

Lemma own_dispatch ex ch name argv raw : inv (own ex) (dispatch cfg ch name argv raw).
Proof.
  pose proof (own_route ex ch).
  unfold dispatch, cmdFlushDB, cmdMove, cmdCopy, cmdRandomKey, reply_result, reply_count, reply_err. inv_auto.
Qed.

Lemma own_reply_all ex vs : inv (own ex) (reply_all vs).
Proof. induction vs; cbn [reply_all]; inv_auto. Qed.

(** A pub/sub command, on the session's pub/sub state or on a new one. *)
Lemma own_sub_cmd_on ch p argv w :
  owns (rcfg cfg) (pins (wSess w) ++ base) p (wNet w) ->
  wp (sub_cmd_on cfg ch p argv) (fun _ => own []) w.
Proof.
  intros Ho. unfold sub_cmd_on. apply wp_bind. unfold wp at 1, on_net.
  destruct (HandleClientCmd _ _ _ _ _ _ _) as [[[p' r'] n'] out] eqn:E.
  apply (HandleClientCmd_inv _ _ (owns_inv (rcfg cfg) (pins (wSess w) ++ base))) in E as [E1 E2]; [|done].
  apply wp_bind. unfold wp at 1, modify. cbn [wSess wRouter wNet wOut].
  set (w1 := mkWorld _ _ _ _). assert (own [] w1) as Hw.
  { split; [|exact E2]. cbn. unfold pins, sub_conns. cbn. rewrite E1. unfold pins.
    rewrite !app_assoc. f_equiv. apply Permutation_app_comm. }
  destruct out as [e|vs]; [by apply own_reply|by apply own_reply_all].
Qed.

Lemma own_sub_Some w p : own [] w -> sub (wSess w) = Some p -> owns (rcfg cfg) (pins (wSess w) ++ base) p (wNet w).
Proof.
  intros [H1 H2] Hs. unfold sub_filed, sub_conns in *. rewrite Hs in *. split; [|exact H2].
  rewrite H1, app_nil_l, !app_assoc. f_equiv. apply Permutation_app_comm.
Qed.

Lemma own_handleSub ch p argv w :
  own [] w -> sub (wSess w) = Some p -> wp (handleSub cfg ch p argv) (fun _ => own []) w.
Proof.
  intros Hw Hs. unfold handleSub. apply wp_bind. unfold wp at 1, lift.
  destruct (index argv 0) as [a0|]; [|done]. cbv zeta.
  repeat case_if; [by apply own_reply| |by apply own_sub_cmd_on, own_sub_Some].
  assert (inv (own []) (modify (W := W) set_quit;; reply ok_reply)) as H by inv_auto. by apply H.
Qed.

Lemma own_enterSub ch argv w :
  own [] w -> sub (wSess w) = None -> wp (enterSub cfg ch argv) (fun _ => own []) w.
Proof.
  intros [H1 H2] Hs. unfold enterSub. apply wp_bind. unfold wp at 1, get_router. apply own_sub_cmd_on.
  split; [|done]. unfold sub_conns, ps_conns in *. rewrite Hs in H1. cbn. by rewrite map_to_list_empty.
Qed.

Lemma own_handleLocal argv : inv (own []) (handleLocal cfg argv).
Proof. unfold handleLocal, doAuth, helloAuth, resetTxn. inv_auto. Qed.
Hint Resolve own_handleLocal own_dispatch : sess.

(** Local commands do not touch the pub/sub state. *)
Lemma handleLocal_sub argv p : inv (fun w : world W C => sub (wSess w) = p) (handleLocal cfg argv).
Proof.
  unfold handleLocal, doAuth, helloAuth, resetTxn, dropPin.
  pose proof (fun f => sess_modify (W := W) (fun s : session C => sub s = p) f).
  pose proof (fun A f => sess_on_net (W := W) (fun s : session C => sub s = p) (A := A) f).
  inv_auto.
Qed.

Lemma handle_own ch argv raw : inv (own []) (handle cfg ch argv raw).
Proof.
  intros w Hw. unfold handle. apply wp_get. destruct (sub (wSess w)) as [p|] eqn:Hs; [by apply own_handleSub|].
  case_if.
  { assert (inv (own []) (cmdSelect (W := W) cfg argv)) as H; [|by apply H]. unfold cmdSelect, enqueue. inv_auto. }
  apply wp_bind. pose proof (own_handleLocal argv w Hw) as H1.
  pose proof (handleLocal_sub argv None w Hs) as H2. unfold wp in *.
  destruct (handleLocal cfg argv w) as [w' [v|]| |]; [exact H1| |done|done]. cbv beta in *.
  unfold handle_backend. repeat (case_if; [match goal with |- match ?m w' with _ => _ end =>
    assert (inv (own []) m) as H; [|by apply H];
    unfold cmdMulti, cmdDiscard, cmdUnwatch; inv_auto end|]).
  apply wp_get. case_if.
  { assert (inv (own []) (enqueue (W := W) (C := C) argv)) as H; [|by apply H]. unfold enqueue. inv_auto. }
  apply wp_bind. unfold wp at 1, lift. destruct (index argv 0) as [a0|]; [|done].
  destruct (ClassifyPubSub (content a0)); try (by apply own_enterSub); try (by apply own_dispatch);
    (assert (inv (own []) (cmdPublish (W := W) cfg argv)) as H; [|by apply H];
     unfold cmdPublish, reply_result, reply_err; inv_auto).
Qed.

Lemma resetTxn_pin w : wp resetTxn (fun _ w' => pin (wSess w') = None) w.
Proof.
  unfold resetTxn, dropPin, wp. cbn. unfold get, modify, mbind, M_bind. cbn.
  by destruct (pin (wSess w)) as [[c a]|] eqn:E.
Qed.

Lemma cleanup_own : hoare (own []) (cleanup (W := W) (C := C)) (fun _ w' => held (wNet w') ≡ₚ base).
Proof.
  unfold cleanup. eapply hoare_bind.
  { intros w Hw. apply wp_and; [|apply (resetTxn_pin w)].
    assert (inv (own []) (resetTxn (W := W) (C := C))) as H by (unfold resetTxn; inv_auto). by apply H. }
  intros _ w [[H1 H2] Hp]. apply wp_bind. unfold wp at 1, get. unfold pins, sub_conns, sub_filed in *.
  rewrite Hp in H1. destruct (sub (wSess w)) as [p|] eqn:Hs; [|exact H1].
  unfold wp, on_net, modify. cbn. apply (drop_all base). exact H1.
Qed.
End OwnCommands.
