(* ===== verification/SessionProps.v ===== *)
(** * Client sessions: replies, databases, authentication, transactions

    The theorems about [Session], proved with the rules of [SessionTheory]. *)

From Stdlib Require Import ZArith Lia Strings.Byte Permutation.
From stdpp Require Import base list strings numbers option sets gmap.
From S2P Require Import Prelude Resp RespTheory Slot Command VirtualDB Fanout.
From S2P Require Import Topology Router PubSub Session SessionTheory.

(** ** Redirects are hidden *)

Definition shown (v : value) : Prop := EqualKind v "MOVED" = false ∧ EqualKind v "ASK" = false.

Lemma shown_ok v : IsError v = false -> shown v.
Proof. intros H. unfold shown, EqualKind, ErrorKind. by rewrite H. Qed.

Lemma shown_err e : shown (RError (B "ERR " ++ e)).
Proof. done. Qed.

Lemma stripBulk_ok db v : IsError v = false -> IsError (stripBulk db v) = false.
Proof. intros H. unfold stripBulk. case_if; [done|]. by destruct (append_nil _). Qed.

Lemma StripReplyKeys_ok name db v : IsError v = false -> IsError (StripReplyKeys name db v) = false.
Proof.
  intros H. unfold StripReplyKeys, stripArrayOfKeys, stripFirstArrayKey, stripXRead.
  repeat first [done | by apply stripBulk_ok | case_if | destruct (vValues v) as [|? [|? ?]]].
Qed.

Lemma client_reply_shown name db v : shown (client_reply name db v).
Proof.
  unfold client_reply. destruct (IsError v) eqn:E; [|by apply shown_ok, StripReplyKeys_ok].
  case_if; [done|]. by bool_simp.
Qed.

Lemma merge_sum_shown l sum : Forall (fun r => IsError r = false) l -> shown (merge_sum l sum).
Proof. intros H. revert sum. induction H as [|r l Hr _ IH]; intros sum; cbn; [done|]. rewrite Hr. by case_if. Qed.
Lemma MergeMSet_shown l : Forall (fun r => IsError r = false) l -> shown (MergeMSet l).
Proof. induction 1 as [|r l Hr _ IH]; cbn; [done|]. by rewrite Hr. Qed.
Lemma mget_merge_shown out l : Forall (fun r => IsError r = false) (map snd l) -> shown (mget_merge out l).
Proof.
  revert out. induction l as [|[g r] l IH]; intros out H; cbn; [done|].
  apply list.Forall_cons in H as [Hr H]. cbn in Hr. rewrite Hr. case_if; [done|]. by apply IH.
Qed.

Lemma fan_reply_shown db argv keys groups replies errs : shown (fan_reply db argv keys groups replies errs).
Proof.
  unfold fan_reply.
  destruct (list_find is_Some errs) as [[? [e|]]|]; [apply shown_err| |];
  (destruct (list_find _ replies) as [[i r]|] eqn:F;
    [case_if; [done|by bool_simp]|];
   apply list_find_None in F;
   assert (Forall (fun r => IsError r = false) replies) as Hr
     by (apply (list.Forall_impl _ _ _ F); intros r; by destruct (IsError r));
   destruct (FanoutOf argv); cbv zeta; [done|..]).
  all: match goal with |- shown (if IsError ?m then _ else _) =>
    assert (shown m) as Hm; [|destruct (IsError m) eqn:E; [exact Hm|by apply shown_ok, StripReplyKeys_ok]] end.
  all: try (by apply merge_sum_shown); try (by apply MergeMSet_shown).
  all: unfold MergeMGet; case_if; [done|]; apply mget_merge_shown;
    bool_simp; apply Nat.eqb_eq in E; change (map ?f ?l) with (f <$> l); by rewrite snd_zip by lia.
Qed.
#[export] Hint Resolve client_reply_shown fan_reply_shown shown_err : sess.

Section Replies.
Context {W C : Type} `{!Network W C} (cfg : SessionConfig).

Lemma fanout_shown ch argv : once (W := W) (C := C) shown (fanout cfg ch argv).
Proof.
  unfold fanout. apply once_bind; [intros o; inv_auto|intros s].
  intros w. apply wp_bind. unfold wp at 1.
  destruct (cmdFanout _ _ _ _ _ _) as [[[r n] v]|] eqn:E; [|done]. exists v. split; [done|].
  revert E. unfold cmdFanout. destruct (ExtractKeys argv) as [keys|]; [|done]. cbn.
  destruct (GroupBySlot keys _) as [|g gs]; [by intros [= _ _ <-]|].
  destruct (mapM _ (g :: gs)) as [subs|]; [|done]. cbn.
  destruct (fold_left _ _ _) as [[st replies] errs]. intros [= _ <-]. apply fan_reply_shown.
Qed.

Lemma route_shown ch name argv raw : once (W := W) (C := C) shown (route cfg ch name argv raw).
Proof.
  pose proof (fanout_shown ch). pose proof (quiet_doBlocking (W := W) (C := C) cfg).
  assert (shown errCross) by done. unfold route. once_auto.
Qed.
End Replies.

(** ** The selected database *)

Section Databases.
Context {W C : Type} `{!Network W C} (cfg : SessionConfig).
Implicit Types (w : world W C).

Definition db_limit : Z := if MaxDatabases cfg <=? 0 then 16 else MaxDatabases cfg.
Definition db_ok (w : world W C) : Prop := 0 <= db (wSess w) < db_limit.

Lemma ParseDBIndex_range b n : ParseDBIndex b (MaxDatabases cfg) = inr n -> 0 <= n < db_limit.
Proof.
  unfold ParseDBIndex, db_limit. cbv zeta. destruct (parse_int b) as [z|]; [|done].
  destruct (z <? 0) eqn:E1; [done|]. destruct (_ <=? z) eqn:E2; [done|]. intros [= <-]. by bool_simp.
Qed.

Lemma exec_items_db q d items keys d' :
  exec_items cfg q d = Ret (items, keys, d') -> 0 <= d < db_limit -> 0 <= d' < db_limit.
Proof.
  revert d items keys. induction q as [|a q IH]; intros d items keys; cbn [exec_items].
  { by intros [= _ _ <-]. }
  case_if.
  - destruct (negb (argc a =? 2)); [|destruct (ParseDBIndex (arg a 1) _) as [e|n] eqn:E2];
      (destruct (exec_items cfg q _) as [[[it ks] d2]|] eqn:E3; [|done]); cbn; intros [= _ _ <-] Hd;
      eapply IH; try done; by apply ParseDBIndex_range in E2.
  - destruct (RewriteArgv a d) as [rw|]; [|done]. cbn. destruct (ExtractKeys rw) as [ks|]; [|done]. cbn.
    destruct (exec_items cfg q d) as [[[it ks2] d2]|] eqn:E3; [|done]. cbn. intros [= _ _ <-]. by eapply IH.
Qed.

Lemma db_modify f : (forall s, db s = db (f s)) -> inv db_ok (modify f).
Proof. intros Hf w Hw. unfold wp, modify, db_ok. cbn. by rewrite <- Hf. Qed.
Lemma db_set n : 0 <= n < db_limit -> inv db_ok (modify (set_db n)).
Proof. by intros Hn w Hw. Qed.
Lemma db_reply v : inv db_ok (reply v).
Proof. by intros w H. Qed.
Lemma db_on_router f : inv db_ok (on_router f).
Proof. apply (sess_on_router (fun s => 0 <= db s < db_limit)). Qed.
Lemma db_on_net {A} (f : Router -> W -> Router * W * A) : inv db_ok (on_net f).
Proof. apply (sess_on_net (fun s => 0 <= db s < db_limit)). Qed.
Hint Resolve db_modify db_set db_reply db_on_router db_on_net : sess.

Lemma db_dropPin : inv db_ok dropPin.
Proof. unfold dropPin. inv_auto. Qed.
Hint Resolve db_dropPin : sess.

Lemma db_scan_loop fuel c pat cur : inv db_ok (scan_loop fuel c pat cur).
Proof. revert cur. induction fuel; intros cur; cbn [scan_loop]; inv_auto. Qed.
Lemma db_send_all c cmds : inv db_ok (send_all c cmds).
Proof. induction cmds; cbn [send_all]; inv_auto. Qed.
Lemma db_reply_all vs : inv db_ok (reply_all vs).
Proof. induction vs; cbn [reply_all]; inv_auto. Qed.
Hint Resolve db_scan_loop db_send_all db_reply_all : sess.
Lemma db_scan_all fuel addrs pat : inv db_ok (scan_all cfg fuel addrs pat).
Proof. induction addrs; cbn [scan_all]; unfold scanDeleteOn, reply_err; inv_auto. Qed.
Lemma db_transferKey src dst d r : inv db_ok (transferKey cfg src dst d r).
Proof. unfold transferKey, transfer_local, transfer_remote. inv_auto. Qed.
Lemma db_fanout ch argv : inv db_ok (fanout cfg ch argv).
Proof.
  unfold fanout. apply inv_bind; [inv_auto|intros s]. apply inv_bind; [|intros v; inv_auto].
  intros w H. unfold wp. by destruct (cmdFanout _ _ _ _ _ _) as [[[r n] v]|].
Qed.
Hint Resolve db_scan_all db_transferKey db_fanout : sess.

Lemma db_cmdExec : inv db_ok (cmdExec cfg).
Proof.
  intros w Hw. unfold cmdExec. apply wp_get. case_if; [done|]. apply wp_bind. unfold wp at 1, modify.
  apply wp_bind. unfold wp at 1, get_router.
  assert (db_ok (mkWorld (set_txn false [] (wSess w)) (wRouter w) (wNet w) (wOut w))) as Hw1 by exact Hw.
  case_if. { assert (inv db_ok (dropPin;; reply (W := W) (C := C) (RError
    (B "EXECABORT Transaction discarded because of topology change")))) as H by inv_auto. by apply H. }
  apply wp_bind. unfold wp at 1, lift. destruct (exec_items cfg _ _) as [[[items ks] newdb]|] eqn:E1; [|done].
  apply exec_items_db in E1; [|exact Hw].
  match goal with |- wp ?m _ _ => assert (inv db_ok m) as H; [|by apply H] end.
  unfold take_conn, exec_on, reply_err. inv_auto.
Qed.

Lemma db_handleLocal argv : inv db_ok (handleLocal cfg argv).
Proof.
  assert (0 <= 0 < db_limit) by (unfold db_limit; case_if; bool_simp; lia).
  unfold handleLocal, doAuth, helloAuth, resetTxn. inv_auto.
Qed.
Hint Resolve db_cmdExec db_handleLocal : sess.

Lemma db_cmdSelect argv : inv db_ok (cmdSelect cfg argv).
Proof.
  unfold cmdSelect, enqueue. apply inv_bind; [inv_auto|]. intros s. case_if; [inv_auto|]. case_if; [inv_auto|].
  destruct (ParseDBIndex _ _) as [e|n] eqn:E1; [inv_auto|]. apply ParseDBIndex_range in E1. inv_auto.
Qed.

Lemma handle_db_ok ch argv raw : inv db_ok (handle cfg ch argv raw).
Proof.
  pose proof db_cmdSelect.
  unfold handle, handle_backend, handleSub, enterSub, sub_cmd_on, dispatch, route, doBlocking, cmdMulti, cmdDiscard,
    cmdWatch, ensure_pin, cmdUnwatch, enqueue, cmdPublish, cmdFlushDB, cmdMove, cmdCopy, cmdRandomKey,
    reply_result, reply_count, reply_err. inv_auto.
Qed.
End Databases.

(** ** Authentication *)

Section Authentication.
Context {W C : Type} `{!Network W C} (cfg : SessionConfig).
Implicit Types (w : world W C).

(** A session that waits for the password. *)
Definition locked (s : session C) : Prop :=
  requireAuth s = true ∧ authed s = false ∧ clientPass s = ClientAuthPassword cfg
  ∧ sub s = None ∧ multi s = false ∧ pin s = None.

(** The command contains the password and is one of the two that check it. *)
Definition presents (argv : list slice) : Prop :=
  (command_name argv = B "AUTH" ∨ command_name argv = B "HELLO")
  ∧ exists p, p ∈ argv ∧ content p = ClientAuthPassword cfg.

Lemma locked_new : ClientAuthPassword cfg ≠ [] -> locked (newSession cfg).
Proof. intros H. unfold locked, newSession. cbn. by rewrite bool_decide_false. Qed.

(** A local answer that leaves the session locked. *)
Definition answers_locked (m : M W C (option value)) (argv : list slice) w : Prop :=
  exists s' v, m w = SOk (mkWorld s' (wRouter w) (wNet w) (wOut w)) (Some v) ∧ (locked s' ∨ presents argv).

Lemma doAuth_locked argv w :
  locked (wSess w) -> command_name argv = B "AUTH" ->
  answers_locked (v ← doAuth argv; mret (Some v)) argv w.
Proof.
  intros L Hn. pose proof L as (L1 & L2 & L3 & _). unfold answers_locked, doAuth.
  unfold mbind, M_bind, get, mret, M_ret. cbv beta. rewrite L1. cbn [negb].
  destruct w as [s r n o]. cbn [wSess] in *.
  destruct argv as [|a0 [|p1 [|p2 [|p3 rest]]]]; cbv beta iota; try (by eexists _, _; split; [done|by left]);
    rewrite L3; (case_bool_decide as E; [|by eexists _, _; split; [done|by left]]);
    (eexists _, _; split; [done|right]; split; [by left|]).
  - exists p1. split; [by right; left|done].
  - exists p2. split; [by right; right; left|done].
Qed.

Lemma helloAuth_locked argv w :
  locked (wSess w) -> command_name argv = B "HELLO" ->
  answers_locked (v ← helloAuth argv; mret (Some (default errNoAuth v))) argv w.
Proof.
  intros L Hn. pose proof L as (L1 & L2 & L3 & _). unfold answers_locked, helloAuth.
  unfold mbind, M_bind, get, mret, M_ret. cbv beta. destruct w as [s r n o]. cbn [wSess] in *. rewrite L3.
  destruct (find_fold _ _ _) as [i|]; [|by eexists _, _; split; [done|by left]].
  destruct (argv !! (i + 2)%nat) as [p|] eqn:Ep; [|by eexists _, _; split; [done|by left]].
  case_bool_decide as E; [|by eexists _, _; split; [done|by left]].
  eexists _, _; split; [done|right]. split; [by right|]. exists p. split; [|done]. by eapply list_elem_of_lookup_2.
Qed.

Lemma handleLocal_locked argv w :
  locked (wSess w) -> argv ≠ [] -> command_name argv ≠ B "COMMAND" ->
  answers_locked (handleLocal cfg argv) argv w.
Proof.
  intros L Ha Hn. destruct argv as [|a0 rest]; [done|]. cbn [command_name] in Hn.
  pose proof (doAuth_locked (a0 :: rest) w L) as HA. pose proof (helloAuth_locked (a0 :: rest) w L) as HH.
  cbn [command_name] in HA, HH. unfold handleLocal. revert Hn HA HH.
  generalize (upperName (content a0)) as name. intros name Hn HA HH.
  pose proof L as (L1 & L2 & L3 & L4 & L5 & L6). unfold answers_locked in *.
  change ((get ≫= ?f) w) with (f (wSess w) w). cbv beta zeta. rewrite L1, L2. cbn [negb andb].
  assert (forall v : value, exists s' v', mret (M := M W C) (Some v) w = SOk (mkWorld s' (wRouter w) (wNet w) (wOut w)) (Some v')
    ∧ (locked s' ∨ presents (a0 :: rest))) as Hret
    by (intros v; exists (wSess w), v; split; [by destruct w|by left]).
  do 2 (case_bool_decide; [apply Hret|]).
  case_bool_decide; [by apply HA|].
  case_bool_decide. { exists (set_quit (wSess w)), ok_reply. split; [done|by left]. }
  case_bool_decide; [apply Hret|]. case_bool_decide; [done|]. case_bool_decide; [apply Hret|].
  case_bool_decide; [by apply HH|]. case_bool_decide; [|apply Hret].
  eexists _, ok_reply. split.
  - unfold resetTxn, dropPin, mbind, M_bind, get, modify, mret, M_ret. cbn [wSess set_txn set_watched pin].
    rewrite L6. reflexivity.
  - left. cbn. unfold locked. cbn. rewrite L1. by split_and!.
Qed.

Lemma handle_locked ch argv raw w :
  locked (wSess w) -> argv ≠ [] -> command_name argv ≠ B "COMMAND" ->
  exists s' v, handle cfg ch argv raw w = SOk (mkWorld s' (wRouter w) (wNet w) (wOut w ++ [v])) tt
  ∧ (locked s' ∨ presents argv).
Proof.
  intros L Ha Hn. unfold handle. change ((get ≫= ?f) w) with (f (wSess w) w). cbv beta zeta.
  pose proof L as (L1 & L2 & L3 & L4 & L5 & L6). rewrite L4. case_bool_decide.
  - exists (wSess w), errNoAuth. split; [|by left]. unfold cmdSelect.
    change ((get ≫= ?f) w) with (f (wSess w) w). cbv beta. by rewrite L2.
  - destruct (handleLocal_locked argv w L Ha Hn) as (s' & v & E & Hl). exists s', v. split; [|done].
    unfold mbind, M_bind. by rewrite E.
Qed.
End Authentication.

(** ** Transactions *)

Section Total.
Context {W C : Type}.
Implicit Types (w : world W C).

(** [m] returns, and its result satisfies [Q]. *)
Definition wpt {A} (m : M W C A) (Q : A -> world W C -> Prop) w : Prop :=
  exists w' a, m w = SOk w' a ∧ Q a w'.

Lemma wpt_ret {A} (a : A) (Q : A -> world W C -> Prop) w : Q a w -> wpt (mret a) Q w.
Proof. intros H. by exists w, a. Qed.
Lemma wpt_bind {A B} (m : M W C A) (f : A -> M W C B) Q w :
  wpt m (fun a w' => wpt (f a) Q w') w -> wpt (m ≫= f) Q w.
Proof. intros (w1 & a & E & w2 & b & E2 & H). exists w2, b. split; [|done]. unfold mbind, M_bind. by rewrite E. Qed.
Lemma wpt_mono {A} (m : M W C A) (Q Q' : A -> world W C -> Prop) w :
  wpt m Q w -> (forall a w', Q a w' -> Q' a w') -> wpt m Q' w.
Proof. intros (w' & a & E & H) HQ. exists w', a. auto. Qed.
Lemma wpt_get {A} (f : session C -> M W C A) Q w : wpt (f (wSess w)) Q w -> wpt (get ≫= f) Q w.
Proof. done. Qed.
Lemma wpt_reply v (Q : unit -> world W C -> Prop) w :
  Q tt (mkWorld (wSess w) (wRouter w) (wNet w) (wOut w ++ [v])) -> wpt (reply v) Q w.
Proof. intros H. by eexists _, tt. Qed.
Lemma wpt_modify f (Q : unit -> world W C -> Prop) w :
  Q tt (mkWorld (f (wSess w)) (wRouter w) (wNet w) (wOut w)) -> wpt (modify f) Q w.
Proof. intros H. by eexists _, tt. Qed.
End Total.

Section Transactions.
Context {W C : Type} `{!Network W C} `{!NetworkLaws W C} (cfg : SessionConfig).
Implicit Types (w : world W C).

(** From [w] to [w'] only the network changed: the frames [l] were sent on [c], and the connections
    held are as before. *)
Definition wrote (c : C) (l : list bytes) w w' : Prop :=
  wSess w' = wSess w ∧ wOut w' = wOut w ∧ held (wNet w') = held (wNet w)
  ∧ sent (wNet w') = sent (wNet w) ++ map (pair (conn_addr c)) l.

Lemma wrote_nil c w : wrote c [] w w.
Proof. unfold wrote. by rewrite app_nil_r. Qed.
Lemma wrote_app c l1 l2 w1 w2 w3 : wrote c l1 w1 w2 -> wrote c l2 w2 w3 -> wrote c (l1 ++ l2) w1 w3.
Proof.
  intros (A1 & A2 & A3 & A4) (B1 & B2 & B3 & B4). unfold wrote. rewrite map_app, app_assoc, <- A4.
  split_and!; congruence.
Qed.

Lemma conn_write_wrote c f w : wpt (conn_write c f) (fun _ w' => wrote c [f] w w') w.
Proof.
  unfold wpt, conn_write, on_net. destruct (net_write (wNet w) c f) as [n res] eqn:E.
  apply write_sends in E as [E1 E2]. by eexists _, _.
Qed.
Lemma conn_read_wrote c w : wpt (conn_read c) (fun _ w' => wrote c [] w w') w.
Proof.
  unfold wpt, conn_read, on_net. destruct (net_read (wNet w) c) as [n res] eqn:E.
  apply read_keeps in E as [E1 E2]. eexists _, _. split; [done|]. unfold wrote. cbn. by rewrite app_nil_r.
Qed.
Lemma conn_do_wrote c argv w : wpt (conn_do c argv) (fun _ w' => wrote c [EncodeCommand [] argv] w w') w.
Proof.
  unfold wpt, conn_do, on_net, net_cmd. destruct (net_do (wNet w) c _) as [n res] eqn:E.
  apply do_sends in E as [E1 E2]. by eexists _, _.
Qed.

Lemma send_all_wrote c cmds w :
  wpt (send_all c cmds) (fun res w' => exists l, wrote c l w w' ∧ l `prefix_of` map (EncodeCommand []) cmds
    ∧ (res = None -> l = map (EncodeCommand []) cmds)) w.
Proof.
  revert w. induction cmds as [|a cmds IH]; intros w; cbn [send_all map].
  { apply wpt_ret. exists []. split_and!; [apply wrote_nil|done|done]. }
  apply wpt_bind. eapply wpt_mono; [apply conn_write_wrote|]. intros [e|] w1 H1.
  { apply wpt_ret. exists [EncodeCommand [] a]. split_and!; [done| |done]. apply prefix_cons, prefix_nil. }
  apply wpt_bind. eapply wpt_mono; [apply conn_read_wrote|]. intros [e|v] w2 H2.
  { apply wpt_ret. exists [EncodeCommand [] a]. split_and!; [|by apply prefix_cons, prefix_nil|done].
    by apply (wrote_app c [EncodeCommand [] a] [] w w1 w2). }
  eapply wpt_mono; [apply IH|]. intros res w3 (l & H3 & Hp & Hr). exists (EncodeCommand [] a :: l).
  split_and!; [|by apply prefix_cons|intros Hn; by rewrite Hr].
  apply (wrote_app c [EncodeCommand [] a] l w w2 w3); [|done].
  by apply (wrote_app c [EncodeCommand [] a] [] w w1 w2).
Qed.

(** The frames of a transaction. *)
Definition txn_frames (items : list execItem) : list bytes :=
  map (EncodeCommand []) ([BS "MULTI"] :: backend_cmds items ++ [[BS "EXEC"]]).

(** How a transaction ends: [l] are the frames sent, [v] the reply. *)
Definition txn_result (items : list execItem) (l : list bytes) (v : value) : Prop :=
  l `prefix_of` txn_frames items
  ∧ (IsError v = true
     ∨ backend_cmds items = [] ∧ v = Array (merge_items items [])
     ∨ l = txn_frames items ∧ exists x, v = if vNull x then x else mergeExecReply items x).

(** What EXEC leaves: the queue is empty, one reply was written, [l] was sent on one connection. *)
Definition txn_done (items : list execItem) w w' : Prop :=
  multi (wSess w') = false ∧ queued (wSess w') = []
  ∧ exists addr l v, wOut w' = wOut w ++ [v]
    ∧ sent (wNet w') = sent (wNet w) ++ map (pair addr) l ∧ txn_result items l v.

Lemma give_back (op : bytes -> C -> M W C unit) c a w rest :
  op = conn_put ∨ op = conn_drop -> held (wNet w) ≡ₚ c :: rest ->
  wpt (op a c) (fun _ w' => wSess w' = wSess w ∧ wOut w' = wOut w ∧ sent (wNet w') = sent (wNet w)) w.
Proof.
  intros [->| ->] H; eexists _, tt; (split; [done|]); cbn; split_and!; try done.
  - by apply (put_returns _ _ _ rest).
  - by apply (drop_returns _ _ _ rest).
Qed.

Lemma exec_on_done c a items n w rest :
  held (wNet w) ≡ₚ c :: rest -> multi (wSess w) = false -> queued (wSess w) = [] ->
  wpt (exec_on c a items n) (fun _ w' => txn_done items w w') w.
Proof.
  intros Hh Hm Hq. unfold exec_on. apply wpt_bind. eapply wpt_mono; [apply send_all_wrote|].
  intros err w1 (l & (S1 & S2 & S3 & S4) & Hp & Hr).
  assert (txn_frames items = map (EncodeCommand []) ([BS "MULTI"] :: backend_cmds items)
          ++ [EncodeCommand [] [BS "EXEC"]]) as Ht
    by (unfold txn_frames; by rewrite app_comm_cons, map_app).
  assert (forall w2 l2 e, wSess w2 = wSess w -> wOut w2 = wOut w -> held (wNet w2) ≡ₚ c :: rest ->
    sent (wNet w2) = sent (wNet w) ++ map (pair (conn_addr c)) l2 -> l2 `prefix_of` txn_frames items ->
    wpt (conn_drop a c;; reply_err e) (fun _ w' => txn_done items w w') w2) as Hdrop.
  { intros w2 l2 e A1 A2 A3 A4 A5. apply wpt_bind.
    eapply wpt_mono; [by apply (give_back conn_drop c a w2 rest); [right|]|]. intros _ w3 (B1 & B2 & B3).
    apply wpt_reply. unfold txn_done. cbn. rewrite B1, B2, B3, A1, A2, A4. split_and!; [done..|].
    exists (conn_addr c), l2. eexists. split_and!; [done|done|]. split; [done|by left]. }
  destruct err as [e|].
  { apply (Hdrop w1 l e); [done|done|by rewrite S3|done|]. rewrite Ht. by apply prefix_app_r. }
  rewrite (Hr eq_refl) in *. apply wpt_bind. eapply wpt_mono; [apply conn_do_wrote|].
  intros res w2 (T1 & T2 & T3 & T4).
  assert (sent (wNet w2) = sent (wNet w) ++ map (pair (conn_addr c)) (txn_frames items)) as Hs
    by (rewrite T4, S4, Ht, map_app, app_assoc; done).
  destruct res as [e|v].
  { apply (Hdrop w2 (txn_frames items) e); [congruence|congruence|by rewrite T3, S3|done|done]. }
  apply wpt_bind, wpt_modify, wpt_bind. set (s' := set_watched [] (wSess w2)).
  assert (multi s' = false ∧ queued s' = []) as [Hm' Hq'] by (unfold s'; cbn; by rewrite T1, S1).
  assert (forall s'' x, multi s'' = false -> queued s'' = [] ->
    x = (if vNull v then v else mergeExecReply items v) ->
    wpt (conn_put a c) (fun _ w' => txn_done items w w')
      (mkWorld s'' (wRouter w2) (wNet w2) (wOut w2 ++ [x]))) as Hput.
  { intros s'' x M1 M2 Hx. eapply wpt_mono.
    { apply (give_back conn_put c a (mkWorld s'' (wRouter w2) (wNet w2) (wOut w2 ++ [x])) rest); [by left|].
      cbn. by rewrite T3, S3. }
    cbn. intros _ w3 (B1 & B2 & B3). unfold txn_done. rewrite B1, B2, B3. split_and!; [done..|].
    exists (conn_addr c), (txn_frames items). eexists. split_and!; [by rewrite T2, S2|done|].
    split; [done|]. right. right. split; [done|]. by exists v. }
  destruct (vNull v); [apply wpt_reply; by apply Hput|]. apply wpt_bind, wpt_modify, wpt_reply. by apply Hput.
Qed.

(** From [w] to [w'] no frame was sent, nothing was replied, and the transaction is the same. *)
Definition silently w w' : Prop :=
  wOut w' = wOut w ∧ sent (wNet w') = sent (wNet w)
  ∧ multi (wSess w') = multi (wSess w) ∧ queued (wSess w') = queued (wSess w).

Lemma dropPin_silent base w : own cfg base [] w -> wpt dropPin (fun _ w' => silently w w') w.
Proof.
  intros [Hh _]. unfold dropPin. apply wpt_get. unfold pins in Hh.
  destruct (pin (wSess w)) as [[c a]|]; [|by apply wpt_ret].
  apply wpt_bind. eapply wpt_mono; [by eapply (give_back conn_drop c a w); [right|apply Hh]|].
  intros _ w1 (A1 & A2 & A3). apply wpt_modify. unfold silently. cbn. by rewrite A1, A2, A3.
Qed.

Lemma checkout_silent base slot w :
  own cfg base [] w ->
  wpt (checkout cfg slot) (fun got w' => silently w w'
    ∧ forall c a, got = inr (c, a) -> exists rest, held (wNet w') ≡ₚ c :: rest) w.
Proof.
  intros Hw. pose proof (own_checkout cfg base [] slot w Hw) as Ho. unfold wpt.
  assert (forall w' got, checkout cfg slot w = SOk w' got -> silently w w') as Hs.
  { unfold checkout, on_net, Checkout. intros w' got.
    destruct (match Router_NodeForSlot _ _ _ _ with Some n => Some n | None => _ end) as [nd|]; [|by intros [= <- <-]].
    rewrite CheckoutAddr_eq. destruct (net_get _ _) as [n [e|c]] eqn:G; intros [= <- <-]; unfold silently; cbn.
    - by apply get_fails in G as [_ ->].
    - by apply get_ok in G as (_ & -> & _). }
  unfold wp in Ho. destruct (checkout cfg slot w) as [w' got| |] eqn:E;
    [|by unfold checkout, on_net in E; destruct (Checkout _ _ _ _) as [[? ?] ?]..].
  exists w', got. split; [done|]. split; [by apply (Hs w' got)|]. intros c a ->. destruct Ho as [Ho _].
  eexists. exact Ho.
Qed.

Lemma take_conn_silent base slot w :
  own cfg base [] w ->
  wpt (take_conn cfg slot) (fun got w' => silently w w'
    ∧ forall c a, got = inr (c, a) -> exists rest, held (wNet w') ≡ₚ c :: rest) w.
Proof.
  intros Hw. unfold take_conn. apply wpt_get. destruct (pin (wSess w)) as [[c a]|] eqn:Hp; [|by eapply checkout_silent].
  apply wpt_bind, wpt_modify, wpt_ret. split; [done|]. intros c' a' [= <- <-]. destruct Hw as [Hh _].
  unfold pins in Hh. rewrite Hp in Hh. eexists. exact Hh.
Qed.

(** A reply without any traffic. *)
Lemma reply_done items v w w1 :
  silently w w1 -> multi (wSess w) = false -> queued (wSess w) = [] ->
  IsError v = true ∨ backend_cmds items = [] ∧ v = Array (merge_items items []) ->
  wpt (reply v) (fun _ w' => txn_done items w w') w1.
Proof.
  intros (A1 & A2 & A3 & A4) Hm Hq Hv. apply wpt_reply. unfold txn_done. cbn. rewrite A1, A2, A3, A4.
  split_and!; [done..|]. exists [], [], v. split_and!; [done|by rewrite app_nil_r|]. split; [apply prefix_nil|].
  destruct Hv; auto.
Qed.

Lemma txn_done_trans items w0 w w' :
  wOut w = wOut w0 -> sent (wNet w) = sent (wNet w0) -> txn_done items w w' -> txn_done items w0 w'.
Proof. unfold txn_done. intros -> ->. done. Qed.

Lemma cmdExec_done base items keys n w :
  own cfg base [] w -> multi (wSess w) = true ->
  exec_items cfg (queued (wSess w)) (db (wSess w)) = Ret (items, keys, n) ->
  wpt (cmdExec cfg) (fun _ w' => txn_done items w w') w.
Proof.
  intros Hw Hm He. unfold cmdExec. apply wpt_get. rewrite Hm. cbn [negb]. apply wpt_bind, wpt_modify.
  set (w1 := mkWorld _ _ _ _). assert (own cfg base [] w1) as Hw1 by exact Hw.
  assert (forall w', txn_done items w1 w' -> txn_done items w w') as Ht by (intros w'; by apply txn_done_trans).
  assert (forall v, IsError v = true -> wpt (dropPin;; reply v) (fun _ w' => txn_done items w w') w1) as Hdrop.
  { intros v Hv. apply wpt_bind. eapply wpt_mono; [by eapply dropPin_silent|]. intros [] w2 S2.
    eapply wpt_mono; [apply (reply_done items v w1 w2 S2); [done|done|by left]|]. intros ? w3. apply Ht. }
  apply wpt_bind. exists w1, (wRouter w1). split; [done|]. case_if; [by apply Hdrop|].
  apply wpt_bind. unfold lift. rewrite He. eexists w1, _. split; [done|]. cbv beta iota zeta.
  case_if; [by apply Hdrop|].
  destruct (backend_cmds items) as [|b bs] eqn:Eb.
  - do 2 apply wpt_bind, wpt_modify. eapply wpt_mono.
    { apply (reply_done items _ w1); [done|done|done|by right]. }
    intros ? w3. apply Ht.
  - apply wpt_bind. eapply wpt_mono; [by eapply take_conn_silent|]. intros [e|[c a]] w2 [S2 Hc].
    + eapply wpt_mono; [apply (reply_done items _ w1 w2 S2); [done|done|by left]|]. intros ? w3. apply Ht.
    + destruct (Hc c a eq_refl) as [rest Hr]. destruct S2 as (A1 & A2 & A3 & A4).
      eapply wpt_mono; [apply (exec_on_done c a items n w2 rest Hr); [by rewrite A3|by rewrite A4]|].
      intros ? w3 H3. by apply Ht, (txn_done_trans items w1 w2).
Qed.
End Transactions.

(** Commands answered without the backends. *)
Definition local_names : list string :=
  ["PING"; "ECHO"; "AUTH"; "QUIT"; "CLUSTER"; "INFO"; "HELLO"; "RESET"].

(** For an authenticated client every other command is passed on. *)
Lemma handleLocal_pass {W C : Type} `{!Network W C} (cfg : SessionConfig) argv (w : world W C) :
  authed (wSess w) = true -> str_in (command_name argv) local_names = false ->
  handleLocal cfg argv w = SOk w None.
Proof.
  intros Ha Hn. unfold str_in in Hn. cbn [local_names existsb] in Hn. bool_simp.
  unfold handleLocal. change ((get ≫= ?f) w) with (f (wSess w) w). cbv beta zeta.
  destruct argv as [|a0 rest]; [done|]. cbn [command_name] in *. rewrite !bool_decide_false by done.
  case_bool_decide; [done|]. rewrite !bool_decide_false by done. rewrite Ha. by rewrite andb_false_r.
Qed.

(** A command of an authenticated client that is neither SELECT nor local. *)
Lemma handle_to_backend {W C : Type} `{!Network W C} (cfg : SessionConfig) ch argv raw (w : world W C) :
  sub (wSess w) = None -> authed (wSess w) = true ->
  str_in (command_name argv) ("SELECT" :: local_names) = false ->
  handle cfg ch argv raw w = handle_backend cfg ch (command_name argv) argv raw w.
Proof.
  intros Hs Ha Hn. pose proof (handleLocal_pass cfg argv w Ha (str_in_false_sub _ local_names _ Hn ltac:(simpl; tauto))) as HL.
  unfold str_in in Hn. cbn [existsb local_names] in Hn. bool_simp. unfold handle.
  change ((get ≫= ?f) w) with (f (wSess w) w). cbv beta zeta. rewrite Hs, bool_decide_false by done.
  unfold mbind at 1, M_bind at 1. by rewrite HL.
Qed.

(** In a transaction all but the commands that control it are queued. *)
Lemma handle_queued {W C : Type} `{!Network W C} (cfg : SessionConfig) ch argv raw (w : world W C) :
  multi (wSess w) = true -> sub (wSess w) = None -> authed (wSess w) = true ->
  str_in (command_name argv) ("SELECT" :: local_names ++ ["MULTI"; "DISCARD"; "EXEC"; "WATCH"; "UNWATCH"]) = false ->
  handle cfg ch argv raw w
  = SOk (mkWorld (set_txn true (queued (wSess w) ++ [clone_argv argv]) (wSess w))
           (wRouter w) (wNet w) (wOut w ++ [queued_reply])) tt.
Proof.
  intros Hm Hs Ha Hn. rewrite handle_to_backend by (done || (eapply str_in_false_sub; [exact Hn|]; simpl; tauto)).
  unfold str_in in Hn. cbn [existsb local_names app] in Hn. bool_simp. unfold handle_backend. rewrite !bool_decide_false by done.
  change ((get ≫= ?f) w) with (f (wSess w) w). cbv beta. rewrite Hm.
  unfold enqueue, modify, reply, mbind, M_bind. cbn. by rewrite Hm.
Qed.

(** ** Runs of commands *)

(** The commands of a client, one after the other, with the scheduler's choices for each. *)
Definition client_run : Type := list (choices * list slice * bytes).

Fixpoint handle_all {W C} `{!Network W C} (cfg : SessionConfig) (l : client_run) : M W C unit :=
  match l with
  | [] => mret tt
  | (ch, argv, raw) :: rest => handle cfg ch argv raw;; handle_all cfg rest
  end.

(** ** Properties *)

Section SessionProperties.
Context {W C : Type} `{!Network W C} (cfg : SessionConfig).


(** C25: routed commands never expose redirects.  Whatever the backends answer, a command that is
    routed, directly or by fan-out, gets exactly one reply, and it is not a MOVED or ASK error. *)
Theorem redirects_hidden (ch : choices) (name : bytes) (argv : list slice) (raw : bytes) (w w' : world W C)
  (H : route cfg ch name argv raw w = SOk w' tt) :
  exists v, wOut w' = wOut w ++ [v] ∧ EqualKind v "MOVED" = false ∧ EqualKind v "ASK" = false.
Proof.
  destruct (wp_done _ _ _ _ _ (route_shown cfg ch name argv raw w) H) as (v & H1 & H2). by exists v.
Qed.


(** Inside MULTI commands are only queued.  Any command but the ones that are answered by the
    proxy or control the transaction is appended to the queue and answered QUEUED, and neither the
    router nor the network is used. *)
Theorem multi_queues (ch : choices) (argv : list slice) (raw : bytes) (w : world W C)
  (Hm : multi (wSess w) = true) (Hs : sub (wSess w) = None) (Ha : authed (wSess w) = true)
  (Hn : str_in (command_name argv) ["SELECT"; "PING"; "ECHO"; "AUTH"; "QUIT"; "CLUSTER"; "INFO"; "HELLO";
          "RESET"; "MULTI"; "DISCARD"; "EXEC"; "WATCH"; "UNWATCH"] = false) :
  handle cfg ch argv raw w
  = SOk (mkWorld (set_txn true (queued (wSess w) ++ [clone_argv argv]) (wSess w))
           (wRouter w) (wNet w) (wOut w ++ [queued_reply])) tt.
Proof. by apply handle_queued. Qed.

(** The reply to EXEC has one element per queued command.  When the backend answers one value
    per command it was sent, the queued SELECTs keep their own replies at their positions and the
    values of the backend fill the other positions in order. *)
Theorem mergeExecReply_spec (items : list execItem) (v : value)
  (Ht : vType v = TypeArray) (Hn : vNull v = false) (Hl : length (vValues v) = length (backend_cmds items)) :
  exists out, mergeExecReply items v = Array out ∧ length out = length items
  ∧ (forall i x, items !! i = Some (ItemLocal x) -> out !! i = Some x)
  ∧ omap (fun p => match p.1 with ItemArgv _ => Some p.2 | ItemLocal _ => None end) (zip items out) = vValues v.
Proof.
  exists (merge_items items (vValues v)). split.
  { unfold mergeExecReply. by rewrite Ht, Hn. }
  revert Hl. generalize (vValues v) as vs. clear. induction items as [|it items IH]; intros vs Hl.
  { destruct vs; [|done]. done. }
  destruct it as [x|a]; cbn [merge_items].
  - destruct (IH vs Hl) as (H1 & H2 & H3). cbn. rewrite H1, H3. split_and!; [done| |done].
    intros [|i] y; [by intros [= <-]|apply H2].
  - destruct vs as [|u vs]; [done|]. cbn in Hl. injection Hl as Hl.
    destruct (IH vs Hl) as (H1 & H2 & H3). cbn. rewrite H1, H3. split_and!; [done| |done].
    intros [|i] y; [done|apply H2].
Qed.
End SessionProperties.


(** ** Witnesses: sessions on the cluster of two seeds *)

Definition open_scfg : SessionConfig := mkSessionConfig demo_cfg [] 16 (B "dev").
Definition locked_scfg : SessionConfig := mkSessionConfig demo_cfg (B "secret") 16 (B "dev").
Definition demo_choices : choices := mkChoices [0; 1; 2]%nat [] 5 10.
Definition demo_world (cfg : SessionConfig) (replies : list (bytes + value)) : world script bytes :=
  mkWorld (newSession cfg) demo_router (mkScript replies [] []) [].
Definition demo_cmds (l : list (list string)) : client_run := map (fun c => (demo_choices, cmd c, [])) l.

(** COMMAND is forwarded before authentication. *)
Example COMMAND_bypasses_auth :
  match handle locked_scfg demo_choices (cmd ["COMMAND"]) [] (demo_world locked_scfg [inr (Integer 0)]) with
  | SOk w' _ => (authed (wSess w'), map snd (sent (wNet w'))) = (false, [EncodeCommand [] (cmd ["COMMAND"])])
  | _ => False
  end.
Proof. vm_refl. Qed.

(** An empty argument of a queued command becomes a null bulk, also in database 0. *)
Example queued_empty_argument :
  match handle_all open_scfg [(demo_choices, cmd ["MULTI"], []); (demo_choices, cmd ["SET"; "k"; ""], [])]
          (demo_world open_scfg []) with
  | SOk w' _ => queued (wSess w') = [[BS "SET"; BS "k"; None]]
  | _ => False
  end.
Proof. vm_refl. Qed.

(** A redirect is shown to the client by WATCH and PUBLISH. *)
Example watch_exposes_redirect :
  match handle open_scfg demo_choices (cmd ["WATCH"; "k"]) [] (demo_world open_scfg [inr moved_reply]) with
  | SOk w' _ => map (fun v => EqualKind v "MOVED") (wOut w') = [true]
  | _ => False
  end.
Proof. vm_refl. Qed.


Lemma redirects_hidden_witness :
  match route open_scfg demo_choices (B "GET") (cmd ["GET"; "k"]) []
          (demo_world open_scfg (repeat (inr moved_reply) 5)) with
  | SOk w' _ => exists v, wOut w' = [v] ∧ EqualKind v "MOVED" = false ∧ EqualKind v "ASK" = false
  | _ => False
  end.
Proof.
  assert (match route open_scfg demo_choices (B "GET") (cmd ["GET"; "k"]) []
            (demo_world open_scfg (repeat (inr moved_reply) 5)) with SOk _ _ => true | _ => false end = true)
    as R by vm_refl. revert R.
  destruct (route open_scfg demo_choices (B "GET") (cmd ["GET"; "k"]) []
    (demo_world open_scfg (repeat (inr moved_reply) 5))) as [w' []| |] eqn:E; [|discriminate|discriminate].
  intros _. exact (redirects_hidden open_scfg _ _ _ _ _ _ E).
Defined.


Definition demo_txn (q : list (list slice)) (replies : list (bytes + value)) : world script bytes :=
  mkWorld (set_txn true q (newSession open_scfg)) demo_router (mkScript replies [] []) [].

Lemma multi_queues_witness :
  handle open_scfg demo_choices (cmd ["SET"; "a"; "1"]) [] (demo_txn [] [])
  = SOk (mkWorld (set_txn true [cmd ["SET"; "a"; "1"]] (newSession open_scfg)) demo_router
           (mkScript [] [] []) [queued_reply]) tt.
Proof.
  exact (multi_queues open_scfg demo_choices (cmd ["SET"; "a"; "1"]) [] (demo_txn [] [])
    eq_refl eq_refl eq_refl ltac:(vm_refl)).
Defined.

Lemma mergeExecReply_spec_witness :
  exists out, mergeExecReply [ItemLocal ok_reply; ItemArgv (cmd ["GET"; "a"])] (Array [Integer 7]) = Array out
  ∧ length out = 2%nat ∧ out !! 0%nat = Some ok_reply.
Proof.
  destruct (mergeExecReply_spec [ItemLocal ok_reply; ItemArgv (cmd ["GET"; "a"])] (Array [Integer 7])
    eq_refl eq_refl eq_refl) as (out & H1 & H2 & H3 & _).
  exists out. split; [exact H1|]. split; [exact H2|]. exact (H3 0%nat ok_reply eq_refl).
Defined.

