(* ===== verification/SessionTotal.v ===== *)
(** * Sessions answer: commands neither panic nor get stuck

    [total m]: the computation [m] returns from every world.  The panics of the code are in key
    extraction, where a key count near 2^63 overflows (see [KeyIndexes_panics_iff]); commands that
    carry no key count are shown never to panic, through dispatch, rewriting, routing, fan-out and
    transactions.  The one unbounded loop, the SCAN of FLUSHDB, terminates if the server's cursor
    does. *)

From Stdlib Require Import ZArith Lia Strings.Byte.
From stdpp Require Import base list strings numbers option sets gmap.
From S2P Require Import Prelude Resp RespTheory Slot Command VirtualDB Fanout.
From S2P Require Import Topology Router PubSub Session SessionTheory SessionProps.

(** ** Commands without a key count *)

Definition countless (argv : list slice) : Prop := numkeys_at (cmd_name argv) = None.

Lemma KeyIndexes_safe argv : countless argv -> exists idx, KeyIndexes argv = Ret idx.
Proof.
  intros Hc. destruct argv as [|a0 rest]; [by eexists|].
  destruct (KeyIndexes (a0 :: rest)) as [idx|] eqn:E; [by exists idx|].
  apply KeyIndexes_nonempty in E as (a & Ha & _); [|done]. unfold countless in Hc. by rewrite Hc in Ha.
Qed.

Lemma ExtractKeys_safe argv : countless argv -> exists keys, ExtractKeys argv = Ret keys.
Proof.
  intros [idx Hi]%KeyIndexes_safe. destruct (ExtractKeys_of_idx _ _ Hi) as (keys & E & _). by exists keys.
Qed.

(** The first argument keeps its content. *)
Lemma arg0_clone argv : arg (cloneArgv argv) 0 = arg argv 0.
Proof. destruct argv; [done|]. apply content_cloneBytes. Qed.

Lemma arg0_prefix_at db out i : i ≠ 0%nat -> arg (prefix_at db out i) 0 = arg out 0.
Proof. intros Hi. unfold arg, prefix_at. by rewrite list_lookup_alter_ne. Qed.

Lemma arg0_app l1 l2 : l1 ≠ [] -> arg (l1 ++ l2) 0 = arg l1 0.
Proof. by destruct l1. Qed.

Lemma cloneArgv_nil argv : argv ≠ [] -> cloneArgv argv ≠ [].
Proof. by destruct argv. Qed.

Lemma arg0_prefix_first argv db : arg (prefix_first argv db) 0 = arg argv 0.
Proof. unfold prefix_first. cbv zeta. case_if; [rewrite arg0_prefix_at by done|]; apply arg0_clone. Qed.

Lemma arg0_fold db idx out :
  arg (fold_left (fun o i => if Nat.ltb 0 i && Nat.ltb i (length o) then prefix_at db o i else o) idx out) 0
  = arg out 0.
Proof.
  revert out. induction idx as [|i idx IH]; intros out; [done|]. cbn [fold_left]. rewrite IH.
  destruct i; [done|]. case_if; [by apply arg0_prefix_at|done].
Qed.

Lemma RewriteArgv_safe argv db :
  countless argv -> exists rw, RewriteArgv argv db = Ret rw ∧ cmd_name rw = cmd_name argv.
Proof.
  intros Hc. assert (countless (cloneArgv argv)) as Hc' by (unfold countless, cmd_name; by rewrite arg0_clone).
  unfold RewriteArgv. case_if; [by exists argv|]. cbv zeta. unfold cmd_name.
  case_if. { eexists. split; [done|]. unfold rewriteCOPY. destruct argv as [|a0 [|a1 [|a2 opts]]];
    try by rewrite arg0_clone. destruct (copy_opts opts db false). cbn. unfold arg. cbn. by rewrite content_cloneBytes. }
  case_if. { eexists. split; [done|]. unfold rewriteSCAN. cbv zeta. destruct (DBPrefix db); [by rewrite arg0_clone|].
    destruct (find_fold _ _ _) as [i|]; [by rewrite arg0_prefix_at, arg0_clone by done|].
    rewrite arg0_app, arg0_clone; [done|]. apply cloneArgv_nil. by destruct argv. }
  case_if; [eexists; split; [done|]; unfold rewriteKEYS; by rewrite arg0_prefix_first|].
  case_if. { eexists. split; [done|]. unfold rewriteSORT. cbv zeta. f_equal.
    rewrite <- (arg0_prefix_first argv db). destruct (prefix_first argv db) as [|x [|y l]]; done. }
  case_if; [eexists; split; [done|]; unfold rewriteMOVE; by rewrite arg0_prefix_first|].
  destruct (KeyIndexes_safe _ Hc') as [idx ->]. cbn. eexists. split; [done|]. by rewrite arg0_fold, arg0_clone.
Qed.

Lemma rewritten_safe argv db :
  countless argv -> exists rw keys, RewriteArgv argv db = Ret rw ∧ countless rw ∧ ExtractKeys rw = Ret keys.
Proof.
  intros Hc. destruct (RewriteArgv_safe argv db Hc) as (rw & E & Hn).
  assert (countless rw) as Hr by (unfold countless; by rewrite Hn).
  destruct (ExtractKeys_safe rw Hr) as [keys Ek]. by exists rw, keys.
Qed.

(** ** Fan-out *)

Lemma mapM_total {A B} (f : A -> outcome B) l : (forall x, x ∈ l -> exists y, f x = Ret y) -> exists ys, mapM f l = Ret ys.
Proof.
  induction l as [|x l IH]; intros H; [by eexists|]. destruct (H x) as [y Hy]; [by left|].
  destruct IH as [ys Hys]; [intros z Hz; apply H; by right|]. exists (y :: ys). cbn. by rewrite Hy; cbn; rewrite Hys.
Qed.

Lemma RebuildFanoutArgv_safe argv g : countless argv -> exists sub, RebuildFanoutArgv argv g = Ret sub.
Proof.
  intros Hc. unfold RebuildFanoutArgv. destruct argv as [|a0 rest] eqn:Ea; [by eexists|]. rewrite <- Ea in *.
  destruct (KeyIndexes_safe argv Hc) as [idx Hi]. rewrite Hi. cbn.
  destruct (mapM_total (fanout_args argv idx (FanoutOf argv ==b FanoutMSet)) (gIndex g)) as [parts ->]; [|by eexists].
  intros ki _. unfold fanout_args. destruct (idx !! ki) as [ai|] eqn:Ek; [|by eexists].
  destruct (KeyIndexes_idx_ok _ _ Hi) as [_ Hf]. rewrite list.Forall_forall in Hf.
  assert (ai < length argv)%nat as Hlt by (apply list_elem_of_lookup_2, Hf in Ek; lia).
  assert (forall i, (i < length argv)%nat -> exists a, index argv i = Ret a) as Hx.
  { intros i Hi'. unfold index. destruct (lookup_lt_is_Some_2 _ _ Hi') as [k ->]. by eexists. }
  destruct (Hx _ Hlt) as [k Hk]. destruct (_ && _) eqn:Hv; [|rewrite Hk; by eexists].
  apply andb_true_iff in Hv as [_ Hv%Nat.ltb_lt]. destruct (Hx _ Hv) as [v Hv']. rewrite Hk. cbn. rewrite Hv'. by eexists.
Qed.

Lemma cmdFanout_safe {S} (Exec : S -> Z -> list slice -> bool -> S * (bytes + value)) slotFn db order st argv :
  countless argv -> exists st' v, cmdFanout Exec slotFn db order st argv = Ret (st', v).
Proof.
  intros Hc. unfold cmdFanout. destruct (ExtractKeys_safe argv Hc) as [keys ->]. cbn.
  destruct (GroupBySlot keys slotFn) as [|g gs]; [by eexists _, _|].
  destruct (mapM_total (fun g => sub ← RebuildFanoutArgv argv g; Ret (gSlot g, sub)) (g :: gs)) as [subs Hs].
  { intros x _. destruct (RebuildFanoutArgv_safe argv x Hc) as [sub ->]. by eexists. }
  rewrite Hs. cbn. destruct (fold_left _ _ _) as [[st' replies] errs]. by eexists _, _.
Qed.

(** ** Computations that return *)

Section Total.
Context {W C : Type} `{!Network W C} (cfg : SessionConfig).
Implicit Types (w : world W C).

Definition total {A} (m : M W C A) : Prop := forall w, exists w' a, m w = SOk w' a.

Lemma total_mret {A} (a : A) : total (mret a).
Proof. intros w. by exists w, a. Qed.
Lemma total_mbind {A B} (m : M W C A) (f : A -> M W C B) : total m -> (forall a, total (f a)) -> total (m ≫= f).
Proof.
  intros Hm Hf w. destruct (Hm w) as (w1 & a & E). destruct (Hf a w1) as (w2 & b & E2).
  exists w2, b. unfold mbind, M_bind. by rewrite E.
Qed.
Lemma total_get : total get.
Proof. intros w. by eexists _, _. Qed.
Lemma total_get_router : total get_router.
Proof. intros w. by eexists _, _. Qed.
Lemma total_modify f : total (modify f).
Proof. intros w. by eexists _, _. Qed.
Lemma total_on_net {A} (f : Router -> W -> Router * W * A) : total (on_net f).
Proof. intros w. unfold on_net. destruct (f (wRouter w) (wNet w)) as [[r n] a]. by eexists _, _. Qed.
Lemma total_lift {A} (o : outcome A) : (exists a, o = Ret a) -> total (lift o).
Proof. intros [a ->] w. by exists w, a. Qed.
Lemma total_lift_bind {A B} (o : outcome A) a (f : A -> M W C B) : o = Ret a -> total (f a) -> total (lift o ≫= f).
Proof. intros -> Hf w. apply Hf. Qed.
Lemma total_reply v : total (reply v).
Proof. intros w. by eexists _, _. Qed.
End Total.
#[export] Hint Resolve total_mret total_get total_get_router total_modify total_on_net total_reply : sess.
#[export] Hint Extern 1 (total (exec _ _ _ _)) => apply total_on_net : sess.
#[export] Hint Extern 1 (total (exec_raw _ _ _ _)) => apply total_on_net : sess.
#[export] Hint Extern 1 (total (checkout _ _)) => apply total_on_net : sess.
#[export] Hint Extern 1 (total (conn_do _ _)) => apply total_on_net : sess.
#[export] Hint Extern 1 (total (conn_read _)) => apply total_on_net : sess.
#[export] Hint Extern 1 (total (conn_write _ _)) => apply total_on_net : sess.
#[export] Hint Extern 1 (total (conn_put _ _)) => apply total_on_net : sess.
#[export] Hint Extern 1 (total (conn_drop _ _)) => apply total_on_net : sess.

Ltac total_step :=
  match goal with
  | |- total (_ ≫= _) => apply total_mbind; [|intros ?]
  | |- total (if ?b then _ else _) => destruct b
  | |- total (match ?x with _ => _ end) => destruct x
  | |- total _ => solve [eauto with sess]
  end.
Ltac total_auto := repeat (cbv zeta; total_step).

Section HandleTotal.
Context {W C : Type} `{!Network W C} (cfg : SessionConfig).
Implicit Types (w : world W C) (s : session C).

Lemma total_reply_err e : total (W := W) (C := C) (reply_err e).
Proof. apply total_reply. Qed.
Lemma total_reply_result res : total (W := W) (C := C) (reply_result res).
Proof. unfold reply_result, reply_err. total_auto. Qed.
Lemma total_reply_all vs : total (W := W) (C := C) (reply_all vs).
Proof. induction vs; cbn [reply_all]; total_auto. Qed.
Lemma total_dropPin : total (W := W) (C := C) dropPin.
Proof. unfold dropPin. total_auto. Qed.
Hint Resolve total_reply_err total_reply_result total_reply_all total_dropPin : sess.

Lemma total_handleLocal argv : total (W := W) (C := C) (handleLocal cfg argv).
Proof. unfold handleLocal, doAuth, helloAuth, resetTxn. total_auto. Qed.

Lemma total_send_all c cmds : total (W := W) (C := C) (send_all c cmds).
Proof. induction cmds; cbn [send_all]; total_auto. Qed.
Hint Resolve total_send_all : sess.

Lemma total_exec_on c a items n : total (W := W) (C := C) (exec_on c a items n).
Proof. unfold exec_on. total_auto. Qed.
Hint Resolve total_exec_on : sess.

Lemma total_transferKey src dst d r : total (W := W) (C := C) (transferKey cfg src dst d r).
Proof. unfold transferKey, transfer_local, transfer_remote. total_auto. Qed.
Hint Resolve total_transferKey : sess.

(** The slot of a redirect is in the map, so that updating it does not panic. *)
Lemma total_doBlocking slot argv : total (W := W) (C := C) (doBlocking cfg slot argv).
Proof.
  unfold doBlocking. apply total_mbind; [total_auto|intros [e|[c a]]; [total_auto|]].
  apply total_mbind; [total_auto|intros [e|v]; [total_auto|]].
  destruct (if IsError v then _ else _) as [red|] eqn:E; [|total_auto].
  assert (rSlot red < SlotCount) as Hs.
  { destruct (IsError v); [|done]. apply ParseRedirect_range in E as (Hr & _). lia. }
  case_if; [|total_auto]. apply total_mbind; [total_auto|intros _]. apply total_mbind; [|intros ?; total_auto].
  intros w. unfold on_router. destruct (UpdateSlot_total (slots (wRouter w)) (rSlot red) (rAddr red) Hs) as [m ->].
  by eexists _, _.
Qed.
Hint Resolve total_doBlocking : sess.

Lemma total_fanout ch argv : countless argv -> total (W := W) (C := C) (fanout cfg ch argv).
Proof.
  intros Hc. unfold fanout. apply total_mbind; [total_auto|intros s]. apply total_mbind; [|intros ?; total_auto].
  intros w. edestruct (cmdFanout_safe (fun st slot sub read =>
    let '(r, n, x) := exec_frame cfg st.1 st.2 slot None sub read in ((r, n), x))
    (SlotOf (rcfg cfg)) (db s) (fanOrder ch) (wRouter w, wNet w) argv Hc) as ([r n] & v & E).
  rewrite E. by eexists _, _.
Qed.

Lemma total_route ch name argv raw : countless argv -> total (W := W) (C := C) (route cfg ch name argv raw).
Proof.
  intros Hc. unfold route. apply total_mbind; [total_auto|intros s].
  destruct (rewritten_safe argv (db s) Hc) as (rw & keys & E & Hr & Ek). rewrite E.
  destruct (ExtractKeys_safe argv Hc) as [keys0 Ek0].
  apply (total_lift_bind _ rw); [done|].
  destruct (0 <? db s) eqn:E0; [apply (total_lift_bind _ keys); [done|]|apply (total_lift_bind _ keys0); [done|]].
  all: total_auto; by apply total_fanout.
Qed.

Definition returns {A} (m : M W C A) w : Prop := exists w' a, m w = SOk w' a.

Lemma total_returns {A} (m : M W C A) w : total m -> returns m w.
Proof. intros H. apply H. Qed.
Lemma returns_get {A} (f : session C -> M W C A) w : total (f (wSess w)) -> returns (get ≫= f) w.
Proof. intros H. apply H. Qed.

(** Every queued command is without a key count. *)
Lemma exec_items_safe q n : Forall countless q -> exists res, exec_items cfg q n = Ret res.
Proof.
  intros H. revert n. induction H as [|a q Ha Hq IH]; intros n; [by eexists|]. cbn [exec_items]. case_if.
  - destruct (if negb _ then _ else _) as [v n']. destruct (IH n') as [[[items keys] n''] ->]. by eexists.
  - destruct (rewritten_safe a n Ha) as (rw & keys & -> & _ & Ek). cbn. rewrite Ek. cbn.
    destruct (IH n) as [[[items keys'] n'] ->]. by eexists.
Qed.

Lemma returns_cmdExec w : Forall countless (queued (wSess w)) -> returns (cmdExec cfg) w.
Proof.
  intros H. unfold cmdExec. apply returns_get. case_if; [total_auto|].
  apply total_mbind; [total_auto|intros _]. apply total_mbind; [total_auto|intros r]. case_if; [total_auto|].
  destruct (exec_items_safe _ (db (wSess w)) H) as [[[items ks] n] Ei].
  eapply total_lift_bind; [exact Ei|]. unfold take_conn. total_auto.
Qed.

Lemma total_cmdWatch argv : countless argv -> total (W := W) (C := C) (cmdWatch cfg argv).
Proof.
  intros Hc. unfold cmdWatch, ensure_pin. apply total_mbind; [total_auto|intros s]. case_if; [total_auto|].
  destruct (rewritten_safe argv (db s) Hc) as (rw & keys & Er & Hr & Ek).
  apply (total_lift_bind _ rw); [done|]. apply (total_lift_bind _ keys); [done|]. total_auto.
Qed.

(** FLUSHDB of a virtual database runs the loop of [scanDeleteOn]. *)
Definition scans (argv : list slice) s : bool := (command_name argv ==b B "FLUSHDB") && negb (db s =? 0).

Lemma returns_dispatch ch argv raw w :
  countless argv -> scans argv (wSess w) = false -> returns (dispatch cfg ch (command_name argv) argv raw) w.
Proof.
  intros Hc Hs. unfold dispatch, scans in *.
  case_if; [apply total_reply|]. case_if; [apply total_reply|]. case_if.
  { cbn in Hs. unfold cmdFlushDB. apply returns_get. destruct (_ =? 0); [|done]. total_auto. }
  apply total_returns. pose proof (total_route ch (command_name argv) argv raw Hc).
  unfold cmdMove, cmdCopy, cmdRandomKey, reply_count. total_auto.
Qed.

Lemma returns_handle_backend ch argv raw w :
  argv ≠ [] -> countless argv -> Forall countless (queued (wSess w)) -> scans argv (wSess w) = false ->
  returns (handle_backend cfg ch (command_name argv) argv raw) w.
Proof.
  intros Hne Hc Hq Hs. unfold handle_backend, cmdMulti, cmdDiscard, cmdUnwatch, enqueue.
  case_if; [apply total_returns; total_auto|]. case_if; [apply total_returns; total_auto|].
  case_if; [by apply returns_cmdExec|]. case_if; [by apply total_returns, total_cmdWatch|].
  case_if; [apply total_returns; total_auto|].
  destruct (multi (wSess w)) eqn:Em.
  { unfold returns. change ((get ≫= ?f) w) with (f (wSess w) w). cbv beta. rewrite Em. apply total_returns. total_auto. }
  unfold returns. change ((get ≫= ?f) w) with (f (wSess w) w). cbv beta. rewrite Em.
  destruct argv as [|a0 rest]; [done|]. change ((lift (index (a0 :: rest) 0) ≫= ?f) w) with (f a0 w). cbv beta.
  pose proof (returns_dispatch ch (a0 :: rest) raw w Hc Hs) as Hd.
  destruct (ClassifyPubSub (content a0)); try exact Hd; apply total_returns; unfold enterSub, sub_cmd_on, cmdPublish; total_auto.
Qed.

(** A command that is not answered locally has changed nothing so far. *)
Definition keeps_if_none {A} (m : M W C (option A)) w : Prop := wp m (fun r w' => r = None -> w' = w) w.

Lemma keeps_some {A B} (m : M W C A) (f : A -> M W C (option B)) w :
  (forall a w', wp (f a) (fun r _ => is_Some r) w') -> keeps_if_none (m ≫= f) w.
Proof.
  intros H. unfold keeps_if_none, wp. change ((m ≫= f) w) with (match m w with SOk w' a => f a w' | SPanic => SPanic | SFuel => SFuel end).
  destruct (m w) as [w1 a| |]; [|done|done]. specialize (H a w1). unfold wp in H.
  destruct (f a w1) as [w2 r| |]; [|done|done]. intros ->. by destruct H.
Qed.

Lemma handleLocal_None argv w : keeps_if_none (handleLocal cfg argv) w.
Proof.
  unfold handleLocal, keeps_if_none. apply wp_bind. change (wp get ?Q w) with (Q (wSess w) w). cbv beta zeta.
  destruct argv as [|a0 rest]; [done|].
  repeat match goal with
    | |- wp (if ?b then _ else _) _ _ => destruct b
    | |- wp (mret _) _ _ => done
    | |- wp (_ ≫= _) _ _ => apply keeps_some; intros ? w'
    end.
  all: by eexists.
Qed.

Lemma total_cmdSelect argv : total (W := W) (C := C) (cmdSelect cfg argv).
Proof. unfold cmdSelect, enqueue. total_auto. Qed.

Lemma returns_handle ch argv raw w :
  sub (wSess w) = None -> argv ≠ [] -> countless argv -> Forall countless (queued (wSess w)) ->
  scans argv (wSess w) = false -> returns (handle cfg ch argv raw) w.
Proof.
  intros Hsub Hne Hc Hq Hs. unfold returns, handle. change ((get ≫= ?f) w) with (f (wSess w) w). cbv beta.
  rewrite Hsub. case_if; [apply total_cmdSelect|].
  destruct (total_handleLocal argv w) as (w1 & r & El). pose proof (handleLocal_None argv w) as HN.
  unfold keeps_if_none, wp in HN. rewrite El in HN. unfold mbind, M_bind. rewrite El.
  destruct r as [v|]; [apply total_reply|]. rewrite (HN eq_refl). by apply returns_handle_backend.
Qed.
End HandleTotal.

(** ** Computations that end

    [settles m]: [m] returns or panics, it does not run out of fuel.  The only loop of a command
    that is not bounded by the command is the SCAN of FLUSHDB. *)

Section Settles.
Context {W C : Type}.

Definition settles {A} (m : M W C A) : Prop := forall w, m w ≠ SFuel.

Lemma settles_total {A} (m : M W C A) : total m -> settles m.
Proof. intros H w. by destruct (H w) as (w' & a & ->). Qed.
Lemma settles_bind {A B} (m : M W C A) (f : A -> M W C B) : settles m -> (forall a, settles (f a)) -> settles (m ≫= f).
Proof.
  intros Hm Hf w. unfold mbind, M_bind. specialize (Hm w). destruct (m w) as [w1 a| |]; [apply Hf|done|done].
Qed.
Lemma settles_lift {A} (o : outcome A) : settles (lift o).
Proof. intros w. by destruct o. Qed.
Lemma settles_on_router f : settles (on_router f).
Proof. intros w. unfold on_router. by destruct (f _). Qed.
End Settles.
#[export] Hint Resolve settles_total settles_lift settles_on_router : sess.

Ltac settles_step :=
  match goal with
  | |- settles (_ ≫= _) => apply settles_bind; [|intros ?]
  | |- settles (if ?b then _ else _) => destruct b
  | |- settles (match ?x with _ => _ end) => destruct x
  | |- settles _ => solve [eauto 3 with sess]
  end.
Ltac settles_auto := repeat (cbv zeta; settles_step).

Section HandleSettles.
Context {W C : Type} `{!Network W C} (cfg : SessionConfig) (ch : choices).

(** The scans of the cluster end within the fuel of the command. *)
Definition scans_end : Prop := forall (c : C) pat, settles (W := W) (scan_loop (scanFuel ch) c pat (BS "0")).
Hypothesis Hscan : scans_end.
Hint Resolve total_reply_err total_reply_result total_reply_all total_dropPin total_handleLocal total_exec_on
  total_transferKey total_doBlocking total_cmdSelect : sess.

Lemma settles_scan_all addrs pat : settles (W := W) (scan_all cfg (scanFuel ch) addrs pat).
Proof.
  pose proof Hscan as H. unfold scans_end in H.
  induction addrs; cbn [scan_all]; unfold scanDeleteOn; settles_auto.
Qed.

Lemma settles_fanout argv : settles (W := W) (C := C) (fanout cfg ch argv).
Proof.
  unfold fanout. apply settles_bind; [settles_auto|intros s]. apply settles_bind; [|intros; settles_auto].
  intros w. by destruct (cmdFanout _ _ _ _ _ _) as [[[r n] v]|].
Qed.
Hint Resolve settles_scan_all settles_fanout : sess.

Lemma settles_dispatch name argv raw : settles (W := W) (dispatch cfg ch name argv raw).
Proof.
  unfold dispatch, route, cmdFlushDB, cmdMove, cmdCopy, cmdRandomKey, reply_count. settles_auto.
Qed.
Hint Resolve settles_dispatch : sess.

Lemma settles_handle argv raw : settles (W := W) (handle cfg ch argv raw).
Proof.
  unfold handle, handle_backend, handleSub, enterSub, sub_cmd_on, cmdMulti, cmdDiscard, cmdWatch, ensure_pin, cmdUnwatch,
    cmdExec, take_conn, enqueue, cmdPublish. settles_auto.
Qed.
End HandleSettles.

(** ** Sequences of commands *)

Section Answered.
Context {W C : Type} `{!Network W C} (cfg : SessionConfig).

(** Not subscribed, and nothing queued that has a key count. *)
Definition calm (s : session C) : Prop := Forall countless (queued s) ∧ sub s = None.
Let calmW (w : world W C) : Prop := calm (wSess w).

Lemma calm_modify f : (forall s : session C, queued (f s) = queued s ∧ sub (f s) = sub s) -> inv calmW (modify f).
Proof. intros Hf. apply sess_modify. intros s [H1 H2]. destruct (Hf s) as [E1 E2]. split; by rewrite ?E1, ?E2. Qed.
Lemma calm_txn b : inv calmW (modify (set_txn b [])).
Proof. apply sess_modify. intros s [H1 H2]. by split. Qed.
Lemma calm_reply v : inv calmW (reply v).
Proof. apply (sess_reply calm). Qed.
Lemma calm_on_router f : inv calmW (on_router f).
Proof. apply (sess_on_router calm). Qed.
Lemma calm_on_net {A} (f : Router -> W -> Router * W * A) : inv calmW (on_net f).
Proof. apply (sess_on_net calm). Qed.
Hint Resolve calm_modify calm_txn calm_reply calm_on_router calm_on_net : sess.

Lemma cmd_name_clone argv : cmd_name (clone_argv argv) = cmd_name argv.
Proof. unfold cmd_name, arg. destruct argv as [|[[|]|]]; done. Qed.

Lemma calm_enqueue argv : countless argv -> inv calmW (enqueue argv).
Proof.
  intros Hc. unfold enqueue. apply inv_bind; [|intros; apply calm_reply]. apply sess_modify.
  intros s [H1 H2]. split; [|done]. cbn. apply Forall_app. split; [done|]. constructor; [|done].
  unfold countless. by rewrite cmd_name_clone.
Qed.

Lemma calm_dropPin : inv calmW dropPin.
Proof. unfold dropPin. inv_auto. Qed.
Hint Resolve calm_enqueue calm_dropPin : sess.
Lemma calm_scan_loop fuel c pat cur : inv calmW (scan_loop fuel c pat cur).
Proof. revert cur. induction fuel; intros cur; cbn [scan_loop]; inv_auto. Qed.
Lemma calm_send_all c cmds : inv calmW (send_all c cmds).
Proof. induction cmds; cbn [send_all]; inv_auto. Qed.
Hint Resolve calm_scan_loop calm_send_all : sess.
Lemma calm_scan_all fuel addrs pat : inv calmW (scan_all cfg fuel addrs pat).
Proof. induction addrs; cbn [scan_all]; unfold scanDeleteOn, reply_err; inv_auto. Qed.
Lemma calm_transferKey src dst d r : inv calmW (transferKey cfg src dst d r).
Proof. unfold transferKey, transfer_local, transfer_remote. inv_auto. Qed.
Lemma calm_fanout ch argv : inv calmW (fanout cfg ch argv).
Proof.
  unfold fanout. apply inv_bind; [inv_auto|intros s]. apply inv_bind; [|intros v; inv_auto].
  intros w H. unfold wp. by destruct (cmdFanout _ _ _ _ _ _) as [[[r n] v]|].
Qed.
Lemma calm_handleLocal argv : inv calmW (handleLocal cfg argv).
Proof. unfold handleLocal, doAuth, helloAuth, resetTxn. inv_auto. Qed.
Hint Resolve calm_scan_all calm_transferKey calm_fanout calm_handleLocal : sess.

Lemma calm_dispatch ch name argv raw : inv calmW (dispatch cfg ch name argv raw).
Proof.
  unfold dispatch, route, doBlocking, cmdFlushDB, cmdMove, cmdCopy, cmdRandomKey, reply_result, reply_count, reply_err.
  inv_auto.
Qed.
Hint Resolve calm_dispatch : sess.

Lemma calm_handle_backend ch name argv raw :
  countless argv -> enters_sub argv = false -> inv calmW (handle_backend cfg ch name argv raw).
Proof.
  intros Hc He. unfold handle_backend, cmdMulti, cmdDiscard, cmdUnwatch, cmdWatch, cmdExec, exec_on, take_conn,
    ensure_pin, reply_err.
  assert (forall f : slice -> M W C unit, (forall a0, head argv = Some a0 -> inv calmW (f a0)) ->
    inv calmW (lift (index argv 0) ≫= f)) as Hl.
  { intros f Hf. destruct argv as [|a0 rest]; [by intros w|]. intros w Hw. by apply (Hf a0). }
  assert (forall a0, head argv = Some a0 -> match ClassifyPubSub (content a0) with
    | PubSubSubscribe | PubSubPSubscribe | PubSubSSubscribe => true | _ => false end = false) as Hsub.
  { intros a0 Ha. rewrite classify_sub. destruct argv; [done|]. by injection Ha as ->. }
  repeat (cbv zeta; first [apply Hl; intros a0 Ha; pose proof (Hsub a0 Ha); destruct (ClassifyPubSub (content a0));
    try done; unfold cmdPublish, reply_result, reply_err|inv_step]).
Qed.

Lemma calm_handle ch argv raw :
  countless argv -> enters_sub argv = false -> inv calmW (handle cfg ch argv raw).
Proof.
  intros Hc He w [Hq Hs]. unfold handle. apply wp_get. rewrite Hs. pose proof (calm_handle_backend ch (command_name argv) argv raw Hc He).
  match goal with |- wp ?m _ _ => assert (inv calmW m) as G; [|by apply G] end. unfold cmdSelect. inv_auto.
Qed.

(** A command that is not FLUSHDB, does not subscribe and has no key count. *)
Definition plain (argv : list slice) : Prop :=
  argv ≠ [] ∧ countless argv ∧ command_name argv ≠ B "FLUSHDB" ∧ enters_sub argv = false.

Lemma handle_plain ch argv raw (w : world W C) :
  calm (wSess w) -> plain argv ->
  exists w' v, handle cfg ch argv raw w = SOk w' tt ∧ wOut w' = wOut w ++ [v] ∧ calm (wSess w').
Proof.
  intros Hw (Hn & Hc & Hf & He). destruct (returns_handle cfg ch argv raw w) as (w' & [] & E); try done; [apply Hw..| |].
  { unfold scans. by rewrite bool_decide_false. }
  destruct (wp_done _ _ _ _ _ (handle_once cfg ch argv raw w (proj2 Hw) He) E) as (v & Hv & _).
  pose proof (wp_done _ _ _ _ _ (calm_handle ch argv raw Hc He w Hw) E). by exists w', v.
Qed.

End Answered.

