(* ===== verification/Refinement.v ===== *)
(** * The proxy implements a server with databases

    The client of the proxy sees one standalone server with numbered databases ([Databases.redis]),
    although the data is spread over the nodes of a cluster that has one key space and moves slots
    around.  The theorems compose the whole path of a command: dispatch ([handle]), the rewriting of
    keys for the selected database, key extraction, the choice between one node and a fan-out, the
    redirects of the router ([Cluster.execFrame_runs]) and the reply. *)

From Stdlib Require Import ZArith Lia Strings.Byte Permutation.
From stdpp Require Import base list strings numbers option sets gmap fin_maps.
From S2P Require Import Prelude Resp RespTheory Slot Command VirtualDB Fanout FanoutTheory Topology Router Cluster Databases.
From S2P Require Import PubSub Session SessionTheory SessionProps.

(** ** Client commands as argument vectors *)

Definition argv_of (a0 : slice) (c : rcmd) : list slice :=
  a0 :: match c with
        | COne _ k args => k :: args
        | CMget ks | CDel ks | CExists ks => ks
        | CMset kvs => flat_pairs kvs
        | _ => []
        end.

Definition named (name : bytes) (c : rcmd) : bool :=
  match c with
  | COne n _ _ => (n ==b name) && one_key name
  | CMget _ => name ==b B "MGET"
  | CMset _ => name ==b B "MSET"
  | CDel _ => str_in name ["DEL"; "UNLINK"]
  | CExists _ => str_in name ["EXISTS"; "TOUCH"]
  | _ => false
  end.

(** A client command [c] with the name in [a0]. *)
Definition client_argv (a0 : slice) (c : rcmd) : Prop :=
  named (cmd_name [a0]) c = true ∧ cmd_keys c ≠ [].

Lemma cmd_name_cons a0 l : cmd_name (a0 :: l) = cmd_name [a0].
Proof. done. Qed.

Lemma cmd_name_argv_of a0 c : cmd_name (argv_of a0 c) = cmd_name [a0].
Proof. done. Qed.

Lemma flat_pair_up l : forall n, (length l <= n)%nat -> Nat.even (length l) = true -> flat_pairs (pair_up l) = l.
Proof.
  intros n. revert l. induction n as [|n IH]; intros [|a [|b l]] Hl He; try done; cbn in Hl; [lia|].
  cbn. f_equal. f_equal. apply IH; [lia|done].
Qed.

Lemma decode_client argv c :
  decode argv = Some c -> client_cmd c = true -> exists a0, argv = argv_of a0 c ∧ client_argv a0 c.
Proof.
  intros Hd Hc. unfold decode in Hd. destruct argv as [|a0 [|k rest]]; [done|done|].
  change (drop 1 (a0 :: k :: rest)) with (k :: rest) in Hd. rewrite cmd_name_cons in Hd. exists a0. unfold client_argv, argv_of.
  destruct (one_key (cmd_name [a0])) eqn:E1. { injection Hd as <-. cbn [named]. by rewrite bool_decide_true, E1 by done. }
  destruct (_ ==b B "MGET") eqn:E2 in Hd. { injection Hd as <-. cbn [named]. by rewrite E2. }
  destruct (_ ==b B "MSET") eqn:E3 in Hd.
  { destruct (Nat.even (length (k :: rest))) eqn:Ev; [|done]. injection Hd as <-.
    split; [f_equal; symmetry; exact (flat_pair_up _ _ (Nat.le_refl _) Ev)|]. split; [exact E3|].
    destruct rest; [done|]. done. }
  destruct (str_in _ ["DEL"; "UNLINK"]) eqn:E4 in Hd. { injection Hd as <-. cbn [named]. by rewrite E4. }
  destruct (str_in _ ["EXISTS"; "TOUCH"]) eqn:E5 in Hd. { injection Hd as <-. cbn [named]. by rewrite E5. }
  exfalso. destruct rest as [|x1 [|x2 rest]]; repeat case_if; try done; try (by injection Hd as <-);
    destruct (replace_opt _); try done; by injection Hd as <-.
Qed.

(** The names of client commands: none is special anywhere on the path. *)
Definition data_names : list string := one_key_names ++ ["MGET"; "MSET"; "DEL"; "UNLINK"; "EXISTS"; "TOUCH"].

Lemma client_name a0 c : client_argv a0 c -> str_in (cmd_name [a0]) data_names = true.
Proof.
  intros [Hn _]. unfold data_names. destruct c; cbn [named] in Hn; try done.
  - apply andb_true_iff in Hn as [_ Hn]. eapply str_in_sub; [exact Hn|]. intros x Hx. apply in_or_app. by left.
  - apply bool_decide_eq_true in Hn as ->. vm_refl.
  - apply bool_decide_eq_true in Hn as ->. vm_refl.
  - eapply str_in_sub; [exact Hn|]. intros x Hx. apply in_or_app. right. simpl in *. tauto.
  - eapply str_in_sub; [exact Hn|]. intros x Hx. apply in_or_app. right. simpl in *. tauto.
Qed.

Definition special_names : list string :=
  (* session *) ["SELECT"; "MULTI"; "DISCARD"; "EXEC"; "WATCH"; "UNWATCH"; "SWAPDB"; "FLUSHALL"; "FLUSHDB"; "MOVE";
   "COPY"; "RANDOMKEY"; "SUBSCRIBE"; "UNSUBSCRIBE"; "PSUBSCRIBE"; "PUNSUBSCRIBE"; "SSUBSCRIBE";
   "SUNSUBSCRIBE"; "PUBLISH"; "SPUBLISH"; "PUBSUB";
   "PING"; "ECHO"; "AUTH"; "QUIT"; "CLUSTER"; "INFO"; "HELLO"; "RESET";
   (* rewriting *) "COMMAND"; "CONFIG"; "TIME"; "ROLE"; "LOLWUT";
   "CLIENT"; "READONLY"; "READWRITE"; "REPLICAOF"; "SLAVEOF"; "WAIT"; "LATENCY";
   (* keys *) "EVAL"; "EVALSHA"; "EVAL_RO"; "EVALSHA_RO"; "XREAD"; "XREADGROUP"; "MIGRATE";
   "LMPOP"; "ZMPOP"; "SINTERCARD"; "BLMPOP"; "BZMPOP"; "ZUNIONSTORE"; "ZINTERSTORE";
   "ZDIFFSTORE"; "ZUNION"; "ZINTER"; "ZDIFF"; "MEMORY"; "SCAN"; "SORT"; "KEYS";
   "GEORADIUS"; "GEORADIUSBYMEMBER";
   (* replies *) "BLPOP"; "BRPOP"; "BZPOPMIN"; "BZPOPMAX"].

Lemma data_not_special name : str_in name data_names = true -> str_in name special_names = false.
Proof.
  intros (x & Hx & ->)%str_in_true.
  assert (forallb (fun x => negb (str_in (B x) special_names)) data_names = true) as H by vm_refl.
  rewrite forallb_forall in H. by apply negb_true_iff, H.
Qed.

Lemma data_not name l :
  str_in name data_names = true -> (forall x, In x l -> In x special_names) -> str_in name l = false.
Proof. intros Hn Hl. eapply str_in_false_sub; [by apply data_not_special|done]. Qed.

Lemma data_table name :
  str_in name data_names = true ->
  exists m, table_get name = Some m ∧ mKind m ≠ KindBlock ∧ (one_key name = true -> mKeys m = spec 1 1 1).
Proof.
  intros (x & Hx & ->)%str_in_true.
  assert (forallb (fun x => match table_get (B x) with
            | Some m => bool_decide (mKind m ≠ KindBlock)
                && (negb (one_key (B x)) || bool_decide (ksFirst (mKeys m) = 1 ∧ ksLast (mKeys m) = 1 ∧ ksStep (mKeys m) = 1))
            | None => false end) data_names = true) as H by vm_refl.
  rewrite forallb_forall in H. apply H in Hx. destruct (table_get (B x)) as [m|]; [|done].
  apply andb_true_iff in Hx as [H1 H2]. exists m. split_and!; [done|by apply bool_decide_eq_true in H1|].
  intros Ho. rewrite Ho in H2. apply bool_decide_eq_true in H2 as (A1 & A2 & A3).
  destruct (mKeys m); cbn in *; by subst.
Qed.

Lemma KeyIndexes_one a0 k rest :
  one_key (cmd_name [a0]) = true -> KeyIndexes (a0 :: k :: rest) = Ret [1%nat].
Proof.
  intros Ho. assert (str_in (cmd_name [a0]) data_names = true) as Hn
    by (eapply str_in_sub; [exact Ho|]; intros x Hx; apply in_or_app; by left).
  destruct (data_table _ Hn) as (m & Hm & _ & Hk). unfold KeyIndexes. cbv zeta. rewrite cmd_name_cons.
  repeat match goal with
  | |- context [str_in (cmd_name [a0]) ?l] => rewrite (data_not _ l Hn) by (simpl; tauto)
  end.
  rewrite Hm, (Hk Ho). cbn [spec ksFirst]. change (1 =? 0) with false. cbv iota. f_equal.
  unfold indexesBySpec, spec. cbn [ksFirst ksLast ksStep].
  change (1 <=? 0) with false. change (1 =? 0) with false. change (1 <? 0) with false.
  change (1 <? 1) with false. cbv zeta iota. change (1 <? 0) with false. cbv iota.
  destruct (argc (a0 :: k :: rest) <=? 1) eqn:E1; [|done]. bool_simp. unfold argc in E1. cbn [length] in E1. lia.
Qed.

Lemma ExtractKeys_client a0 c : client_argv a0 c -> ExtractKeys (argv_of a0 c) = Ret (cmd_keys c).
Proof.
  intros [Hn _]. unfold argv_of. destruct c; cbn [named cmd_keys] in *; try done.
  - apply andb_true_iff in Hn as [_ Hn]. unfold ExtractKeys. by rewrite KeyIndexes_one.
  - apply ExtractKeys_step1. rewrite cmd_name_cons. apply bool_decide_eq_true in Hn as ->. vm_refl.
  - apply ExtractKeys_MSET. rewrite cmd_name_cons. by apply bool_decide_eq_true in Hn.
  - apply ExtractKeys_step1. rewrite cmd_name_cons. eapply str_in_sub; [exact Hn|simpl; tauto].
  - apply ExtractKeys_step1. rewrite cmd_name_cons. eapply str_in_sub; [exact Hn|simpl; tauto].
Qed.

Lemma decode_argv_of a0 c : client_argv a0 c -> decode (argv_of a0 c) = Some c.
Proof.
  intros [Hn Hk]. unfold decode, argv_of. cbv zeta. rewrite cmd_name_cons. cbn [drop]. rewrite ?drop_0.
  assert (forall name l, str_in name l = true -> forallb (fun x => negb (one_key (B x))) l = true -> one_key name = false) as Ho.
  { intros name l (x & Hx & ->)%str_in_true H. rewrite forallb_forall in H. by apply negb_true_iff, H. }
  destruct c as [name k args|ks|kvs|ks|ks| | | |]; cbn [named cmd_keys] in *; try done.
  - apply andb_true_iff in Hn as [->%bool_decide_eq_true Hn]. by rewrite Hn.
  - apply bool_decide_eq_true in Hn. destruct ks as [|k ks]; [done|]. rewrite Hn. done.
  - apply bool_decide_eq_true in Hn. destruct kvs as [|[k v] kvs]; [done|].
    change (flat_pairs ((k, v) :: kvs)) with (k :: v :: flat_pairs kvs). rewrite Hn.
    change (one_key (B "MSET")) with false. eval_tests. cbv iota.
    assert (Nat.even (length (k :: v :: flat_pairs kvs)) = true) as ->
      by (cbn [length]; rewrite length_flat_pairs; apply Nat.even_spec; exists (S (length kvs)); lia).
    change (k :: v :: flat_pairs kvs) with (flat_pairs ((k, v) :: kvs)). by rewrite pair_up_flat.
  - destruct ks as [|k ks]; [done|]. rewrite (Ho _ _ Hn) by vm_refl.
    rewrite Hn. apply str_in_true in Hn as (x & Hx & ->). by repeat destruct Hx as [<-|Hx]; try done.
  - destruct ks as [|k ks]; [done|]. rewrite (Ho _ _ Hn) by vm_refl.
    apply str_in_true in Hn as (x & Hx & ->). by repeat destruct Hx as [<-|Hx]; try done.
Qed.

(** ** Rewriting for the selected database *)

(** Within the limits of the protocol with room for a prefix, and no argument empty: an empty
    argument becomes nil when a command is rewritten ([rewrite_loses_empty_argument]). *)
Definition client_ok (argv : list slice) : Prop :=
  Z.of_nat (length argv) <= 1000000
  ∧ Forall (fun a => content a ≠ [] ∧ Z.of_nat (length (content a)) <= 512 * 1024 * 1024 - 32) argv.

Lemma length_digits fuel z acc : (length (digits fuel z acc) <= fuel + length acc)%nat.
Proof.
  revert z acc. induction fuel as [|fuel IH]; intros z acc; cbn; [lia|]. case_if; cbn; [lia|].
  etransitivity; [apply IH|]. cbn. lia.
Qed.

Lemma length_DBPrefix d : (length (DBPrefix d) <= 24)%nat.
Proof.
  unfold DBPrefix. case_if; [cbn; lia|]. rewrite !length_app. change (length (B "db")) with 2%nat.
  change (length (B ":")) with 1%nat. unfold itoa. case_if; cbn [length].
  - pose proof (length_digits 20 (- d) []). cbn [length] in *. lia.
  - pose proof (length_digits 20 d []). cbn [length] in *. lia.
Qed.

Lemma client_arg_Some a : content a ≠ [] -> a = Some (content a).
Proof. by destruct a. Qed.

Lemma arg_ok_plain a : content a ≠ [] -> Z.of_nat (length (content a)) <= 512 * 1024 * 1024 - 32 -> arg_ok a.
Proof. intros Ha Hl. rewrite (client_arg_Some a Ha). eexists. split; [done|]. lia. Qed.

Lemma arg_ok_prefixed d a :
  content a ≠ [] -> Z.of_nat (length (content a)) <= 512 * 1024 * 1024 - 32 -> arg_ok (PrefixKey d a).
Proof.
  intros Ha Hl. destruct (decide (0 < d)) as [Hd|Hd].
  - rewrite PrefixKey_pos by done. eexists. split; [done|]. rewrite length_app. pose proof (length_DBPrefix d). lia.
  - unfold PrefixKey, DBPrefix. rewrite (proj2 (Z.leb_le d 0)) by lia. by apply arg_ok_plain.
Qed.

Lemma clone_nonempty a : content a ≠ [] -> cloneBytes a = a.
Proof. by destruct a as [[|x b]|]. Qed.

(** The vector with the keys of [c] prefixed. *)
Lemma prefixed_step1 d a0 ks :
  cloneBytes a0 = a0 -> prefixed_argv d (seq 1 (length ks)) (a0 :: ks) = a0 :: map (PrefixKey d) ks.
Proof.
  intros H0. apply list_eq. intros j. rewrite prefixed_argv_lookup. destruct j as [|j].
  - cbn. rewrite bool_decide_false by (rewrite elem_of_seq; lia). by rewrite H0.
  - change ((a0 :: ?l) !! S j) with (l !! j). change (map (PrefixKey d) ks) with (PrefixKey d <$> ks). rewrite list_lookup_fmap.
    destruct (ks !! j) as [k|] eqn:E; [|done]. apply lookup_lt_Some in E. cbn.
    rewrite bool_decide_true by (apply elem_of_seq; lia). done.
Qed.

Lemma flat_pairs_map_lookup (f : slice -> slice) kvs : forall j,
  flat_pairs (map (fun kv => (f kv.1, kv.2)) kvs) !! j
  = (fun a => if Nat.even j then f a else a) <$> flat_pairs kvs !! j.
Proof.
  induction kvs as [|[k v] kvs IH]; intros j; [done|].
  change (flat_pairs ((k, v) :: kvs)) with (k :: v :: flat_pairs kvs).
  destruct j as [|[|j]]; [done|done|]. cbn. apply IH.
Qed.

Lemma elem_of_odd_positions n j : j ∈ odd_positions n <-> (j < 1 + 2 * n)%nat ∧ Nat.odd j = true.
Proof.
  unfold odd_positions. change (map ?f ?l) with (f <$> l). rewrite list_elem_of_fmap. split.
  - intros (i & -> & Hi%elem_of_seq). split; [lia|]. apply Nat.odd_spec. exists i. lia.
  - intros [Hj Ho]. apply Nat.odd_spec in Ho as [i ->]. exists i. split; [lia|]. apply elem_of_seq. lia.
Qed.

Lemma prefixed_pairs d a0 kvs :
  Forall (fun a => cloneBytes a = a) (a0 :: flat_pairs kvs) ->
  prefixed_argv d (odd_positions (length kvs)) (a0 :: flat_pairs kvs)
  = a0 :: flat_pairs (map (fun kv => (PrefixKey d kv.1, kv.2)) kvs).
Proof.
  intros Hc. apply list_eq. intros j. rewrite prefixed_argv_lookup. destruct j as [|j].
  - cbn. apply Forall_inv in Hc. rewrite bool_decide_false by (rewrite elem_of_odd_positions; cbn; intros [_ ?]; done).
    by rewrite Hc.
  - change ((a0 :: ?l) !! S j) with (l !! j). apply list.Forall_cons in Hc as [_ Hc].
    rewrite flat_pairs_map_lookup. destruct (flat_pairs kvs !! j) as [a|] eqn:E; [|done]. cbn. f_equal.
    rewrite list.Forall_forall in Hc. pose proof (Hc a ltac:(by eapply list_elem_of_lookup_2)) as Ha.
    apply lookup_lt_Some in E. rewrite length_flat_pairs in E.
    assert (bool_decide (S j ∈ odd_positions (length kvs)) = Nat.even j) as ->.
    { apply Bool.eq_iff_eq_true. rewrite bool_decide_eq_true, elem_of_odd_positions, Nat.odd_succ. intuition lia. }
    case_if; done.
Qed.

Lemma client_argv_on f a0 c : client_argv a0 c -> client_argv a0 (on_keys f c).
Proof.
  intros [Hn Hk]. unfold client_argv. destruct c as [|ks|kvs|ks|ks| | | |]; try done; (split; [exact Hn|]); cbn in *.
  all: intros E; apply Hk; first [by apply map_eq_nil in E|rewrite map_map in E; by apply map_eq_nil in E as ->].
Qed.

Lemma client_argv_cmd a0 c : client_argv a0 c -> client_cmd c = true.
Proof. intros [Hn _]. by destruct c. Qed.

Lemma NeedsDBRewrite_client a0 c : client_argv a0 c -> NeedsDBRewrite (argv_of a0 c) = true.
Proof.
  intros Hc. apply client_name in Hc as Hn. unfold NeedsDBRewrite, argv_of. cbv zeta. rewrite cmd_name_cons.
  rewrite !(data_not _ _ Hn) by (simpl; tauto). done.
Qed.

Lemma RewriteArgv_client d a0 c :
  0 <= d -> client_argv a0 c -> client_ok (argv_of a0 c) ->
  RewriteArgv (argv_of a0 c) d = Ret (argv_of a0 (on_keys (PrefixKey d) c)).
Proof.
  intros Hd Hc [_ Hok]. destruct (decide (d = 0)) as [->|Hnz].
  { rewrite on_keys_id by done. done. }
  assert (Forall (fun a => cloneBytes a = a) (argv_of a0 c)) as Hcl
    by (eapply list.Forall_impl; [exact Hok|]; intros a [Ha _]; by apply clone_nonempty).
  pose proof (client_name _ _ Hc) as Hn.
  assert (str_in (cmd_name [a0]) ["COPY"; "SCAN"] = false) as Hcs by (apply (data_not _ _ Hn); simpl; tauto).
  unfold str_in in Hcs. cbn [existsb] in Hcs. bool_simp.
  assert (forall idx, KeyIndexes (argv_of a0 c) = Ret idx ->
    RewriteArgv (argv_of a0 c) d = Ret (prefixed_argv d idx (argv_of a0 c))) as Hrw.
  { intros idx Hi. rewrite (RewriteArgv_rewritten d _ idx);
      [|lia|by apply NeedsDBRewrite_client|by rewrite cmd_name_argv_of|done].
    unfold rewritten. rewrite cmd_name_argv_of, (bool_decide_false (_ = B "SCAN")) by done.
    cbn [andb]. by rewrite app_nil_r. }
  destruct Hc as [Hm _]. unfold argv_of in *.
  pose proof (Forall_inv Hcl) as Ha0. apply Forall_inv_tail in Hcl as Hrest.
  destruct c as [name k args|ks|kvs|ks|ks| | | |]; cbn [named on_keys] in *; try done.
  - apply andb_true_iff in Hm as [_ Hm]. rewrite (Hrw [1%nat]) by (by apply KeyIndexes_one). do 2 f_equal.
    apply Forall_inv_tail in Hrest. apply list_eq. intros j. rewrite prefixed_argv_lookup.
    destruct j as [|[|j]]; [by cbn; rewrite Ha0|done|]. cbn. destruct (args !! j) as [a|] eqn:E; [|done]. cbn.
    f_equal. rewrite list.Forall_forall in Hrest. apply Hrest. by eapply list_elem_of_lookup_2.
  - rewrite (Hrw (seq 1 (length ks))), prefixed_step1; [done|done|]. apply KeyIndexes_step1.
    rewrite cmd_name_cons. apply bool_decide_eq_true in Hm as ->. vm_refl.
  - rewrite (Hrw (odd_positions (length kvs))), prefixed_pairs; [done|done|]. apply KeyIndexes_MSET.
    rewrite cmd_name_cons. by apply bool_decide_eq_true in Hm.
  - rewrite (Hrw (seq 1 (length ks))), prefixed_step1; [done|done|]. apply KeyIndexes_step1.
    rewrite cmd_name_cons. eapply str_in_sub; [exact Hm|simpl; tauto].
  - rewrite (Hrw (seq 1 (length ks))), prefixed_step1; [done|done|]. apply KeyIndexes_step1.
    rewrite cmd_name_cons. eapply str_in_sub; [exact Hm|simpl; tauto].
Qed.

Lemma sendable_client d a0 c :
  client_argv a0 c -> client_ok (argv_of a0 c) -> sendable (argv_of a0 (on_keys (PrefixKey d) c)).
Proof.
  intros Hc [Hl Hok]. unfold argv_of in *. rewrite list.Forall_cons in Hok. destruct Hok as [[H0 H1] Hok].
  apply client_argv_cmd in Hc. destruct c as [name k args|ks|kvs|ks|ks| | | |]; cbn [on_keys] in *; try done;
    (split; [cbn [length] in *; rewrite ?length_flat_pairs, ?length_map in *; lia|]);
    (constructor; [by apply arg_ok_plain|]).
  - rewrite list.Forall_cons in Hok. destruct Hok as [[Hk1 Hk2] Hok]. constructor; [by apply arg_ok_prefixed|].
    eapply list.Forall_impl; [exact Hok|]. intros a [A1 A2]. by apply arg_ok_plain.
  - apply list.Forall_fmap. eapply list.Forall_impl; [exact Hok|]. intros a [A1 A2]. by apply arg_ok_prefixed.
  - rewrite list.Forall_forall in Hok |- *. intros x (kv & Hkv & Hx)%elem_of_flat_pairs.
    apply list_elem_of_fmap in Hkv as ([k v] & -> & Hkv). cbn in Hx.
    destruct (Hok k) as [A1 A2]; [apply elem_of_flat_pairs; eexists; split; [exact Hkv|by left]|].
    destruct (Hok v) as [B1 B2]; [apply elem_of_flat_pairs; eexists; split; [exact Hkv|by right]|].
    destruct Hx as [-> | ->]; [by apply arg_ok_prefixed|by apply arg_ok_plain].
  - apply list.Forall_fmap. eapply list.Forall_impl; [exact Hok|]. intros a [A1 A2]. by apply arg_ok_prefixed.
  - apply list.Forall_fmap. eapply list.Forall_impl; [exact Hok|]. intros a [A1 A2]. by apply arg_ok_prefixed.
Qed.

(** ** Execution *)

Section Refine.
Context {W C : Type} `{!Network W C} `{!Server} (cfg : SessionConfig) `{!Cluster W C (rcfg cfg)}.
Context (Hcfg : cluster_cfg (rcfg cfg)).
Local Abbreviation slotFn := (SlotOf (rcfg cfg)).
Implicit Types (w : world W C).

Lemma exec_frame_runs argv rc s r (n : W) slot frame args read :
  sendable argv -> decode argv = Some rc -> in_slot slotFn s (cmd_keys rc) ->
  match frame with Some f => f | None => EncodeCommand [] args end = EncodeCommand [] argv ->
  exists r' n' v e, exec_frame cfg r n slot frame args read = (r', n', inr v)
    ∧ (view n', set_raw [] v) = run e rc (view n).
Proof.
  intros Hs Hd Hk Hf.
  destruct (execFrame_runs (rcfg cfg) Hcfg argv rc s Hs Hd Hk r n slot frame args read Hf)
    as (r' & n' & v & E & e & Hx). exists r', n', v, e. unfold exec_frame. by rewrite E.
Qed.

(** The router in front of the cluster is a store for the fan-out. *)
Definition fan_exec (st : Router * W) (slot : Z) (sub : list slice) (read : bool) : (Router * W) * (bytes + value) :=
  let '(r, n, x) := exec_frame cfg st.1 st.2 slot None sub read in ((r, n), x).

Lemma fan_exec_runs a0 c st slot read :
  client_argv a0 c -> sendable (argv_of a0 c) -> in_slot slotFn slot (cmd_keys c) ->
  exists st' v e, fan_exec st slot (argv_of a0 c) read = (st', inr v)
    ∧ view st'.2 = (run e c (view st.2)).1 ∧ set_raw [] v = (run e c (view st.2)).2.
Proof.
  intros Hc Hs Hk.
  destruct (exec_frame_runs _ c slot st.1 st.2 slot None _ read Hs (decode_argv_of _ _ Hc) Hk eq_refl)
    as (r' & n' & v & e & E & Hx). exists (r', n'), v, e. unfold fan_exec. rewrite E, <- Hx. done.
Qed.

#[local] Instance cluster_store : StringStore fan_exec slotFn (fun st => view st.2).
Proof.
  split.
  - intros st slot a0 keys read Hn Hs Hk.
    destruct (fan_exec_runs a0 (CMget keys) st slot read) as (st' & v & e & E & Hv & Hr);
      [split; [by apply bool_decide_eq_true|apply Hk]|done..|].
    exists st', v. destruct v. injection Hr as -> -> -> -> ->. done.
  - intros st slot a0 kvs read Hn Hs Hk.
    destruct (fan_exec_runs a0 (CMset kvs) st slot read) as (st' & v & e & E & Hv & Hr);
      [split; [by apply bool_decide_eq_true|apply Hk]|done..|].
    exists st', v. destruct v. injection Hr as -> -> -> -> ->. done.
  - intros st slot a0 keys read Hn Hs Hk.
    destruct (fan_exec_runs a0 (CDel keys) st slot read) as (st' & v & e & E & Hv & Hr);
      [split; [done|apply Hk]|done..|].
    exists st', v. destruct v. injection Hr as -> -> -> -> ->. done.
  - intros st slot a0 keys read Hn Hs Hk.
    destruct (fan_exec_runs a0 (CExists keys) st slot read) as (st' & v & e & E & Hv & Hr);
      [split; [done|apply Hk]|done..|].
    exists st', v. destruct v. injection Hr as -> -> -> -> ->. done.
Qed.

(** *** Routing a client command *)

(** The session is unchanged, the command ran once and its reply is the one written. *)
Definition answered (c : rcmd) w w' : Prop :=
  wSess w' = wSess w ∧ exists e v, wOut w' = wOut w ++ [v]
    ∧ (view (wNet w'), set_raw [] v) = run e c (view (wNet w)).

Definition completes (order : list nat) (keys : list slice) : Prop :=
  order ≡ₚ seq 0 (length (GroupBySlot keys slotFn)).

Lemma fanout_client ch a0 c w :
  client_argv a0 c -> sendable (argv_of a0 c) -> (1 < length (cmd_keys c))%nat ->
  completes (fanOrder ch) (cmd_keys c) ->
  wpt (fanout cfg ch (argv_of a0 c)) (fun _ w' => answered c w w') w.
Proof.
  intros [Hn Hne] Hs Hlen Ho. apply wpt_get.
  assert (Z.of_nat (length (argv_of a0 c)) <= 1000000) as Hl by apply Hs.
  assert (exists st v, cmdFanout fan_exec slotFn (db (wSess w)) (fanOrder ch) (wRouter w, wNet w) (argv_of a0 c)
    = Ret (st, v) ∧ (view st.2, v) = run 0 c (view (wNet w))) as (st & v & E & Hr).
  { destruct c as [name k args|ks|kvs|ks|ks| | | |]; cbn [named cmd_keys argv_of length] in *; try done; [lia|..].
    - destruct (fanout_MGET_ok fan_exec slotFn (fun st => view st.2) (db (wSess w)) (fanOrder ch)
        (wRouter w, wNet w) a0 ks) as (st & E & Hv); try done; [by apply bool_decide_eq_true in Hn|].
      exists st. eexists. split; [exact E|]. by rewrite Hv.
    - destruct (fanout_MSET_ok fan_exec slotFn (fun st => view st.2) (db (wSess w)) (fanOrder ch)
        (wRouter w, wNet w) a0 kvs) as (st & E & Hv); try done;
        [by apply bool_decide_eq_true in Hn|by intros ->|].
      exists st. eexists. split; [exact E|]. by rewrite Hv.
    - destruct (fanout_DEL_ok fan_exec slotFn (fun st => view st.2) (db (wSess w)) (fanOrder ch)
        (wRouter w, wNet w) a0 ks) as (st & E & Hv); try done; [lia|].
      exists st. eexists. split; [exact E|]. by rewrite Hv.
    - destruct (fanout_EXISTS_ok fan_exec slotFn (fun st => view st.2) (db (wSess w)) (fanOrder ch)
        (wRouter w, wNet w) a0 ks) as (st & E & Hv); try done; [lia|].
      exists st. eexists. split; [exact E|]. by rewrite Hv. }
  destruct st as [r n]. apply wpt_bind. exists (mkWorld (wSess w) r n (wOut w)), v. split.
  { cbv beta. change (fun st slot sub read => let '(r, n, x) := exec_frame cfg st.1 st.2 slot None sub read in (r, n, x))
      with fan_exec. by rewrite E. }
  apply wpt_reply. split; [done|]. exists 0, v. split; [done|]. cbn [wNet].
  destruct (run_reply 0 c (view (wNet w))) as [Hraw _]. rewrite <- Hr in Hraw |- *. cbn in *.
  f_equal. destruct v. cbn in *. by subst.
Qed.

Lemma StripReplyKeys_data name n v : str_in name data_names = true -> StripReplyKeys name n v = v.
Proof.
  intros Hn. unfold StripReplyKeys. case_if; [done|]. by rewrite !(data_not _ _ Hn) by (simpl; tauto).
Qed.

Lemma client_reply_data name n v : str_in name data_names = true -> no_redirect v -> client_reply name n v = v.
Proof.
  intros Hn [Hm Ha]. unfold client_reply. rewrite Hm, Ha. cbn [orb]. case_if; [done|]. by apply StripReplyKeys_data.
Qed.

Lemma IsBlocking_client a0 c : client_argv a0 c -> IsBlocking (argv_of a0 c) = false.
Proof.
  intros Hc%client_name. unfold IsBlocking, argv_of. cbv zeta. rewrite cmd_name_cons.
  destruct (data_table _ Hc) as (m & -> & Hk & _). rewrite bool_decide_false by done.
  by rewrite (data_not _ _ Hc) by (simpl; tauto).
Qed.

Lemma FanoutOf_client a0 c : client_argv a0 c -> (1 < length (cmd_keys c))%nat -> FanoutOf (argv_of a0 c) ≠ FanoutNone.
Proof.
  intros [Hn _] Hl. unfold FanoutOf, argv_of. rewrite cmd_name_cons.
  destruct c; cbn [named cmd_keys length] in *; try done; try lia.
  - apply bool_decide_eq_true in Hn as ->. by vm_compute.
  - apply bool_decide_eq_true in Hn as ->. by vm_compute.
  - apply str_in_true in Hn as (x & Hx & ->). repeat destruct Hx as [<-|Hx]; try done; by vm_compute.
  - apply str_in_true in Hn as (x & Hx & ->). repeat destruct Hx as [<-|Hx]; try done; by vm_compute.
Qed.

(** After the rewriting: one node, or a fan-out. *)
Definition route_rewritten ch name (n : Z) argv raw : M W C unit :=
  keys ← lift (ExtractKeys argv);
  if (1 <? argc keys) && CrossSlot (rcfg cfg) keys then
    if negb (FanoutOf argv ==b FanoutNone) then fanout cfg ch argv else reply errCross
  else
    let slot := match keys with k :: _ => slot_of cfg k | [] => 0 end in
    let read := KindOf (arg argv 0) ==b KindRead in
    res ← (if IsBlocking argv then doBlocking cfg slot argv
           else if negb (Nat.eqb (length raw) 0) && negb (needsRewrite argv) then exec_raw cfg slot raw read
           else exec cfg slot argv read);
    match res with
    | inl e => reply_err e
    | inr v => reply (client_reply name n v)
    end.

Lemma exec_any_runs argv rc s slot raw read w :
  sendable argv -> decode argv = Some rc -> in_slot slotFn s (cmd_keys rc) ->
  raw = [] ∨ raw = EncodeCommand [] argv ->
  wpt (if negb (Nat.eqb (length raw) 0) && negb (needsRewrite argv) then exec_raw cfg slot raw read
       else exec cfg slot argv read)
    (fun res w' => wSess w' = wSess w ∧ wOut w' = wOut w ∧ exists v e, res = inr v
       ∧ (view (wNet w'), set_raw [] v) = run e rc (view (wNet w))) w.
Proof.
  intros Hs Hd Hk Hr. destruct (negb _ && negb _) eqn:Hb.
  - destruct Hr as [->|Hr]; [done|].
    destruct (exec_frame_runs argv rc s (wRouter w) (wNet w) slot (Some raw) [] read Hs Hd Hk Hr)
      as (r & n & v & e & E & Hx).
    exists (mkWorld (wSess w) r n (wOut w)), (inr v). split; [unfold exec_raw, on_net; by rewrite E|]. cbn. split_and!; [done..|]. by exists v, e.
  - destruct (exec_frame_runs argv rc s (wRouter w) (wNet w) slot None argv read Hs Hd Hk eq_refl)
      as (r & n & v & e & E & Hx).
    exists (mkWorld (wSess w) r n (wOut w)), (inr v). split; [unfold exec, on_net; by rewrite E|]. cbn. split_and!; [done..|]. by exists v, e.
Qed.

Lemma route_rewritten_client ch a0 c n raw w :
  client_argv a0 c -> sendable (argv_of a0 c) -> completes (fanOrder ch) (cmd_keys c) ->
  raw = [] ∨ raw = EncodeCommand [] (argv_of a0 c) ->
  wpt (route_rewritten ch (cmd_name [a0]) n (argv_of a0 c) raw) (fun _ w' => answered c w w') w.
Proof.
  intros Hc Hs Ho Hr. unfold route_rewritten. rewrite ExtractKeys_client by done.
  change (lift (Ret ?k) ≫= ?f) with (f k). cbv beta. cbv zeta.
  destruct ((1 <? argc (cmd_keys c)) && CrossSlot (rcfg cfg) (cmd_keys c)) eqn:Ex.
  - apply andb_true_iff in Ex as [El%Z.ltb_lt _]. unfold argc in El.
    rewrite bool_decide_false by (apply FanoutOf_client; [done|lia]). apply fanout_client; [done..|lia|done].
  - rewrite IsBlocking_client by done. destruct (cmd_keys c) as [|k0 ks] eqn:Ek; [by destruct Hc|].
    assert (in_slot slotFn (slot_of cfg k0) (cmd_keys c)) as Hk.
    { rewrite Ek. split; [done|]. constructor; [done|]. apply andb_false_iff in Ex as [El%Z.ltb_ge|Ex].
      - unfold argc in El. destruct ks; [constructor|]. cbn [length] in El. lia.
      - by apply CrossSlot_false in Ex. }
    apply wpt_bind. eapply wpt_mono;
      [by apply (exec_any_runs _ c (slot_of cfg k0)); [|apply decode_argv_of| |]|].
    intros res w' (H1 & H2 & v & e & -> & Hx). cbv beta iota. apply wpt_reply. split; [done|].
    exists e, v. cbn [wOut wNet]. rewrite H2. split; [|done]. do 2 f_equal.
    apply client_reply_data; [by eapply client_name|].
    destruct (run_reply e c (view (wNet w))) as [_ Hnr]. rewrite <- Hx in Hnr. by destruct v.
Qed.

Lemma route_client ch a0 c raw w :
  let d := db (wSess w) in
  client_argv a0 c -> client_ok (argv_of a0 c) -> 0 <= d ->
  completes (fanOrder ch) (cmd_keys (on_keys (PrefixKey d) c)) ->
  raw = [] ∨ raw = EncodeCommand [] (argv_of a0 c) ->
  wpt (route cfg ch (cmd_name [a0]) (argv_of a0 c) raw) (fun _ w' => answered (on_keys (PrefixKey d) c) w w') w.
Proof.
  cbv zeta. intros Hc Hok Hd Ho Hr. unfold route. apply wpt_get. rewrite RewriteArgv_client by done.
  change (lift (Ret ?k) ≫= ?f) with (f k). cbv beta. destruct (0 <? db (wSess w)) eqn:E; bool_simp.
  - refine (route_rewritten_client ch a0 (on_keys (PrefixKey (db (wSess w))) c) (db (wSess w)) [] w _ _ Ho _);
      [by apply client_argv_on|by apply sendable_client|by left].
  - replace (db (wSess w)) with 0 in * by lia. rewrite on_keys_id in * by done.
    refine (route_rewritten_client ch a0 c 0 raw w Hc _ Ho Hr).
    rewrite <- (on_keys_id (PrefixKey 0) c) by done. by apply sendable_client.
Qed.

(** *** Dispatch *)

(** An authenticated client outside a transaction that has not subscribed and not quit. *)
Definition live (s : session C) : Prop := sub s = None ∧ authed s = true ∧ multi s = false ∧ quit s = false.

Lemma handle_dispatch ch a0 rest raw w :
  live (wSess w) ->
  str_in (cmd_name [a0]) ("SELECT" :: local_names ++ ["MULTI"; "DISCARD"; "EXEC"; "WATCH"; "UNWATCH"; "SUBSCRIBE";
    "UNSUBSCRIBE"; "PSUBSCRIBE"; "PUNSUBSCRIBE"; "SSUBSCRIBE"; "SUNSUBSCRIBE"; "PUBLISH"; "SPUBLISH"; "PUBSUB"]) = false ->
  handle cfg ch (a0 :: rest) raw w = dispatch cfg ch (cmd_name [a0]) (a0 :: rest) raw w.
Proof.
  intros (Hs & Ha & Hm & _) Hn. rewrite handle_to_backend by (done || (eapply str_in_false_sub; [exact Hn|]; simpl; tauto)).
  change (command_name (a0 :: rest)) with (cmd_name [a0]). unfold str_in in Hn. cbn [existsb local_names app] in Hn. bool_simp.
  unfold handle_backend. rewrite !bool_decide_false by done.
  change ((get ≫= ?f) w) with (f (wSess w) w). cbv beta. rewrite Hm.
  change (lift (index (a0 :: rest) 0) ≫= ?f) with (f a0). cbv beta.
  unfold ClassifyPubSub. change (UpperASCII (content a0)) with (cmd_name [a0]). by rewrite !bool_decide_false by done.
Qed.

Lemma handle_client ch a0 c raw w :
  live (wSess w) -> client_argv a0 c ->
  handle cfg ch (argv_of a0 c) raw w = route cfg ch (cmd_name [a0]) (argv_of a0 c) raw w.
Proof.
  intros Hl Hc%client_name. unfold argv_of. rewrite handle_dispatch;
    [|done|apply (data_not _ _ Hc); unfold local_names; simpl; tauto].
  assert (str_in (cmd_name [a0]) ["SWAPDB"; "FLUSHALL"; "FLUSHDB"; "MOVE"; "COPY"; "RANDOMKEY"] = false) as Hn
    by (apply (data_not _ _ Hc); simpl; tauto).
  unfold str_in in Hn. cbn [existsb] in Hn. bool_simp. unfold dispatch. by rewrite !bool_decide_false by done.
Qed.

(** *** MOVE and COPY *)

(** What a transfer of key [a] to key [b] may do to the key space, and its result. *)
Definition transferred (a b : bytes) (del replace : bool) (m m' : store) (res : bytes + Z) : Prop :=
  (exists v, m !! a = Some v ∧ (replace = true ∨ m !! b = None)
     ∧ m' = (if del then delete a (<[b := v]> m) else <[b := v]> m) ∧ res = inr 1)
  ∨ ((m !! a = None ∨ (replace = false ∧ is_Some (m !! b))) ∧ m' = m ∧ res = inr 0)
  ∨ (m !! a = None ∧ del = true ∧ m' = m ∧ exists e, res = inl e).

Definition keeps w w' : Prop := wSess w' = wSess w ∧ wOut w' = wOut w.

Lemma keeps_trans w1 w2 w3 : keeps w1 w2 -> keeps w2 w3 -> keeps w1 w3.
Proof. intros [A1 A2] [B1 B2]. split; congruence. Qed.

Lemma exec_runs argv rc s slot read w :
  sendable argv -> decode argv = Some rc -> in_slot slotFn s (cmd_keys rc) ->
  wpt (exec cfg slot argv read)
    (fun res w' => keeps w w' ∧ exists v e, res = inr v
       ∧ set_raw [] v = (run e rc (view (wNet w))).2 ∧ view (wNet w') = (run e rc (view (wNet w))).1) w.
Proof.
  intros Hs Hd Hk. eapply wpt_mono; [by apply (exec_any_runs argv rc s slot [] read w); auto|].
  intros res w' (H1 & H2 & v & e & -> & Hx). split; [done|]. exists v, e. by rewrite <- Hx.
Qed.

Lemma one_slot k : in_slot slotFn (slot_of cfg k) [k].
Proof. split; [done|]. by constructor. Qed.

Lemma exists_one k m : exists_count [k] m = if bool_decide (is_Some (m !! content k)) then 1%nat else 0%nat.
Proof. unfold exists_count. rewrite filter_cons, filter_nil. case_decide; by case_bool_decide. Qed.

Lemma del_one k m : del_ref [k] m = delete (content k) m.
Proof.
  apply map_eq. intros x. rewrite del_ref_lookup. unfold key_set. cbn. rewrite union_empty_r_L.
  case_bool_decide as E.
  - apply elem_of_singleton in E as ->. by rewrite lookup_delete_eq.
  - rewrite lookup_delete_ne; [done|]. set_solver.
Qed.

Lemma sendable_cmd a0 l : (length l <= 10)%nat -> arg_ok a0 -> Forall arg_ok l -> sendable (a0 :: l).
Proof. intros Hl H0 Hf. split; [cbn; lia|by constructor]. Qed.

Lemma arg_ok_word x : Z.of_nat (length (B x)) <= 512 * 1024 * 1024 -> arg_ok (BS x).
Proof. intros Hl. by exists (B x). Qed.

Section Transfer.
Context (src dst : slice) (Hsrc : arg_ok src) (Hdst : arg_ok dst) (Hne : content src ≠ content dst).

Local Ltac send := apply sendable_cmd; [simpl; lia|apply arg_ok_word; vm_compute; discriminate|
  repeat first [apply list.Forall_nil; exact I | apply list.Forall_cons; split; [first [done|by apply arg_ok_word]|]]].

Lemma transfer_local_ok del replace w :
  slot_of cfg src = slot_of cfg dst -> (replace = true ∨ view (wNet w) !! content dst = None) ->
  wpt (transfer_local cfg src dst del replace)
    (fun res w' => keeps w w'
       ∧ transferred (content src) (content dst) del replace (view (wNet w)) (view (wNet w')) res) w.
Proof.
  intros Hs Hr. assert (in_slot slotFn (slot_of cfg src) [src; dst]) as Hk
    by (split; [done|]; repeat constructor; by rewrite Hs).
  unfold transfer_local. cbv zeta. apply wpt_bind. destruct del.
  - eapply wpt_mono; [apply (exec_runs _ (CRename src dst) (slot_of cfg src)); [send|vm_refl|done]|].
    intros res w' (Hw & v & e & -> & Hv & Hx). cbn [run] in Hv, Hx.
    destruct (view (wNet w) !! content src) as [x|] eqn:Ea; cbn [fst snd] in Hv, Hx; destruct v as [t st i vs rw nl].
    + injection Hv as -> -> -> -> ->. apply wpt_ret. split; [done|]. left. exists x. split_and!; try done.
      rewrite Hx. by rewrite delete_insert_ne.
    + injection Hv as -> -> -> -> ->. apply wpt_ret. split; [done|]. right. right. split_and!; try done. eauto.
  - eapply wpt_mono; [apply (exec_runs _ (CCopy src dst replace) (slot_of cfg src)); [destruct replace; send|destruct replace; vm_refl|done]|].
    intros res w' (Hw & v & e & -> & Hv & Hx). cbn [run] in Hv, Hx. rewrite bool_decide_false in Hv, Hx by done.
    destruct (view (wNet w) !! content src) as [x|] eqn:Ea; cbn [fst snd] in Hv, Hx.
    + assert (view (wNet w') = <[content dst := x]> (view (wNet w)) ∧ set_raw [] v = Integer 1) as [Hx' Hv'].
      { destruct (view (wNet w) !! content dst); [|done]. by destruct Hr as [-> |?]. }
      destruct v as [t st i vs rw nl]. injection Hv' as -> -> -> -> ->.
      apply wpt_ret. split; [done|]. left. exists x. by split_and!.
    + destruct v as [t st i vs rw nl]. injection Hv as -> -> -> -> ->.
      apply wpt_ret. split; [done|]. right. left. split_and!; [by left|done|done].
Qed.

Lemma transfer_remote_ok del replace w :
  (replace = true ∨ view (wNet w) !! content dst = None) ->
  (forall v, view (wNet w) !! content src = Some v -> arg_ok (Some (dump v))) ->
  wpt (transfer_remote cfg src dst del replace)
    (fun res w' => keeps w w'
       ∧ transferred (content src) (content dst) del replace (view (wNet w)) (view (wNet w')) res) w.
Proof.
  intros Hr Hdump. unfold transfer_remote. apply wpt_bind.
  eapply wpt_mono; [apply (exec_runs _ (CDump src) (slot_of cfg src)); [send|vm_refl|apply one_slot]|].
  intros res w1 (Hw1 & v & e & -> & Hv & Hx). cbn [run fst snd] in Hv, Hx.
  destruct (view (wNet w) !! content src) as [x|] eqn:Ea; cbn [fmap option_fmap option_map get_reply] in Hv;
    destruct v as [t st i vs rw nl]; injection Hv as -> -> -> -> ->.
  2: { apply wpt_ret. split; [done|]. right. left. split_and!; [by left|done|done]. }
  cbv beta iota. cbn [vStr vNull]. change (content (Some (dump x))) with (dump x). pose proof (dump_nonempty x) as Hdn.
  assert (Nat.eqb (length (dump x)) 0 = false) as -> by (by destruct (dump x)).
  change (IsError (mkValue _ _ _ _ _ _)) with false. cbn [orb]. cbv iota. specialize (Hdump x eq_refl).
  apply wpt_bind. eapply wpt_mono; [apply (exec_runs _ (CRestore dst (Some (dump x)) replace) (slot_of cfg dst));
    [destruct replace; send|destruct replace; vm_refl|apply one_slot]|].
  intros res w2 (Hw2 & v & e2 & -> & Hv & Hx2). cbn [run] in Hv, Hx2. change (content (Some (dump x))) with (dump x) in Hv, Hx2. rewrite undump_dump, Hx in Hv, Hx2.
  assert (set_raw [] v = ok_value ∧ view (wNet w2) = <[content dst := x]> (view (wNet w))) as [Hv' Hx2'].
  { destruct (view (wNet w) !! content dst); [|done]. by destruct Hr as [-> |?]. }
  destruct v as [t st i vs rw' nl]. injection Hv' as -> -> -> -> ->. change (IsError (mkValue _ _ _ _ _ _)) with false. cbv iota.
  apply wpt_bind. destruct del.
  - apply wpt_bind. eapply wpt_mono; [apply (exec_runs _ (CDel [src]) (slot_of cfg src)); [send|vm_refl|apply one_slot]|].
    intros res w3 (Hw3 & v & e3 & -> & _ & Hx3). do 2 apply wpt_ret.
    split; [exact (keeps_trans _ _ _ Hw1 (keeps_trans _ _ _ Hw2 Hw3))|]. left. exists x. split_and!; try done.
    rewrite Hx3. cbn [run fst]. by rewrite del_one, Hx2'.
  - do 2 apply wpt_ret. split; [exact (keeps_trans _ _ _ Hw1 Hw2)|]. left. exists x. by split_and!.
Qed.

Lemma transferKey_ok del replace w :
  (forall v, view (wNet w) !! content src = Some v -> arg_ok (Some (dump v))) ->
  wpt (transferKey cfg src dst del replace)
    (fun res w' => keeps w w'
       ∧ transferred (content src) (content dst) del replace (view (wNet w)) (view (wNet w')) res) w.
Proof.
  intros Hdump. unfold transferKey. apply wpt_bind.
  assert (forall w1, keeps w w1 -> view (wNet w1) = view (wNet w) ->
    (replace = true ∨ view (wNet w) !! content dst = None) ->
    wpt (if slot_of cfg src =? slot_of cfg dst then transfer_local cfg src dst del replace
         else transfer_remote cfg src dst del replace)
      (fun res w' => keeps w w'
         ∧ transferred (content src) (content dst) del replace (view (wNet w)) (view (wNet w')) res) w1) as Hgo.
  { intros w1 Hw1 Hv1 Hr. rewrite <- Hv1 in Hr, Hdump |- *. destruct (_ =? _) eqn:E; bool_simp.
    - eapply wpt_mono; [by apply transfer_local_ok|]. intros res w' [H1 H2]. split; [by eapply keeps_trans|done].
    - eapply wpt_mono; [by apply transfer_remote_ok|]. intros res w' [H1 H2]. split; [by eapply keeps_trans|done]. }
  destruct replace; cbn [negb andb].
  - apply wpt_ret. cbv iota. apply Hgo; [done|done|by left].
  - eapply wpt_mono; [apply (exec_runs _ (CExists [dst]) (slot_of cfg dst)); [send|vm_refl|apply one_slot]|].
    intros res w1 (Hw1 & v & e & -> & Hv & Hx). cbn [run fst snd] in Hv, Hx. rewrite exists_one in Hv.
    destruct v as [t st i vs rw nl]. injection Hv as -> -> -> -> ->. change (IsError (mkValue _ _ _ _ _ _)) with false.
    cbn [negb andb vType vInt]. eval_tests. cbn [andb]. case_bool_decide as Hex.
    + change (0 <? Z.of_nat 1) with true. cbv iota. apply wpt_ret. split; [done|]. right. left. rewrite Hx. auto.
    + change (0 <? Z.of_nat 0) with false. cbv iota. apply Hgo; [done|done|]. right. by apply eq_None_not_Some.
Qed.
End Transfer.

(** ** The simulation *)

Local Abbreviation lim := (db_limit cfg).
Context (Hlim : lim <= 2^63).

Record related (s : redis) w : Prop := mkRelated {
  rel_live : live (wSess w);
  rel_db : rDB s = db (wSess w);
  rel_range : 0 <= rDB s < lim;
  rel_data : stores lim (rData s) (view (wNet w)) }.

(** A stored value that can be sent in a RESTORE. *)
Definition movable (s : redis) (k : slice) : Prop :=
  forall v, rData s (rDB s) !! content k = Some v -> arg_ok (Some (dump v)).

(** The commands of the simulation, and what it asks of them.  Keys of database 0 must not look like
    keys of another database; [fanOrder] is an order in which the sub-commands complete. *)
Inductive ready_cmd (s : redis) (ch : choices) (argv : list slice) : Prop :=
| ReadySelect a0 n : argv = [a0; n] -> cmd_name argv = B "SELECT" -> ready_cmd s ch argv
| ReadyData c :
    decode argv = Some c -> client_cmd c = true -> plain_keys (rDB s) (cmd_keys c) ->
    completes (fanOrder ch) (map (PrefixKey (rDB s)) (cmd_keys c)) -> ready_cmd s ch argv
| ReadyMove a0 k n i :
    argv = [a0; k; n] -> cmd_name argv = B "MOVE" -> db_index lim (content n) = Some i -> i ≠ rDB s ->
    unprefixed (rDB s) (content k) -> unprefixed i (content k) -> movable s k -> ready_cmd s ch argv
| ReadyCopy a0 src dst opts i replace :
    argv = a0 :: src :: dst :: opts -> cmd_name argv = B "COPY" ->
    copy_target lim opts (rDB s) false = Some (i, replace) -> (i, content dst) ≠ (rDB s, content src) ->
    unprefixed (rDB s) (content src) -> unprefixed i (content dst) -> movable s src -> ready_cmd s ch argv.

Definition ready (s : redis) (c : choices * list slice * bytes) : Prop :=
  ready_cmd s c.1.1 c.1.2 ∧ client_ok c.1.2 ∧ (c.2 = [] ∨ c.2 = EncodeCommand [] c.1.2).

(** One command of the proxy is one command of the server. *)
Definition simulated (s : redis) (argv : list slice) w w' : Prop :=
  exists s' v, redis_step lim s argv s' (set_raw [] v) ∧ related s' w' ∧ wOut w' = wOut w ++ [v].

Lemma ParseDBIndex_index b :
  match ParseDBIndex b (MaxDatabases cfg) with inr n => db_index lim b = Some n | inl _ => db_index lim b = None end.
Proof.
  unfold ParseDBIndex, db_index, db_limit. cbv zeta. destruct (parse_int b) as [n|]; [|done]. cbn [mbind option_bind].
  destruct (n <? 0) eqn:E1; bool_simp; [rewrite (proj2 (Z.leb_gt 0 n)) by lia; done|].
  rewrite (proj2 (Z.leb_le 0 n)) by lia. cbn [andb].
  destruct (_ <=? n) eqn:E2; bool_simp; [by rewrite (proj2 (Z.ltb_ge _ _))|by rewrite (proj2 (Z.ltb_lt _ _))].
Qed.

Lemma db_index_range b i : db_index lim b = Some i -> 0 <= i < lim.
Proof.
  unfold db_index. destruct (parse_int b) as [n|]; [|done]. cbn. destruct (_ && _) eqn:E; [|done].
  intros [= ->]. bool_simp. lia.
Qed.

Lemma DBIndexError_error e : IsError (DBIndexError (Some e)) = true.
Proof. by destruct e. Qed.

Lemma sim_select s ch a0 n raw w :
  related s w -> cmd_name [a0] = B "SELECT" ->
  wpt (handle cfg ch [a0; n] raw) (fun _ w' => simulated s [a0; n] w w') w.
Proof.
  intros [(Hs & Ha & Hm & Hqu) Hdb Hrng Hst] Hn. unfold handle. apply wpt_get. rewrite Hs.
  change (command_name [a0; n]) with (cmd_name [a0]). rewrite bool_decide_true by done.
  unfold cmdSelect. apply wpt_get. rewrite Ha. cbn [negb]. change (argc [a0; n] =? 2) with true. cbn [negb].
  change (arg [a0; n] 1) with (content n). pose proof (ParseDBIndex_index (content n)) as Hi.
  destruct (ParseDBIndex (content n) (MaxDatabases cfg)) as [e|i].
  - apply wpt_reply. exists s, (DBIndexError (Some e)). split_and!; [|done|done].
    assert (set_raw [] (DBIndexError (Some e)) = DBIndexError (Some e)) as -> by (by destruct e).
    by eapply RSelectBad; [done|exact Hn|exact Hi|apply DBIndexError_error].
  - rewrite Hm. apply wpt_bind, wpt_modify, wpt_reply. exists (mkRedis i (rData s)), ok_reply. split_and!.
    + by eapply RSelect; [done|exact Hn|exact Hi].
    + split; [done|done|by eapply db_index_range|done].
    + done.
Qed.

Lemma sim_data s ch argv c raw w :
  related s w -> decode argv = Some c -> client_cmd c = true -> plain_keys (rDB s) (cmd_keys c) ->
  completes (fanOrder ch) (map (PrefixKey (rDB s)) (cmd_keys c)) -> client_ok argv ->
  raw = [] ∨ raw = EncodeCommand [] argv ->
  wpt (handle cfg ch argv raw) (fun _ w' => simulated s argv w w') w.
Proof.
  intros [Hl Hdb Hrng Hst] Hd Hc Hk Ho Hok Hr. pose proof Hd as Hd'.
  apply decode_client in Hd' as (a0 & -> & Hca); [|done].
  assert (wpt (route cfg ch (cmd_name [a0]) (argv_of a0 c) raw)
    (fun _ w' => answered (on_keys (PrefixKey (rDB s)) c) w w') w) as (w' & [] & E & He & e & v & Hout & Hx).
  { rewrite Hdb in *. apply route_client; [done|done|lia| |done]. by rewrite cmd_keys_on. }
  exists w', tt. split; [by rewrite handle_client|].
  destruct (run_loc lim Hlim (rDB s) Hrng e c (rData s) (view (wNet w)) Hc Hk Hst) as [R1 R2].
  rewrite <- Hx in R1, R2. cbn [fst snd] in R1, R2.
  eexists _, v. split_and!; [rewrite R1; by apply (RDataCmd lim s _ c e)| |done].
  split; [by rewrite He|by rewrite He|done|done].
Qed.

Lemma rel_lookup s w d k :
  related s w -> 0 <= d < lim -> unprefixed d k -> view (wNet w) !! loc d k = rData s d !! k.
Proof. intros Hr Hd Hk. symmetry. by apply (rel_data s w Hr). Qed.

Lemma related_keeps s w w' data :
  related s w -> wSess w' = wSess w -> stores lim data (view (wNet w')) -> related (mkRedis (rDB s) data) w'.
Proof. intros [Hl Hdb Hrng _] He Hst. split; cbn; rewrite ?He; done. Qed.

(** The reply of a transfer between two databases, from what it did. *)
Lemma transfer_reply s w w' d1 k1 d2 k2 del replace res :
  related s w -> 0 <= d1 < lim -> 0 <= d2 < lim -> unprefixed d1 k1 -> unprefixed d2 k2 ->
  keeps w w' -> transferred (loc d1 k1) (loc d2 k2) del replace (view (wNet w)) (view (wNet w')) res ->
  wpt (reply_count res) (fun _ w2 => exists v, wOut w2 = wOut w ++ [v] ∧ vRaw v = [] ∧
    ((exists x, rData s d1 !! k1 = Some x ∧ (replace = true ∨ rData s d2 !! k2 = None) ∧ v = Integer 1
        ∧ related (mkRedis (rDB s) (if del then delete_key d1 k1 (write_key d2 k2 x (rData s))
                                    else write_key d2 k2 x (rData s))) w2)
     ∨ ((rData s d1 !! k1 = None ∨ (replace = false ∧ is_Some (rData s d2 !! k2))) ∧ v = Integer 0 ∧ related s w2)
     ∨ (rData s d1 !! k1 = None ∧ del = true ∧ IsError v = true ∧ related s w2))) w'.
Proof.
  intros Hr H1 H2 U1 U2 [Hse Hou] Ht. unfold transferred in Ht.
  rewrite (rel_lookup s w d1 k1), (rel_lookup s w d2 k2) in Ht by done.
  assert (forall v, view (wNet w') = view (wNet w) ->
    related s (mkWorld (wSess w') (wRouter w') (wNet w') (wOut w' ++ [v]))) as Hsame.
  { intros v Hv. destruct s as [d data]. eapply (related_keeps (mkRedis d data)); [exact Hr|done|].
    cbn [wNet]. rewrite Hv. apply Hr. }
  destruct Ht as [(x & Hx & Hc & Hm & ->)|[(Hc & Hm & ->)|(Hx & Hd & Hm & e & ->)]].
  - apply wpt_reply. exists (Integer 1). split; [cbn [wOut]; by rewrite Hou|]. split; [done|]. left. exists x.
    split_and!; [done..|]. eapply related_keeps; [exact Hr|done|]. cbn [wNet]. rewrite Hm.
    pose proof (stores_insert lim Hlim (rData s) _ d2 k2 x H2 U2 (rel_data _ _ Hr)) as Hi.
    destruct del; [|done]. by apply (stores_delete lim Hlim (write_key d2 k2 x (rData s))).
  - apply wpt_reply. exists (Integer 0). split; [cbn [wOut]; by rewrite Hou|]. split; [done|]. right. left.
    split_and!; [done..|]. by apply Hsame.
  - apply wpt_reply. eexists. split; [cbn [wOut]; by rewrite Hou|]. split; [done|]. right. right.
    split_and!; [done..|]. by apply Hsame.
Qed.

Lemma raw_nil v : vRaw v = [] -> set_raw [] v = v.
Proof. destruct v. cbn. by intros ->. Qed.

Lemma client_ok_arg argv a d : client_ok argv -> a ∈ argv -> arg_ok (PrefixKey d a).
Proof. intros [_ H1] Ha. rewrite list.Forall_forall in H1. apply H1 in Ha as [? ?]. by apply arg_ok_prefixed. Qed.

Lemma loc_ne d1 k1 d2 k2 :
  0 <= d1 < lim -> 0 <= d2 < lim -> unprefixed d1 k1 -> unprefixed d2 k2 -> (d2, k2) ≠ (d1, k1) ->
  loc d1 k1 ≠ loc d2 k2.
Proof. intros H1 H2 U1 U2 Hne E. apply loc_inj in E as [-> ->]; [done|lia|lia|done|done]. Qed.

Lemma sim_move s ch a0 k n i raw w :
  related s w -> cmd_name [a0] = B "MOVE" -> db_index lim (content n) = Some i -> i ≠ rDB s ->
  unprefixed (rDB s) (content k) -> unprefixed i (content k) -> movable s k -> client_ok [a0; k; n] ->
  wpt (handle cfg ch [a0; k; n] raw) (fun _ w' => simulated s [a0; k; n] w w') w.
Proof.
  intros Hr Hn Hi Hne U1 U2 Hmv Hok. pose proof (rel_range _ _ Hr) as H1. pose proof (db_index_range _ _ Hi) as H2.
  unfold wpt. rewrite handle_dispatch by (apply Hr || (rewrite Hn; vm_refl)). rewrite Hn. unfold dispatch. eval_tests.
  cbv iota. change (wpt (cmdMove cfg [a0; k; n]) (fun _ w' => simulated s [a0; k; n] w w') w).
  unfold cmdMove. apply wpt_get. rewrite <- (rel_db _ _ Hr). pose proof (ParseDBIndex_index (content n)) as Hp.
  rewrite Hi in Hp. destruct (ParseDBIndex (content n) (MaxDatabases cfg)) as [e|i']; [done|]. injection Hp as <-.
  rewrite (proj2 (Z.eqb_neq i (rDB s))) by done. apply wpt_bind. eapply wpt_mono.
  { apply transferKey_ok; [eapply client_ok_arg; [done|by right; left]..| |].
    - rewrite !content_loc. apply loc_ne; [done..|]. congruence.
    - rewrite content_loc, (rel_lookup s w) by done. exact Hmv. }
  intros res w' [Hk Ht]. rewrite !content_loc in Ht. eapply wpt_mono;
    [exact (transfer_reply s w w' (rDB s) (content k) i (content k) true false res Hr H1 H2 U1 U2 Hk Ht)|].
  intros _ w2 (v & Hout & Hraw & Hv). rewrite <- (raw_nil v Hraw) in Hv. unfold simulated.
  destruct Hv as [(x & Hx & [?|Hd] & Hv & Hrel)|[(Hx & Hv & Hrel)|(Hx & _ & Hv & Hrel)]]; [done|..].
  - eexists _, v. split_and!; [rewrite Hv|exact Hrel|done]. by eapply RMove.
  - exists s, v. split_and!; [rewrite Hv|exact Hrel|done]. eapply RMoveNot; [done..|tauto].
  - exists s, v. split_and!; [|exact Hrel|done]. by eapply RMoveMissing.
Qed.

Lemma copy_target_options k : forall opts d replace i r, (length opts <= k)%nat ->
  copy_target lim opts d replace = Some (i, r) -> copy_options cfg opts d replace = inr (i, r).
Proof.
  induction k as [|k IH]; intros [|o opts] d replace i r Hl Hc; cbn [length] in Hl; try lia;
    try (by injection Hc as -> ->).
  cbn [copy_target copy_options] in *. case_if; [by apply IH; [lia|]|]. case_if; [|done].
  destruct opts as [|n opts]; [done|]. pose proof (ParseDBIndex_index (content n)) as Hp.
  destruct (db_index lim (content n)) as [j|] eqn:Ej; [|done]. cbn [mbind option_bind] in Hc.
  destruct (ParseDBIndex (content n) (MaxDatabases cfg)) as [e|j']; [done|]. injection Hp as <-.
  cbn [length] in Hl. by apply IH; [lia|].
Qed.

Lemma copy_target_range k : forall opts d replace i r, (length opts <= k)%nat -> 0 <= d < lim ->
  copy_target lim opts d replace = Some (i, r) -> 0 <= i < lim.
Proof.
  induction k as [|k IH]; intros [|o opts] d replace i r Hl Hd Hc; cbn [length] in Hl; try lia;
    try (by injection Hc as -> ->).
  cbn [copy_target] in *. case_if; [by eapply IH; [|exact Hd|exact Hc]; lia|]. case_if; [|done].
  destruct opts as [|n opts]; [done|].
  destruct (db_index lim (content n)) as [j|] eqn:Ej; [|done]. cbn [mbind option_bind] in Hc.
  cbn [length] in Hl. eapply IH; [|by eapply db_index_range|exact Hc]. lia.
Qed.

Lemma sim_copy s ch a0 src dst opts i replace raw w :
  let argv := a0 :: src :: dst :: opts in
  related s w -> cmd_name [a0] = B "COPY" -> copy_target lim opts (rDB s) false = Some (i, replace) ->
  (i, content dst) ≠ (rDB s, content src) ->
  unprefixed (rDB s) (content src) -> unprefixed i (content dst) -> movable s src -> client_ok argv ->
  wpt (handle cfg ch argv raw) (fun _ w' => simulated s argv w w') w.
Proof.
  cbv zeta. intros Hr Hn Hi Hne U1 U2 Hmv Hok. pose proof (rel_range _ _ Hr) as H1.
  pose proof (copy_target_range _ _ _ _ _ _ (Nat.le_refl _) H1 Hi) as H2.
  unfold wpt. rewrite handle_dispatch by (apply Hr || (rewrite Hn; vm_refl)). rewrite Hn. unfold dispatch. eval_tests.
  cbv iota. change (wpt (cmdCopy cfg (a0 :: src :: dst :: opts)) (fun _ w' => simulated s (a0 :: src :: dst :: opts) w w') w).
  unfold cmdCopy. apply wpt_get. rewrite <- (rel_db _ _ Hr). cbv iota.
  rewrite (copy_target_options _ _ _ _ _ _ (Nat.le_refl _) Hi). apply wpt_bind. eapply wpt_mono.
  { apply transferKey_ok; [eapply client_ok_arg; [exact Hok|by right; left]|
      eapply client_ok_arg; [exact Hok|by right; right; left]| |].
    - rewrite !content_loc. by apply loc_ne.
    - rewrite content_loc, (rel_lookup s w) by done. exact Hmv. }
  intros res w' [Hk Ht]. rewrite !content_loc in Ht. eapply wpt_mono;
    [exact (transfer_reply s w w' (rDB s) (content src) i (content dst) false replace res Hr H1 H2 U1 U2 Hk Ht)|].
  intros _ w2 (v & Hout & Hraw & Hv). rewrite <- (raw_nil v Hraw) in Hv. unfold simulated.
  destruct Hv as [(x & Hx & Hd & Hv & Hrel)|[(Hx & Hv & Hrel)|(_ & ? & _)]]; [| |done].
  - eexists _, v. split_and!; [rewrite Hv|exact Hrel|done]. by eapply RCopy.
  - exists s, v. split_and!; [rewrite Hv|exact Hrel|done]. by eapply RCopyNot.
Qed.

Lemma sim_step s c w :
  related s w -> ready s c -> wpt (handle cfg c.1.1 c.1.2 c.2) (fun _ w' => simulated s c.1.2 w w') w.
Proof.
  intros Hr (Hc & Hok & Hraw). destruct c as [[ch argv] raw]. cbn [fst snd] in *. destruct Hc as
    [a0 n -> Hn|rc Hd Hcc Hk Ho|a0 k n i -> Hn Hi Hne U1 U2 Hm|a0 src dst opts i replace -> Hn Hi Hne U1 U2 Hm].
  - by apply sim_select.
  - by eapply sim_data.
  - by eapply sim_move.
  - by eapply sim_copy.
Qed.

(** How such a command is handled. *)
Lemma ready_handled s c w :
  related s w -> ready s c ->
  (exists name, handle cfg c.1.1 c.1.2 c.2 w = dispatch cfg c.1.1 name c.1.2 c.2 w)
  ∨ handle cfg c.1.1 c.1.2 c.2 w = cmdSelect cfg c.1.2 w.
Proof.
  intros Hr (Hc & _ & _). destruct c as [[ch argv] raw]. cbn [fst snd] in *. pose proof (rel_live _ _ Hr) as Hl.
  destruct Hc as [a0 n -> Hn|rc Hd Hcc Hk Ho|a0 k n i -> Hn Hi Hne U1 U2 Hm|a0 src dst opts i replace -> Hn Hi Hne U1 U2 Hm].
  - right. unfold handle. change ((get ≫= ?f) w) with (f (wSess w) w). cbv beta. destruct Hl as (-> & _).
    change (command_name [a0; n]) with (cmd_name [a0; n]). by rewrite bool_decide_true.
  - left. apply decode_client in Hd as (a0 & -> & Hca%client_name); [|done]. eexists. apply handle_dispatch; [done|].
    apply (data_not _ _ Hca). unfold local_names. simpl. tauto.
  - left. eexists. apply handle_dispatch; [done|]. change (cmd_name [a0]) with (cmd_name [a0; k; n]). rewrite Hn. vm_refl.
  - left. eexists. apply handle_dispatch; [done|]. change (cmd_name [a0]) with (cmd_name (a0 :: src :: dst :: opts)). rewrite Hn. vm_refl.
Qed.

(** What [dispatch] and [cmdSelect] preserve is preserved by all of them. *)
Lemma ready_inv (I : world W C -> Prop) s c w w' :
  (forall ch name argv raw, inv I (dispatch cfg ch name argv raw)) -> (forall argv, inv I (cmdSelect cfg argv)) ->
  related s w -> ready s c -> handle cfg c.1.1 c.1.2 c.2 w = SOk w' tt -> I w -> I w'.
Proof.
  intros Hd Hs Hr Hc E Hw. destruct (ready_handled s c w Hr Hc) as [[name E2]|E2]; rewrite E2 in E.
  - exact (wp_done _ _ _ _ _ (Hd _ name _ _ w Hw) E).
  - exact (wp_done _ _ _ _ _ (Hs _ w Hw) E).
Qed.

(** ** Runs *)

(** Every command is ready when its turn comes, whatever the server answered so far. *)
Fixpoint ready_run (s : redis) (cmds : client_run) : Prop :=
  match cmds with
  | [] => True
  | c :: cmds => ready s c ∧ forall s' v, redis_step lim s c.1.2 s' v -> ready_run s' cmds
  end.

(** The commands of a client and their replies, on the server. *)
Inductive redis_run : redis -> client_run -> redis -> list value -> Prop :=
| RunNil s : redis_run s [] s []
| RunCons s c cmds s1 s2 v vs :
    redis_step lim s c.1.2 s1 v -> redis_run s1 cmds s2 vs -> redis_run s (c :: cmds) s2 (v :: vs).

Lemma sim_run cmds : forall s w,
  related s w -> ready_run s cmds ->
  exists w' s' out, handle_all cfg cmds w = SOk w' tt ∧ wOut w' = wOut w ++ out
    ∧ redis_run s cmds s' (map (set_raw []) out) ∧ related s' w'.
Proof.
  induction cmds as [|c cmds IH]; intros s w Hr Hrun.
  - exists w, s, []. split_and!; [done|by rewrite app_nil_r|constructor|done].
  - destruct Hrun as [Hc Hrun].
    destruct (sim_step s c w Hr Hc) as (w1 & [] & E1 & s1 & v & Hstep & Hr1 & O1).
    destruct (IH s1 w1 Hr1 (Hrun _ _ Hstep)) as (w2 & s2 & out & E2 & O2 & R2 & Hr2).
    exists w2, s2, (v :: out). destruct c as [[ch argv] raw]. cbn [handle_all fst snd] in *. split_and!.
    + unfold mbind, M_bind. by rewrite E1.
    + by rewrite O2, O1, <- app_assoc.
    + by econstructor.
    + done.
Qed.
End Refine.

(** ** Properties *)


(** Transfers between databases.  Moving or copying a key between two locations, in one slot or
    across slots, gives the destination the source's value and, for a move, removes the source; it
    does nothing else, and when the source is missing or the destination taken it does nothing at
    all (a move whose locations share a slot then answers an error when the source is missing). *)
Theorem transferKey_moves {W C : Type} `{!Network W C} `{!Server} (cfg : SessionConfig)
  `{!Cluster W C (rcfg cfg)} (Hcfg : cluster_cfg (rcfg cfg)) (src dst : slice) (del replace : bool)
  (w : world W C) (Hsrc : arg_ok src) (Hdst : arg_ok dst) (Hne : content src ≠ content dst)
  (Hd : forall v, view (wNet w) !! content src = Some v -> arg_ok (Some (dump v))) :
  exists w' res, transferKey cfg src dst del replace w = SOk w' res
    ∧ wSess w' = wSess w ∧ wOut w' = wOut w
    ∧ transferred (content src) (content dst) del replace (view (wNet w)) (view (wNet w')) res.
Proof.
  destruct (transferKey_ok cfg Hcfg src dst Hsrc Hdst Hne del replace w Hd) as (w' & res & E & [H1 H2] & Ht).
  by exists w', res.
Qed.

(** *** Witnesses: two databases on the cluster of two nodes *)

Definition refine_scfg : SessionConfig := mkSessionConfig demo_cfg [] 16 (B "test").
Definition refine_world (m : store) : world dcluster bytes :=
  mkWorld (newSession refine_scfg) demo_router (d_new m None) [].
Definition refine_cmds : client_run :=
  map (fun c => (mkChoices [1; 0]%nat [] 0 0, cmd c, []))
    [["SELECT"; "1"]; ["MSET"; "a"; "1"; "b"; "2"]; ["MOVE"; "a"; "2"]; ["MGET"; "a"; "b"]].

Lemma refine_related : related refine_scfg (mkRedis 0 (fun _ => ∅)) (refine_world ∅).
Proof. split; [done|done|vm_compute; split; discriminate || reflexivity|]. intros d k _ _. change (@lookup bytes bytes store _ k ∅ = @lookup bytes bytes store _ (loc d k) ∅). by rewrite !lookup_empty. Qed.

Lemma refine_client_ok argv :
  forallb (fun a => negb (content a ==b []) && (Z.of_nat (length (content a)) <=? 100)) argv
  && (Z.of_nat (length argv) <=? 1000000) = true -> client_ok argv.
Proof.
  intros [H1 H2]%andb_true_iff. split; [lia|]. apply List.Forall_forall. intros a Ha.
  rewrite forallb_forall in H1. apply H1 in Ha. apply andb_true_iff in Ha as [A1 A2].
  apply negb_true_iff, bool_decide_eq_false in A1. split; [done|]. lia.
Qed.

Lemma refine_completes keys :
  length (GroupBySlot keys (SlotOf (rcfg refine_scfg))) = 2%nat -> completes refine_scfg [1; 0]%nat keys.
Proof. unfold completes. intros ->. apply perm_swap. Qed.

Lemma step_select `{!Server} lim s a0 n i s' v :
  redis_step lim s [a0; n] s' v -> cmd_name [a0] = B "SELECT" -> db_index lim (content n) = Some i ->
  s' = mkRedis i (rData s).
Proof.
  intros Hs Hn Hi. inversion Hs as [? ? ? E ? ?|? ? ? E ? ?|c e Hd Hc|? ? ? ? ? E|? ? ? ? E|? ? ? ? ? E|? ? ? ? ? ? ? E|? ? ? ? ? ? E];
    try discriminate E; simplify_eq; try done.
  exfalso. apply decode_client in Hd as (a & E & Hca); [|done]. injection E as -> _.
  apply client_name in Hca. by rewrite Hn in Hca.
Qed.

Lemma step_data `{!Server} lim s argv c s' v :
  redis_step lim s argv s' v -> decode argv = Some c -> client_cmd c = true ->
  exists e, s' = mkRedis (rDB s) (upd (rDB s) (run e c (rData s (rDB s))).1 (rData s)).
Proof.
  intros Hs Hd Hc. pose proof Hd as Hd'. apply decode_client in Hd' as (a0 & -> & Hca%client_name); [|done].
  rewrite <- (cmd_name_argv_of a0 c) in Hca.
  inversion Hs as [? ? ? ? E|? ? ? ? E|c' e Hd2 Hc2|? ? ? ? ? ? E|? ? ? ? ? E|? ? ? ? ? ? E|? ? ? ? ? ? ? ? E|? ? ? ? ? ? ? E];
    try (by rewrite E in Hca).
  rewrite Hd in Hd2. injection Hd2 as <-. by exists e.
Qed.

Lemma step_db `{!Server} lim s argv s' v : redis_step lim s argv s' v -> cmd_name argv ≠ B "SELECT" -> rDB s' = rDB s.
Proof. by destruct 1. Qed.

Lemma refine_ready : ready_run refine_scfg (mkRedis 0 (fun _ => ∅)) refine_cmds.
Proof.
  assert (forall argv s, ready_cmd refine_scfg s (mkChoices [1; 0]%nat [] 0 0) argv ->
    forallb (fun a => negb (content a ==b []) && (Z.of_nat (length (content a)) <=? 100)) argv
    && (Z.of_nat (length argv) <=? 1000000) = true -> ready refine_scfg s (mkChoices [1; 0]%nat [] 0 0, argv, [])) as Hrdy
    by (intros argv s H1 H2; split; [done|]; split; [by apply refine_client_ok|by left]).
  cbn [refine_cmds map ready_run fst snd]. split; [apply Hrdy; [by eapply ReadySelect|vm_refl]|].
  intros s1 v1 Hs1. apply (step_select _ _ _ _ 1) in Hs1 as ->; [|vm_refl..].
  split.
  { apply Hrdy; [|vm_refl]. eapply ReadyData; [vm_refl|done|by repeat constructor|]. apply refine_completes. vm_refl. }
  intros s2 v2 Hs2. eapply step_data in Hs2 as [e ->]; [|vm_refl|done]. cbn [rDB rData].
  split.
  { apply Hrdy; [|vm_refl]. eapply (ReadyMove _ _ _ _ _ _ _ 2); [done|vm_refl|vm_refl|done|done|done|].
    intros v Hv. cbn [rDB rData] in Hv. rewrite upd_eq in Hv. vm_compute in Hv. injection Hv as <-.
    eexists. split; [done|]. vm_compute. discriminate. }
  intros s3 v3 Hs3. apply step_db in Hs3; [|by vm_compute]. cbn [rDB] in Hs3. split; [|done].
  apply Hrdy; [|vm_refl]. eapply ReadyData; [vm_refl|done| |rewrite Hs3; apply refine_completes; vm_refl].
  rewrite Hs3. by repeat constructor.
Qed.


(** What the client of that run reads, and the keys in the cluster. *)
Example refine_run :
  match handle_all refine_scfg refine_cmds (refine_world ∅) with
  | SOk w _ => Some (wOut w, map (fun k => dView (wNet w) !! B k) ["db1:a"; "db1:b"; "db2:a"; "a"])
  | _ => None
  end = Some ([ok_reply; ok_reply; Integer 1; Array [NullBulk; bulk "2"]], [None; BS "2"; BS "1"; None]).
Proof. vm_refl. Qed.

Lemma transferKey_moves_witness :
  exists w' res,
    transferKey refine_scfg (BS "db1:a") (BS "a") true false (refine_world {[B "db1:a" := B "1"]}) = SOk w' res
    ∧ transferred (B "db1:a") (B "a") true false {[B "db1:a" := B "1"]} (view (wNet w')) res.
Proof.
  destruct (transferKey_moves refine_scfg demo_cluster_cfg (BS "db1:a") (BS "a") true false
    (refine_world {[B "db1:a" := B "1"]})) as (w' & res & E & _ & _ & Ht);
    [apply arg_ok_word; vm_compute; discriminate|apply arg_ok_word; vm_compute; discriminate|discriminate| |].
  - intros v Hv. change (@lookup bytes bytes store _ (B "db1:a") {[B "db1:a" := B "1"]} = Some v) in Hv.
    rewrite lookup_singleton_eq in Hv. injection Hv as <-. eexists. split; [reflexivity|]. vm_compute. discriminate.
  - exists w', res. split; [exact E|exact Ht].
Defined.
