(* ===== verification/FlushDB.v ===== *)
(** * FLUSHDB of a virtual database

    In a database above 0 FLUSHDB scans every known master for the prefix of the database and deletes
    what it finds.  [Scanning] adds to [Cluster] what the code relies on: the documented guarantee of
    SCAN (a full iteration returns every key that is there throughout) and nodes that accept a DEL of
    keys they hold.  The theorem shows that FLUSHDB then ends and removes exactly the database.

    Nodes of a Redis cluster reject a DEL whose keys are in several slots; the reply of that DEL is not
    looked at ([flushdb_ignores_errors]). *)

From Stdlib Require Import ZArith Lia Strings.Byte Permutation.
From stdpp Require Import base list strings numbers option sets gmap fin_maps.
From S2P Require Import Prelude Resp RespTheory Slot Command VirtualDB Fanout FanoutTheory Topology Router Cluster Databases.
From S2P Require Import PubSub Session SessionTheory SessionProps Refinement.

Definition scan_argv (cur : bytes) (n : Z) : list slice :=
  [BS "SCAN"; Some cur; BS "MATCH"; Some (db_pattern n); BS "COUNT"; BS "256"].
Definition del_argv (ks : list bytes) : list slice := BS "DEL" :: map Some ks.
Definition scan_reply (cur : bytes) (ks : list bytes) : value :=
  Array [BulkString (Some cur); Array (map (fun k => BulkString (Some k)) ks)].

(** [home w k]: the node that holds key [k].  [todo w c cur k]: the iteration on [c] at cursor [cur] has
    still to return [k].  [left w c cur]: how many more calls it can take.  [fits]: the key space is
    such that its keys can be listed and sent. *)
Class Scanning (W C : Type) `{!Network W C} `{!Server} (cfg : RouterConfig) `{!Cluster W C cfg} := {
  home : W -> bytes -> bytes;
  todo : W -> C -> bytes -> bytes -> Prop;
  left : W -> C -> bytes -> nat;
  max_left : nat;
  fits : W -> Prop;
  calm_step (w w' : W) : Prop :=
    (forall k, home w' k = home w k) ∧ (forall argv, asks w' argv = asks w argv) ∧ (fits w -> fits w');
  sc_get w a w' c : net_get w a = (w', inr c) -> calm_step w w';
  sc_put w a c : calm_step w (net_put w a c);
  sc_start w c k : is_Some (view w !! k) -> home w k = node c -> todo w c (B "0") k;
  sc_left w c : (left w c (B "0") <= max_left)%nat;
  sc_scan w c cur n : 0 < n -> arg_ok (Some cur) -> fits w -> txn w c = None ->
    exists w' r cur' ks, net_cmd w c (scan_argv cur n) = (w', inr r) ∧ set_raw [] r = scan_reply cur' ks
      ∧ view w' = view w ∧ calm_step w w' ∧ txn w' c = None ∧ cur' ≠ [] ∧ arg_ok (Some cur') ∧ sendable (del_argv ks)
      ∧ Forall (fun k => has_prefix k (DBPrefix n) = true ∧ home w k = node c) ks
      ∧ (forall k, todo w c cur k -> has_prefix k (DBPrefix n) = true ->
           k ∈ ks ∨ (cur' ≠ B "0" ∧ todo w' c cur' k))
      ∧ (cur' ≠ B "0" -> (left w' c cur' < left w c cur)%nat);
  sc_del w c ks : ks ≠ [] -> sendable (del_argv ks) -> fits w -> Forall (fun k => home w k = node c) ks ->
    asks w (del_argv ks) = None -> txn w c = None ->
    exists w' r, net_cmd w c (del_argv ks) = (w', inr r) ∧ view w' = del_ref (map Some ks) (view w)
      ∧ calm_step w w' ∧ txn w' c = None ∧ (forall cur k, todo w c cur k -> k ∉ ks -> todo w' c cur k)
      ∧ (forall cur, (left w' c cur <= left w c cur)%nat) }.

(** Keys with the prefix may be gone, all others are as before. *)
Definition cleared (p : bytes) (m m' : store) : Prop :=
  forall k, m' !! k = m !! k ∨ (has_prefix k p = true ∧ m' !! k = None).

Lemma cleared_refl p m : cleared p m m.
Proof. intros k. by left. Qed.
Lemma cleared_trans p m1 m2 m3 : cleared p m1 m2 -> cleared p m2 m3 -> cleared p m1 m3.
Proof. intros H1 H2 k. destruct (H1 k) as [E1|[P1 E1]], (H2 k) as [E2|[P2 E2]]; rewrite ?E2, ?E1; auto. Qed.
Lemma cleared_gone p m m' k : cleared p m m' -> m !! k = None -> m' !! k = None.
Proof. intros H E. destruct (H k) as [->|[_ ->]]; done. Qed.

Lemma elem_of_key_set_Some ks k : k ∈ key_set (map Some ks) <-> k ∈ ks.
Proof.
  rewrite elem_of_key_set. change (map Some ks) with (Some <$> ks). setoid_rewrite list_elem_of_fmap. split.
  - by intros (a & (b & -> & Hb) & <-).
  - intros Hk. exists (Some k). split; [by exists k|done].
Qed.

Lemma cleared_del p m ks : Forall (fun k => has_prefix k p = true) ks -> cleared p m (del_ref (map Some ks) m).
Proof.
  intros Hf k. rewrite del_ref_lookup. case_bool_decide as E; [right|by left].
  rewrite elem_of_key_set_Some in E. rewrite list.Forall_forall in Hf. auto.
Qed.

Section Flush.
Context {W C : Type} `{!Network W C} `{!Server} (cfg : SessionConfig) `{!Cluster W C (rcfg cfg)}
  `{!Scanning W C (rcfg cfg)}.
Context (n : Z) (Hn : 0 < n).
Local Abbreviation p := (DBPrefix n).
Implicit Types (w : world W C).

Lemma calm_trans (w1 w2 w3 : W) : calm_step w1 w2 -> calm_step w2 w3 -> calm_step w1 w3.
Proof. intros (A1 & A2 & A3) (B1 & B2 & B3). split_and!; intros; [congruence|congruence|auto]. Qed.

(** From [w] to [w'] only keys of the database were deleted. *)
Definition flushes w w' : Prop :=
  keeps w w' ∧ calm_step (wNet w) (wNet w') ∧ cleared p (view (wNet w)) (view (wNet w')).

Lemma flushes_trans w1 w2 w3 : flushes w1 w2 -> flushes w2 w3 -> flushes w1 w3.
Proof.
  intros (A1 & A2 & A3) (B1 & B2 & B3).
  split_and!; [by eapply keeps_trans|by eapply calm_trans|by eapply cleared_trans].
Qed.

(** Listable, and no slot is being migrated. *)
Definition settled (x : W) : Prop := fits x ∧ forall argv, asks x argv = None.

Lemma settled_step (x y : W) : calm_step x y -> settled x -> settled y.
Proof. intros (_ & Ha & Hf) [H1 H2]. split; [auto|]. intros argv. by rewrite Ha. Qed.

(** The DEL of what a SCAN returned. *)
Lemma del_scanned c ks w :
  settled (wNet w) -> txn (wNet w) c = None -> sendable (del_argv ks) ->
  Forall (fun k => has_prefix k p = true ∧ home (wNet w) k = node c) ks ->
  wpt (match map Some ks with [] => mret (inr zeroValue) | l => conn_do c (BS "DEL" :: l) end)
    (fun res w' => (exists v, res = inr v) ∧ flushes w w' ∧ txn (wNet w') c = None ∧ (forall k, k ∈ ks -> view (wNet w') !! k = None)
       ∧ (forall cur k, todo (wNet w) c cur k -> k ∉ ks -> todo (wNet w') c cur k)
       ∧ (forall cur, (left (wNet w') c cur <= left (wNet w) c cur)%nat)) w.
Proof.
  intros [Hfit Hask] Htx Hs Hf. destruct ks as [|k0 ks].
  - apply wpt_ret. split_and!; [by eexists| |done|by intros k ?%elem_of_nil|done|done]. split_and!; [done| |apply cleared_refl].
    split_and!; done.
  - destruct (sc_del (wNet w) c (k0 :: ks)) as (x & r & E & Hv & Hc & Hq & Ht & Hl); try done.
    { eapply list.Forall_impl; [exact Hf|]. by intros ? []. }
    exists (mkWorld (wSess w) (wRouter w) x (wOut w)), (inr r). split.
    { change (conn_do c (del_argv (k0 :: ks)) w = SOk (mkWorld (wSess w) (wRouter w) x (wOut w)) (inr r)).
      unfold conn_do, on_net. by rewrite E. }
    split_and!; [by exists r| |done| |done|done].
    + split_and!; [done|done|]. cbn [wNet]. rewrite Hv. apply cleared_del.
      eapply list.Forall_impl; [exact Hf|]. by intros ? [].
    + intros k Hk. cbn [wNet]. rewrite Hv, del_ref_lookup, bool_decide_true; [done|]. by apply elem_of_key_set_Some.
Qed.

Lemma scan_keys_reply ks :
  Forall (fun k => has_prefix k p = true) ks ->
  scan_keys (Array (map (fun k => BulkString (Some k)) ks)) = map Some ks.
Proof.
  intros Hf. unfold scan_keys, Array. cbn [vType vValues]. rewrite bool_decide_true by done. rewrite map_map.
  induction Hf as [|k ks Hk _ IH]; [done|]. cbn [map BulkString vStr].
  rewrite filter_cons, decide_True; [by f_equal|]. intros E. cbn in E. subst k.
  rewrite DBPrefix_pos in Hk by done. done.
Qed.

Lemma scan_loop_ok c : forall fuel cur w,
  settled (wNet w) -> txn (wNet w) c = None -> arg_ok (Some cur) -> (left (wNet w) c cur < fuel)%nat ->
  wpt (scan_loop fuel c (db_pattern n) (Some cur))
    (fun res w' => res = ScanDone ∧ flushes w w'
       ∧ forall k, todo (wNet w) c cur k -> has_prefix k p = true -> view (wNet w') !! k = None) w.
Proof.
  induction fuel as [|fuel IH]; intros cur w Hst Htx Hcur Hl; [lia|]. cbn [scan_loop]. apply wpt_bind.
  destruct (sc_scan (wNet w) c cur n Hn Hcur (proj1 Hst) Htx)
    as (x & r & cur' & ks & E & Hr & Hv & Hc & Hq & Hne & Hok & Hs & Hf & Ht & Hlt).
  exists (mkWorld (wSess w) (wRouter w) x (wOut w)), (inr r). split.
  { unfold conn_do, on_net. change [BS "SCAN"; Some cur; BS "MATCH"; Some (db_pattern n); BS "COUNT"; BS "256"]
      with (scan_argv cur n). by rewrite E. }
  destruct r as [t st i vs rw nl]. injection Hr as -> -> -> -> ->. cbv beta iota.
  change (IsError (mkValue _ _ _ _ _ _)) with false. cbv iota. cbn [vType vValues]. eval_tests. cbv iota.
  change (append_nil (content (vStr (mkValue _ (Some cur') _ _ _ _)))) with (append_nil cur').
  change (scan_keys _) with (scan_keys (Array (map (fun k => BulkString (Some k)) ks))).
  assert (append_nil cur' = Some cur') as -> by (by destruct cur'). cbv zeta.
  rewrite scan_keys_reply by (eapply list.Forall_impl; [exact Hf|]; by intros ? []).
  set (w1 := mkWorld (wSess w) (wRouter w) x (wOut w)).
  assert (flushes w w1) as Hw1 by (split_and!; [done|done|]; unfold w1; cbn [wNet]; rewrite Hv; apply cleared_refl).
  apply wpt_bind. eapply wpt_mono.
  { apply (del_scanned c ks w1); [by eapply settled_step|done|done|].
    eapply list.Forall_impl; [exact Hf|]. intros k [H1 H2]. split; [done|]. destruct Hc as (-> & _). done. }
  intros res w2 ((v & ->) & Hw2 & Hq2 & Hgone & Htodo & Hleft). cbv beta iota.
  change (content (Some cur')) with cur'. case_bool_decide as Ez.
  - apply wpt_ret. split_and!; [done|by eapply flushes_trans|]. intros k Hk Hp.
    destruct (Ht k Hk Hp) as [Hin2|[? _]]; [by apply Hgone|done].
  - eapply wpt_mono.
    { apply IH; [|done|done|].
      - eapply settled_step; [apply Hw2|]. by eapply settled_step.
      - specialize (Hlt Ez). specialize (Hleft cur'). cbn [wNet w1] in Hleft. lia. }
    intros res w3 (-> & Hw3 & Hdone). split_and!; [done|exact (flushes_trans _ _ _ Hw1 (flushes_trans _ _ _ Hw2 Hw3))|].
    intros k Hk Hp. destruct (decide (k ∈ ks)) as [Hks|Hks].
    + eapply cleared_gone; [apply Hw3|]. by apply Hgone.
    + destruct (Ht k Hk Hp) as [?|[_ Ht']]; [done|]. apply Hdone; [|done]. by apply Htodo.
Qed.

(** *** The whole command *)

Lemma scanDeleteOn_ok fuel addr w :
  settled (wNet w) -> (max_left < fuel)%nat ->
  wpt (scanDeleteOn cfg fuel addr (db_pattern n))
    (fun res w' => res = None ∧ flushes w w'
       ∧ forall k, has_prefix k p = true -> home (wNet w) k = rewrite_addr (rcfg cfg) addr ->
           view (wNet w') !! k = None) w.
Proof.
  intros Hst Hfuel. unfold scanDeleteOn. apply wpt_bind. unfold checkout_addr, CheckoutAddr.
  destruct (poolFor (rcfg cfg) (wRouter w) addr false) as [r a] eqn:Hp.
  assert (a = rewrite_addr (rcfg cfg) addr) as -> by (unfold poolFor in Hp; destruct (_ !! _); by simplify_eq).
  destruct (cl_get (wNet w) (rewrite_addr (rcfg cfg) addr)) as (x & c & Hg & Hnode & _ & Htx & (Hv & _)).
  pose proof (sc_get _ _ _ _ Hg) as Hc. set (w1 := mkWorld (wSess w) r x (wOut w)).
  exists w1, (inr (c, rewrite_addr (rcfg cfg) addr)). split; [unfold on_net; by rewrite Hp, Hg|].
  assert (flushes w w1) as Hw1 by (split_and!; [done|done|]; unfold w1; cbn [wNet]; rewrite Hv; apply cleared_refl).
  cbv beta iota. apply wpt_bind. eapply wpt_mono.
  { apply (scan_loop_ok c fuel (B "0") w1); [by eapply settled_step|done|by apply (arg_ok_word "0")|].
    pose proof (sc_left (wNet w1) c). lia. }
  intros res w2 (-> & Hw2 & Hdone). cbv iota. apply wpt_bind.
  set (w3 := mkWorld (wSess w2) (wRouter w2) (net_put (wNet w2) (rewrite_addr (rcfg cfg) addr) c) (wOut w2)).
  exists w3, tt. split; [done|]. apply wpt_ret.
  destruct (cl_put (wNet w2) (rewrite_addr (rcfg cfg) addr) c) as (Hv3 & _).
  assert (flushes w2 w3) as Hw3 by (split_and!; [done|apply sc_put|]; unfold w3; cbn [wNet]; rewrite Hv3; apply cleared_refl).
  split_and!; [done|exact (flushes_trans _ _ _ Hw1 (flushes_trans _ _ _ Hw2 Hw3))|].
  intros k Hk Hh. unfold w3. cbn [wNet]. rewrite Hv3.
  destruct (view (wNet w1) !! k) as [v|] eqn:Ek; [|by eapply cleared_gone; [apply Hw2|]].
  apply Hdone; [|done]. apply sc_start; [by eexists|]. unfold w1. cbn [wNet]. destruct Hc as (-> & _). congruence.
Qed.

Lemma scan_all_ok fuel addrs : forall w,
  settled (wNet w) -> (max_left < fuel)%nat ->
  wpt (scan_all cfg fuel addrs (db_pattern n))
    (fun _ w' => wSess w' = wSess w ∧ wOut w' = wOut w ++ [ok_reply]
       ∧ cleared p (view (wNet w)) (view (wNet w'))
       ∧ forall k a, has_prefix k p = true -> a ∈ addrs -> home (wNet w) k = rewrite_addr (rcfg cfg) a ->
           view (wNet w') !! k = None) w.
Proof.
  induction addrs as [|a addrs IH]; intros w Hst Hfuel; cbn [scan_all].
  - apply wpt_reply. split_and!; [done|done|apply cleared_refl|by intros k a _ ?%elem_of_nil].
  - apply wpt_bind. eapply wpt_mono; [by apply scanDeleteOn_ok|].
    intros res w1 (-> & (Hk1 & Hc1 & Hcl1) & Hgone). cbv iota.
    eapply wpt_mono; [apply IH; [by eapply settled_step|done]|].
    intros _ w2 (Hs2 & Ho2 & Hcl2 & Hg2). destruct Hk1 as [Hk1 Hk2]. split_and!; [congruence|congruence| |].
    + by eapply cleared_trans.
    + intros k b Hp [->|Hb]%elem_of_cons Hh; [eapply cleared_gone; [exact Hcl2|]; by apply Hgone|].
      eapply Hg2; [done|exact Hb|]. destruct Hc1 as (-> & _). done.
Qed.

(** Every key of the database is on a master the router knows. *)
Definition reachable_keys w : Prop :=
  forall k, is_Some (view (wNet w) !! k) -> has_prefix k p = true ->
    exists a, a ∈ MasterAddrs (rcfg cfg) (wRouter w) ∧ home (wNet w) k = rewrite_addr (rcfg cfg) a.

Lemma flushdb_ok ch a0 raw w :
  live (wSess w) -> db (wSess w) = n -> cmd_name [a0] = B "FLUSHDB" -> settled (wNet w) -> reachable_keys w ->
  (max_left < scanFuel ch)%nat ->
  wpt (handle cfg ch [a0] raw) (fun _ w' => wSess w' = wSess w ∧ wOut w' = wOut w ++ [ok_reply]
    ∧ forall k, view (wNet w') !! k = if has_prefix k p then None else view (wNet w) !! k) w.
Proof.
  intros Hl Hdb Hname Hst Hreach Hfuel. unfold wpt. rewrite handle_dispatch by (done || (rewrite Hname; vm_refl)).
  rewrite Hname. unfold dispatch. eval_tests. cbv iota. unfold cmdFlushDB.
  change ((get ≫= ?f) w) with (f (wSess w) w). cbv beta. rewrite Hdb, (proj2 (Z.eqb_neq n 0)) by lia.
  change ((get_router ≫= ?f) w) with (f (wRouter w) w). cbv beta.
  destruct (scan_all_ok (scanFuel ch) (MasterAddrs (rcfg cfg) (wRouter w)) w Hst Hfuel)
    as (w' & [] & E & Hs & Ho & Hcl & Hg). exists w', tt. split; [done|]. split_and!; [done|done|].
  intros k. destruct (has_prefix k p) eqn:Hp.
  - destruct (Hcl k) as [Ek|[_ Ek]]; [|done]. destruct (view (wNet w) !! k) as [v|] eqn:Ev; [|done].
    destruct (Hreach k) as (a & Ha & Hh); [by eexists|done|]. by eapply Hg.
  - destruct (Hcl k) as [Ek|[Hc _]]; [done|congruence].
Qed.
End Flush.

(** Emptying the prefix empties the database. *)
Lemma flushed_stores {W C : Type} `{!Network W C} `{!Server} (cfg : SessionConfig) `{!Cluster W C (rcfg cfg)}
  (Hlim : db_limit cfg <= 2^63) (s : redis) (w : world W C) (m : store) :
  related cfg s w -> 0 < db (wSess w) ->
  (forall k, m !! k = if has_prefix k (DBPrefix (db (wSess w))) then None else view (wNet w) !! k) ->
  stores (db_limit cfg) (upd (rDB s) ∅ (rData s)) m.
Proof.
  intros [_ Hdb Hrng Hst] Hn Hm d k Hd Hk. rewrite Hm, <- Hdb in *. unfold upd. case_if; bool_simp.
  - subst d. unfold loc. by rewrite has_prefix_app, lookup_empty.
  - destruct (has_prefix (loc d k) (DBPrefix (rDB s))) eqn:Ep; [|by apply Hst].
    apply has_prefix_spec in Ep as [r Er]. change (DBPrefix (rDB s) ++ r) with (loc (rDB s) r) in Er.
    apply loc_inj in Er as [? _]; [done|lia|lia|done|]. intros ?. lia.
Qed.

(** ** Properties *)


(** ** The cluster of [Cluster] scans in one step *)

Definition d_fits (w : dcluster) : Prop :=
  Z.of_nat (size (dom (dView w))) <= 999999
  ∧ forall k, is_Some (dView w !! k) -> Z.of_nat (length k) <= 512 * 1024 * 1024.

Lemma d_fits_del w w' ks : dView w' = del_ref ks (dView w) -> d_fits w -> d_fits w'.
Proof.
  intros E [H1 H2]. split.
  - rewrite E, dom_del_ref. etransitivity; [|exact H1]. apply inj_le, subseteq_size. set_solver.
  - intros k Hk. apply H2. rewrite E, del_ref_lookup in Hk. case_bool_decide; [by destruct Hk|done].
Qed.

Lemma sendable_scan cur n : arg_ok (Some cur) -> sendable (scan_argv cur n).
Proof.
  intros Hc. apply sendable_cmd; [simpl; lia|by apply arg_ok_word|].
  repeat first [apply list.Forall_nil; exact I | apply list.Forall_cons; split; [first [done|by apply arg_ok_word|idtac]|]].
  eexists. split; [done|]. unfold db_pattern. rewrite length_app. pose proof (length_DBPrefix n).
  change (length (B "*")) with 1%nat. lia.
Qed.

Lemma d_scan_argv w c cur n :
  d_scan w c (scan_argv cur n)
  = filter (fun k => has_prefix k (DBPrefix n) = true ∧ d_home k = c) (elements (dom (dView w))).
Proof.
  unfold d_scan. change (arg (scan_argv cur n) 3) with (DBPrefix n ++ B "*").
  rewrite length_app. change (length (B "*")) with 1%nat. rewrite Nat.add_sub, take_app_length. done.
Qed.

Lemma elem_of_d_scan w c cur n k :
  k ∈ d_scan w c (scan_argv cur n) <-> (has_prefix k (DBPrefix n) = true ∧ d_home k = c) ∧ is_Some (dView w !! k).
Proof. by rewrite d_scan_argv, list_elem_of_filter, elem_of_elements, elem_of_dom. Qed.

Lemma sendable_d_scan w c cur n : d_fits w -> sendable (del_argv (d_scan w c (scan_argv cur n))).
Proof.
  intros [H1 H2]. split.
  - cbn [del_argv length]. rewrite length_map, d_scan_argv.
    pose proof (length_filter (fun k => has_prefix k (DBPrefix n) = true ∧ d_home k = c) (elements (dom (dView w)))).
    change (size (dom (dView w))) with (length (elements (dom (dView w)))) in H1. lia.
  - constructor; [by apply arg_ok_word|]. apply list.Forall_fmap, list.Forall_forall.
    intros k [_ Hk]%elem_of_d_scan. exists k. split; [done|]. by apply H2.
Qed.

#[global, refine] Instance demo_scanning : Scanning dcluster bytes demo_cfg := {
  home _ := d_home;
  todo w c _ k := is_Some (dView w !! k) ∧ d_home k = c;
  left _ _ _ := 0%nat;
  max_left := 0%nat;
  fits := d_fits }.
Proof.
  - intros w a w' c [= <- <-]. done.
  - done.
  - done.
  - done.
  - intros w c cur n Hn Hc Hf Htx. unfold net_cmd. rewrite d_do by (by apply sendable_scan).
    change (dTxn w !! c = None) in Htx. unfold d_serve, d_single. rewrite Htx. change (decode (scan_argv cur n)) with (@None rcmd).
    change (cmd_name (scan_argv cur n)) with (B "SCAN"). rewrite bool_decide_true by done.
    eexists _, _, (B "0"), (d_scan w c (scan_argv cur n)). split_and!; try done.
    + by exists (B "0").
    + by apply sendable_d_scan.
    + apply list.Forall_forall. intros k [? _]%elem_of_d_scan. done.
    + intros k [Hk1 Hk2] Hp. left. apply elem_of_d_scan. done.
  - intros w c ks Hne Hs Hf Hh Ha Htx. unfold net_cmd. rewrite d_do by done.
    assert (decode (del_argv ks) = Some (CDel (map Some ks))) as Hd by (by destruct ks).
    change (dTxn w !! c = None) in Htx. change (d_asks w (del_argv ks) = None) in Ha.
    unfold d_serve, d_single. rewrite Htx, Hd, Ha. cbn [run].
    assert (d_place (d_slot (CDel (map Some ks))) = c) as ->.
    { destruct ks as [|k ks]; [done|]. apply list.Forall_cons in Hh as [Hh _]. exact Hh. }
    rewrite bool_decide_true by done. eexists _, _. split_and!; try done.
    + by eapply d_fits_del.
    + intros cur k [Hk1 Hk2] Hni. split; [|done]. cbn [dView]. rewrite del_ref_lookup, bool_decide_false; [done|].
      by rewrite elem_of_key_set_Some.
Defined.

Definition flush_store : store := {[B "db1:a" := B "1"; B "db1:b" := B "2"; B "db2:a" := B "3"; B "c" := B "4"]}.
Definition flush_world : world dcluster bytes :=
  mkWorld (set_db 1 (newSession refine_scfg)) demo_router (d_new flush_store None) [].

Lemma flush_reachable : reachable_keys refine_scfg 1 flush_world.
Proof.
  intros k _ _. change (exists a, a ∈ MasterAddrs demo_cfg demo_router ∧ d_home k = a).
  assert (MasterAddrs demo_cfg demo_router = [B "s1:1"; B "s2:2"]) as -> by vm_refl.
  unfold d_home, d_place. case_if; eexists; (split; [|reflexivity]); [by left|by right; left].
Qed.

Lemma flush_settled : settled refine_scfg (wNet flush_world).
Proof.
  split.
  - split; [vm_compute; discriminate|]. intros k Hk. change (is_Some (flush_store !! k)) in Hk. unfold flush_store in Hk.
    repeat (apply lookup_insert_is_Some in Hk as [<-|[_ Hk]]; [vm_compute; discriminate|]).
    apply lookup_singleton_is_Some in Hk as <-. vm_compute. discriminate.
  - intros argv. change (d_asks (d_new flush_store None) argv = None).
    unfold d_asks. by destruct (decode argv).
Qed.


(** A node that rejects the DEL, as a Redis cluster node does for keys of several slots: nothing is
    deleted, and FLUSHDB answers OK. *)
Example flushdb_ignores_errors :
  match handle open_scfg (mkChoices [] [] 0 5) [BS "FLUSHDB"] []
          (mkWorld (set_db 1 (newSession open_scfg)) demo_router
             (mkScript [inr (scan_reply (B "0") [B "db1:a"; B "db1:b"]);
                        inr (RError (B "CROSSSLOT Keys in request don't hash to the same slot"));
                        inr (scan_reply (B "0") [])] [] []) []) with
  | SOk w _ => wOut w
  | _ => []
  end = [ok_reply].
Proof. vm_refl. Qed.
