(* ===== verification/Transactions.v ===== *)
(** * MULTI and EXEC in front of the cluster

    A transaction is queued in the session ([Session.enqueue]) and replayed by EXEC as one block on one
    connection.  [Transactional] says what a node does with such a block: it queues the commands it
    serves, refuses the others, and EXEC runs the whole queue at once, or nothing when a command was
    refused.  [exec_all_or_nothing] composes the two: a transaction of SELECTs and data commands
    whose keys are in one slot is executed as a whole by the server with databases of
    [Databases.redis], or answered by an error and not executed at all. *)

From Stdlib Require Import ZArith Lia Strings.Byte Permutation.
From stdpp Require Import base list strings numbers option sets gmap fin_maps.
From S2P Require Import Prelude Resp RespTheory Slot Command VirtualDB Fanout FanoutTheory Topology Router Cluster Databases.
From S2P Require Import PubSub Session SessionTheory SessionProps Refinement.

(** ** Transactions on a node *)

(** [serves cfg w c argv s]: the node behind [c] owns slot [s] and has the keys of [argv]. *)
Definition serves {W C : Type} `{!Network W C} `{!Server} (cfg : RouterConfig) `{!Cluster W C cfg}
  (w : W) (c : C) (argv : list slice) (s : Z) : Prop :=
  asks w argv = None ∧ node c = rewrite_addr cfg (place w s).

(** [dirty w c]: a command of the transaction on [c] was refused. *)
Class Transactional (W C : Type) `{!Network W C} `{!Server} (cfg : RouterConfig) `{!Cluster W C cfg} := {
  dirty : W -> C -> bool;
  tx_multi w c : txn w c = None ->
    exists w' r, net_cmd w c [BS "MULTI"] = (w', inr r) ∧ same w w'
      ∧ txn w' c = Some [] ∧ dirty w' c = false ∧ asking w' c = false;
  tx_queue w c q argv rc s :
    txn w c = Some q -> asking w c = false ->
    sendable argv -> decode argv = Some rc -> in_slot (SlotOf cfg) s (cmd_keys rc) -> serves cfg w c argv s ->
    exists w' r, net_cmd w c argv = (w', inr r) ∧ same w w'
      ∧ txn w' c = Some (q ++ [rc]) ∧ dirty w' c = dirty w c ∧ asking w' c = false;
  tx_refuse w c q argv rc s :
    txn w c = Some q -> asking w c = false ->
    sendable argv -> decode argv = Some rc -> in_slot (SlotOf cfg) s (cmd_keys rc) -> ~ serves cfg w c argv s ->
    exists w' r, net_cmd w c argv = (w', inr r) ∧ same w w'
      ∧ txn w' c = Some q ∧ dirty w' c = true ∧ asking w' c = false;
  tx_exec w c q : txn w c = Some q -> dirty w c = false ->
    exists w' r es, net_cmd w c [BS "EXEC"] = (w', inr r)
      ∧ (view w', set_raw [] r) = ((run_seq es q (view w)).1, Array (run_seq es q (view w)).2);
  tx_abort w c q : txn w c = Some q -> dirty w c = true ->
    exists w' r, net_cmd w c [BS "EXEC"] = (w', inr r) ∧ same w w' ∧ exists msg, set_raw [] r = RError msg }.

(** ** The specification *)

(** Commands of the server one after the other, with nothing in between. *)
Inductive redis_txn `{!Server} (lim : Z) : redis -> list (list slice) -> redis -> list value -> Prop :=
| TxnNil s : redis_txn lim s [] s []
| TxnCons s argv cmds s1 s2 v vs :
    redis_step lim s argv s1 v -> redis_txn lim s1 cmds s2 vs -> redis_txn lim s (argv :: cmds) s2 (v :: vs).

Section Transactions.
Context {W C : Type} `{!Network W C} `{!Server} (cfg : SessionConfig) `{!Cluster W C (rcfg cfg)}.
Context `{!Transactional W C (rcfg cfg)} (Hcfg : cluster_cfg (rcfg cfg)).
Local Abbreviation slotFn := (SlotOf (rcfg cfg)).
Local Abbreviation lim := (db_limit cfg).
Context (Hlim : lim <= 2^63).
Implicit Types (w : world W C).

(** SELECTs and data commands, sent while database [d] is selected; [d'] is selected at the end.
    The keys of every command, where they live in the cluster, satisfy [P]. *)
Inductive queueable (P : list slice -> Prop) : Z -> list (list slice) -> Z -> Prop :=
| QueueNil d : queueable P d [] d
| QueueSelect d a0 n i cmds d' :
    cmd_name [a0; n] = B "SELECT" -> db_index lim (content n) = Some i -> client_ok [a0; n] ->
    queueable P i cmds d' -> queueable P d ([a0; n] :: cmds) d'
| QueueData d argv c cmds d' :
    decode argv = Some c -> client_cmd c = true -> plain_keys d (cmd_keys c) ->
    P (map (PrefixKey d) (cmd_keys c)) -> client_ok argv ->
    queueable P d cmds d' -> queueable P d (argv :: cmds) d'.

(** ** Queueing *)

Lemma clone_client argv : client_ok argv -> clone_argv argv = argv.
Proof.
  intros [_ Hok]. unfold clone_argv. induction Hok as [|a argv [Ha _] _ IH]; [done|]. cbn [map]. f_equal; [|done].
  destruct a as [[|x b]|]; done.
Qed.

Definition in_txn (s : session C) : Prop := sub s = None ∧ authed s = true ∧ multi s = true.

Lemma queue_one P d argv cmds d' ch raw w :
  queueable P d (argv :: cmds) d' -> in_txn (wSess w) ->
  handle cfg ch argv raw w
  = SOk (mkWorld (set_txn true (queued (wSess w) ++ [argv]) (wSess w)) (wRouter w) (wNet w)
           (wOut w ++ [queued_reply])) tt.
Proof.
  intros Hq (Hs & Ha & Hm). inversion Hq as [|? a0 n i ? ? Hn Hi Hok _|? ? c ? ? Hd Hc _ _ Hok _]; subst.
  - unfold handle. change ((get ≫= ?f) w) with (f (wSess w) w). cbv beta zeta. rewrite Hs.
    change (command_name [a0; n]) with (cmd_name [a0; n]). rewrite bool_decide_true by done.
    unfold cmdSelect. change ((get ≫= ?f) w) with (f (wSess w) w). cbv beta. rewrite Ha.
    change (argc [a0; n] =? 2) with true. cbn [negb]. change (arg [a0; n] 1) with (content n).
    pose proof (ParseDBIndex_index cfg (content n)) as Hp. rewrite Hi in Hp.
    destruct (ParseDBIndex (content n) (MaxDatabases cfg)) as [e|i']; [done|]. rewrite Hm.
    unfold enqueue, modify, reply, mbind, M_bind. cbn [wSess wRouter wNet wOut]. by rewrite Hm, clone_client.
  - pose proof Hd as Hd'. apply decode_client in Hd' as (a0 & -> & Hca%client_name); [|done].
    rewrite handle_queued; [by rewrite clone_client|done|done|done|].
    apply (data_not _ _ Hca). unfold local_names. simpl. tauto.
Qed.

Lemma queueable_tail P d argv cmds d' :
  queueable P d (argv :: cmds) d' -> exists d1, queueable P d1 cmds d'.
Proof. inversion 1; eauto. Qed.

(** A run of the client: one command after the other. *)
Definition as_run (ch : choices) (cmds : list (list slice)) : client_run := map (fun a => (ch, a, [])) cmds.

Lemma queue_all P ch cmds : forall d d' w,
  queueable P d cmds d' -> in_txn (wSess w) ->
  handle_all cfg (as_run ch cmds) w
  = SOk (mkWorld (set_txn true (queued (wSess w) ++ cmds) (wSess w)) (wRouter w) (wNet w)
           (wOut w ++ repeat queued_reply (length cmds))) tt.
Proof.
  induction cmds as [|argv cmds IH]; intros d d' w Hq Ht.
  - cbn. rewrite !app_nil_r. destruct w as [se ro ne ou]; cbn in *. destruct Ht as (_ & _ & Hm).
    destruct se; cbn in *. by subst.
  - cbn [as_run map handle_all]. unfold mbind, M_bind. rewrite (queue_one _ _ _ _ _ _ _ _ Hq Ht).
    apply queueable_tail in Hq as [d1 Hq]. fold (as_run ch cmds). erewrite IH; [|exact Hq|by destruct Ht as (? & ? & _)].
    cbn [wSess wRouter wNet wOut queued set_txn length repeat]. by rewrite <- !app_assoc.
Qed.
(** ** What EXEC sends *)

(** The commands [q] as the cluster gets them. *)
Definition sent_as (P : list slice -> Prop) : list (list slice) -> list rcmd -> Prop :=
  Forall2 (fun argv rc => sendable argv ∧ decode argv = Some rc ∧ client_cmd rc = true ∧ cmd_keys rc ≠ [] ∧ P (cmd_keys rc)).

(** Running [q] in the cluster is running the queued commands on the server. *)
Definition replays (d d' : Z) (cmds : list (list slice)) (items : list execItem) (q : list rcmd) : Prop :=
  forall es data m, stores lim data m ->
    exists data', stores lim data' (run_seq es q m).1
      ∧ redis_txn lim (mkRedis d data) cmds (mkRedis d' data') (merge_items items (run_seq es q m).2).

Lemma replays_cons d d1 d' argv cmds c items q :
  decode argv = Some c -> client_cmd c = true -> plain_keys d (cmd_keys c) -> 0 <= d < lim -> d1 = d ->
  replays d1 d' cmds items q ->
  forall a, replays d d' (argv :: cmds) (ItemArgv a :: items) (on_keys (PrefixKey d) c :: q).
Proof.
  intros Hd Hc Hk Hrng -> IH a es data m Hst. cbn [run_seq]. set (e := default 0 (head es)).
  destruct (run_loc lim Hlim d Hrng e c data m Hc Hk Hst) as [R1 R2].
  destruct (run e (on_keys (PrefixKey d) c) m) as [m1 v]. cbn [fst snd] in R1, R2.
  destruct (IH (tail es) _ m1 R2) as (data' & Hst' & Ht). destruct (run_seq (tail es) q m1) as [m2 vs].
  exists data'. split; [done|]. cbn [snd merge_items] in *. rewrite R1.
  eapply TxnCons; [by apply (RDataCmd lim (mkRedis d data) argv c e)|exact Ht].
Qed.

(** One data command: what is sent for it. *)
Lemma queue_data P d argv c :
  decode argv = Some c -> client_cmd c = true -> P (map (PrefixKey d) (cmd_keys c)) -> client_ok argv -> 0 <= d ->
  exists a0, let c' := on_keys (PrefixKey d) c in
  argv = argv_of a0 c ∧ client_argv a0 c ∧ client_argv a0 c' ∧ RewriteArgv argv d = Ret (argv_of a0 c')
  ∧ ExtractKeys (argv_of a0 c') = Ret (cmd_keys c') ∧ sent_as P [argv_of a0 c'] [c'].
Proof.
  intros Hd Hc Hp Hok Hrng. pose proof Hd as Hd'. apply decode_client in Hd' as (a0 & -> & Hca); [|done].
  assert (client_argv a0 (on_keys (PrefixKey d) c)) as Hca' by (by apply client_argv_on). exists a0.
  split_and!; [done..|by rewrite RewriteArgv_client|by apply ExtractKeys_client|].
  constructor; [|constructor]. split_and!; [by apply sendable_client|by apply decode_argv_of|by eapply client_argv_cmd|apply Hca'|].
  by rewrite cmd_keys_on.
Qed.

Lemma exec_items_select a0 n i cmds d res :
  cmd_name [a0; n] = B "SELECT" -> db_index lim (content n) = Some i -> exec_items cfg cmds i = Ret res ->
  exec_items cfg ([a0; n] :: cmds) d = Ret (ItemLocal ok_reply :: res.1.1, res.1.2, res.2).
Proof.
  intros Hn Hi E. cbn [exec_items length Nat.eqb negb andb]. change (upperName (arg [a0; n] 0)) with (cmd_name [a0; n]).
  rewrite bool_decide_true by done. change (argc [a0; n] =? 2) with true. cbn [negb].
  change (arg [a0; n] 1) with (content n). pose proof (ParseDBIndex_index cfg (content n)) as Hx. rewrite Hi in Hx.
  destruct (ParseDBIndex (content n) (MaxDatabases cfg)) as [e|i']; [done|]. injection Hx as <-. rewrite E.
  by destruct res as [[? ?] ?].
Qed.

Lemma exec_items_data a0 c argv' ks cmds d res :
  client_argv a0 c -> RewriteArgv (argv_of a0 c) d = Ret argv' -> ExtractKeys argv' = Ret ks ->
  exec_items cfg cmds d = Ret res ->
  exec_items cfg (argv_of a0 c :: cmds) d = Ret (ItemArgv argv' :: res.1.1, ks ++ res.1.2, res.2).
Proof.
  intros Hca Hrw Hex E. cbn [exec_items]. change (upperName (arg (argv_of a0 c) 0)) with (cmd_name [a0]).
  rewrite (bool_decide_false (cmd_name [a0] = B "SELECT")), andb_false_r
    by (intros Hx; apply client_name in Hca; by rewrite Hx in Hca).
  rewrite Hrw. cbn [mbind outcome_bind]. rewrite Hex. cbn [mbind outcome_bind]. rewrite E. by destruct res as [[? ?] ?].
Qed.

Lemma exec_items_ok P d cmds d' :
  queueable P d cmds d' -> 0 <= d < lim ->
  exists items q, exec_items cfg cmds d = Ret (items, concat (map cmd_keys q), d') ∧ 0 <= d' < lim
    ∧ sent_as P (backend_cmds items) q ∧ replays d d' cmds items q
    ∧ forall s, Forall (fun k => key_slot (rcfg cfg) k = s) (concat (map cmd_keys q)) -> queueable (in_slot slotFn s) d cmds d'.
Proof.
  induction 1 as [d|d a0 n i cmds d' Hn Hi Hok Hq IH|d argv c cmds d' Hd Hc Hk Hs Hok Hq IH]; intros Hrng.
  - exists [], []. split_and!; [done|lia..|constructor| |constructor].
    intros es data m Hst. exists data. split; [done|constructor].
  - destruct IH as (items & q & E & Hr & Hse & Hp & Hone); [by eapply db_index_range|].
    exists (ItemLocal ok_reply :: items), q. split_and!; try done; try lia.
    + exact (exec_items_select a0 n i cmds d _ Hn Hi E).
    + intros es data m Hst. destruct (Hp es data m Hst) as (data' & H1 & H2). exists data'. split; [done|].
      eapply TxnCons; [|exact H2]. by eapply (RSelect lim (mkRedis d data)).
    + intros s Hf. eapply QueueSelect; [done|done|done|by apply Hone].
  - destruct IH as (items & q & E & Hr & Hse & Hp & Hone); [done|].
    destruct (queue_data P d argv c Hd Hc Hs Hok ltac:(lia)) as (a0 & -> & Hca & Hca' & Hrw & Hex & Hsent).
    set (c' := on_keys (PrefixKey d) c) in *.
    exists (ItemArgv (argv_of a0 c') :: items), (c' :: q). split_and!; try done; try lia.
    + exact (exec_items_data a0 c _ _ cmds d _ Hca Hrw Hex E).
    + inversion Hsent; subst. by constructor.
    + by apply (replays_cons d d).
    + intros s Hf. cbn [map concat] in Hf. apply Forall_app in Hf as [Hf1 Hf2].
      eapply QueueData; [done|done|done| |done|by apply Hone]. unfold c' in Hf1. rewrite cmd_keys_on in Hf1 by done.
      split; [|exact Hf1]. intros Hnil%map_eq_nil. by destruct Hca.
Qed.

(** ** The block on one connection *)

Definition with_net w (n : W) : world W C := mkWorld (wSess w) (wRouter w) n (wOut w).

Lemma send_one c a rest w n r :
  net_cmd (wNet w) c a = (n, inr r) -> send_all c (a :: rest) w = send_all c rest (with_net w n).
Proof.
  unfold net_cmd, net_do. intros E. cbn [send_all]. unfold conn_write, conn_read, on_net, mbind, M_bind.
  destruct (net_write (wNet w) c (EncodeCommand [] a)) as [n1 [e|]]; [done|]. cbn [wNet wRouter wSess wOut].
  by rewrite E.
Qed.

(** The node behind [c] serves slot [slot], which is not being migrated. *)
Definition at_owner (slot : Z) (n : W) (c : C) : Prop :=
  (forall argv, asks n argv = None) ∧ node c = rewrite_addr (rcfg cfg) (place n slot).

(** On [c] a transaction is open; its queue is [q] unless a command was refused. *)
Definition open_txn (slot : Z) (n0 n : W) (c : C) (q : list rcmd) : Prop :=
  same n0 n ∧ asking n c = false ∧ exists q', txn n c = Some q'
    ∧ (dirty n c = false ∧ q' = q ∨ dirty n c = true ∧ ~ at_owner slot n0 c).

Lemma send_queue slot (n0 : W) c argvs q : sent_as (in_slot slotFn slot) argvs q -> forall q0 w,
  open_txn slot n0 (wNet w) c q0 ->
  exists n, send_all c argvs w = SOk (with_net w n) None ∧ open_txn slot n0 n c (q0 ++ q).
Proof.
  induction 1 as [|argv rc argvs q (Hs & Hd & _ & _ & Hk) _ IH]; intros q0 w Ho.
  { exists (wNet w). rewrite app_nil_r. split; [by destruct w|done]. }
  destruct Ho as (Hsame & Hask & q' & Hq & Hc).
  assert (serves (rcfg cfg) (wNet w) c argv slot ∨ ~ serves (rcfg cfg) (wNet w) c argv slot) as [Hv|Hv].
  { unfold serves. destruct (asks (wNet w) argv); [right; by intros [? _]|].
    destruct (decide (node c = rewrite_addr (rcfg cfg) (place (wNet w) slot))); [by left|right; by intros [_ ?]]. }
  - destruct (tx_queue (wNet w) c q' argv rc slot) as (n & r & E & Hn & Ht & Hdi & Ha); [done..|].
    destruct (IH (q0 ++ [rc]) (with_net w n)) as (n' & E' & Ho).
    { split; [by eapply same_trans|]. split; [done|]. exists (q' ++ [rc]). cbn [with_net wNet]. rewrite Hdi.
      split; [done|]. destruct Hc as [[? ->]|?]; auto. }
    exists n'. rewrite (send_one c argv argvs w n r E), E'. split; [done|]. by rewrite <- app_assoc in Ho.
  - destruct (tx_refuse (wNet w) c q' argv rc slot) as (n & r & E & Hn & Ht & Hdi & Ha); [done..|].
    destruct (IH (q0 ++ [rc]) (with_net w n)) as (n' & E' & Ho).
    { split; [by eapply same_trans|]. split; [done|]. exists q'. split; [done|]. right. split; [done|].
      intros [H1 H2]. apply Hv. destruct Hsame as (_ & Hp & Hx). split; [by rewrite Hx|by rewrite Hp]. }
    exists n'. rewrite (send_one c argv argvs w n r E), E'. split; [done|]. by rewrite <- app_assoc in Ho.
Qed.

(** The reply to EXEC: of the whole queue, or an error when nothing was executed. *)
Definition block_done (slot : Z) (n0 : W) (c : C) items q (n : W) (v : value) : Prop :=
  (exists es, set_raw [] v = Array (merge_items items (run_seq es q (view n0)).2) ∧ view n = (run_seq es q (view n0)).1)
  ∨ (IsError v = true ∧ view n = view n0 ∧ ~ at_owner slot n0 c).

Lemma exec_on_ok slot c a items q d w :
  txn (wNet w) c = None -> sent_as (in_slot slotFn slot) (backend_cmds items) q ->
  wpt (exec_on c a items d) (fun _ w' => exists v, wOut w' = wOut w ++ [v]
    ∧ wSess w' = set_db d (set_watched [] (wSess w)) ∧ block_done slot (wNet w) c items q (wNet w') v) w.
Proof.
  intros Htx Hs. destruct (tx_multi (wNet w) c Htx) as (n1 & r1 & E1 & Hs1 & Ht1 & Hd1 & Ha1).
  destruct (send_queue slot (wNet w) c _ q Hs [] (with_net w n1)) as (n2 & E2 & Hs2 & Ha2 & q' & Hq & Hc).
  { split; [done|]. split; [done|]. exists []. auto. }
  unfold exec_on. apply wpt_bind. exists (with_net w n2), None. split; [by rewrite (send_one c _ _ w n1 r1 E1)|].
  assert (exists n3 r, net_cmd n2 c [BS "EXEC"] = (n3, inr r) ∧ vNull r = false
    ∧ block_done slot (wNet w) c items q n3 (mergeExecReply items r)) as (n3 & r & E3 & Hnull & Hb).
  { destruct Hs2 as (S1 & _). destruct Hc as [[Hd ->]|[Hd Hno]].
    - destruct (tx_exec n2 c q Hq Hd) as (n3 & r & es & E3 & Hx). exists n3, r. rewrite S1 in Hx.
      pose proof (f_equal fst Hx) as Hv. pose proof (f_equal snd Hx) as Hr. cbn [fst snd] in Hv, Hr. destruct r as [t st i vs rw nl]. injection Hr as -> -> -> -> ->.
      split_and!; [done..|]. left. by exists es.
    - destruct (tx_abort n2 c q' Hq Hd) as (n3 & r & E3 & (T1 & _) & msg & Hr). exists n3, r.
      destruct r as [t st i vs rw nl]. injection Hr as -> -> -> -> ->. split_and!; [done..|]. right.
      split_and!; [done|by rewrite T1|done]. }
  apply wpt_bind. exists (with_net w n3), (inr r). split; [unfold conn_do, on_net; cbn; by rewrite E3|].
  apply wpt_bind, wpt_modify. rewrite Hnull. apply wpt_bind, wpt_bind, wpt_modify, wpt_reply.
  eexists _, tt. split; [done|]. exists (mergeExecReply items r). split_and!; [done..|]. cbn [wNet with_net].
  destruct (cl_put n3 a c) as (P1 & _). destruct Hb as [(es & H1 & H2)|(H1 & H2 & H3)]; [left|right].
  - exists es. by rewrite P1.
  - by rewrite P1.
Qed.
(** ** EXEC *)

(** The router knows the owner of [slot], and no keys are being migrated. *)
Definition fresh (slot : Z) w : Prop :=
  (forall argv, asks (wNet w) argv = None)
  ∧ exists nd, Router_NodeForSlot (rcfg cfg) (wRouter w) slot false = Some nd
      ∧ rewrite_addr (rcfg cfg) (nAddr nd) = rewrite_addr (rcfg cfg) (place (wNet w) slot).

Lemma checkout_ok slot w :
  wpt (checkout cfg slot) (fun got w' => exists c a, got = inr (c, a) ∧ wSess w' = wSess w ∧ wOut w' = wOut w
    ∧ same (wNet w) (wNet w') ∧ txn (wNet w') c = None ∧ (fresh slot w -> at_owner slot (wNet w') c)) w.
Proof.
  unfold checkout, Checkout.
  assert (exists nd, match Router_NodeForSlot (rcfg cfg) (wRouter w) slot false with
            | Some n => Some n | None => AnyMaster (rcfg cfg) (wRouter w) end = Some nd
          ∧ (fresh slot w -> rewrite_addr (rcfg cfg) (nAddr nd) = rewrite_addr (rcfg cfg) (place (wNet w) slot)))
    as (nd & E & Hf).
  { destruct (Router_NodeForSlot _ _ _ _) as [nd|] eqn:En.
    - exists nd. split; [done|]. intros (_ & nd' & Hn & Hx). rewrite En in Hn. by injection Hn as <-.
    - unfold AnyMaster. destruct (FirstMaster _) as [nd|].
      + exists nd. split; [done|]. intros (_ & nd' & Hn & _). by rewrite En in Hn.
      + pose proof (cc_seeds _ Hcfg). destruct (ClusterSeeds (rcfg cfg)) as [|sd sds]; [done|].
        eexists. split; [done|]. intros (_ & nd' & Hn & _). by rewrite En in Hn. }
  destruct (cl_get (wNet w) (rewrite_addr (rcfg cfg) (nAddr nd))) as (n & c & Hg & Hn & _ & Htx & Hs).
  exists (mkWorld (wSess w) (poolFor (rcfg cfg) (wRouter w) (nAddr nd) false).1 n (wOut w)), (inr (c, rewrite_addr (rcfg cfg) (nAddr nd))).
  split; [unfold on_net; by rewrite E, CheckoutAddr_eq, Hg|].
  eexists _, _. split_and!; [done..|]. intros Hfr. destruct Hs as (_ & S2 & S3). split.
  - intros argv. cbn [wNet]. rewrite S3. apply Hfr.
  - cbn [wNet]. rewrite Hn, S2. auto.
Qed.

(** How a transaction from state [s] ended: [s'] and [v] are the server's, or nothing happened. *)
Definition txn_outcome (slot d' : Z) (s : redis) cmds w w' (v : value) : Prop :=
  (exists data' vs, set_raw [] v = Array vs ∧ redis_txn lim s cmds (mkRedis d' data') vs
     ∧ related cfg (mkRedis d' data') w')
  ∨ (IsError v = true ∧ ~ fresh slot w ∧ view (wNet w') = view (wNet w) ∧ related cfg (mkRedis d' (rData s)) w').

Lemma one_slot_keys slot keys : Forall (fun k => key_slot (rcfg cfg) k = slot) keys -> CrossSlot (rcfg cfg) keys = false ∨ keys = [].
Proof.
  intros Hf. destruct keys as [|k keys]; [by right|left]. apply CrossSlot_false.
  apply list.Forall_cons in Hf as [<- Hf]. done.
Qed.

Lemma sent_slot slot argvs q :
  sent_as (in_slot slotFn slot) argvs q ->
  Forall (fun k => key_slot (rcfg cfg) k = slot) (concat (map cmd_keys q)) ∧ (concat (map cmd_keys q) = [] -> q = []).
Proof.
  induction 1 as [|argv rc argvs q (_ & _ & _ & Hne & Hk) _ [IH _]]; [by split|]. cbn [map concat]. split.
  - apply Forall_app. split; [apply Hk|done].
  - intros [? _]%app_eq_nil. done.
Qed.

Lemma cmdExec_ok slot d' s cmds w :
  related cfg s (mkWorld (set_txn false [] (wSess w)) (wRouter w) (wNet w) (wOut w)) ->
  multi (wSess w) = true -> queued (wSess w) = cmds -> pin (wSess w) = None -> watched (wSess w) = [] ->
  queueable (in_slot slotFn slot) (rDB s) cmds d' ->
  wpt (cmdExec cfg) (fun _ w' => exists v, wOut w' = wOut w ++ [v] ∧ txn_outcome slot d' s cmds w w' v) w.
Proof.
  intros [(Hsub & Hau & _ & Hqu) Hdb Hrng Hst] Hm Hq Hp Hw Hqb. cbn [wSess wNet db set_txn sub authed quit] in *.
  destruct (exec_items_ok _ (rDB s) cmds d' Hqb Hrng) as (items & q & E & Hr & Hs & Hrep & _).
  destruct (sent_slot _ _ _ Hs) as [Hf He]. set (keys := concat (map cmd_keys q)) in *.
  unfold cmdExec. apply wpt_get. rewrite Hm. cbn [negb]. apply wpt_bind, wpt_modify. set (w1 := mkWorld _ _ _ _).
  apply wpt_bind. exists w1, (wRouter w1). split; [done|]. rewrite Hp, bool_decide_true by done. cbn [negb andb].
  apply wpt_bind. rewrite Hq, <- Hdb, E. exists w1, (items, keys, d'). split; [done|]. cbv beta iota zeta.
  rewrite Hw. cbn [app].
  assert ((1 <? argc keys) && CrossSlot (rcfg cfg) keys = false) as ->
    by (destruct (one_slot_keys _ _ Hf) as [-> | ->]; [apply andb_false_r|done]).
  assert (forall es w', view (wNet w') = (run_seq es q (view (wNet w))).1 ->
    wSess w' = set_db d' (set_watched [] (wSess w1)) ->
    exists data', redis_txn lim s cmds (mkRedis d' data') (merge_items items (run_seq es q (view (wNet w))).2)
      ∧ related cfg (mkRedis d' data') w') as Hdone.
  { intros es w' Hv Hse. destruct (Hrep es (rData s) (view (wNet w)) Hst) as (data' & H1 & H2). exists data'.
    split; [by destruct s|]. split; cbn; rewrite ?Hse; [done|done|done|by rewrite Hv]. }
  destruct (backend_cmds items) as [|b bs] eqn:Eb.
  - apply wpt_bind, wpt_modify, wpt_bind, wpt_modify, wpt_reply. eexists. split; [done|]. left.
    inversion Hs; subst q. destruct (Hdone [] (mkWorld (set_watched [] (set_db d' (wSess w1))) (wRouter w1) (wNet w1)
      (wOut w1 ++ [Array (merge_items items [])]))) as (data' & H1 & H2); [done|done|].
    exists data', (merge_items items []). done.
  - apply wpt_bind. unfold take_conn. apply wpt_get. change (pin (wSess w1)) with (pin (wSess w)). rewrite Hp.
    assert (match keys with k :: _ => key_slot (rcfg cfg) k | [] => 0 end = slot) as ->.
    { destruct keys as [|k keys]; [|by apply Forall_inv in Hf]. rewrite He in Hs by done. inversion Hs. }
    eapply wpt_mono; [apply checkout_ok|]. intros got w2 (c & a & -> & Se & So & (S1 & _) & Htx & Hfr).
    rewrite <- Eb in Hs. eapply wpt_mono; [by eapply exec_on_ok|].
    intros _ w3 (v & Hout & Hse & Hb). rewrite Se in Hse. exists v. split; [by rewrite Hout, So|].
    unfold block_done in Hb. rewrite S1 in Hb. destruct Hb as [(es & H1 & H2)|(H1 & H2 & H3)].
    + left. destruct (Hdone es w3 H2 Hse) as (data' & H4 & H5). eexists data', _. split_and!; [exact H1|exact H4|exact H5].
    + right. split_and!; [done|by intros ?; apply H3, Hfr|done|]. split; cbn; rewrite ?Hse; [done|done|done|]. by rewrite H2.
Qed.
(** ** The whole transaction *)

Lemma handle_all_app l1 l2 w w' :
  handle_all cfg l1 w = SOk w' tt -> handle_all cfg (l1 ++ l2) w = handle_all cfg l2 w'.
Proof.
  revert w. induction l1 as [|[[ch argv] raw] l1 IH]; intros w; [by intros [= ->]|].
  cbn [app handle_all]. unfold mbind, M_bind. destruct (handle cfg ch argv raw w) as [w1 []| |]; [apply IH|done|done].
Qed.

Lemma handle_one ch argv w : handle_all cfg [(ch, argv, [])] w = handle cfg ch argv [] w.
Proof. cbn [handle_all]. unfold mbind, M_bind. by destruct (handle cfg ch argv [] w) as [w1 []| |]. Qed.

(** The names that control a transaction reach their handlers. *)
Lemma handle_control ch a0 raw w :
  sub (wSess w) = None -> authed (wSess w) = true ->
  (cmd_name [a0] = B "MULTI" -> handle cfg ch [a0] raw w = cmdMulti w)
  ∧ (cmd_name [a0] = B "EXEC" -> handle cfg ch [a0] raw w = cmdExec cfg w)
  ∧ (cmd_name [a0] = B "DISCARD" -> handle cfg ch [a0] raw w = cmdDiscard w).
Proof.
  intros Hs Ha. split_and!; intros Hn; rewrite handle_to_backend;
    change (command_name [a0]) with (cmd_name [a0]); rewrite ?Hn; done.
Qed.
End Transactions.

(** ** Properties *)


(** *** Witnesses: transactions on the cluster of two nodes *)

Lemma d_multi w c : dTxn w !! c = None ->
  d_serve w c [BS "MULTI"]
  = mkDCluster (dView w) (dMigrating w) (dAsk w ∖ {[c]}) (<[c := []]> (dTxn w)) (dDirty w ∖ {[c]}) ok_value [].
Proof. intros Htx. unfold d_serve. by rewrite Htx. Qed.

#[global, refine] Instance demo_transactional : Transactional dcluster bytes demo_cfg := {
  dirty w c := bool_decide (c ∈ dDirty w) }.
Proof.
  - intros w c Htx. change (dTxn w !! c = None) in Htx. eexists _, _. unfold net_cmd.
    split; [apply d_do, sendableb_ok; vm_refl|]. rewrite (d_multi w c Htx). split_and!; [done|..].
    + cbn. apply lookup_insert_eq.
    + cbn. apply bool_decide_eq_false. set_solver.
    + cbn. apply bool_decide_eq_false. set_solver.
  - intros w c q argv rc s Htx Hf Hs Hd Hk [Ha Hn]. change (dTxn w !! c = Some q) in Htx. eexists _, _. unfold net_cmd.
    split; [by apply d_do|]. apply d_in_slot in Hk. rewrite rewrite_demo in Hn. change (d_asks w argv = None) in Ha.
    unfold d_serve. rewrite Htx. unfold d_queued. rewrite Hd, Hk, Ha. change (c = d_place s) in Hn.
    rewrite !bool_decide_true by done. split_and!; [done|cbn; apply lookup_insert_eq|done|done].
  - intros w c q argv rc s Htx Hf Hs Hd Hk Hv. change (dTxn w !! c = Some q) in Htx. eexists _, _. unfold net_cmd.
    split; [by apply d_do|]. apply d_in_slot in Hk. unfold d_serve. rewrite Htx. unfold d_queued. rewrite Hd, Hk.
    assert (bool_decide (d_asks w argv = None) && bool_decide (c = d_place s) = false) as ->.
    { apply not_true_iff_false. intros [H1%bool_decide_eq_true H2%bool_decide_eq_true]%andb_true_iff. by apply Hv. }
    split_and!; [done|done| |done]. apply bool_decide_eq_true. cbn. set_solver.
  - intros w c q Htx Hd. change (dTxn w !! c = Some q) in Htx. apply bool_decide_eq_false in Hd.
    eexists _, _, []. unfold net_cmd. split; [apply d_do, sendableb_ok; vm_refl|].
    unfold d_serve. rewrite Htx. unfold d_queued. change (decode [BS "EXEC"]) with (@None rcmd). cbv iota.
    rewrite bool_decide_false by done. change (view w) with (dView w). by destruct (run_seq [] q (dView w)).
  - intros w c q Htx Hd. change (dTxn w !! c = Some q) in Htx. apply bool_decide_eq_true in Hd.
    eexists _, _. unfold net_cmd. split; [apply d_do, sendableb_ok; vm_refl|].
    unfold d_serve. rewrite Htx. unfold d_queued. change (decode [BS "EXEC"]) with (@None rcmd). cbv iota.
    rewrite bool_decide_true by done. split; [done|]. by eexists.
Defined.

(** In two databases, on keys with the hash tag [t]. *)
Definition txn_cmds (t : string) : list (list slice) :=
  map cmd [["SET"; t +:+ "a"; "1"]; ["SELECT"; "1"]; ["SET"; t +:+ "a"; "2"]; ["MGET"; t +:+ "a"; t +:+ "b"]].

Lemma txn_queueable t :
  t = "{b}"%string ∨ t = "{t}"%string -> queueable refine_scfg (in_slot (SlotOf demo_cfg) (SlotOf demo_cfg (B t))) 0 (txn_cmds t) 1.
Proof.
  intros Ht. assert (forall k, k = "a"%string ∨ k = "b"%string -> unprefixed 0 (B (t +:+ k))
    ∧ SlotOf demo_cfg (B (t +:+ k)) = SlotOf demo_cfg (B t) ∧ SlotOf demo_cfg (B "db1:" ++ B (t +:+ k)) = SlotOf demo_cfg (B t)) as Hk
    by (intros k [-> | ->]; destruct Ht as [-> | ->]; (split; [intros _; vm_refl|split; vm_refl])).
  destruct (Hk "a"%string ltac:(by left)) as (Ua & Sa & Sa1). destruct (Hk "b"%string ltac:(by right)) as (Ub & Sb & Sb1).
  eapply QueueData; [vm_refl|done|by repeat constructor|by repeat constructor|
    apply refine_client_ok; destruct Ht as [-> | ->]; vm_refl|].
  eapply (QueueSelect _ _ _ _ _ 1); [vm_refl|vm_refl|apply refine_client_ok; vm_refl|].
  eapply QueueData; [vm_refl|done|by repeat constructor|by repeat constructor|
    apply refine_client_ok; destruct Ht as [-> | ->]; vm_refl|].
  eapply QueueData; [vm_refl|done|by repeat constructor|by repeat constructor|
    apply refine_client_ok; destruct Ht as [-> | ->]; vm_refl|].
  constructor.
Qed.

Lemma txn_fresh : fresh refine_scfg (SlotOf demo_cfg (B "{b}")) (refine_world ∅).
Proof.
  split.
  - intros argv. change (d_asks (d_new ∅ None) argv = None). unfold d_asks. by destruct (decode argv).
  - eexists. split; vm_refl.
Qed.

Definition txn_choices : choices := mkChoices [] [] 0 0.


(** What the client reads at the end, and the keys in the cluster. *)
Definition txn_end (t : string) : option (option value * Z * list (option bytes)) :=
  match handle_all refine_scfg (as_run txn_choices ([BS "MULTI"] :: txn_cmds t ++ [[BS "EXEC"]])) (refine_world ∅) with
  | SOk w _ => Some (last (wOut w), db (wSess w), map (fun k => dView (wNet w) !! B k) [t +:+ "a"; "db1:" +:+ t +:+ "a"])
  | _ => None
  end.

Example exec_runs_all :
  txn_end "{b}" = Some (Some (Array [ok_reply; ok_reply; ok_reply; Array [bulk "2"; NullBulk]]), 1, [BS "1"; BS "2"]).
Proof. vm_refl. Qed.

(** EXEC is not sent on to the owner of the slot: with a stale slot map the node aborts the
    transaction.  The SELECT inside takes effect all the same. *)
Example exec_abort_selects :
  txn_end "{t}" = Some (Some (RError (B "EXECABORT Transaction discarded because of previous errors.")), 1, [None; None]).
Proof. vm_refl. Qed.
