(* ===== verification/Clients.v ===== *)
(** * Many clients

    The sessions of all clients share the router and the cluster; each has its own selected database
    and its own transaction.  [server] is a standalone server with many clients: the databases are shared,
    each client has a selected database and, inside MULTI, a queue.  [clients_refine] shows that in
    every interleaving of the clients' commands the proxy is that server, transactions included: a
    transaction queues its commands in the session of its client while other clients work, and EXEC
    runs them without an interruption.  Commands are the atoms of the interleaving. *)

From Stdlib Require Import ZArith Lia Strings.Byte Permutation.
From stdpp Require Import base list strings numbers option sets gmap fin_maps.
From S2P Require Import Prelude Resp RespTheory Slot Command VirtualDB Fanout FanoutTheory Topology Router Cluster Databases.
From S2P Require Import PubSub Session SessionTheory SessionProps Refinement Transactions.

(** ** The specification: a server with clients *)

Record client := mkClient { clDB : Z; clQueue : option (list (list slice)) }.
Record server := mkServer { svData : Z -> store; svClients : list client }.

Section Spec.
Context `{!Server} (lim : Z).

(** SELECTs and data commands are queued inside MULTI. *)
Definition queues (argv : list slice) : Prop :=
  (exists a0 n i, argv = [a0; n] ∧ cmd_name argv = B "SELECT" ∧ db_index lim (content n) = Some i)
  ∨ (exists c, decode argv = Some c ∧ client_cmd c = true).

(** The database selected after the commands of a queue. *)
Fixpoint queue_db (d : Z) (q : list (list slice)) : Z :=
  match q with
  | [] => d
  | argv :: q =>
      queue_db (if cmd_name argv ==b B "SELECT" then default d (db_index lim (arg argv 1)) else d) q
  end.

(** One command of one client.  [abort]: EXEC may be refused. *)
Inductive client_step (abort : Prop) (data : Z -> store) (argv : list slice) : client -> client -> (Z -> store) -> value -> Prop :=
| CPlain d s' v :
    redis_step lim (mkRedis d data) argv s' v ->
    client_step abort data argv (mkClient d None) (mkClient (rDB s') None) (rData s') v
| CMulti d :
    cmd_name argv = B "MULTI" -> client_step abort data argv (mkClient d None) (mkClient d (Some [])) data ok_value
| CMultiNested d q v :
    cmd_name argv = B "MULTI" -> IsError v = true ->
    client_step abort data argv (mkClient d (Some q)) (mkClient d (Some q)) data v
| CDiscard d q :
    cmd_name argv = B "DISCARD" -> client_step abort data argv (mkClient d (Some q)) (mkClient d None) data ok_value
| CQueue d q :
    queues argv -> client_step abort data argv (mkClient d (Some q)) (mkClient d (Some (q ++ [argv]))) data queued_reply
| CQueueBad a0 n d q v :
    argv = [a0; n] -> cmd_name argv = B "SELECT" -> db_index lim (content n) = None -> IsError v = true ->
    client_step abort data argv (mkClient d (Some q)) (mkClient d (Some q)) data v
| CExec d q d' data' vs :
    cmd_name argv = B "EXEC" -> redis_txn lim (mkRedis d data) q (mkRedis d' data') vs ->
    client_step abort data argv (mkClient d (Some q)) (mkClient d' None) data' (Array vs)
(* a refused transaction executes nothing; a SELECT inside it may have taken effect *)
| CExecAborted d q d' v :
    cmd_name argv = B "EXEC" -> abort -> IsError v = true -> d' = d ∨ d' = queue_db d q ->
    client_step abort data argv (mkClient d (Some q)) (mkClient d' None) data v
| COutside d v :
    str_in (cmd_name argv) ["EXEC"; "DISCARD"] = true -> IsError v = true ->
    client_step abort data argv (mkClient d None) (mkClient d None) data v.

Definition server_step (abort : Prop) (s : server) (i : nat) (argv : list slice) (s' : server) (v : value) : Prop :=
  exists c c' data', svClients s !! i = Some c ∧ client_step abort (svData s) argv c c' data' v
    ∧ s' = mkServer data' (<[i := c']> (svClients s)).

Lemma server_step_mono (P Q : Prop) s i argv s' v : (P -> Q) -> server_step P s i argv s' v -> server_step Q s i argv s' v.
Proof.
  intros HPQ (c & c' & data' & Hc & Hst & ->). exists c, c', data'. split_and!; [done| |done].
  destruct Hst; [by eapply CPlain|by eapply CMulti|by eapply CMultiNested|by eapply CDiscard|by eapply CQueue
    |by eapply CQueueBad|by eapply CExec|eapply CExecAborted; auto|by eapply COutside].
Qed.
End Spec.

(** ** The proxy with its clients *)

Section Proxy.
Context {W C : Type} `{!Network W C}.

(** All sessions use one router; a session has the replies written to its client. *)
Record proxy := mkProxy { pxRouter : Router; pxNet : W; pxClients : list (session C * list value) }.

Definition client_world (p : proxy) (x : session C * list value) : world W C := mkWorld x.1 (pxRouter p) (pxNet p) x.2.

(** The next command of client [i]. *)
Definition serve_client (cfg : SessionConfig) (i : nat) (ch : choices) (argv : list slice) (raw : bytes) (p : proxy) : option proxy :=
  x ← pxClients p !! i;
  match handle cfg ch argv raw (client_world p x) with
  | SOk w _ => Some (mkProxy (wRouter w) (wNet w) (<[i := (wSess w, wOut w)]> (pxClients p)))
  | _ => None
  end.
End Proxy.
Arguments proxy : clear implicits.

Section Clients.
Context {W C : Type} `{!Network W C} `{!Server} (cfg : SessionConfig) `{!Cluster W C (rcfg cfg)}.
Context `{!Transactional W C (rcfg cfg)} (Hcfg : cluster_cfg (rcfg cfg)).
Local Abbreviation slotFn := (SlotOf (rcfg cfg)).
Local Abbreviation lim := (db_limit cfg).
Context (Hlim : lim <= 2^63).
Implicit Types (w : world W C) (c : client).

(** Queues of SELECTs and data commands, on any keys. *)
Definition queue_ok : Z -> list (list slice) -> Z -> Prop := queueable cfg (fun _ => True).

Lemma queue_ok_db d q d' : queue_ok d q d' -> queue_db lim d q = d'.
Proof.
  induction 1 as [d|d a0 n i cmds d' Hn Hi Hok Hq IH|d argv c cmds d' Hd Hc Hk Hs Hok Hq IH]; [done|..]; cbn [queue_db].
  - rewrite bool_decide_true by done. change (arg [a0; n] 1) with (content n). by rewrite Hi.
  - rewrite bool_decide_false; [done|]. intros Hx. apply decode_client in Hd as (a0 & -> & Hca%client_name); [|done].
    rewrite cmd_name_argv_of in Hx. by rewrite Hx in Hca.
Qed.

Lemma queue_ok_snoc d q d1 x d2 : queue_ok d q d1 -> queue_ok d1 [x] d2 -> queue_ok d (q ++ [x]) d2.
Proof.
  intros Hq Hx. induction Hq as [d|d a0 n i cmds d' Hn Hi Hok Hq IH|d argv c cmds d' Hd Hc Hk Hs Hok Hq IH]; [done|..];
    cbn [app]; econstructor; eauto; by apply IH.
Qed.

Lemma queue_ok_range d q d' : queue_ok d q d' -> 0 <= d < lim -> 0 <= d' < lim.
Proof.
  induction 1 as [d|d a0 n i cmds d' Hn Hi Hok Hq IH|d argv c cmds d' Hd Hc Hk Hs Hok Hq IH]; intros Hr; [done| |auto].
  apply IH. by eapply db_index_range.
Qed.

(** The session of a client. *)
Record good_client c (x : session C) : Prop := mkGood {
  gc_sub : sub x = None;
  gc_authed : authed x = true;
  gc_quit : quit x = false;
  gc_pin : pin x = None;
  gc_watched : watched x = [];
  gc_db : db x = clDB c;
  gc_range : 0 <= clDB c < lim;
  gc_multi : match clQueue c with
             | None => multi x = false
             | Some q => multi x = true ∧ queued x = q ∧ exists d', queue_ok (clDB c) q d'
             end }.

Definition related_all (s : server) (p : proxy W C) : Prop :=
  stores lim (svData s) (view (pxNet p)) ∧ Forall2 (fun c x => good_client c x.1) (svClients s) (pxClients p).

(** EXEC is refused only when the keys are in several slots, the router does not know their owner, or
    keys are being migrated. *)
Definition refusable (c : client) w : Prop :=
  forall slot, (exists d', queueable cfg (in_slot slotFn slot) (clDB c) (default [] (clQueue c)) d') -> ~ fresh cfg slot w.

(** What the theorem asks of a command. *)
Inductive client_ready (data : Z -> store) (ch : choices) (argv : list slice) (raw : bytes) : client -> Prop :=
| ReadyPlain d : ready cfg (mkRedis d data) (ch, argv, raw) -> client_ready data ch argv raw (mkClient d None)
| ReadyControl a0 d q :
    argv = [a0] -> str_in (cmd_name argv) ["MULTI"; "EXEC"; "DISCARD"] = true ->
    client_ready data ch argv raw (mkClient d q)
| ReadyQueueSelect a0 n d q :
    argv = [a0; n] -> cmd_name argv = B "SELECT" -> client_ok argv -> client_ready data ch argv raw (mkClient d (Some q))
| ReadyQueue cm d q :
    decode argv = Some cm -> client_cmd cm = true -> plain_keys (queue_db lim d q) (cmd_keys cm) -> client_ok argv ->
    client_ready data ch argv raw (mkClient d (Some q)).

(** What one command of a client does. *)
Definition client_does (data : Z -> store) c (argv : list slice) w w' : Prop :=
  exists c' data' v, client_step lim (refusable c w) data argv c c' data' (set_raw [] v)
    ∧ good_client c' (wSess w') ∧ stores lim data' (view (wNet w')) ∧ wOut w' = wOut w ++ [v].

(** ** Nothing is watched *)

Definition idle (x : session C) : Prop := pin x = None ∧ watched x = [].
Let idleW w : Prop := idle (wSess w).

Lemma idle_modify f : (forall x : session C, idle x -> idle (f x)) -> inv idleW (modify f).
Proof. apply sess_modify. Qed.
Lemma idle_reply v : inv idleW (reply v).
Proof. apply (sess_reply idle). Qed.
Lemma idle_on_router f : inv idleW (on_router f).
Proof. apply (sess_on_router idle). Qed.
Lemma idle_on_net {A} (f : Router -> W -> Router * W * A) : inv idleW (on_net f).
Proof. apply (sess_on_net idle). Qed.
Lemma idle_set_db n : inv idleW (modify (set_db n)).
Proof. apply idle_modify. by intros x [H1 H2]. Qed.
Lemma idle_set_txn b q : inv idleW (modify (set_txn b q)).
Proof. apply idle_modify. by intros x [H1 H2]. Qed.
Lemma idle_set_watched : inv idleW (modify (set_watched [])).
Proof. apply idle_modify. by intros x [H1 H2]. Qed.
Lemma idle_set_pin g : inv idleW (modify (set_pin None g)).
Proof. apply idle_modify. by intros x [H1 H2]. Qed.
Lemma idle_enqueue argv : inv idleW (enqueue argv).
Proof. unfold enqueue. apply inv_bind; [|intros ?; apply idle_reply]. apply idle_modify. by intros x [H1 H2]. Qed.
Hint Resolve idle_reply idle_on_router idle_on_net idle_set_db idle_set_txn idle_set_watched idle_set_pin idle_enqueue : sess.

Lemma idle_scan_loop fuel (c : C) pat cur : inv idleW (scan_loop fuel c pat cur).
Proof. revert cur. induction fuel; intros cur; cbn [scan_loop]; inv_auto. Qed.
Lemma idle_send_all (c : C) cmds : inv idleW (send_all c cmds).
Proof. induction cmds; cbn [send_all]; inv_auto. Qed.
Hint Resolve idle_scan_loop idle_send_all : sess.
Lemma idle_scan_all fuel addrs pat : inv idleW (scan_all cfg fuel addrs pat).
Proof. induction addrs; cbn [scan_all]; unfold scanDeleteOn, reply_err; inv_auto. Qed.
Lemma idle_transferKey src dst d r : inv idleW (transferKey cfg src dst d r).
Proof. unfold transferKey, transfer_local, transfer_remote. inv_auto. Qed.
Lemma idle_fanout ch argv : inv idleW (fanout cfg ch argv).
Proof.
  unfold fanout. apply inv_bind; [inv_auto|intros s]. apply inv_bind; [|intros v; inv_auto].
  intros w Hw. unfold wp. by destruct (cmdFanout _ _ _ _ _ _) as [[[r n] v]|].
Qed.
Hint Resolve idle_scan_all idle_transferKey idle_fanout : sess.

Lemma idle_dispatch ch name argv raw : inv idleW (dispatch cfg ch name argv raw).
Proof.
  unfold dispatch, route, doBlocking, cmdFlushDB, cmdMove, cmdCopy, cmdRandomKey, reply_result, reply_count, reply_err.
  inv_auto.
Qed.
Lemma idle_cmdSelect argv : inv idleW (cmdSelect cfg argv).
Proof. unfold cmdSelect. inv_auto. Qed.
Lemma idle_cmdExec : inv idleW (cmdExec cfg).
Proof. unfold cmdExec, exec_on, take_conn, dropPin, reply_err. inv_auto. Qed.

(** ** Outside a transaction *)

Lemma good_related d data x r n out :
  good_client (mkClient d None) x -> stores lim data (view n) -> related cfg (mkRedis d data) (mkWorld x r n out).
Proof. intros [] Hst. by split. Qed.

Lemma related_good s w : related cfg s w -> idle (wSess w) -> good_client (mkClient (rDB s) None) (wSess w).
Proof. intros [(H1 & H2 & H3 & H4) Hdb Hr _] [Hp Hw]. by split. Qed.

Lemma does_plain data ch argv raw d w :
  good_client (mkClient d None) (wSess w) -> stores lim data (view (wNet w)) -> ready cfg (mkRedis d data) (ch, argv, raw) ->
  wpt (handle cfg ch argv raw) (fun _ w' => client_does data (mkClient d None) argv w w') w.
Proof.
  intros Hg Hst Hrdy. assert (related cfg (mkRedis d data) w) as Hr by (destruct w; by apply good_related).
  destruct (sim_step cfg Hcfg Hlim _ _ w Hr Hrdy) as (w' & [] & E & s' & v & Hstep & Hr' & Hout).
  exists w', tt. split; [exact E|]. exists (mkClient (rDB s') None), (rData s'), v.
  assert (idle (wSess w')) as Hi.
  { apply (ready_inv cfg idleW _ _ w w' idle_dispatch idle_cmdSelect Hr Hrdy E). destruct Hg. by split. }
  split_and!; [by apply CPlain|by apply related_good|apply Hr'|done].
Qed.

(** ** MULTI, DISCARD and EXEC *)

(** A reply without any other effect. *)
Lemma does_reply data c c' argv w x v :
  stores lim data (view (wNet w)) -> good_client c' x -> vRaw v = [] ->
  client_step lim (refusable c w) data argv c c' data v ->
  client_does data c argv w (mkWorld x (wRouter w) (wNet w) (wOut w ++ [v])).
Proof. intros Hst Hg Hv Hs. exists c', data, v. rewrite raw_nil by done. by split_and!. Qed.

Lemma good_txn d q x q' :
  good_client (mkClient d q) x -> (forall l, q' = Some l -> exists d', queue_ok d l d') ->
  good_client (mkClient d q') (set_txn (match q' with Some _ => true | None => false end) (default [] q') x).
Proof. intros [] Hq. destruct q' as [l|]; split; try done. cbn. split_and!; [done|done|]. by apply Hq. Qed.

Lemma does_multi data a0 ch raw c w :
  good_client c (wSess w) -> stores lim data (view (wNet w)) -> cmd_name [a0] = B "MULTI" ->
  wpt (handle cfg ch [a0] raw) (fun _ w' => client_does data c [a0] w w') w.
Proof.
  intros Hg Hst Hn. unfold wpt. rewrite (proj1 (handle_control cfg ch a0 raw w (gc_sub _ _ Hg) (gc_authed _ _ Hg)) Hn).
  unfold cmdMulti. change (wpt (s ← get; if multi s then reply errNested else modify (set_txn true []);; reply ok_reply)
    (fun _ w' => client_does data c [a0] w w') w).
  apply wpt_get. pose proof (gc_multi _ _ Hg) as Hm. destruct c as [d [q|]]; cbn [clQueue] in Hm.
  - destruct Hm as (-> & _). apply wpt_reply. apply does_reply with (c' := mkClient d (Some q)); [done|done|done|]. by apply CMultiNested.
  - rewrite Hm. apply wpt_bind, wpt_modify, wpt_reply. refine (does_reply data _ (mkClient d (Some [])) [a0] w _ ok_value Hst _ eq_refl (CMulti _ _ _ _ _ Hn)).
    apply (good_txn d None _ (Some []) Hg). intros l [= <-]. exists d. constructor.
Qed.

Lemma does_discard data a0 ch raw c w :
  good_client c (wSess w) -> stores lim data (view (wNet w)) -> cmd_name [a0] = B "DISCARD" ->
  wpt (handle cfg ch [a0] raw) (fun _ w' => client_does data c [a0] w w') w.
Proof.
  intros Hg Hst Hn. unfold wpt. rewrite (proj2 (proj2 (handle_control cfg ch a0 raw w (gc_sub _ _ Hg) (gc_authed _ _ Hg))) Hn).
  unfold cmdDiscard. change (wpt (s ← get; if negb (multi s) then reply (RError (B "ERR DISCARD without MULTI"))
    else modify (set_txn false []);; reply ok_reply) (fun _ w' => client_does data c [a0] w w') w).
  apply wpt_get. pose proof (gc_multi _ _ Hg) as Hm. destruct c as [d [q|]]; cbn [clQueue] in Hm.
  - destruct Hm as (-> & _). cbn [negb]. apply wpt_bind, wpt_modify, wpt_reply.
    refine (does_reply data _ (mkClient d None) [a0] w _ ok_value Hst _ eq_refl (CDiscard _ _ _ _ _ _ Hn)).
    by apply (good_txn d (Some q) _ None Hg).
  - rewrite Hm. cbn [negb]. apply wpt_reply. apply does_reply with (c' := mkClient d None); [done|done|done|].
    apply COutside; [|done]. rewrite Hn. vm_refl.
Qed.

(** EXEC over several slots. *)
Lemma exec_crosses items keys d' w :
  multi (wSess w) = true -> pin (wSess w) = None -> watched (wSess w) = [] ->
  exec_items cfg (queued (wSess w)) (db (wSess w)) = Ret (items, keys, d') ->
  (1 <? argc keys) && CrossSlot (rcfg cfg) keys = true ->
  cmdExec cfg w = SOk (mkWorld (set_txn false [] (wSess w)) (wRouter w) (wNet w) (wOut w ++ [errCross])) tt.
Proof.
  intros Hm Hp Hw E Hx. unfold cmdExec. change ((get ≫= ?f) w) with (f (wSess w) w). cbv beta. rewrite Hm. cbn [negb].
  unfold mbind at 1, M_bind at 1, modify. change ((get_router ≫= ?f) ?w) with (f (wRouter w) w). cbv beta.
  rewrite Hp, bool_decide_true by done. cbn [negb andb]. rewrite E. change (lift (Ret ?k) ≫= ?f) with (f k). cbv beta iota zeta.
  rewrite Hw. cbn [app]. rewrite Hx. unfold dropPin, mbind, M_bind, get. cbn [wSess pin set_txn]. by rewrite Hp.
Qed.

Lemma does_exec data a0 ch raw c w :
  good_client c (wSess w) -> stores lim data (view (wNet w)) -> cmd_name [a0] = B "EXEC" ->
  wpt (handle cfg ch [a0] raw) (fun _ w' => client_does data c [a0] w w') w.
Proof.
  intros Hg Hst Hn. unfold wpt. rewrite (proj1 (proj2 (handle_control cfg ch a0 raw w (gc_sub _ _ Hg) (gc_authed _ _ Hg))) Hn).
  pose proof (gc_multi _ _ Hg) as Hm. destruct c as [d [q|]]; cbn [clQueue] in Hm.
  2: { exists (mkWorld (wSess w) (wRouter w) (wNet w) (wOut w ++ [errNoMulti])), tt. split.
       - unfold cmdExec. change ((get ≫= ?f) w) with (f (wSess w) w). cbv beta. by rewrite Hm.
       - apply does_reply with (c' := mkClient d None); [done|done|done|]. apply COutside; [|done]. rewrite Hn. vm_refl. }
  destruct Hm as (Hm & Hqd & d' & Hq). pose proof (gc_db _ _ Hg) as Hdb. pose proof (gc_range _ _ Hg) as Hrng.
  pose proof (gc_pin _ _ Hg) as Hp. pose proof (gc_watched _ _ Hg) as Hw. cbn [clDB] in *.
  destruct (exec_items_ok cfg Hlim _ d q d' Hq Hrng) as (items & rcs & E & Hd' & Hse & _ & Hone).
  set (keys := concat (map cmd_keys rcs)) in *.
  destruct ((1 <? argc keys) && CrossSlot (rcfg cfg) keys) eqn:Hx.
  - exists (mkWorld (set_txn false [] (wSess w)) (wRouter w) (wNet w) (wOut w ++ [errCross])), tt. split.
    { apply (exec_crosses items keys d'); try done. by rewrite Hqd, Hdb. }
    eapply (does_reply _ _ (mkClient d None)); [done|by apply (good_txn d (Some q) _ None Hg)|done|].
    eapply CExecAborted; [done| |done|by left]. intros slot (d2 & Hq2) _. cbn [clDB clQueue default from_option id] in Hq2.
    destruct (exec_items_ok cfg Hlim _ d q d2 Hq2 Hrng) as (items2 & rcs2 & E2 & _ & Hse2 & _). rewrite E in E2. injection E2 as _ Hk _.
    destruct (sent_slot cfg _ _ _ Hse2) as [Hf _]. rewrite <- Hk in Hf.
    destruct (one_slot_keys cfg slot keys Hf) as [Hc|Hc]; rewrite Hc in Hx; [by rewrite andb_false_r in Hx|done].
  - assert (exists slot, Forall (fun k => key_slot (rcfg cfg) k = slot) keys) as [slot Hslot].
    { destruct keys as [|k ks]; [by exists 0|]. exists (key_slot (rcfg cfg) k). constructor; [done|].
      apply andb_false_iff in Hx as [Hl%Z.ltb_ge|Hc]; [|by apply CrossSlot_false in Hc].
      unfold argc in Hl. destruct ks; [constructor|]. cbn [length] in Hl. lia. }
    destruct (cmdExec_ok cfg Hcfg Hlim slot d' (mkRedis d data) q w) as (w' & [] & E' & v & Hout & Hv); try done.
    + destruct Hg. by split.
    + by apply Hone.
    + exists w', tt. split; [done|].
      assert (idle (wSess w')) as Hi by (exact (wp_done _ _ _ _ _ (idle_cmdExec w (conj Hp Hw)) E')).
      destruct Hv as [(data' & vs & Hv & Ht & Hr)|(Hv & Hfr & Hvw & Hr)].
      * exists (mkClient d' None), data', v. split_and!; [rewrite Hv; by eapply CExec|by apply (related_good (mkRedis d' data'))|apply Hr|done].
      * exists (mkClient d' None), data, v. split_and!; [|by apply (related_good (mkRedis d' data))|apply Hr|done].
        eapply CExecAborted; [done| |by destruct v|right; symmetry; by apply queue_ok_db].
        intros slot2 (d2 & Hq2). cbn [clDB clQueue default from_option id] in Hq2.
        destruct (cmdExec_ok cfg Hcfg Hlim slot2 d2 (mkRedis d data) q w) as (w2 & [] & E2 & v2 & Hout2 & Hv2); try done.
        { destruct Hg. by split. }
        rewrite E' in E2. injection E2 as <-. rewrite Hout in Hout2. apply app_inj_tail in Hout2 as [_ <-].
        destruct Hv2 as [(data' & vs & Hvs & _)|(_ & Hf & _)]; [|done]. by destruct v; injection Hvs as -> -> -> -> ->.
Qed.

(** ** Queueing *)

Lemma does_queue data argv ch raw d q d1 d2 w :
  good_client (mkClient d (Some q)) (wSess w) -> stores lim data (view (wNet w)) ->
  queue_ok d q d1 -> queue_ok d1 [argv] d2 -> queues lim argv ->
  wpt (handle cfg ch argv raw) (fun _ w' => client_does data (mkClient d (Some q)) argv w w') w.
Proof.
  intros Hg Hst Hq Hx Hqs. pose proof (gc_multi _ _ Hg) as (Hm & Hqd & _). unfold wpt.
  rewrite (queue_one cfg _ d1 argv [] d2 ch raw w Hx) by (destruct Hg; by split_and!).
  eexists _, tt. split; [done|]. rewrite Hqd.
  refine (does_reply data _ (mkClient d (Some (q ++ [argv]))) argv w _ queued_reply Hst _ eq_refl (CQueue _ _ _ _ _ _ Hqs)).
  apply (good_txn d (Some q) _ (Some (q ++ [argv])) Hg). intros l [= <-]. exists d2. by eapply queue_ok_snoc.
Qed.

Lemma does_select data a0 n ch raw d q w :
  good_client (mkClient d (Some q)) (wSess w) -> stores lim data (view (wNet w)) ->
  cmd_name [a0; n] = B "SELECT" -> client_ok [a0; n] ->
  wpt (handle cfg ch [a0; n] raw) (fun _ w' => client_does data (mkClient d (Some q)) [a0; n] w w') w.
Proof.
  intros Hg Hst Hn Hok. destruct (db_index lim (content n)) as [i|] eqn:Hi.
  - pose proof (gc_multi _ _ Hg) as (_ & _ & d1 & Hq). eapply (does_queue data _ ch raw d q d1 i w); [done..| |].
    + eapply QueueSelect; [done|done|done|constructor].
    + left. by exists a0, n, i.
  - unfold handle. apply wpt_get. rewrite (gc_sub _ _ Hg). change (command_name [a0; n]) with (cmd_name [a0; n]).
    rewrite bool_decide_true by done. unfold cmdSelect. apply wpt_get. rewrite (gc_authed _ _ Hg).
    change (argc [a0; n] =? 2) with true. cbn [negb]. change (arg [a0; n] 1) with (content n).
    pose proof (ParseDBIndex_index cfg (content n)) as Hp. rewrite Hi in Hp.
    destruct (ParseDBIndex (content n) (MaxDatabases cfg)) as [e|i']; [|done]. apply wpt_reply.
    apply does_reply with (c' := mkClient d (Some q)); [done|done|by destruct e|].
    eapply CQueueBad; [done|done|done|apply DBIndexError_error].
Qed.

(** ** Every command *)

Lemma client_sim data ch argv raw c w :
  good_client c (wSess w) -> stores lim data (view (wNet w)) -> client_ready data ch argv raw c ->
  wpt (handle cfg ch argv raw) (fun _ w' => client_does data c argv w w') w.
Proof.
  intros Hg Hst Hrdy. revert Hg. destruct Hrdy as [d Hr|a0 d q -> Hn|a0 n d q -> Hn Hok|cm d q Hd Hc Hk Hok]; intros Hg.
  - by apply does_plain.
  - apply str_in_true in Hn as (x & Hx & Hn). repeat destruct Hx as [<-|Hx]; [by apply does_multi|by apply does_exec|by apply does_discard|done].
  - by apply does_select.
  - pose proof (gc_multi _ _ Hg) as (_ & _ & d1 & Hq). pose proof (queue_ok_db _ _ _ Hq) as Hdb. cbn [clDB] in *. rewrite Hdb in Hk.
    eapply (does_queue data argv ch raw d q d1 d1 w); [done..| |right; by exists cm].
    eapply QueueData; [done|done|done|done|done|constructor].
Qed.

(** ** Interleavings *)

Record turn := mkTurn { tuClient : nat; tuChoices : choices; tuArgv : list slice; tuRaw : bytes }.

Definition px_serve (t : turn) (p : proxy W C) : option (proxy W C) :=
  serve_client cfg (tuClient t) (tuChoices t) (tuArgv t) (tuRaw t) p.

(** EXEC of the client whose turn it is can be refused now. *)
Definition may_abort (s : server) (p : proxy W C) (i : nat) : Prop :=
  exists c x, svClients s !! i = Some c ∧ pxClients p !! i = Some x ∧ refusable c (client_world p x).

(** The proxy and the server, turn by turn; [out] are the replies with their clients. *)
Inductive lockstep : proxy W C -> server -> list turn -> proxy W C -> server -> list (nat * value) -> Prop :=
| LockNil p s : lockstep p s [] p s []
| LockCons p s t l p1 s1 v p2 s2 out :
    px_serve t p = Some p1 -> server_step lim (may_abort s p (tuClient t)) s (tuClient t) (tuArgv t) s1 (set_raw [] v) ->
    lockstep p1 s1 l p2 s2 out -> lockstep p s (t :: l) p2 s2 ((tuClient t, v) :: out).

(** Every command is ready when its turn comes, whatever was answered before. *)
Fixpoint ready_turns (s : server) (l : list turn) : Prop :=
  match l with
  | [] => True
  | t :: l =>
      (exists c, svClients s !! tuClient t = Some c
         ∧ client_ready (svData s) (tuChoices t) (tuArgv t) (tuRaw t) c)
      ∧ forall s' v, server_step lim True s (tuClient t) (tuArgv t) s' v -> ready_turns s' l
  end.

(** The replies written to client [i]. *)
Definition written (p : proxy W C) (i : nat) : list value := default [] (snd <$> pxClients p !! i).
Definition replies_of (i : nat) (out : list (nat * value)) : list value := omap (fun r => if Nat.eqb r.1 i then Some r.2 else None) out.

Lemma turn_sim t s p :
  related_all s p ->
  (exists c, svClients s !! tuClient t = Some c ∧ client_ready (svData s) (tuChoices t) (tuArgv t) (tuRaw t) c) ->
  exists p1 s1 v, px_serve t p = Some p1
    ∧ server_step lim (may_abort s p (tuClient t)) s (tuClient t) (tuArgv t) s1 (set_raw [] v)
    ∧ related_all s1 p1 ∧ forall i, written p1 i = written p i ++ replies_of i [(tuClient t, v)].
Proof.
  intros [Hst Hcl] (c & Hc & Hrdy). destruct (Forall2_lookup_l _ _ _ _ _ Hcl Hc) as (x & Hx & Hg).
  destruct (client_sim (svData s) _ _ _ c (client_world p x) Hg Hst Hrdy)
    as (w' & [] & E & c' & data' & v & Hstep & Hg' & Hst' & Hout).
  exists (mkProxy (wRouter w') (wNet w') (<[tuClient t := (wSess w', wOut w')]> (pxClients p))),
    (mkServer data' (<[tuClient t := c']> (svClients s))), v. split_and!.
  - unfold px_serve, serve_client. rewrite Hx. cbn [mbind option_bind]. by rewrite E.
  - eapply server_step_mono; [|exists c, c', data'; split_and!; [exact Hc|exact Hstep|done]].
    intros Hr. exists c, x. by split_and!.
  - split; [done|]. cbn [svClients pxClients]. by apply Forall2_insert.
  - intros i. unfold written, replies_of. cbn [pxClients omap list_omap fst snd]. apply lookup_lt_Some in Hx as Hlt.
    destruct (Nat.eqb_spec (tuClient t) i) as [<-|Hne].
    + rewrite list_lookup_insert_eq, Hx by done. exact Hout.
    + rewrite list_lookup_insert_ne by done. by rewrite app_nil_r.
Qed.

Lemma turns_sim l : forall s p,
  related_all s p -> ready_turns s l ->
  exists p' s' out, lockstep p s l p' s' out ∧ related_all s' p' ∧ length out = length l
    ∧ forall i, written p' i = written p i ++ replies_of i out.
Proof.
  induction l as [|t l IH]; intros s p Hr Hl.
  { exists p, s, []. split_and!; [constructor|done|done|]. intros i. by rewrite app_nil_r. }
  destruct Hl as [Hrdy Hl]. destruct (turn_sim t s p Hr Hrdy) as (p1 & s1 & v & E & Hstep & Hr1 & Hw1).
  destruct (IH s1 p1 Hr1) as (p2 & s2 & out & Hlk & Hr2 & Hlen & Hw2).
  { eapply Hl, server_step_mono; [|exact Hstep]. done. }
  exists p2, s2, ((tuClient t, v) :: out). split_and!; [by econstructor|done|cbn; by rewrite Hlen|].
  intros i. rewrite Hw2, Hw1, <- app_assoc. f_equal. unfold replies_of. cbn. by destruct (Nat.eqb (tuClient t) i).
Qed.
End Clients.

(** ** Properties *)


(** *** Witness: a transaction with another client's write between its commands *)

Definition two_clients : server := mkServer (fun _ => ∅) [mkClient 0 None; mkClient 0 None].
Definition two_sessions : proxy dcluster bytes :=
  mkProxy demo_router (d_new ∅ None) [(newSession refine_scfg, []); (newSession refine_scfg, [])].
Definition demo_turn (i : nat) (l : list string) : turn := mkTurn i (mkChoices [0]%nat [] 0 0) (cmd l) [].
Definition demo_turns : list turn :=
  [demo_turn 0 ["MULTI"]; demo_turn 0 ["GET"; "{b}a"]; demo_turn 1 ["SET"; "{b}a"; "5"]; demo_turn 0 ["EXEC"]].

Lemma step_others `{!Server} lim abort s i argv s' v j :
  server_step lim abort s i argv s' v -> j ≠ i -> svClients s' !! j = svClients s !! j.
Proof. intros (c & c' & data' & _ & _ & ->) Hj. cbn. by rewrite list_lookup_insert_ne. Qed.

Lemma step_clients `{!Server} lim abort s i argv s' v j :
  server_step lim abort s i argv s' v -> is_Some (svClients s !! j) -> is_Some (svClients s' !! j).
Proof.
  intros (c & c' & data' & _ & _ & ->). cbn. rewrite !lookup_lt_is_Some. by rewrite length_insert.
Qed.

Lemma step_multi `{!Server} lim abort s i a0 s' v d :
  server_step lim abort s i [a0] s' v -> cmd_name [a0] = B "MULTI" -> svClients s !! i = Some (mkClient d None) ->
  svClients s' !! i = Some (mkClient d (Some [])).
Proof.
  intros (c & c' & data' & Hc & Hst & ->) Hn Hi. rewrite Hi in Hc. injection Hc as <-. cbn [svClients].
  rewrite list_lookup_insert_eq by (by eapply lookup_lt_Some). f_equal.
  inversion Hst as [? ? ? Hr|? ? | | | | | | |? ? Hx]; subst; [|done|by rewrite Hn in Hx].
  exfalso. destruct Hr as [? ? ? E|? ? ? E|cm ? Hd Hc|? ? ? ? ? E|? ? ? ? E|? ? ? ? ? E|? ? ? ? ? ? ? E|? ? ? ? ? ? E]; try discriminate E.
  apply decode_client in Hd as (a & E & Hca%client_name); [|done]. injection E as -> _. by rewrite Hn in Hca.
Qed.

Lemma demo_ready : ready_turns refine_scfg two_clients demo_turns.
Proof.
  split; [exists (mkClient 0 None); split; [done|by eapply ReadyControl]|].
  intros s1 v1 H1. pose proof (step_multi _ _ _ _ _ _ _ 0 H1 ltac:(vm_refl) eq_refl) as C0.
  pose proof (step_others _ _ _ _ _ _ _ 1 H1 ltac:(done)) as C1. split.
  { exists (mkClient 0 (Some [])). split; [done|]. eapply ReadyQueue; [vm_refl|done| |apply refine_client_ok; vm_refl].
    constructor; [|constructor]. intros _. vm_refl. }
  intros s2 v2 H2. pose proof (step_others _ _ _ _ _ _ _ 1 H2 ltac:(done)) as C1'.
  pose proof (step_clients _ _ _ _ _ _ _ 0 H2 (ex_intro _ _ C0)) as C0'. split.
  { exists (mkClient 0 None). split; [by etransitivity; [exact C1'|]|]. eapply ReadyPlain. split; [|split; [|by left]].
    - eapply ReadyData; [vm_refl|done| |].
      + constructor; [|constructor]. intros _. vm_refl.
      + unfold completes.
        match goal with |- _ ≡ₚ seq 0 (length ?l) => assert (length l = 1%nat) as -> by vm_refl end. done.
    - apply refine_client_ok. vm_refl. }
  intros s3 v3 H3. split; [|done]. destruct (step_clients _ _ _ _ _ _ _ 0 H3 C0') as [[d q] C].
  exists (mkClient d q). split; [exact C|by eapply ReadyControl].
Qed.

Lemma demo_related : related_all refine_scfg two_clients two_sessions.
Proof.
  split.
  - intros d k _ _. change (@lookup bytes bytes store _ k ∅ = @lookup bytes bytes store _ (loc d k) ∅). by rewrite !lookup_empty.
  - repeat constructor; vm_compute; discriminate.
Qed.


(** The transaction sees the write of the other client. *)
Example clients_run :
  (fun p => map snd (pxClients p)) <$> fold_left (fun p t => p ≫= px_serve refine_scfg t) demo_turns (Some two_sessions)
  = Some [[ok_reply; queued_reply; Array [bulk "5"]]; [ok_reply]].
Proof. vm_refl. Qed.
