(* ===== verification/Pipeline.v ===== *)
(** * internal/proxy/pipeline.go and the read loop of session.go

    Commands that have already arrived are drained into a batch.  A batch of simple commands is sent
    grouped by node: one write per node, then the replies are read in order; the groups run
    concurrently.  A batch with a command that is not simple is handled one command at a time.

    The client's bytes are the [stream] of [Resp]: bytes received and deadlines that expire while
    waiting.  A group takes effect atomically; [fanOrder] is the order in which the groups complete. *)

From Stdlib Require Import ZArith Lia Strings.Byte Permutation.
From stdpp Require Import base list strings numbers option sets gmap.
From S2P Require Import Prelude Resp RespTheory Slot Command VirtualDB Fanout Topology.
From S2P Require Import Router PubSub Session SessionTheory SessionProps SessionTotal.

(** ** Draining *)

Record clientCmd := mkClientCmd { cArgv : list slice; cRaw : bytes }.
Definition cName (c : clientCmd) : bytes := command_name (cArgv c).

Definition maxPipeline (n : Z) : Z := if n <? 1 then 128 else n.

Inductive drained :=
| Drained (batch : list clientCmd) (s : stream)
| DrainErr (e : ioerr)
| DrainPanic.

(** At most [room] more commands.  Without buffered input the next byte is awaited for a
    millisecond; an expiring deadline ends the batch, also in the middle of a command. *)
Fixpoint drain (room : nat) (batch : list clientCmd) (s : stream) : drained :=
  match room with
  | O => Drained batch s
  | S room =>
    match s with
    | [] => Drained batch []
    | Deadline :: s => Drained batch s
    | Got _ :: _ =>
      match ReadValue s with
      | ROk v _ s =>
          match ArrayToArgv v with
          | inl e => DrainErr e
          | inr argv => drain room (batch ++ [mkClientCmd argv (vRaw v)]) s
          end
      | RErr ErrTimeout s => Drained batch s
      | RErr e _ => DrainErr e
      | RPanic | RFuel => DrainPanic
      end
    end
  end.

Definition drainBatch (maxPipe : Z) (first : clientCmd) (s : stream) : drained :=
  drain (Z.to_nat (maxPipeline maxPipe) - 1) [first] s.

(** ** Classification *)

Definition pipelineSlow (name : bytes) (argv : list slice) : bool :=
  IsBlocking argv || str_in name
    ["MULTI"; "EXEC"; "DISCARD"; "WATCH"; "UNWATCH"; "SUBSCRIBE"; "SSUBSCRIBE"; "PSUBSCRIBE";
     "UNSUBSCRIBE"; "SUNSUBSCRIBE"; "PUNSUBSCRIBE"; "PUBLISH"; "SPUBLISH"; "PUBSUB";
     "MOVE"; "COPY"; "FLUSHDB"; "FLUSHALL"; "SWAPDB"; "RANDOMKEY"; "QUIT"].

(** What is left to do for a command: handle it alone, nothing (a local reply), or send it. *)
Record remote := mkRemote { piSlot : Z; piAddr : bytes; piFrame : bytes; piArgv : list slice; piRead : bool }.
Inductive pipeItem :=
| PSlow
| PLocal (v : value)
| PRemote (x : remote).

Section Pipeline.
Context {W C : Type} `{!Network W C} (cfg : SessionConfig).
Implicit Types (c : clientCmd).

(** SELECT in a batch takes effect at once. *)
Definition classify_select (argv : list slice) : M W C pipeItem :=
  s ← get;
  if negb (authed s) then mret (PLocal errNoAuth)
  else if negb (argc argv =? 2) then mret (PLocal (wrong_args "select"))
  else match ParseDBIndex (arg argv 1) (MaxDatabases cfg) with
       | inl e => mret (PLocal (DBIndexError (Some e)))
       | inr n => modify (set_db n);; mret (PLocal ok_reply)
       end.

Definition classify_remote (c : clientCmd) : M W C pipeItem :=
  s ← get;
  '(argv, raw) ← (if 0 <? db s then argv ← lift (RewriteArgv (cArgv c) (db s)); mret (argv, [])
                  else mret (cArgv c, cRaw c));
  keys ← lift (ExtractKeys argv);
  if (1 <? argc keys) && CrossSlot (rcfg cfg) keys then
    if negb (FanoutOf argv ==b FanoutNone) then mret PSlow else mret (PLocal errCross)
  else
    let slot := match keys with k :: _ => key_slot (rcfg cfg) k | [] => 0 end in
    r ← get_router;
    match (match Router_NodeForSlot (rcfg cfg) r slot false with
           | Some n => Some n
           | None => AnyMaster (rcfg cfg) r
           end) with
    | None => mret (PLocal (RError (B "ERR no backend nodes")))
    | Some n =>
        a0 ← lift (index (cArgv c) 0);
        let frame := if Nat.eqb (length raw) 0 || needsRewrite argv then EncodeCommand [] argv else raw in
        mret (PRemote (mkRemote slot (nAddr n) frame argv (KindOf (content a0) ==b KindRead)))
    end.

Definition classifyPipe (c : clientCmd) : M W C pipeItem :=
  s ← get;
  if negb (bool_decide (sub s = None)) || pipelineSlow (cName c) (cArgv c) then mret PSlow
  else if cName c ==b B "SELECT" then classify_select (cArgv c)
  else
    local ← handleLocal cfg (cArgv c);
    match local with
    | Some v => mret (PLocal v)
    | None => classify_remote c
    end.

(** ** The fast path *)

(** Positions and items of the remote commands. *)
Definition remotes (items : list pipeItem) : list (nat * remote) :=
  omap (fun p => match p.2 with PRemote x => Some (p.1, x) | _ => None end) (zip (seq 0 (length items)) items).

(** The addresses in the order of their first item, and the items of one address. *)
Definition pipe_addrs (items : list pipeItem) : list bytes :=
  fold_left (fun o x => if bool_decide (piAddr x.2 ∈ o) then o else o ++ [piAddr x.2]) (remotes items) [].
Definition group_of (items : list pipeItem) (addr : bytes) : list (nat * remote) :=
  filter (fun x => piAddr x.2 = addr) (remotes items).

(** Read a reply for every item of the group. *)
Fixpoint read_replies (c : C) (group : list (nat * remote)) (replies : list value) :
  M W C (list value * option bytes) :=
  match group with
  | [] => mret (replies, None)
  | (i, _) :: rest =>
      res ← conn_read c;
      match res with
      | inl e => mret (replies, Some e)
      | inr v => read_replies c rest (<[i := v]> replies)
      end
  end.

(** Commands answered by a redirect are executed again, through the router. *)
Fixpoint redo (group : list (nat * remote)) (replies : list value) : M W C (list value * option bytes) :=
  match group with
  | [] => mret (replies, None)
  | (i, x) :: rest =>
      if is_redirect (default zeroValue (replies !! i)) then
        res ← exec cfg (piSlot x) (piArgv x) (piRead x);
        match res with
        | inl e => mret (replies, Some e)
        | inr v => redo rest (<[i := v]> replies)
        end
      else redo rest replies
  end.

Definition flushGroup (addr : bytes) (group : list (nat * remote)) (replies : list value) :
  M W C (list value * option bytes) :=
  got ← checkout_addr cfg addr;
  match got with
  | inl e => mret (replies, Some e)
  | inr (c, a) =>
      err ← conn_write c (concat (map (fun x => piFrame x.2) group));
      match err with
      | Some e => conn_drop a c;; mret (replies, Some e)
      | None =>
          res ← read_replies c group replies;
          match res with
          | (replies, Some e) => conn_drop a c;; mret (replies, Some e)
          | (replies, None) => conn_put a c;; redo group replies
          end
      end
  end.

(** The groups in the order of their completion; the first error in that order is kept. *)
Fixpoint flush_all (addrs : list bytes) (items : list pipeItem) (replies : list value)
  (err : option bytes) : M W C (list value * option bytes) :=
  match addrs with
  | [] => mret (replies, err)
  | addr :: rest =>
      '(replies, e) ← flushGroup addr (group_of items addr) replies;
      flush_all rest items replies (match err with Some _ => err | None => e end)
  end.

Definition execFastPipeline (ch : choices) (batch : list clientCmd) (items : list pipeItem) : M W C unit :=
  let addrs := pipe_addrs items in
  let replies := map (fun it => match it with PLocal v => v | _ => zeroValue end) items in
  let order := match addrs with [_] => addrs | _ => omap (fun i => addrs !! i) (fanOrder ch) end in
  '(replies, err) ← flush_all order items replies None;
  match err with
  | Some e => reply_err e
  | None =>
      s ← get;
      reply_all (map (fun p => client_reply (cName p.1) (db s) p.2) (zip batch replies))
  end.

(** ** Batches *)

Fixpoint classify_all (batch : list clientCmd) : M W C (list pipeItem) :=
  match batch with
  | [] => mret []
  | c :: rest => it ← classifyPipe c; its ← classify_all rest; mret (it :: its)
  end.

(** One command at a time. *)
Fixpoint handle_each (ch : choices) (batch : list clientCmd) : M W C unit :=
  match batch with
  | [] => mret tt
  | c :: rest => handle cfg ch (cArgv c) (cRaw c);; handle_each ch rest
  end.

Definition slow_item (it : pipeItem) : bool := match it with PSlow => true | _ => false end.

Definition handleBatch (ch : choices) (batch : list clientCmd) : M W C unit :=
  match batch with
  | [c] => handle cfg ch (cArgv c) (cRaw c)
  | _ =>
      items ← classify_all batch;
      if existsb slow_item items then handle_each ch batch else execFastPipeline ch batch items
  end.

(** ** The session loop

    [chs] are the choices for the successive batches. *)

Fixpoint run_loop (fuel : nat) (maxPipe : Z) (chs : nat -> choices) (s : stream) : M W C unit :=
  match fuel with
  | O => out_of_fuel
  | S fuel =>
    st ← get;
    ctx ← on_net (fun r n => (r, n, net_ctx n));
    if quit st || negb (bool_decide (ctx = None)) then mret tt else
    match ReadValue s with
    | ROk v _ s =>
        match ArrayToArgv v with
        | inl _ => reply (RError (B "ERR protocol error"))
        | inr argv =>
            match drainBatch maxPipe (mkClientCmd argv (vRaw v)) s with
            | Drained batch s =>
                handleBatch (chs (length s)) batch;; run_loop fuel maxPipe chs s
            | DrainErr _ => mret tt
            | DrainPanic => lift Panic
            end
        end
    | RErr _ _ => mret tt
    | RPanic | RFuel => lift Panic
    end
  end.

(** Every round reads at least one event, so this fuel suffices ([run_terminates] below). *)
Definition run (maxPipe : Z) (chs : nat -> choices) (s : stream) : M W C unit :=
  run_loop (S (length s)) maxPipe chs s;; cleanup.
End Pipeline.

(** ** Ownership of connections *)

Section PipelineOwnership.
Context {W C : Type} `{!Network W C} `{!NetworkLaws W C} (cfg : SessionConfig) (base : list C).
Abbreviation own := (own cfg base).
Hint Resolve own_dropPin own_handleLocal : sess.

Lemma own_classifyPipe c : inv (own []) (classifyPipe (W := W) (C := C) cfg c).
Proof. unfold classifyPipe, classify_select, classify_remote. inv_auto. Qed.

Lemma own_classify_all batch : inv (own []) (classify_all (W := W) (C := C) cfg batch).
Proof. pose proof own_classifyPipe. induction batch; cbn [classify_all]; inv_auto. Qed.

Lemma own_read_replies ex c group replies : inv (own ex) (read_replies c group replies).
Proof. revert replies. induction group as [|[i x] group IH]; intros replies; cbn [read_replies]; inv_auto. Qed.

Lemma own_redo ex group replies : inv (own ex) (redo cfg group replies).
Proof. revert replies. induction group as [|[i x] group IH]; intros replies; cbn [redo]; inv_auto. Qed.

Lemma own_flushGroup addr group replies : inv (own []) (flushGroup cfg addr group replies).
Proof.
  apply (hoare_bind _ _ _ _ (fun _ => own []) (own_checkout_addr cfg base [] addr)).
  intros [e|[c a]]; cbn [got_conn]; [apply inv_ret|].
  apply own_bind_inv; [apply own_conn_write|]. intros [e|]; [apply own_drop_bind, inv_ret|].
  apply own_bind_inv; [apply own_read_replies|]. intros [l [e|]]; [apply own_drop_bind, inv_ret|].
  apply own_put_bind, own_redo.
Qed.

Lemma own_flush_all addrs items replies err : inv (own []) (flush_all cfg addrs items replies err).
Proof.
  pose proof own_flushGroup. revert replies err.
  induction addrs as [|addr addrs IH]; intros replies err; cbn [flush_all]; inv_auto.
Qed.

Lemma own_handleBatch ch batch : inv (own []) (handleBatch (W := W) (C := C) cfg ch batch).
Proof.
  pose proof (handle_own cfg base ch). pose proof own_classify_all. pose proof own_flush_all.
  pose proof (own_reply_all cfg base).
  assert (forall b, inv (own []) (handle_each (W := W) (C := C) cfg ch b))
    by (intros b; induction b; cbn [handle_each]; inv_auto).
  unfold handleBatch, execFastPipeline, reply_err. inv_auto.
Qed.

Lemma own_ctx : inv (own []) (on_net (fun (r : Router) (n : W) => (r, n, net_ctx n))).
Proof. apply (own_on_net cfg base [] (fun _ => [])). by intros r n r' n' a [= <- <- <-]. Qed.

Lemma own_run_loop fuel maxPipe chs s : inv (own []) (run_loop (W := W) (C := C) cfg fuel maxPipe chs s).
Proof.
  pose proof own_handleBatch. pose proof own_ctx. revert s. induction fuel; intros s; cbn [run_loop]; inv_auto.
Qed.
End PipelineOwnership.

(** ** The fuel of the session loop *)

Lemma ReadValue_shorter s v raw s' : ReadValue s = ROk v raw s' -> (length s' < length s)%nat.
Proof.
  unfold ReadValue. destruct (readValue (read_fuel s) [] s) as [w r t| | |] eqn:E; try done. intros [= _ _ <-].
  apply readValue_consumes in E as (c & _ & -> & Hc). rewrite length_app. unfold gots. rewrite length_map. lia.
Qed.

Lemma ReadValue_err_shorter s e s' : ReadValue s = RErr e s' -> (length s' <= length s)%nat.
Proof.
  unfold ReadValue. pose proof (proj1 (readValue_shrinks (read_fuel s)) [] s) as H.
  destruct (readValue (read_fuel s) [] s); try done. by intros [= _ <-].
Qed.

Lemma drain_shorter room batch s batch' s' :
  drain room batch s = Drained batch' s' -> (length s' <= length s)%nat.
Proof.
  revert batch s. induction room as [|room IH]; intros batch s; cbn [drain]; [by intros [= _ <-]|].
  destruct s as [|[b|] s]; [by intros [= _ <-]| |intros [= _ <-]; cbn; lia].
  destruct (ReadValue (Got b :: s)) as [v raw t|e t| |] eqn:R; [|destruct e; try done|done|done].
  - destruct (ArrayToArgv v); [done|]. intros H%IH. apply ReadValue_shorter in R. lia.
  - intros [= _ <-]. by apply ReadValue_err_shorter in R.
Qed.

(** ** Termination *)

Section Termination.
Context {W C : Type} `{!Network W C} (cfg : SessionConfig).
Hint Resolve total_reply_err total_reply_all total_dropPin total_handleLocal settles_handle : sess.

Lemma settles_flush_all addrs items replies err : settles (W := W) (C := C) (flush_all cfg addrs items replies err).
Proof.
  assert (forall c g rs, settles (W := W) (C := C) (read_replies c g rs)) as H1.
  { intros c g. induction g as [|[i x] g IH]; intros rs; cbn [read_replies]; settles_auto. }
  assert (forall g rs, settles (W := W) (C := C) (redo cfg g rs)) as H2.
  { intros g. induction g as [|[i x] g IH]; intros rs; cbn [redo]; settles_auto. }
  revert replies err. induction addrs as [|a addrs IH]; intros replies err; cbn [flush_all]; unfold flushGroup; settles_auto.
Qed.
Hint Resolve settles_flush_all : sess.

Lemma settles_handleBatch ch batch :
  scans_end (W := W) (C := C) ch -> settles (W := W) (C := C) (handleBatch cfg ch batch).
Proof.
  intros Hs. assert (forall l, settles (W := W) (C := C) (classify_all cfg l)) as H1.
  { induction l; cbn [classify_all]; unfold classifyPipe, classify_select, classify_remote; settles_auto. }
  assert (forall l, settles (W := W) (C := C) (handle_each cfg ch l)) as H2 by (induction l; cbn [handle_each]; settles_auto).
  unfold handleBatch, execFastPipeline. settles_auto.
Qed.

(** Every round consumes an event. *)
Lemma settles_run_loop maxPipe chs fuel s :
  (length s < fuel)%nat -> (forall i, scans_end (W := W) (C := C) (chs i)) ->
  settles (W := W) (C := C) (run_loop cfg fuel maxPipe chs s).
Proof.
  intros Hs Hc. revert s Hs. induction fuel as [|fuel IH]; intros s Hs; [lia|]. cbn [run_loop].
  apply settles_bind; [settles_auto|intros st]. apply settles_bind; [settles_auto|intros ctx].
  case_if; [settles_auto|]. destruct (ReadValue s) as [v raw s1| | |] eqn:R; [|settles_auto..].
  destruct (ArrayToArgv v) as [e|argv]; [settles_auto|].
  destruct (drainBatch _ _ s1) as [batch s2| |] eqn:D; [|settles_auto..].
  apply ReadValue_shorter in R. apply drain_shorter in D.
  apply settles_bind; [by apply settles_handleBatch|intros _]. apply IH. lia.
Qed.

Lemma total_cleanup : total (W := W) (C := C) cleanup.
Proof. unfold cleanup, resetTxn. total_auto. Qed.
End Termination.

(** ** Replies to a batch *)

Section BatchReplies.
Context {W C : Type} `{!Network W C} (cfg : SessionConfig).
Implicit Types (w : world W C).

(** [m] writes nothing to the client and its result satisfies [P]. *)
Definition silent_with {A} (P : A -> Prop) (m : M W C A) : Prop :=
  forall w, wp m (fun a w' => wOut w' = wOut w ∧ P a) w.

Lemma silent_bind {A B} (P : A -> Prop) (Q : B -> Prop) (m : M W C A) (f : A -> M W C B) :
  silent_with P m -> (forall a, P a -> silent_with Q (f a)) -> silent_with Q (m ≫= f).
Proof.
  intros Hm Hf w. apply wp_bind. eapply wp_mono, Hm. cbv beta. intros a w' [<- Ha]. by apply Hf.
Qed.
Lemma silent_ret {A} (P : A -> Prop) a : P a -> silent_with P (mret a).
Proof. by intros H w. Qed.
Lemma silent_quiet {A} (m : M W C A) : quiet m -> silent_with (fun _ => True) m.
Proof. intros H w. eapply wp_mono, (H (wOut w)); done. Qed.

Lemma classify_all_length batch :
  silent_with (fun items => length items = length batch) (classify_all cfg batch).
Proof.
  induction batch as [|c batch IH]; cbn [classify_all]; [by apply silent_ret|].
  eapply silent_bind; [apply silent_quiet; intros o|intros it _].
  { pose proof (quiet_handleLocal (W := W) (C := C) cfg).
    unfold classifyPipe, classify_select, classify_remote. inv_auto. }
  eapply silent_bind; [apply IH|]. intros items H. apply silent_ret. cbn. by rewrite H.
Qed.

Lemma read_replies_length c group replies :
  silent_with (fun res => length res.1 = length replies) (read_replies c group replies).
Proof.
  revert replies. induction group as [|[i x] group IH]; intros replies; cbn [read_replies]; [by apply silent_ret|].
  eapply silent_bind; [apply silent_quiet; intros o; inv_auto|]. intros [e|v] _; [by apply silent_ret|].
  rewrite <- (length_insert replies i v). apply IH.
Qed.

Lemma redo_length group replies :
  silent_with (fun res => length res.1 = length replies) (redo cfg group replies).
Proof.
  revert replies. induction group as [|[i x] group IH]; intros replies; cbn [redo]; [by apply silent_ret|].
  case_if; [|apply IH]. eapply silent_bind; [apply silent_quiet; intros o; inv_auto|].
  intros [e|v] _; [by apply silent_ret|]. rewrite <- (length_insert replies i v). apply IH.
Qed.

Lemma flushGroup_length addr group replies :
  silent_with (fun res => length res.1 = length replies) (flushGroup cfg addr group replies).
Proof.
  unfold flushGroup. eapply silent_bind; [apply silent_quiet; intros o; inv_auto|].
  intros [e|[c a]] _; [by apply silent_ret|].
  eapply silent_bind; [apply silent_quiet; intros o; inv_auto|]. intros [e|] _.
  { eapply silent_bind; [apply silent_quiet; intros o; inv_auto|]. intros _ _. by apply silent_ret. }
  eapply silent_bind; [apply read_replies_length|]. intros [l [e|]] Hl; cbn in Hl;
    (eapply silent_bind; [apply silent_quiet; intros o; inv_auto|]; intros _ _).
  - by apply silent_ret.
  - rewrite <- Hl. apply redo_length.
Qed.

Lemma flush_all_length addrs items replies err :
  silent_with (fun res => length res.1 = length replies) (flush_all cfg addrs items replies err).
Proof.
  revert replies err. induction addrs as [|addr addrs IH]; intros replies err; cbn [flush_all]; [by apply silent_ret|].
  eapply silent_bind; [apply flushGroup_length|]. intros [l e] Hl. cbn in Hl. rewrite <- Hl. apply IH.
Qed.

Lemma reply_all_out vs w : wp (reply_all vs) (fun _ w' => wOut w' = wOut w ++ vs) w.
Proof.
  revert w. induction vs as [|v vs IH]; intros w; cbn [reply_all]; [apply wp_ret; by rewrite app_nil_r|].
  apply wp_bind. unfold wp at 1, reply. eapply wp_mono, IH. cbn. intros _ w' ->. by rewrite <- app_assoc.
Qed.

Lemma execFastPipeline_replies ch batch items w :
  length items = length batch ->
  wp (execFastPipeline cfg ch batch items) (fun _ w' => exists vs, wOut w' = wOut w ++ vs
    ∧ ((length vs = length batch ∧ Forall shown vs) ∨ exists e, vs = [RError (B "ERR " ++ e)])) w.
Proof.
  intros Hl. unfold execFastPipeline. cbv zeta. apply wp_bind. eapply wp_mono, flush_all_length.
  intros [replies err] w1 [H1 H2]. cbn [fst] in H2. rewrite length_map, Hl in H2. rewrite <- H1.
  destruct err as [e|]; [exists [RError (B "ERR " ++ e)]; split; [done|right; by exists e]|].
  apply wp_get. eapply wp_mono, reply_all_out. cbv beta. intros _ w2 H3. eexists. split; [exact H3|left].
  rewrite length_map, length_zip. split; [lia|]. apply Forall_map, list.Forall_forall. intros p _. apply client_reply_shown.
Qed.
End BatchReplies.

(** ** Groups *)

Section Groups.
Implicit Types (items : list pipeItem).

Lemma addrs_fold (l : list (nat * remote)) o :
  NoDup o ->
  let o' := fold_left (fun o x => if bool_decide (piAddr x.2 ∈ o) then o else o ++ [piAddr x.2]) l o in
  NoDup o' ∧ forall a, a ∈ o' <-> a ∈ o ∨ exists x, x ∈ l ∧ piAddr x.2 = a.
Proof.
  revert o. induction l as [|x l IH]; intros o Ho; cbn [fold_left].
  { split; [done|]. intros a. split; [by left|]. intros [?|(x & []%elem_of_nil & _)]; done. }
  cbv zeta in IH. case_bool_decide as E.
  - destruct (IH o Ho) as [H1 H2]. split; [done|]. intros a. rewrite H2. split.
    + intros [?|(y & Hy & Ha)]; [by left|right; exists y; split; [by right|done]].
    + intros [?|(y & [->|Hy]%elem_of_cons & Ha)]; [by left|left; by rewrite <- Ha|right; by exists y].
  - destruct (IH (o ++ [piAddr x.2])) as [H1 H2].
    { apply NoDup_app. split_and!; [done| |apply NoDup_singleton]. intros a Ha ->%list_elem_of_singleton. done. }
    split; [done|]. intros a. rewrite H2, elem_of_app, list_elem_of_singleton. split.
    + intros [[?| ->]|(y & Hy & Ha)]; [by left|right; exists x; split; [by left|done]|].
      right. exists y. split; [by right|done].
    + intros [?|(y & [->|Hy]%elem_of_cons & Ha)]; [by left; left|left; right; done|right; by exists y].
Qed.

Lemma pipe_addrs_spec items :
  NoDup (pipe_addrs items)
  ∧ forall a, a ∈ pipe_addrs items <-> exists x, x ∈ remotes items ∧ piAddr x.2 = a.
Proof.
  destruct (addrs_fold (remotes items) []) as [H1 H2]; [constructor|]. split; [done|].
  intros a. unfold pipe_addrs. rewrite H2, elem_of_nil. naive_solver.
Qed.

(** Filtering by each of a list of distinct values that covers all elements is a permutation. *)
Lemma concat_filter_perm {A} (key : A -> bytes) (ks : list bytes) (l : list A) :
  NoDup ks -> (forall x, x ∈ l -> key x ∈ ks) ->
  concat (map (fun k => filter (fun x => key x = k) l) ks) ≡ₚ l.
Proof.
  intros Hn. induction l as [|x l IH]; intros Hl.
  { clear. induction ks; [done|]. done. }
  assert (key x ∈ ks) as (k1 & k2 & ->)%list_elem_of_split by (apply Hl; by left).
  assert (forall ks', key x ∉ ks' -> map (fun k => filter (fun y => key y = k) (x :: l)) ks'
    = map (fun k => filter (fun y => key y = k) l) ks') as Hskip.
  { intros ks' Hk. apply map_ext_in. intros k Hin. apply list_elem_of_In in Hin. rewrite filter_cons.
    case_decide as E; [|done]. by rewrite E in Hk. }
  apply NoDup_app in Hn as (_ & Hd & Hn2). apply NoDup_cons in Hn2 as [Hx _].
  rewrite !map_app, !concat_app in *. cbn [map concat] in *.
  rewrite !Hskip by (done || (intros Hk; by apply (Hd _ Hk); left)).
  rewrite filter_cons, decide_True by done. cbn [app]. rewrite <- Permutation_middle. constructor.
  apply IH. intros y Hy. apply Hl. by right.
Qed.
End Groups.

(** ** One group *)

(** The next values read from [c] are [vs]. *)
Fixpoint reads {W C} `{!Network W C} (c : C) (n : W) (vs : list value) (n' : W) : Prop :=
  match vs with
  | [] => n' = n
  | v :: vs => exists n1, net_read n c = (n1, inr v) ∧ reads c n1 vs n'
  end.

(** The values stored at the positions of the group. *)
Definition fill (ix : list nat) (vs replies : list value) : list value :=
  fold_left (fun l p => <[p.1 := p.2]> l) (zip ix vs) replies.

Lemma fill_length ix vs replies : length (fill ix vs replies) = length replies.
Proof.
  unfold fill. revert replies. induction (zip ix vs) as [|[i v] l IH]; intros replies; [done|].
  cbn. by rewrite IH, length_insert.
Qed.

Lemma fill_other ix vs replies j : j ∉ ix -> fill ix vs replies !! j = replies !! j.
Proof.
  unfold fill. revert vs replies. induction ix as [|i ix IH]; intros [|v vs] replies Hj; cbn; try done.
  apply not_elem_of_cons in Hj as [Hne Hj]. rewrite IH by done. by rewrite list_lookup_insert_ne.
Qed.

Lemma fill_at ix vs replies k i v :
  NoDup ix -> ix !! k = Some i -> vs !! k = Some v -> (i < length replies)%nat ->
  fill ix vs replies !! i = Some v.
Proof.
  unfold fill. revert vs replies k. induction ix as [|j ix IH]; intros [|u vs] replies k Hn Hi Hv Hl; try done.
  apply NoDup_cons in Hn as [Hj Hn]. cbn. destruct k as [|k]; cbn in Hi, Hv.
  - injection Hi as ->. injection Hv as ->. pose proof (fill_other ix vs (<[i := v]> replies) i Hj) as H.
    unfold fill in H. rewrite H. by rewrite list_lookup_insert_eq.
  - apply (IH vs _ k); [done..|]. by rewrite length_insert.
Qed.

Lemma remotes_NoDup items : NoDup (map fst (remotes items)).
Proof.
  unfold remotes. generalize (seq 0 (length items)) as ix, (NoDup_seq 0 (length items)).
  intros ix Hn. revert items. induction Hn as [|i ix Hi _ IH]; intros [|it items]; cbn; try constructor.
  destruct it; cbn; try apply IH. constructor; [|apply IH].
  intros (y & E & (p & Hp & Hy)%list_elem_of_omap)%list_elem_of_fmap.
  destruct p as [j it], it; cbn in Hy; simplify_eq. cbn in Hi. by apply elem_of_zip_l in Hp.
Qed.

Lemma group_NoDup items addr : NoDup (map fst (group_of items addr)).
Proof.
  pose proof (remotes_NoDup items) as H. unfold group_of. revert H. generalize (remotes items) as l.
  induction l as [|x l IH]; intros H; [constructor|]. cbn in H. apply NoDup_cons in H as [Hx H].
  rewrite filter_cons. case_decide; [|by apply IH]. cbn. constructor; [|by apply IH].
  intros (y & E & [_ Hy]%list_elem_of_filter)%list_elem_of_fmap. apply Hx. rewrite E. by apply list_elem_of_fmap_2.
Qed.

Lemma remotes_lt items : Forall (fun p => p.1 < length items)%nat (remotes items).
Proof.
  apply list.Forall_forall. intros y (p & Hp & Hy)%list_elem_of_omap. destruct p as [j it], it; cbn in Hy; simplify_eq.
  apply elem_of_zip_l, elem_of_seq in Hp. cbn. lia.
Qed.

Section OneGroup.
Context {W C : Type} `{!Network W C} (cfg : SessionConfig).

Lemma read_replies_ok c group replies vs n' (w : world W C) :
  length vs = length group -> reads c (wNet w) vs n' ->
  read_replies c group replies w
  = SOk (mkWorld (wSess w) (wRouter w) n' (wOut w)) (fill (map fst group) vs replies, None).
Proof.
  revert vs replies w. induction group as [|[i x] group IH]; intros [|v vs] replies w Hl Hr; try done.
  - cbn in *. subst n'. by destruct w.
  - cbn [read_replies]. destruct Hr as (n1 & E & Hr). unfold conn_read, on_net, mbind, M_bind. rewrite E.
    by rewrite (IH vs) by first [by injection Hl|done].
Qed.

Lemma redo_none group replies (w : world W C) :
  Forall (fun p => is_redirect (default zeroValue (replies !! p.1)) = false) group ->
  redo cfg group replies w = SOk w (replies, None).
Proof. induction 1 as [|[i x] group H _ IH]; [done|]. cbn [redo]. cbn in H. by rewrite H. Qed.
End OneGroup.

(** ** Properties *)

Section PipelineProperties.
Context {W C : Type} `{!Network W C} (cfg : SessionConfig).


(** The groups of a batch.  Every command that has to be sent is in the group of its node, no
    node has two groups, and within a group the commands keep the order of the batch. *)
Theorem pipe_groups (items : list pipeItem) :
  NoDup (pipe_addrs items)
  ∧ concat (map (group_of items) (pipe_addrs items)) ≡ₚ remotes items
  ∧ forall addr, group_of items addr `sublist_of` remotes items.
Proof.
  destruct (pipe_addrs_spec items) as [H1 H2]. split_and!; [done| |].
  - apply (concat_filter_perm (fun x => piAddr x.2)); [done|]. intros x Hx. apply H2. by exists x.
  - intros addr. apply sublist_filter.
Qed.

(** Every pipelined command gets the reply of its position.  When the node answers the group's
    single write with one value per command, none of them a redirect, the k-th value becomes the
    reply of the k-th command of the group, no other reply changes, and the connection is returned. *)
Theorem flushGroup_replies (items : list pipeItem) (addr : bytes) (replies vs : list value)
  (w : world W C) (c : C) (n1 n2 n3 : W)
  (Hl : length replies = length items)
  (Hg : net_get (wNet w) (rewrite_addr (rcfg cfg) addr) = (n1, inr c))
  (Hw : net_write n1 c (concat (map (fun x => piFrame x.2) (group_of items addr))) = (n2, None))
  (Hr : reads c n2 vs n3) (Hn : length vs = length (group_of items addr))
  (Hv : Forall (fun v => is_redirect v = false) vs) :
  exists w' out, flushGroup cfg addr (group_of items addr) replies w = SOk w' (out, None)
  ∧ wNet w' = net_put n3 (rewrite_addr (rcfg cfg) addr) c ∧ wSess w' = wSess w
  ∧ (forall k i x v, group_of items addr !! k = Some (i, x) -> vs !! k = Some v -> out !! i = Some v)
  ∧ forall i, i ∉ map fst (group_of items addr) -> out !! i = replies !! i.
Proof.
  set (group := group_of items addr) in *. set (out := fill (map fst group) vs replies).
  assert (forall k i x v, group !! k = Some (i, x) -> vs !! k = Some v -> out !! i = Some v) as Hat.
  { intros k i x v Hk Hvk. eapply (fill_at _ _ _ k); [apply group_NoDup| |done|].
    - change (map ?f ?l) with (f <$> l). by rewrite list_lookup_fmap, Hk.
    - rewrite Hl. pose proof (remotes_lt items) as Hlt. rewrite list.Forall_forall in Hlt.
      apply list_elem_of_lookup_2, list_elem_of_filter in Hk as [_ Hk]. by apply (Hlt (i, x)). }
  exists (mkWorld (wSess w) ((poolFor (rcfg cfg) (wRouter w) addr false).1)
            (net_put n3 (rewrite_addr (rcfg cfg) addr) c) (wOut w)), out.
  split_and!; [|done|done|done|].
  - unfold flushGroup, checkout_addr, on_net, mbind, M_bind. rewrite CheckoutAddr_eq, Hg.
    unfold conn_write, on_net. cbn [wNet wRouter wSess wOut]. rewrite Hw.
    rewrite (read_replies_ok c group replies vs n3) by done. unfold conn_put, on_net. cbn [wNet wRouter wSess wOut].
    apply redo_none. apply list.Forall_forall. intros [i x] Hin.
    apply list_elem_of_lookup_1 in Hin as [k Hk].
    destruct (lookup_lt_is_Some_2 vs k) as [v Hvk]; [rewrite Hn; by eapply lookup_lt_Some|].
    cbn. rewrite (Hat k i x v Hk Hvk). cbn. rewrite list.Forall_forall in Hv. apply Hv. by eapply list_elem_of_lookup_2.
  - intros i Hi. by apply fill_other.
Qed.


(** C32: sessions end.  If the cursors of the cluster's scans come back to 0 (within the fuel given to
    FLUSHDB), the session of a client that sends finitely many bytes ends: its loop reads at least one
    event per round and never runs out of fuel. *)
Theorem run_terminates (maxPipe : Z) (chs : nat -> choices) (s : stream) (w : world W C)
  (Hc : forall i, scans_end (W := W) (C := C) (chs i)) :
  run cfg maxPipe chs s w ≠ SFuel.
Proof.
  apply settles_bind; [|intros []; apply settles_total, total_cleanup]. apply settles_run_loop; [lia|done].
Qed.
End PipelineProperties.

(** ** Witnesses and examples *)

Definition demo_client (l : list (list string)) : stream := gots (concat (map (fun c => EncodeCommand [] (cmd c)) l)).
Definition demo_batch (l : list (list string)) : list clientCmd := map (fun c => mkClientCmd (cmd c) []) l.

(** A pipelined batch after MULTI is executed, not queued. *)
Example pipeline_ignores_multi :
  match handleBatch open_scfg demo_choices (demo_batch [["SET"; "a"; "1"]; ["GET"; "a"]])
          (demo_txn [] [inr ok_reply; inr (bulk "1")]) with
  | SOk w' _ => (multi (wSess w'), queued (wSess w'), wOut w') = (true, [], [ok_reply; bulk "1"])
  | _ => False
  end.
Proof. vm_refl. Qed.

(** In a batch handled one by one, a SELECT takes effect before the commands in front of it. *)
Example slow_batch_selects_early :
  match handleBatch open_scfg demo_choices (demo_batch [["SET"; "k"; "v"]; ["SELECT"; "1"]; ["MULTI"]])
          (demo_world open_scfg [inr ok_reply]) with
  | SOk w' _ => map snd (sent (wNet w')) = [EncodeCommand [] (cmd ["SET"; "db1:k"; "v"])]
  | _ => False
  end.
Proof. vm_refl. Qed.

(** When a group fails, two commands get one reply. *)
Example batch_error_one_reply :
  match handleBatch open_scfg demo_choices (demo_batch [["GET"; "a"]; ["GET"; "b"]])
          (demo_world open_scfg [inr (bulk "1"); inl (B "timeout")]) with
  | SOk w' _ => wOut w' = [RError (B "ERR timeout")]
  | _ => False
  end.
Proof. vm_refl. Qed.

(** The first command of a batch is not executed when the next bytes are not a command. *)
Example drain_error_loses_commands :
  match run open_scfg 128 (fun _ => demo_choices) (demo_client [["SET"; "a"; "1"]] ++ gots (B "?" ++ CRLF))
          (demo_world open_scfg [inr ok_reply]) with
  | SOk w' _ => (sent (wNet w'), wOut w') = ([], [])
  | _ => False
  end.
Proof. vm_refl. Qed.


Definition demo_items : list pipeItem :=
  [PRemote (mkRemote 7 (B "s1:1") (B "f1") [] true); PLocal ok_reply;
   PRemote (mkRemote 8 (B "s1:1") (B "f2") [] true)].

Lemma flushGroup_replies_witness :
  exists w' out, flushGroup open_scfg (B "s1:1") (group_of demo_items (B "s1:1"))
      [zeroValue; ok_reply; zeroValue] (demo_world open_scfg [inr (Integer 1); inr (Integer 2)]) = SOk w' (out, None)
  ∧ out !! 2%nat = Some (Integer 2) ∧ out !! 1%nat = Some ok_reply.
Proof.
  destruct (@flushGroup_replies script bytes script_network open_scfg demo_items (B "s1:1") [zeroValue; ok_reply; zeroValue]
    [Integer 1; Integer 2] (demo_world open_scfg [inr (Integer 1); inr (Integer 2)]) (B "s1:1")
    (mkScript [inr (Integer 1); inr (Integer 2)] [B "s1:1"] [])
    (mkScript [inr (Integer 1); inr (Integer 2)] [B "s1:1"] [(B "s1:1", B "f1f2")])
    (mkScript [] [B "s1:1"] [(B "s1:1", B "f1f2")])
    eq_refl ltac:(vm_refl) ltac:(vm_refl) ltac:(by repeat eexists) ltac:(vm_refl) ltac:(by repeat constructor))
    as (w' & out & H1 & _ & _ & H2 & H3).
  exists w', out. split; [exact H1|]. split.
  - exact (H2 1%nat 2%nat (mkRemote 8 (B "s1:1") (B "f2") [] true) (Integer 2) ltac:(vm_refl) eq_refl).
  - apply (H3 1%nat). assert (map fst (group_of demo_items (B "s1:1")) = [0; 2]%nat) as -> by vm_refl. set_solver.
Defined.


(** A cluster that cannot be reached. *)
Definition dead_network : Network unit unit :=
  {| net_ctx := fun _ => None; net_get := fun w _ => (w, inl (B "dial"));
     net_write := fun w _ _ => (w, Some (B "EOF")); net_read := fun w _ => (w, inl (B "EOF"));
     net_put := fun w _ _ => w; net_drop := fun w _ _ => w |}.

Lemma run_terminates_witness :
  @run unit unit dead_network open_scfg 128 (fun _ => demo_choices) (demo_client [["SELECT"; "1"]; ["FLUSHDB"]; ["GET"; "a"]])
    (mkWorld (newSession open_scfg) demo_router tt []) ≠ SFuel.
Proof.
  apply (@run_terminates unit unit dead_network open_scfg 128 (fun _ => demo_choices)
    (demo_client [["SELECT"; "1"]; ["FLUSHDB"]; ["GET"; "a"]]) (mkWorld (newSession open_scfg) demo_router tt [])).
  intros i c pat w. cbn. discriminate.
Defined.
