(* ===== verification/Batches.v ===== *)
(** * Pipelined batches in front of the cluster

    The commands of a batch are sent grouped by node, one write per node, and the commands a node does
    not serve are executed again through the router.  So they are executed in another order than the
    client sent them.  [Pipelined] says what a node does with several commands of one write, and what
    it means that slots do not move meanwhile ([steady]).  [batch_refines] shows that the order does not
    matter: the batch is a run of the server with databases of [Databases.redis], command by command,
    whatever the slot map says and in whatever order the nodes answer.  [session_refines] carries this
    through the session loop, from the bytes of the client. *)

From Stdlib Require Import ZArith Lia Strings.Byte Permutation.
From stdpp Require Import base list strings numbers option sets gmap fin_maps.
From S2P Require Import Prelude Resp RespTheory Slot Command VirtualDB Fanout FanoutTheory Topology Router Cluster Databases Reorder.
From S2P Require Import PubSub Session SessionTheory SessionProps Refinement Transactions Pipeline.

(** ** Nodes that answer pipelined commands *)

(** The commands one at a time, on one connection. *)
Fixpoint do_all {W C : Type} `{!Network W C} (w : W) (c : C) (argvs : list (list slice)) : option (W * list value) :=
  match argvs with
  | [] => Some (w, [])
  | argv :: argvs =>
      match net_cmd w c argv with
      | (w, inr v) => '(w, vs) ← do_all w c argvs; Some (w, v :: vs)
      | (_, inl _) => None
      end
  end.

(** [steady w]: slots do not move, and none is being migrated.  [pl_block]: commands sent in one write
    are executed, and answered, as if sent one after the other. *)
Class Pipelined (W C : Type) `{!Network W C} `{!Server} (cfg : RouterConfig) `{!Cluster W C cfg} := {
  steady : W -> Prop;
  kept (w w' : W) : Prop := steady w' ∧ forall s, place w' s = place w s;
  st_asks w argv : steady w -> asks w argv = None;
  st_get w a w' r : steady w -> net_get w a = (w', r) -> kept w w';
  st_write w c f w' r : steady w -> net_write w c f = (w', r) -> kept w w';
  st_read w c w' r : steady w -> net_read w c = (w', r) -> kept w w';
  st_put w a c : steady w -> kept w (net_put w a c);
  st_drop w a c : steady w -> kept w (net_drop w a c);
  pl_next w c argv rc w' r :
    sendable argv -> decode argv = Some rc -> txn w c = None -> net_cmd w c argv = (w', inr r) ->
    txn w' c = None ∧ asking w' c = false;
  pl_block w c argvs w' vs :
    Forall (fun argv => sendable argv ∧ is_Some (decode argv)) argvs -> txn w c = None ->
    do_all w c argvs = Some (w', vs) ->
    exists w1 w2, net_write w c (concat (map (EncodeCommand []) argvs)) = (w1, None)
      ∧ reads c w1 vs w2 ∧ view w2 = view w' }.

Lemma Forall2_elem_zip {A B} (R : A -> B -> Prop) l k : Forall2 R l k -> forall x y, (x, y) ∈ zip l k -> R x y.
Proof.
  induction 1 as [|x0 y0 l k H0 _ IH]; intros x y; cbn; [by intros ?%elem_of_nil|].
  intros [[= -> ->]|Hin]%elem_of_cons; [done|by apply IH].
Qed.

Section Batches.
Context {W C : Type} `{!Network W C} `{!Server} (cfg : SessionConfig) `{!Cluster W C (rcfg cfg)}.
Context `{!Pipelined W C (rcfg cfg)} (Hcfg : cluster_cfg (rcfg cfg)).
Local Abbreviation slotFn := (SlotOf (rcfg cfg)).
Local Abbreviation lim := (db_limit cfg).
Context (Hlim : lim <= 2^63).
Implicit Types (w : world W C).

(** ** Steadiness *)

Lemma kept_refl (n : W) : steady n -> kept n n.
Proof. by split. Qed.
Lemma kept_trans (n1 n2 n3 : W) : kept n1 n2 -> kept n2 n3 -> kept n1 n3.
Proof. intros [_ H1] [H2 H3]. split; [done|]. intros s. by rewrite H3. Qed.

Lemma st_do (n : W) c f n' r : steady n -> net_do n c f = (n', r) -> kept n n'.
Proof.
  intros Hs. unfold net_do. destruct (net_write n c f) as [n1 [e|]] eqn:E; intros E2.
  - injection E2 as <- <-. by eapply st_write.
  - pose proof (st_write _ _ _ _ _ Hs E) as K. eapply kept_trans; [exact K|]. eapply st_read; [apply K|exact E2].
Qed.

Lemma reads_kept c vs : forall n n', steady n -> reads c n vs n' -> kept n n'.
Proof.
  induction vs as [|v vs IH]; intros n n' Hs; cbn [reads]; [intros ->; by apply kept_refl|].
  intros (n1 & E & Hr). pose proof (st_read _ _ _ _ Hs E) as K. eapply kept_trans; [exact K|].
  apply IH; [apply K|done].
Qed.

Lemma hop_kept payload (h : hopst W) res :
  steady (hNet h) -> hop (rcfg cfg) payload h = Ret res ->
  kept (hNet h) (match res with HDone _ n _ => n | HMore h' => hNet h' end).
Proof.
  intros Hs. unfold hop. rewrite cl_ctx. destruct (hop_addr _ h) as [addr|]; [|intros [= <-]; by apply kept_refl].
  destruct (poolFor _ _ _ _) as [r a]. destruct (net_get (hNet h) a) as [n1 [e|c]] eqn:E1;
    pose proof (st_get _ _ _ _ Hs E1) as K1; [by intros [= <-]|].
  destruct (if hAsking h then net_cmd n1 c [BS "ASKING"] else (n1, inr zeroValue)) as [n2 asked] eqn:E2.
  assert (kept (hNet h) n2) as K2.
  { eapply kept_trans; [exact K1|]. destruct (hAsking h); [eapply st_do; [apply K1|exact E2]|].
    injection E2 as <- _. by apply kept_refl, K1. }
  destruct asked as [e|x]; [intros [= <-]; eapply kept_trans; [exact K2|apply st_drop, K2]|].
  destruct (net_do n2 c payload) as [n3 [e|v]] eqn:E3;
    pose proof (kept_trans _ _ _ K2 (st_do _ _ _ _ _ (proj1 K2) E3)) as K3.
  { intros [= <-]. eapply kept_trans; [exact K3|apply st_drop, K3]. }
  pose proof (kept_trans _ _ _ K3 (st_put n3 a c (proj1 K3))) as K4. unfold after_reply.
  destruct (negb (IsError v)); [by intros [= <-]|]. destruct (ParseRedirect _) as [red|]; [|by intros [= <-]].
  destruct (rKind red ==b B "MOVED"); [|by intros [= <-]]. destruct (UpdateSlot _ _ _ _); [|done]. by intros [= <-].
Qed.

Lemma hops_kept fuel payload : forall (h : hopst W) r n res,
  steady (hNet h) -> hops (rcfg cfg) fuel payload h = Ret (r, n, res) -> kept (hNet h) n.
Proof.
  induction fuel as [|fuel IH]; intros h r n res Hs; cbn [hops]; [intros [= _ <- _]; by apply kept_refl|].
  destruct (hop (rcfg cfg) payload h) as [[r1 n1 x|h']|] eqn:E; [| |done]; cbn [mbind outcome_bind];
    pose proof (hop_kept _ _ _ Hs E) as K.
  - by intros [= _ <- _].
  - intros E2. eapply kept_trans; [exact K|]. eapply IH; [apply K|exact E2].
Qed.

Lemma exec_kept slot argv read w w' res :
  steady (wNet w) -> exec cfg slot argv read w = SOk w' res -> kept (wNet w) (wNet w').
Proof.
  intros Hs. unfold exec, on_net, exec_frame, execFrame.
  destruct (hops _ _ _ _) as [[[r n] x]|] eqn:E; intros [= <- _]; cbn [wNet].
  - by apply hops_kept in E.
  - by apply kept_refl.
Qed.

(** ** One group *)

(** A command of the fast path. *)
Definition remote_ok (x : remote) : Prop :=
  exists rc, decode (piArgv x) = Some rc ∧ sendable (piArgv x) ∧ client_cmd rc = true
    ∧ in_slot slotFn (piSlot x) (cmd_keys rc) ∧ piFrame x = EncodeCommand [] (piArgv x).

Definition item_cmd (p : nat * remote) : rcmd := default (CMget []) (decode (piArgv p.2)).
Definition item_slot (p : nat * remote) : Z := piSlot p.2.

Lemma item_cmd_ok p rc : decode (piArgv p.2) = Some rc -> item_cmd p = rc.
Proof. unfold item_cmd. by intros ->. Qed.

Lemma is_redirect_data v : no_redirect v -> is_redirect v = false.
Proof.
  intros Hn. destruct (no_redirect_followed v (set_raw [] v)) as [H1|H1]; [by destruct v|done|..]; unfold is_redirect; rewrite H1.
  - done.
  - by rewrite andb_false_r.
Qed.
Local Abbreviation play := (play item_cmd).
Local Abbreviation of_slot := (of_slot item_slot).

(** The node at [a] owns the slot of the command. *)
Definition served (a : bytes) (n : W) (p : nat * remote) : Prop :=
  a = rewrite_addr (rcfg cfg) (place n (item_slot p)).
#[local] Instance served_dec a n p : Decision (served a n p).
Proof. unfold served. apply _. Defined.

Lemma served_kept a n n' : kept n n' -> forall p, served a n' p <-> served a n p.
Proof. intros [_ Hp] p. unfold served. by rewrite Hp. Qed.

Definition remotes_ok (g : list (nat * remote)) : Prop := Forall (fun p => remote_ok p.2) g.

(** A node is given one command: it executes it, or refers to the owner. *)
Lemma do_one c n p :
  remote_ok p.2 -> steady n -> txn n c = None -> asking n c = false ->
  exists n' v, net_cmd n c (piArgv p.2) = (n', inr v) ∧ kept n n' ∧ txn n' c = None ∧ asking n' c = false
  ∧ (served (node c) n p -> is_redirect v = false ∧ exists e, (view n', set_raw [] v) = Cluster.run e (item_cmd p) (view n))
  ∧ (~ served (node c) n p -> is_redirect v = true ∧ view n' = view n).
Proof.
  intros (rc & Hd & Hs & _ & Hk & _) Hst Htx Ha. rewrite (item_cmd_ok p rc Hd).
  assert (exists n' v, net_cmd n c (piArgv p.2) = (n', inr v)
    ∧ (served (node c) n p -> is_redirect v = false ∧ exists e, (view n', set_raw [] v) = Cluster.run e rc (view n))
    ∧ (~ served (node c) n p -> is_redirect v = true ∧ view n' = view n)) as (n' & v & E & H1 & H2).
  { destruct (decide (served (node c) n p)) as [Hv|Hv].
    - destruct (cl_run n c (piArgv p.2) rc (piSlot p.2) Hs Hd Hk Htx) as (e & n' & v & E & Hx).
      { left. split; [by apply st_asks|exact Hv]. }
      exists n', v. split_and!; [done| |done]. intros _. split; [|by exists e].
      apply is_redirect_data. destruct (run_reply e rc (view n)) as [_ Hn]. rewrite <- Hx in Hn. by destruct v.
    - destruct (cl_moved n c (piArgv p.2) rc (piSlot p.2) Hs Hd Hk Htx Ha) as (n' & v & E & (Hw & _) & Hx); [exact Hv|].
      exists n', v. split_and!; [done|done|]. intros _. split; [|done]. unfold is_redirect.
      destruct (redirect_parses (rcfg cfg) rc (piSlot p.2) Hk "MOVED" (place n (piSlot p.2)) v) as [-> ->];
        [done|apply place_addr|done|done]. }
  exists n', v. destruct (pl_next _ _ _ _ _ _ Hs Hd Htx E) as [T1 T2].
  split_and!; [done|by eapply st_do|done..].
Qed.

(** The replies of a pass over [g], without the redirects. *)
Definition pass_replies (a : bytes) (n : W) (g : list (nat * remote)) (vs : list value) : list ((nat * remote) * value) :=
  map (fun pv => (pv.1, set_raw [] pv.2)) (filter (fun pv => served a n pv.1) (zip g vs)).

Lemma pass_kept a n n' g vs : kept n n' -> pass_replies a n' g vs = pass_replies a n g vs.
Proof.
  intros Hk. unfold pass_replies. f_equal. apply list_filter_iff. intros pv. by apply served_kept.
Qed.

Lemma do_group c g : forall n,
  remotes_ok g -> steady n -> txn n c = None -> asking n c = false ->
  exists n' vs l, do_all n c (map (fun p => piArgv p.2) g) = Some (n', vs) ∧ kept n n'
    ∧ Forall2 (fun p v => is_redirect v = negb (bool_decide (served (node c) n p))) g vs
    ∧ map snd l = filter (served (node c) n) g
    ∧ play l (view n) = (view n', pass_replies (node c) n g vs).
Proof.
  induction g as [|p g IH]; intros n Hok Hst Htx Ha.
  { exists n, [], []. split_and!; [done|by apply kept_refl|constructor|done|done]. }
  apply list.Forall_cons in Hok as [Hp Hok].
  destruct (do_one c n p Hp Hst Htx Ha) as (n1 & v & E & K1 & T1 & A1 & Hsv & Hmv).
  destruct (IH n1 Hok (proj1 K1) T1 A1) as (n2 & vs & l & E2 & K2 & Hf & Hl & Hp2).
  rewrite (pass_kept _ _ _ _ _ K1) in Hp2. rewrite (list_filter_iff _ _ g (served_kept (node c) _ _ K1)) in Hl.
  assert (do_all n c (map (fun p => piArgv p.2) (p :: g)) = Some (n2, v :: vs)) as Ed
    by (cbn [map do_all]; rewrite E; by rewrite E2).
  assert (Forall2 (fun p v => is_redirect v = negb (bool_decide (served (node c) n p))) g vs) as Hf'.
  { eapply Forall2_impl; [exact Hf|]. intros q u ->. f_equal. apply bool_decide_ext, (served_kept _ _ _ K1). }
  assert (pass_replies (node c) n (p :: g) (v :: vs) = (if decide (served (node c) n p) then [(p, set_raw [] v)] else [])
    ++ pass_replies (node c) n g vs) as Hpass
    by (unfold pass_replies; cbn [zip_with zip]; rewrite filter_cons; cbn [fst]; case_decide; done).
  rewrite filter_cons. destruct (decide (served (node c) n p)) as [Hv|Hv].
  - destruct (Hsv Hv) as [Hr (e & Hx)]. exists n2, (v :: vs), ((e, p) :: l).
    split_and!; [done|by eapply kept_trans| |cbn; by rewrite Hl|].
    + constructor; [by rewrite Hr, bool_decide_true|done].
    + rewrite play_cons, <- Hx, Hpass. cbn [fst snd app]. by rewrite Hp2.
  - destruct (Hmv Hv) as [Hr Hx]. exists n2, (v :: vs), l. rewrite Hx in Hp2.
    split_and!; [done|by eapply kept_trans| |done|by rewrite Hpass].
    constructor; [by rewrite Hr, bool_decide_false|done].
Qed.

(** ** Redirected commands *)

(** [replies] has the values of [out] at their positions. *)
Definition agrees (replies : list value) (out : list ((nat * remote) * value)) : Prop :=
  Forall (fun pv => exists v, replies !! pv.1.1 = Some v ∧ set_raw [] v = pv.2) out.

Definition positions (g : list (nat * remote)) : list nat := map fst g.

Definition refused (replies : list value) (g : list (nat * remote)) : list (nat * remote) :=
  filter (fun p => is_redirect (default zeroValue (replies !! p.1)) = true) g.

Lemma refused_insert i v replies g : i ∉ positions g -> refused (<[i := v]> replies) g = refused replies g.
Proof.
  intros Hi. unfold refused. induction g as [|p g IH]; [done|]. apply not_elem_of_cons in Hi as [Hp Hi].
  rewrite !filter_cons, list_lookup_insert_ne by done. by rewrite IH.
Qed.

Lemma positions_filter (P : nat * remote -> Prop) `{!forall p, Decision (P p)} g i :
  i ∈ positions (filter P g) -> i ∈ positions g.
Proof.
  intros (p & -> & [_ Hp]%list_elem_of_filter)%list_elem_of_fmap. by apply list_elem_of_fmap_2.
Qed.

Lemma positions_inj g p q : NoDup (positions g) -> p ∈ g -> q ∈ g -> p.1 = q.1 -> p = q.
Proof.
  intros Hn [i Hi]%list_elem_of_lookup [j Hj]%list_elem_of_lookup E.
  assert (i = j) as ->; [|congruence]. eapply (NoDup_lookup (positions g)); [done|..]; unfold positions;
    change (map fst g) with (fst <$> g); rewrite list_lookup_fmap.
  - by rewrite Hi.
  - rewrite Hj. cbn. by rewrite E.
Qed.

Lemma redo_ok g : forall replies w,
  remotes_ok g -> steady (wNet w) -> NoDup (positions g) -> Forall (fun i => i < length replies)%nat (positions g) ->
  wpt (redo cfg g replies) (fun res w' => exists replies' l, res = (replies', None) ∧ keeps w w' ∧ kept (wNet w) (wNet w')
    ∧ map snd l = refused replies g ∧ view (wNet w') = (play l (view (wNet w))).1
    ∧ length replies' = length replies ∧ agrees replies' (play l (view (wNet w))).2
    ∧ forall j, j ∉ positions (refused replies g) -> replies' !! j = replies !! j) w.
Proof.
  induction g as [|p g IH]; intros replies w Hok Hst Hn Hlt; cbn [redo].
  { apply wpt_ret. exists replies, []. split_and!; try done. constructor. }
  destruct p as [i x]. apply list.Forall_cons in Hok as [Hx Hok]. apply NoDup_cons in Hn as [Hi Hn].
  apply list.Forall_cons in Hlt as [Hli Hlt]. unfold refused. rewrite filter_cons. cbn [fst].
  destruct (is_redirect (default zeroValue (replies !! i))) eqn:Er; [rewrite decide_True by done|rewrite decide_False by done].
  2: { by apply IH. }
  pose proof Hx as (rc & Hd & Hs & _ & Hk & _). apply wpt_bind.
  destruct (exec_runs cfg Hcfg (piArgv x) rc (piSlot x) (piSlot x) (piRead x) w Hs Hd Hk)
    as (w1 & res & E & Hw1 & v & e & -> & Hv & Hview).
  pose proof (exec_kept _ _ _ _ _ _ Hst E) as K1. exists w1, (inr v). split; [done|].
  eapply wpt_mono; [apply (IH (<[i := v]> replies)); [done|apply K1|done|]|].
  { rewrite length_insert. done. }
  intros res w2 (replies' & l & -> & Hw2 & K2 & Hl & Hv2 & Hlen & Hag & Hot).
  rewrite refused_insert in Hl, Hot by done. exists replies', ((e, (i, x)) :: l). rewrite play_cons.
  rewrite (item_cmd_ok (i, x) rc Hd). cbn [fst snd]. rewrite <- Hview, <- Hv.
  split_and!; [done|by eapply keeps_trans|by eapply kept_trans|cbn; by rewrite Hl|done|by rewrite Hlen, length_insert| |].
  - constructor; [|done]. exists v. split; [|done]. cbn [fst]. rewrite Hot.
    + by rewrite list_lookup_insert_eq.
    + intros Hj. by apply Hi, (positions_filter _ _ _ Hj).
  - intros j [Hj1 Hj2]%not_elem_of_cons. cbn [fst] in Hj1. rewrite Hot by done. by rewrite list_lookup_insert_ne.
Qed.
(** ** Groups *)

(** What was executed is [g], possibly in another order of its slots. *)
Definition slotwise (l : list (Z * (nat * remote))) (g : list (nat * remote)) : Prop :=
  forall s, of_slot s (map snd l) = of_slot s g.

Lemma of_slot_filter (Q : Z -> Prop) `{!forall s, Decision (Q s)} g s :
  of_slot s (filter (fun p => Q (item_slot p)) g) = if decide (Q s) then of_slot s g else [].
Proof.
  unfold Reorder.of_slot. induction g as [|p g IH]; [by case_decide|]. rewrite !filter_cons.
  destruct (decide (item_slot p = s)) as [Hs|Hs]; (destruct (decide (Q (item_slot p))) as [Hq|Hq]; [rewrite filter_cons|]).
  - rewrite decide_True by done. rewrite IH. subst s. by rewrite !decide_True.
  - rewrite IH. subst s. by rewrite !decide_False.
  - by rewrite decide_False.
  - done.
Qed.

Lemma split_slotwise (Q : Z -> Prop) `{!forall s, Decision (Q s)} g s :
  of_slot s (filter (fun p => Q (item_slot p)) g ++ filter (fun p => ~ Q (item_slot p)) g) = of_slot s g.
Proof.
  pose proof (of_slot_filter Q g s) as H1. pose proof (of_slot_filter (fun s => ~ Q s) g s) as H2.
  unfold Reorder.of_slot in *. rewrite filter_app. etransitivity; [apply (f_equal2 app H1 H2)|].
  destruct (decide (Q s)); [rewrite decide_False by tauto|rewrite decide_True by done]; [by rewrite app_nil_r|done].
Qed.

(** The effect of sending [g]: all of it is executed, and [replies] has its replies. *)
Definition flushed (g : list (nat * remote)) (replies : list value) w (res : list value * option bytes) w' : Prop :=
  exists replies' l, res = (replies', None) ∧ keeps w w' ∧ kept (wNet w) (wNet w') ∧ slotwise l g
    ∧ view (wNet w') = (play l (view (wNet w))).1 ∧ agrees replies' (play l (view (wNet w))).2
    ∧ length replies' = length replies ∧ forall j, j ∉ positions g -> replies' !! j = replies !! j.

Lemma fill_group g vs replies :
  NoDup (positions g) -> Forall (fun i => i < length replies)%nat (positions g) -> length vs = length g ->
  Forall2 (fun p v => fill (positions g) vs replies !! p.1 = Some v) g vs.
Proof.
  intros Hn Hlt Hl. apply Forall2_same_length_lookup. split; [done|]. intros k p v Hp Hv.
  assert (positions g !! k = Some p.1) as Hk by (unfold positions; change (map ?f ?l) with (f <$> l); by rewrite list_lookup_fmap, Hp).
  eapply fill_at; [done|exact Hk|exact Hv|]. rewrite list.Forall_forall in Hlt. apply Hlt. by eapply list_elem_of_lookup_2.
Qed.

Lemma refused_pass a n g vs replies :
  Forall2 (fun p v => is_redirect v = negb (bool_decide (served a n p))) g vs ->
  Forall2 (fun p v => replies !! p.1 = Some v) g vs ->
  refused replies g = filter (fun p => ~ served a n p) g.
Proof.
  unfold refused. induction 1 as [|p v g vs Hr _ IH]; intros Hf; [done|]. apply Forall2_cons in Hf as [Hp Hf].
  rewrite !filter_cons, Hp. cbn [default from_option id]. rewrite Hr, (IH Hf).
  case_bool_decide; by repeat case_decide.
Qed.

Lemma flushGroup_ok addr g replies w :
  remotes_ok g -> steady (wNet w) -> NoDup (positions g) -> Forall (fun i => i < length replies)%nat (positions g) ->
  wpt (flushGroup cfg addr g replies) (fun res w' => flushed g replies w res w') w.
Proof.
  intros Hok Hst Hn Hlt. unfold flushGroup. set (a := rewrite_addr (rcfg cfg) addr).
  destruct (cl_get (wNet w) a) as (n1 & c & Hg & Hnode & Hask & Htx & Sv & _).
  pose proof (st_get _ _ _ _ Hst Hg) as K1.
  destruct (do_group c g n1 Hok (proj1 K1) Htx Hask) as (nd & vs & l1 & Ed & _ & Hf2 & Hl1 & Hplay).
  destruct (pl_block n1 c (map (fun p => piArgv p.2) g) nd vs) as (n2 & n3 & Hwr & Hrd & Hv3); [|done|done|].
  { apply list.Forall_fmap. eapply list.Forall_impl; [exact Hok|]. intros p (rc & Hd & Hs & _). cbn. by rewrite Hd. }
  pose proof (kept_trans _ _ _ K1 (st_write _ _ _ _ _ (proj1 K1) Hwr)) as K2.
  pose proof (kept_trans _ _ _ K2 (reads_kept _ _ _ _ (proj1 K2) Hrd)) as K3.
  pose proof (kept_trans _ _ _ K3 (st_put n3 a c (proj1 K3))) as K4.
  assert (length vs = length g) as Hlen by (symmetry; by eapply Forall2_length).
  set (replies1 := fill (positions g) vs replies). pose proof (fill_group g vs replies Hn Hlt Hlen) as Hfill.
  fold replies1 in Hfill. rewrite Hnode in *.
  set (w3 := mkWorld (wSess w) (poolFor (rcfg cfg) (wRouter w) addr false).1 (net_put n3 a c) (wOut w)).
  assert (Forall (fun i => i < length replies1)%nat (positions g)) as Hlt1 by (unfold replies1; by rewrite fill_length).
  destruct (redo_ok g replies1 w3 Hok (proj1 K4) Hn Hlt1)
    as (w4 & res & E4 & replies' & l2 & -> & Hk4 & K5 & Hl2 & Hv4 & Hlen4 & Hag & Hot).
  exists w4, (replies', None). split.
  { unfold checkout_addr, on_net, mbind, M_bind. rewrite CheckoutAddr_eq. fold a. rewrite Hg.
    unfold conn_write, on_net. cbn [wNet wRouter wSess wOut].
    assert (map (fun x => piFrame x.2) g = map (EncodeCommand []) (map (fun p => piArgv p.2) g)) as ->.
    { rewrite map_map. apply map_ext_in. intros p Hp%list_elem_of_In. unfold remotes_ok in Hok. rewrite list.Forall_forall in Hok.
      by destruct (Hok p Hp) as (rc & _ & _ & _ & _ & ->). }
    rewrite Hwr. rewrite (read_replies_ok c g replies vs n3) by done. unfold conn_put, on_net. exact E4. }
  assert (view (wNet w3) = (play l1 (view (wNet w))).1) as Hvw.
  { cbn [w3 wNet]. destruct (cl_put n3 a c) as [-> _]. by rewrite Hv3, <- Sv, Hplay. }
  exists replies', (l1 ++ l2). rewrite play_app. cbn [fst snd]. rewrite <- Hvw.
  split_and!; [done|done|by eapply kept_trans| |done| |rewrite Hlen4; apply fill_length|].
  - intros s. rewrite map_app, Hl1, Hl2, (refused_pass a n1 g vs replies1 Hf2 Hfill).
    rewrite <- (split_slotwise (fun s => a = rewrite_addr (rcfg cfg) (place n1 s)) g s).
    by f_equal.
  - apply Forall_app. split; [|done]. rewrite <- Sv, Hplay. cbn [snd]. unfold pass_replies.
    apply list.Forall_fmap, list.Forall_forall. intros [p v] [Hsv Hin]%list_elem_of_filter. cbn [fst snd compose] in *.
    exists v. split; [|done]. rewrite Hot.
    + exact (Forall2_elem_zip _ _ _ Hfill p v Hin).
    + rewrite (refused_pass a n1 g vs replies1 Hf2 Hfill). intros (q & Hpq & [Hq Hqg]%list_elem_of_filter)%list_elem_of_fmap.
      apply elem_of_zip_l in Hin. by rewrite (positions_inj g p q Hn Hin Hqg Hpq) in Hsv.
  - intros j Hj. rewrite Hot; [by apply fill_other|]. intros Hj'. by apply Hj, (positions_filter _ _ _ Hj').
Qed.

(** ** All groups *)

Definition groups (addrs : list bytes) (items : list pipeItem) : list (nat * remote) :=
  concat (map (group_of items) addrs).

Lemma groups_elem addrs items p : p ∈ groups addrs items <-> p ∈ remotes items ∧ piAddr p.2 ∈ addrs.
Proof.
  unfold groups. induction addrs as [|a addrs IH]; cbn [map concat].
  - split; [by intros ?%elem_of_nil|by intros [_ ?%elem_of_nil]].
  - rewrite elem_of_app, IH, elem_of_cons. unfold group_of. rewrite list_elem_of_filter. tauto.
Qed.

Lemma slotwise_app l1 l2 g1 g2 : slotwise l1 g1 -> slotwise l2 g2 -> slotwise (l1 ++ l2) (g1 ++ g2).
Proof. intros H1 H2 s. unfold slotwise, Reorder.of_slot in *. by rewrite map_app, !filter_app, H1, H2. Qed.

Lemma group_part items a p : p ∈ group_of items a <-> piAddr p.2 = a ∧ p ∈ remotes items.
Proof. unfold group_of. by rewrite list_elem_of_filter. Qed.

Lemma flush_all_ok addrs items : forall replies w,
  remotes_ok (remotes items) -> steady (wNet w) -> NoDup addrs -> length replies = length items ->
  wpt (flush_all cfg addrs items replies None) (fun res w' => flushed (groups addrs items) replies w res w') w.
Proof.
  induction addrs as [|a addrs IH]; intros replies w Hok Hst Hn Hlen; cbn [flush_all].
  { apply wpt_ret. exists replies, []. split_and!; try done. constructor. }
  apply NoDup_cons in Hn as [Ha Hn]. apply wpt_bind. eapply wpt_mono; [apply flushGroup_ok|].
  - unfold remotes_ok in *. rewrite list.Forall_forall in Hok |- *. intros p [_ Hp]%group_part. by apply Hok.
  - done.
  - apply group_NoDup.
  - rewrite Hlen. apply list.Forall_forall. intros i (p & -> & [_ Hp]%group_part)%list_elem_of_fmap.
    pose proof (remotes_lt items) as Hlt. rewrite list.Forall_forall in Hlt. by apply Hlt.
  - intros res w1 (r1 & l1 & -> & Hk1 & K1 & Hs1 & Hv1 & Hag1 & Hlen1 & Hot1).
    eapply wpt_mono; [apply (IH r1 w1 Hok (proj1 K1) Hn); by rewrite Hlen1|].
    intros res w2 (r2 & l2 & -> & Hk2 & K2 & Hs2 & Hv2 & Hag2 & Hlen2 & Hot2).
    exists r2, (l1 ++ l2). rewrite play_app. cbn [fst snd]. rewrite <- Hv1.
    split_and!; [done|by eapply keeps_trans|by eapply kept_trans|by apply slotwise_app|done| |congruence|].
    + apply Forall_app. split; [|done]. unfold agrees in *. rewrite list.Forall_forall in Hag1 |- *.
      intros pv Hpv. destruct (Hag1 pv Hpv) as (v & Hv & Hx). exists v. split; [|done]. rewrite Hot2; [done|].
      intros (q & Hq & [Hqr Hqa]%groups_elem)%list_elem_of_fmap. apply Ha.
      assert (pv.1 ∈ group_of items a) as [<- Hpr]%group_part.
      { apply (of_slot_elem item_slot (map snd l1)); [done|]. rewrite <- (play_fst item_cmd l1 (view (wNet w))).
        by apply list_elem_of_fmap_2. }
      by rewrite (positions_inj (remotes items) pv.1 q (remotes_NoDup items) Hpr Hqr Hq).
    + intros j Hj. unfold groups in Hj. cbn [map concat] in Hj. unfold positions in Hj. rewrite map_app, not_elem_of_app in Hj.
      destruct Hj as [Hj1 Hj2]. by rewrite Hot2, Hot1.
Qed.

(** ** The replies of the batch *)

Definition to_item (it : pipeItem) : execItem :=
  match it with
  | PLocal v => ItemLocal v
  | PRemote x => ItemArgv (piArgv x)
  | PSlow => ItemLocal zeroValue
  end.

Definition remote_at (p : nat * pipeItem) : option (nat * remote) :=
  match p.2 with PRemote x => Some (p.1, x) | _ => None end.

Lemma remotes_shift items : forall k,
  omap remote_at (zip (seq (S k) (length items)) items)
  = map (fun p => (S p.1, p.2)) (omap remote_at (zip (seq k (length items)) items)).
Proof. induction items as [|it items IH]; intros k; [done|]. destruct it; cbn; by rewrite <- IH. Qed.

Lemma remotes_cons it items :
  remotes (it :: items)
  = match it with PRemote x => [(0%nat, x)] | _ => [] end ++ map (fun p => (S p.1, p.2)) (remotes items).
Proof.
  change (remotes (it :: items)) with (omap remote_at (zip (seq 0 (length (it :: items))) (it :: items))).
  change (remotes items) with (omap remote_at (zip (seq 0 (length items)) items)).
  rewrite <- remotes_shift. by destruct it.
Qed.

Lemma remotes_lookup items : forall p, p ∈ remotes items -> items !! p.1 = Some (PRemote p.2).
Proof.
  induction items as [|it items IH]; intros p; [by intros ?%elem_of_nil|].
  rewrite remotes_cons. intros [Hp|(q & -> & Hq)%list_elem_of_fmap]%elem_of_app; [|exact (IH q Hq)].
  destruct it; [by apply elem_of_nil in Hp..|]. by apply list_elem_of_singleton in Hp as ->.
Qed.

Lemma run_seq_length es q m : length (run_seq es q m).2 = length q.
Proof.
  revert es m. induction q as [|c q IH]; intros es m; [done|]. cbn [run_seq].
  destruct (Cluster.run _ c m) as [m1 v]. specialize (IH (tail es) m1). destruct (run_seq (tail es) q m1). cbn in *. by rewrite IH.
Qed.

Lemma run_seq_shown es q m : Forall no_redirect (run_seq es q m).2.
Proof.
  revert es m. induction q as [|c q IH]; intros es m; [constructor|]. cbn [run_seq].
  pose proof (run_reply (default 0 (head es)) c m) as [_ Hv]. destruct (Cluster.run _ c m) as [m1 v].
  specialize (IH (tail es) m1). destruct (run_seq (tail es) q m1). by constructor.
Qed.

Lemma agrees_shift r replies l vs :
  agrees (r :: replies) (zip (map (fun p => (S p.1, p.2)) l) vs) -> agrees replies (zip l vs).
Proof.
  unfold agrees. revert vs. induction l as [|p l IH]; intros [|v vs]; cbn [map zip_with zip]; try done.
  intros [Hp Hl]%list.Forall_cons. constructor; [exact Hp|by apply IH].
Qed.

(** The replies at the positions of the items. *)
Lemma merge_replies items : forall replies vs,
  length replies = length items -> Forall (fun it => it ≠ PSlow) items ->
  (forall i v, items !! i = Some (PLocal v) -> replies !! i = Some v ∧ vRaw v = []) ->
  length vs = length (remotes items) -> agrees replies (zip (remotes items) vs) -> Forall no_redirect vs ->
  map (set_raw []) replies = merge_items (map to_item items) vs
  ∧ Forall2 (fun it r => match it with PRemote _ => no_redirect r | PLocal v => r = v | PSlow => True end) items replies.
Proof.
  induction items as [|it items IH]; intros [|r replies] vs Hl Hns Hloc Hlv Hag Hnr; try done.
  injection Hl as Hl. apply list.Forall_cons in Hns as [Hit Hns]. rewrite remotes_cons in Hag, Hlv.
  assert (forall i v, items !! i = Some (PLocal v) -> replies !! i = Some v ∧ vRaw v = []) as Hloc'
    by (intros i v Hi; apply (Hloc (S i) v Hi)).
  destruct it as [|v|x]; [done|..]; cbn [app] in Hag, Hlv.
  - destruct (Hloc 0%nat v eq_refl) as [Hv Hraw]. injection Hv as ->. apply agrees_shift in Hag.
    rewrite length_map in Hlv. destruct (IH replies vs Hl Hns Hloc' Hlv Hag Hnr) as [H1 H2].
    cbn [map to_item merge_items]. split; [by rewrite H1, raw_nil|by constructor].
  - destruct vs as [|v vs]; [done|]. cbn [length] in Hlv. rewrite length_map in Hlv. injection Hlv as Hlv.
    apply list.Forall_cons in Hag as [(r' & Hr & Hx) Hag]. apply list.Forall_cons in Hnr as [Hv Hnr].
    injection Hr as <-. apply agrees_shift in Hag. cbn [snd] in Hx.
    destruct (IH replies vs Hl Hns Hloc' Hlv Hag Hnr) as [H1 H2].
    cbn [map to_item merge_items]. split; [by rewrite H1, Hx|]. constructor; [|done]. subst v. by destruct r.
Qed.

(** ** The fast path *)

(** The node the router chooses for a slot. *)
Definition slot_addr (r : Router) (slot : Z) : option bytes :=
  nAddr <$> (match Router_NodeForSlot (rcfg cfg) r slot false with Some n => Some n | None => AnyMaster (rcfg cfg) r end).

Lemma slot_addr_Some r slot : exists a, slot_addr r slot = Some a.
Proof.
  unfold slot_addr. destruct (Router_NodeForSlot _ _ _ _) as [n|]; [by eexists|]. unfold AnyMaster.
  destruct (FirstMaster _) as [n|]; [by eexists|]. pose proof (cc_seeds _ Hcfg). destruct (ClusterSeeds (rcfg cfg)); [done|].
  by eexists.
Qed.

(** A command of a batch and what it was classified as, with the router [r]. *)
Definition fast_item (r : Router) (c : clientCmd) (it : pipeItem) : Prop :=
  match it with
  | PLocal v => v = ok_reply ∧ cName c = B "SELECT"
  | PRemote x => str_in (cName c) data_names = true ∧ remote_ok x ∧ slot_addr r (piSlot x) = Some (piAddr x)
  | PSlow => False
  end.

Lemma fast_remotes r batch items :
  Forall2 (fast_item r) batch items ->
  Forall (fun p => remote_ok p.2 ∧ slot_addr r (piSlot p.2) = Some (piAddr p.2)) (remotes items).
Proof.
  induction 1 as [|c it batch items Hf _ IH]; [constructor|]. rewrite remotes_cons. apply Forall_app. split.
  - destruct it; [constructor..|]. constructor; [apply Hf|constructor].
  - apply list.Forall_fmap. eapply list.Forall_impl; [exact IH|]. done.
Qed.

Lemma fast_independent r batch items : Forall2 (fast_item r) batch items -> independent item_slot item_cmd (remotes items).
Proof.
  intros Hf%fast_remotes. rewrite list.Forall_forall in Hf. split.
  - apply list.Forall_forall. intros p Hp. destruct (Hf p Hp) as [(rc & Hd & _ & Hc & _) _]. by rewrite (item_cmd_ok p rc).
  - intros p q Hp Hq Hne. destruct (Hf p Hp) as [(rc & Hd & _ & _ & [_ Hk] & _) _].
    destruct (Hf q Hq) as [(rc' & Hd' & _ & _ & [_ Hk'] & _) _]. unfold disjoint_cmds. rewrite (item_cmd_ok p rc), (item_cmd_ok q rc') by done.
    intros x (a & Ha & Hxa)%elem_of_key_set (b & Hb & Hxb)%elem_of_key_set. apply Hne.
    rewrite list.Forall_forall in Hk, Hk'. unfold item_slot. rewrite <- (Hk a Ha), <- (Hk' b Hb).
    unfold slot_of_key. by rewrite Hxa, Hxb.
Qed.

(** The order in which the groups are answered. *)
Definition group_order (ch : choices) (items : list pipeItem) : list bytes :=
  match pipe_addrs items with [_] => pipe_addrs items | _ => omap (fun i => pipe_addrs items !! i) (fanOrder ch) end.

Lemma omap_lookup_seq {A} (l : list A) : forall n, (length l <= n)%nat -> omap (fun i => l !! i) (seq 0 n) = l.
Proof.
  induction l as [|x l IH]; intros n Hn.
  - induction (seq 0 n) as [|i ix IHi]; [done|]. cbn. exact IHi.
  - destruct n as [|n]; [cbn in Hn; lia|]. cbn [length] in Hn. transitivity (x :: omap (fun i => l !! i) (seq 0 n)); [|by rewrite IH by lia].
    cbn [seq omap list_omap lookup list_lookup]. f_equal. rewrite <- seq_shift.
    generalize (seq 0 n) as ix. induction ix as [|i ix IHi]; [done|]. cbn. destruct (l !! i); by rewrite <- IHi.
Qed.

Lemma group_order_perm ch items n :
  fanOrder ch ≡ₚ seq 0 n -> (length (pipe_addrs items) <= n)%nat -> group_order ch items ≡ₚ pipe_addrs items.
Proof.
  intros Ho Hn. assert (omap (fun i => pipe_addrs items !! i) (fanOrder ch) ≡ₚ pipe_addrs items) as Hp
    by (rewrite Ho; by rewrite omap_lookup_seq).
  unfold group_order. by destruct (pipe_addrs items) as [|a [|b l]].
Qed.

Lemma client_reply_fast r d c it v :
  fast_item r c it -> match it with PRemote _ => no_redirect v | PLocal u => v = u | PSlow => True end ->
  client_reply (cName c) d v = v.
Proof.
  destruct it as [|u|x]; [done|..].
  - intros [-> Hn] ->. rewrite Hn. unfold client_reply, StripReplyKeys. by destruct (d <=? 0).
  - intros (Hn & _) Hv. by apply client_reply_data.
Qed.

Lemma client_replies_fast r d batch items replies :
  Forall2 (fast_item r) batch items ->
  Forall2 (fun it v => match it with PRemote _ => no_redirect v | PLocal u => v = u | PSlow => True end) items replies ->
  map (fun p => client_reply (cName p.1) d p.2) (zip batch replies) = replies.
Proof.
  intros Hf. revert replies. induction Hf as [|c it batch items Hi _ IH]; intros replies Hr; inversion Hr; subst; [done|].
  cbn [zip_with zip map fst snd]. rewrite (client_reply_fast r d c it) by done. f_equal. by apply IH.
Qed.

Lemma reply_all_ok vs : forall w, reply_all vs w = SOk (mkWorld (wSess w) (wRouter w) (wNet w) (wOut w ++ vs)) tt.
Proof.
  induction vs as [|v vs IH]; intros w; cbn [reply_all]; [rewrite app_nil_r; by destruct w|].
  unfold reply, mbind, M_bind. rewrite IH. cbn. by rewrite <- app_assoc.
Qed.

Lemma execFast_ok ch batch items n w :
  Forall2 (fast_item (wRouter w)) batch items -> steady (wNet w) ->
  fanOrder ch ≡ₚ seq 0 n -> (length (pipe_addrs items) <= n)%nat ->
  let q := map item_cmd (remotes items) in
  wpt (execFastPipeline cfg ch batch items) (fun _ w' => exists es vs, wOut w' = wOut w ++ vs ∧ wSess w' = wSess w
    ∧ kept (wNet w) (wNet w') ∧ view (wNet w') = (run_seq es q (view (wNet w))).1
    ∧ map (set_raw []) vs = merge_items (map to_item items) (run_seq es q (view (wNet w))).2) w.
Proof.
  cbv zeta. intros Hf Hst Ho Hn. pose proof (fast_remotes _ _ _ Hf) as Hr. pose proof (Forall2_length _ _ _ Hf) as Hlen.
  unfold execFastPipeline. cbv zeta. fold (group_order ch items). apply wpt_bind.
  pose proof (group_order_perm ch items n Ho Hn) as Hperm. destruct (pipe_addrs_spec items) as [Hnd Hin].
  set (replies0 := map _ items).
  eapply wpt_mono; [apply (flush_all_ok (group_order ch items) items replies0 w)|].
  { eapply list.Forall_impl; [exact Hr|]. by intros p [? _]. }
  { done. }
  { by rewrite Hperm. }
  { unfold replies0. by rewrite length_map. }
  intros res w1 (replies & l & -> & [Hse Hou] & K & Hsl & Hv & Hag & Hl & Hot). apply wpt_get.
  destruct (play_sort item_slot item_cmd (remotes items) l (view (wNet w)) (fast_independent _ _ _ Hf)) as (es & Hes & Hst1 & Hpp).
  { intros s. rewrite (Hsl s). apply (grouped_slot item_slot (fun p => piAddr p.2) (fun s => default [] (slot_addr (wRouter w) s))).
    - eapply list.Forall_impl; [exact Hr|]. intros p [_ Hp]. unfold item_slot. by rewrite Hp.
    - by rewrite Hperm.
    - intros p Hp. rewrite Hperm. apply Hin. by exists p. }
  destruct (play_seq item_cmd (remotes items) es (view (wNet w)) Hes) as [Q1 Q2]. rewrite Q1 in Hst1. rewrite Q2 in Hpp.
  set (q := map item_cmd (remotes items)) in *. set (vs := (run_seq es q (view (wNet w))).2) in *.
  destruct (merge_replies items replies vs) as [M1 M2].
  - rewrite Hl. unfold replies0. by rewrite length_map.
  - clear -Hf. induction Hf as [|c it batch items Hi _ IH]; [constructor|]. constructor; [by destruct it|done].
  - intros i v Hi. destruct (Forall2_lookup_r _ _ _ _ _ Hf Hi) as (c & _ & [-> _]). split; [|done].
    rewrite Hot.
    + unfold replies0. change (map ?f ?l) with (f <$> l). by rewrite list_lookup_fmap, Hi.
    + intros (p & -> & [Hp _]%groups_elem)%list_elem_of_fmap.
      by rewrite (remotes_lookup items p Hp) in Hi.
  - unfold vs, q. by rewrite run_seq_length, length_map.
  - unfold agrees in *. by rewrite <- Hpp.
  - apply run_seq_shown.
  - exists (mkWorld (wSess w1) (wRouter w1) (wNet w1) (wOut w1 ++ replies)), tt. split.
    + rewrite <- reply_all_ok. f_equal.
      by apply (client_replies_fast (wRouter w) _ batch items).
    + exists es, replies. cbn [wOut wSess wNet]. rewrite Hou. split_and!; [done|done|done|by rewrite Hv|done].
Qed.

(** ** Classification *)

(** The keys of a command are in one slot. *)
Definition one_slot_cmd (ks : list slice) : Prop := exists s, in_slot slotFn s ks.

Definition raw_ok (c : clientCmd) : Prop := cRaw c = [] ∨ cRaw c = EncodeCommand [] (cArgv c).

Lemma data_fast a0 c : client_argv a0 c -> pipelineSlow (cmd_name [a0]) (argv_of a0 c) = false.
Proof.
  intros Hc. unfold pipelineSlow. rewrite (IsBlocking_client a0 c Hc). cbn [orb].
  apply client_name in Hc. by apply (data_not _ _ Hc); simpl; tauto.
Qed.

Lemma one_slot_head ks s : in_slot slotFn s ks ->
  (1 <? argc ks) && CrossSlot (rcfg cfg) ks = false ∧ match ks with k :: _ => key_slot (rcfg cfg) k | [] => 0 end = s.
Proof.
  intros [Hne Hf]. destruct ks as [|k ks]; [done|]. apply list.Forall_cons in Hf as [Hk Hf]. split; [|exact Hk].
  rewrite (proj2 (CrossSlot_false (rcfg cfg) k ks)); [apply andb_false_r|]. eapply list.Forall_impl; [exact Hf|].
  intros x Hx. change (key_slot (rcfg cfg) x = s) in Hx. change (key_slot (rcfg cfg) k = s) in Hk. congruence.
Qed.

Lemma classify_data c cm w :
  let d := db (wSess w) in
  decode (cArgv c) = Some cm -> client_cmd cm = true -> one_slot_cmd (map (PrefixKey d) (cmd_keys cm)) ->
  client_ok (cArgv c) -> raw_ok c -> 0 <= d -> sub (wSess w) = None -> authed (wSess w) = true ->
  exists x, classifyPipe cfg c w = SOk w (PRemote x) ∧ fast_item (wRouter w) c (PRemote x)
    ∧ decode (piArgv x) = Some (on_keys (PrefixKey d) cm).
Proof.
  cbv zeta. intros Hd Hc Hp Hok Hraw Hrng Hs Ha. set (d := db (wSess w)) in *.
  destruct (queue_data one_slot_cmd d (cArgv c) cm Hd Hc Hp Hok Hrng) as (a0 & Hargv & Hca & Hca' & Hrw & Hex & Hsent).
  set (cm' := on_keys (PrefixKey d) cm) in *. pose proof (client_name _ _ Hca) as Hn.
  inversion Hsent as [|? ? ? ? (Hsend & Hdec & Hcc & Hkne & slot & Hslot)]; subst.
  destruct (one_slot_head _ _ Hslot) as [Hcs Hhd]. destruct (slot_addr_Some (wRouter w) slot) as [a Haddr].
  exists (mkRemote slot a (EncodeCommand [] (argv_of a0 cm')) (argv_of a0 cm') (KindOf (content a0) ==b KindRead)).
  assert (cName c = cmd_name [a0]) as Hname by (unfold cName; by rewrite Hargv).
  assert (d <= 0 -> cm' = cm) as Hz
    by (intros Hd0; apply on_keys_id; intros k; replace d with 0 by lia; done).
  split; [|split; [|exact Hdec]].
  - unfold classifyPipe. change ((get ≫= ?f) w) with (f (wSess w) w). cbv beta. rewrite Hs, bool_decide_true by done.
    rewrite Hname, Hargv, data_fast by done. cbn [negb orb].
    rewrite (bool_decide_false (cmd_name [a0] = B "SELECT")) by (intros Hx; by rewrite Hx in Hn).
    unfold mbind at 1, M_bind at 1. rewrite handleLocal_pass; [|done|apply (data_not _ _ Hn); unfold local_names; simpl; tauto].
    unfold classify_remote. change ((get ≫= ?f) w) with (f (wSess w) w). cbv beta. fold d. rewrite Hargv in *.
    assert ((if 0 <? d then argv ← lift (RewriteArgv (argv_of a0 cm) d); mret (argv, [])
             else mret (argv_of a0 cm, cRaw c)) w = SOk (W := W) (C := C) w (argv_of a0 cm', if 0 <? d then [] else cRaw c)) as Hx.
    { destruct (0 <? d) eqn:E; bool_simp; [by rewrite Hrw|]. by rewrite (Hz ltac:(lia)). }
    unfold mbind at 1, M_bind at 1. rewrite Hx. rewrite Hex. change (lift (Ret ?k) ≫= ?f) with (f k). cbv beta.
    rewrite Hcs. rewrite Hhd. change ((get_router ≫= ?f) w) with (f (wRouter w) w). cbv beta zeta.
    unfold slot_addr in Haddr. destruct (match Router_NodeForSlot _ _ _ _ with Some n => Some n | None => _ end) as [nd|]; [|done].
    injection Haddr as <-. change (lift (index (argv_of a0 cm) 0) ≫= ?f) with (f a0). cbv beta.
    unfold mret, M_ret. do 3 f_equal. destruct (0 <? d) eqn:E; bool_simp; [done|].
    destruct (Nat.eqb (length (cRaw c)) 0 || needsRewrite _) eqn:Eb; [done|]. bool_simp.
    destruct Hraw as [Hr|Hr]; [by rewrite Hr in *|]. by rewrite Hr, Hargv, Hz.
  - cbn [fast_item]. rewrite Hname. split_and!; [done| |done]. exists cm'. by split_and!.
Qed.

Lemma classify_select_ok c a0 n i w :
  cArgv c = [a0; n] -> cmd_name [a0; n] = B "SELECT" -> db_index lim (content n) = Some i ->
  sub (wSess w) = None -> authed (wSess w) = true ->
  classifyPipe cfg c w = SOk (mkWorld (set_db i (wSess w)) (wRouter w) (wNet w) (wOut w)) (PLocal ok_reply).
Proof.
  intros Hc Hn Hi Hs Ha. assert (cName c = B "SELECT") as Hname by (unfold cName; by rewrite Hc).
  unfold classifyPipe. change ((get ≫= ?f) w) with (f (wSess w) w). cbv beta. rewrite Hs, bool_decide_true by done.
  assert (pipelineSlow (cName c) (cArgv c) = false) as ->.
  { unfold pipelineSlow, IsBlocking. rewrite Hname, Hc. cbv zeta. rewrite Hn. vm_refl. }
  rewrite Hname. cbn [negb orb]. rewrite bool_decide_true by done. rewrite Hc. unfold classify_select.
  change ((get ≫= ?f) w) with (f (wSess w) w). cbv beta. rewrite Ha. change (argc [a0; n] =? 2) with true. cbn [negb].
  change (arg [a0; n] 1) with (content n). pose proof (ParseDBIndex_index cfg (content n)) as Hp. rewrite Hi in Hp.
  destruct (ParseDBIndex (content n) (MaxDatabases cfg)) as [e|i']; [done|]. by injection Hp as <-.
Qed.

Lemma set_db_same (s : session C) : set_db (db s) s = s.
Proof. by destruct s. Qed.

Lemma item_cmd_shift l : map item_cmd (map (fun p => (S p.1, p.2)) l) = map item_cmd l.
Proof. rewrite map_map. by apply map_ext. Qed.

Lemma classify_all_ok batch : forall d' w,
  let d := db (wSess w) in
  queueable cfg one_slot_cmd d (map cArgv batch) d' -> Forall raw_ok batch -> 0 <= d < lim ->
  sub (wSess w) = None -> authed (wSess w) = true ->
  exists items, classify_all cfg batch w
    = SOk (mkWorld (set_db d' (wSess w)) (wRouter w) (wNet w) (wOut w)) items
  ∧ Forall2 (fast_item (wRouter w)) batch items ∧ 0 <= d' < lim
  ∧ replays cfg d d' (map cArgv batch) (map to_item items) (map item_cmd (remotes items)).
Proof.
  cbv zeta. induction batch as [|c batch IH]; intros d' w Hq Hraw Hrng Hs Ha; cbn [map] in Hq.
  { inversion Hq; subst. exists []. cbn [classify_all]. unfold mret, M_ret. rewrite set_db_same. split_and!; try lia.
    - by destruct w.
    - constructor.
    - intros es data m Hst. exists data. split; [done|constructor]. }
  apply list.Forall_cons in Hraw as [Hr Hraw]. cbn [classify_all]. unfold mbind at 1, M_bind at 1.
  inversion Hq as [|? a0 n i ? ? Hn Hi Hok Hq'|? ? cm ? ? Hd Hc Hk Hp Hok Hq']; subst.
  - match goal with E : [a0; n] = cArgv c |- _ => rename E into E1 end. rewrite (classify_select_ok c a0 n i w) by done.
    destruct (IH d' (mkWorld (set_db i (wSess w)) (wRouter w) (wNet w) (wOut w))) as (items & E & Hf & Hd & Hrep);
      [done|done|by eapply db_index_range|done|done|].
    exists (PLocal ok_reply :: items). unfold mbind, M_bind. rewrite E. split_and!; [done| |lia..|].
    + constructor; [|done]. split; [done|]. unfold cName. by rewrite <- E1.
    + intros es data m Hst. destruct (Hrep es data m Hst) as (data' & H1 & H2). rewrite remotes_cons. cbn [app map to_item].
      rewrite item_cmd_shift. exists data'. split; [done|]. cbn [merge_items]. eapply TxnCons; [|exact H2].
      rewrite <- E1. by eapply (RSelect lim (mkRedis (db (wSess w)) data)).
  - destruct (classify_data c cm w Hd Hc Hp Hok Hr ltac:(lia) Hs Ha) as (x & E & Hfx & Hdx). rewrite E.
    destruct (IH d' w Hq' Hraw Hrng Hs Ha) as (items & E2 & Hf & Hd' & Hrep).
    exists (PRemote x :: items). unfold mbind, M_bind. rewrite E2. split_and!; [done|by constructor|lia..|].
    rewrite remotes_cons. cbn [app map to_item]. rewrite item_cmd_shift.
    rewrite (item_cmd_ok (0%nat, x) _ Hdx). by apply (replays_cons cfg Hlim _ (db (wSess w))).
Qed.

(** ** A batch is a run of the server *)

Lemma pipe_addrs_short items : (length (pipe_addrs items) <= length items)%nat.
Proof.
  assert (length (pipe_addrs items) <= length (remotes items))%nat.
  { unfold pipe_addrs. assert (forall l o, (length (fold_left (fun o x => if bool_decide (piAddr x.2 ∈ o) then o else o ++ [piAddr x.2])
      (l : list (nat * remote)) o) <= length l + length o)%nat) as Hl; [|specialize (Hl (remotes items) []); cbn in Hl; lia].
    induction l as [|x l IH]; intros o; cbn [fold_left length]; [lia|]. etransitivity; [apply IH|].
    case_bool_decide; [lia|]. rewrite length_app. cbn. lia. }
  assert (length (remotes items) <= length items)%nat; [|lia]. clear.
  induction items as [|it items IH]; [done|]. rewrite remotes_cons, length_app, length_map. destruct it; cbn; lia.
Qed.

Definition ran (s : redis) (cmds : list (list slice)) w w' : Prop :=
  exists s' vs, redis_txn lim s cmds s' (map (set_raw []) vs) ∧ related cfg s' w' ∧ wOut w' = wOut w ++ vs
    ∧ kept (wNet w) (wNet w').

Lemma batch_fast s ch batch d' n w :
  related cfg s w -> steady (wNet w) -> (2 <= length batch)%nat ->
  queueable cfg one_slot_cmd (rDB s) (map cArgv batch) d' -> Forall raw_ok batch ->
  fanOrder ch ≡ₚ seq 0 n -> (length batch <= n)%nat ->
  wpt (handleBatch cfg ch batch) (fun _ w' => ran s (map cArgv batch) w w') w.
Proof.
  intros [(Hs & Ha & Hm & Hqu) Hdb Hrng Hst] Hste Hlen Hq Hraw Ho Hn. rewrite Hdb in Hq, Hrng.
  destruct (classify_all_ok batch d' w Hq Hraw Hrng Hs Ha) as (items & E & Hf & Hd' & Hrep).
  set (w1 := mkWorld _ _ _ _) in E. pose proof (Forall2_length _ _ _ Hf) as Hl.
  unfold handleBatch. destruct batch as [|c1 [|c2 rest]] eqn:Eb; [cbn in Hlen; lia..|]. rewrite <- Eb in *.
  apply wpt_bind. exists w1, items. split; [done|].
  assert (existsb slow_item items = false) as ->.
  { apply not_true_iff_false. intros (it & Hin & Hit)%existsb_exists. apply list_elem_of_In, list_elem_of_lookup in Hin as [i Hi].
    destruct (Forall2_lookup_r _ _ _ _ _ Hf Hi) as (c & _ & Hfi). by destruct it. }
  eapply wpt_mono; [apply (execFast_ok ch batch items n w1); [done|done|done|]|].
  { pose proof (pipe_addrs_short items). lia. }
  intros _ w' (es & vs & Hout & Hse & K & Hv & Hvs).
  destruct (Hrep es (rData s) (view (wNet w)) Hst) as (data' & H1 & H2). exists (mkRedis d' data'), vs.
  change (view (wNet w1)) with (view (wNet w)) in *. rewrite <- Hvs in H2. split_and!.
  - destruct s as [d0 data]. cbn [rDB rData] in *. by subst d0.
  - split; cbn; rewrite ?Hse; [done|done|lia|by rewrite Hv].
  - done.
  - done.
Qed.

(** ** Single commands leave the slots where they are *)

Section Kept.
Context (n0 : W).
Let I w : Prop := kept n0 (wNet w).

Lemma kept_on_net {A} (f : Router -> W -> Router * W * A) :
  (forall r n r' n' a, steady n -> f r n = (r', n', a) -> kept n n') -> inv I (on_net f).
Proof.
  intros Hf w Hw. unfold wp, on_net. destruct (f (wRouter w) (wNet w)) as [[r n] a] eqn:E. cbn.
  eapply kept_trans; [exact Hw|]. eapply Hf; [apply Hw|exact E].
Qed.

Lemma kept_modify f : inv I (modify f).
Proof. by intros w Hw. Qed.
Lemma kept_reply v : inv I (reply v).
Proof. by intros w Hw. Qed.

Lemma kept_on_router f : inv I (on_router f).
Proof. intros w Hw. unfold wp, on_router. by destruct (f (wRouter w)). Qed.

Lemma exec_frame_kept (r : Router) (n : W) slot frame argv read r' n' x :
  steady n -> exec_frame cfg r n slot frame argv read = (r', n', x) -> kept n n'.
Proof.
  intros Hs. unfold exec_frame, execFrame. destruct (hops _ _ _ _) as [[[r1 n1] y]|] eqn:E; intros [= <- <- <-].
  - by apply hops_kept in E.
  - by apply kept_refl.
Qed.

Lemma kept_exec slot argv read : inv I (exec cfg slot argv read).
Proof. apply kept_on_net. intros. by eapply exec_frame_kept. Qed.
Lemma kept_exec_raw slot f read : inv I (exec_raw cfg slot f read).
Proof. apply kept_on_net. intros. by eapply exec_frame_kept. Qed.

Lemma kept_checkout_addr addr : inv I (checkout_addr cfg addr).
Proof.
  apply kept_on_net. intros r n r' n' a Hs. rewrite CheckoutAddr_eq. destruct (net_get _ _) as [n1 got] eqn:E.
  intros [= _ <- _]. by eapply st_get.
Qed.
Lemma kept_checkout slot : inv I (checkout cfg slot).
Proof.
  apply kept_on_net. intros r n r' n' a Hs. unfold Checkout.
  destruct (match Router_NodeForSlot _ _ _ _ with Some n => Some n | None => _ end) as [nd|];
    [|intros [= _ <- _]; by apply kept_refl].
  rewrite CheckoutAddr_eq. destruct (net_get _ _) as [n1 got] eqn:E. intros [= _ <- _]. by eapply st_get.
Qed.

Lemma kept_conn_do c argv : inv I (conn_do c argv).
Proof.
  apply kept_on_net. intros r n r' n' a Hs. unfold net_cmd. destruct (net_do _ _ _) as [n1 x] eqn:E.
  intros [= _ <- _]. by eapply st_do.
Qed.
Lemma kept_conn_put a c : inv I (conn_put a c).
Proof. apply kept_on_net. intros r n r' n' x Hs [= _ <- _]. by apply st_put. Qed.
Lemma kept_conn_drop a c : inv I (conn_drop a c).
Proof. apply kept_on_net. intros r n r' n' x Hs [= _ <- _]. by apply st_drop. Qed.
Hint Resolve kept_modify kept_reply kept_on_router kept_exec kept_exec_raw kept_checkout kept_checkout_addr kept_conn_do kept_conn_put
  kept_conn_drop : sess.

Lemma kept_scan_loop fuel c pat cur : inv I (scan_loop fuel c pat cur).
Proof. revert cur. induction fuel; intros cur; cbn [scan_loop]; inv_auto. Qed.
Hint Resolve kept_scan_loop : sess.
Lemma kept_scan_all fuel addrs pat : inv I (scan_all cfg fuel addrs pat).
Proof. induction addrs; cbn [scan_all]; unfold scanDeleteOn, reply_err; inv_auto. Qed.
Lemma kept_transferKey src dst d r : inv I (transferKey cfg src dst d r).
Proof. unfold transferKey, transfer_local, transfer_remote. inv_auto. Qed.
Lemma kept_fanout ch argv : inv I (fanout cfg ch argv).
Proof.
  unfold fanout. apply inv_bind; [inv_auto|intros s]. apply inv_bind; [|intros v; inv_auto].
  intros w Hw. unfold wp. destruct (cmdFanout _ _ _ _ _ _) as [[[r n] v]|] eqn:E; [|done].
  apply (cmdFanout_inv _ (fun st => kept n0 st.2)) in E; [done| |done].
  intros st slot argv' read Hst. destruct (exec_frame cfg st.1 st.2 slot None argv' read) as [[r' n'] x] eqn:X.
  cbn. eapply kept_trans; [exact Hst|]. eapply exec_frame_kept; [apply Hst|exact X].
Qed.
Hint Resolve kept_scan_all kept_transferKey kept_fanout : sess.

Lemma kept_dispatch ch name argv raw : inv I (dispatch cfg ch name argv raw).
Proof.
  unfold dispatch, route, doBlocking, cmdFlushDB, cmdMove, cmdCopy, cmdRandomKey, reply_result, reply_count, reply_err.
  inv_auto.
Qed.
Lemma kept_cmdSelect argv : inv I (cmdSelect cfg argv).
Proof. unfold cmdSelect, enqueue. inv_auto. Qed.
End Kept.

Lemma ready_kept s c w w' :
  related cfg s w -> ready cfg s c -> steady (wNet w) -> handle cfg c.1.1 c.1.2 c.2 w = SOk w' tt -> kept (wNet w) (wNet w').
Proof.
  intros Hr Hc Hst E. apply (ready_inv cfg (fun w' => kept (wNet w) (wNet w')) s c w w'); try done.
  - intros. apply kept_dispatch.
  - intros. apply kept_cmdSelect.
Qed.

(** ** The session loop *)

(** What the client sends: each batch in one piece, then a pause. *)
Definition frames (b : list (list slice)) : bytes := concat (map (EncodeCommand []) b).
Fixpoint wire (batches : list (list (list slice))) : stream :=
  match batches with
  | [] => []
  | b :: rest => gots (frames b) ++ Deadline :: wire rest
  end.

Definition as_batch (b : list (list slice)) : list clientCmd := map (fun a => mkClientCmd a (EncodeCommand [] a)) b.

Lemma drain_frames b : Forall sendable b -> forall room batch rest, (length b < room)%nat ->
  drain room batch (gots (frames b) ++ Deadline :: rest) = Drained (batch ++ as_batch b) rest.
Proof.
  induction 1 as [|argv b Hs _ IH]; intros room batch rest Hr; (destruct room as [|room]; [cbn in Hr; lia|]).
  { cbn. by rewrite app_nil_r. }
  cbn [length] in Hr. unfold frames, gots. cbn [map concat]. rewrite map_app, <- app_assoc.
  destruct (command_reads_back argv (gots (frames b) ++ Deadline :: rest) Hs) as [E1 E2]. unfold gots, frames in E1.
  pose proof (frame_nonempty argv Hs) as Hne. cbn [drain].
  destruct (map Got (EncodeCommand [] argv) ++ _) as [|[x|] s] eqn:E; destruct (EncodeCommand [] argv) as [|y f] eqn:Ef; try done.
  rewrite E1, E2. specialize (IH room (batch ++ [mkClientCmd argv (EncodeCommand [] argv)]) rest ltac:(lia)).
  unfold gots, frames in IH. rewrite Ef in IH. cbn [vRaw set_raw CommandArray Array]. rewrite IH. cbn [as_batch map].
  by rewrite Ef, <- app_assoc.
Qed.

(** A single command as in [Refinement], or commands that each stay in one slot; the groups of a batch
    may be answered in any order. *)
Definition batch_ready (s : redis) (ch : choices) (b : list (list slice)) : Prop :=
  (exists argv, b = [argv] ∧ ready cfg s (ch, argv, EncodeCommand [] argv))
  ∨ ((2 <= length b)%nat ∧ exists d' n, queueable cfg one_slot_cmd (rDB s) b d'
       ∧ fanOrder ch ≡ₚ seq 0 n ∧ (length b <= n)%nat).

Lemma as_batch_argv b : map cArgv (as_batch b) = b.
Proof. unfold as_batch. rewrite map_map. apply map_id. Qed.

Lemma batch_step s ch b w :
  related cfg s w -> steady (wNet w) -> batch_ready s ch b ->
  wpt (handleBatch cfg ch (as_batch b)) (fun _ w' => ran s b w w') w.
Proof.
  intros Hr Hst [(argv & -> & Hrdy)|(Hl & d' & n & Hq & Ho & Hn)].
  - destruct (sim_step cfg Hcfg Hlim s _ w Hr Hrdy) as (w' & [] & E & s' & v & Hstep & Hr' & Hout).
    exists w', tt. split; [exact E|]. exists s', [v]. split_and!; [|done|done|].
    + eapply TxnCons; [exact Hstep|constructor].
    + exact (ready_kept s _ w w' Hr Hrdy Hst E).
  - eapply wpt_mono; [apply (batch_fast s ch (as_batch b) d' n)|]; try done; [..|intros ? w'; by rewrite as_batch_argv].
    + unfold as_batch. by rewrite length_map.
    + by rewrite as_batch_argv.
    + apply list.Forall_fmap, list.Forall_forall. intros a _. by right.
    + unfold as_batch. by rewrite length_map.
Qed.

Lemma client_ok_sendable argv : client_ok argv -> sendable argv.
Proof.
  intros [Hl Hf]. split; [done|]. eapply list.Forall_impl; [exact Hf|]. intros a [H1 H2]. by apply arg_ok_plain.
Qed.

Lemma queueable_sendable P d b d' : queueable cfg P d b d' -> Forall sendable b.
Proof. induction 1; constructor; try done; by apply client_ok_sendable. Qed.

Lemma batch_ready_sendable s ch b : batch_ready s ch b -> Forall sendable b ∧ b ≠ [].
Proof.
  intros [(argv & -> & _ & Hok & _)|(Hl & d' & n & Hq & _)].
  - split; [|done]. constructor; [by apply client_ok_sendable|constructor].
  - split; [by eapply queueable_sendable|]. intros ->. cbn in Hl. lia.
Qed.

Lemma redis_txn_app s1 l1 s2 v1 l2 s3 v2 :
  redis_txn lim s1 l1 s2 v1 -> redis_txn lim s2 l2 s3 v2 -> redis_txn lim s1 (l1 ++ l2) s3 (v1 ++ v2).
Proof. induction 1; [done|]. intros H2. cbn [app]. econstructor; [done|]. auto. Qed.

(** Every batch is shorter than the limit, and ready whatever the server answered before. *)
Fixpoint ready_batches (maxPipe : Z) (chs : nat -> choices) (s : redis) (batches : list (list (list slice))) : Prop :=
  match batches with
  | [] => True
  | b :: rest => Z.of_nat (length b) < maxPipeline maxPipe ∧ batch_ready s (chs (length (wire rest))) b
      ∧ forall s' vs, redis_txn lim s b s' vs -> ready_batches maxPipe chs s' rest
  end.

Lemma run_loop_ok maxPipe chs batches : forall fuel s w,
  related cfg s w -> steady (wNet w) -> ready_batches maxPipe chs s batches -> (length (wire batches) < fuel)%nat ->
  wpt (run_loop cfg fuel maxPipe chs (wire batches)) (fun _ w' => ran s (concat batches) w w') w.
Proof.
  induction batches as [|b rest IH]; intros fuel s w Hr Hst Hb Hf; (destruct fuel as [|fuel]; [cbn in Hf; lia|]);
    cbn [run_loop]; apply wpt_get; apply wpt_bind;
    (exists w, None; split; [unfold on_net; rewrite cl_ctx; by destruct w|]);
    pose proof (rel_live _ _ _ Hr) as (Hsub & _ & _ & Hqu); rewrite Hqu, bool_decide_true by done; cbn [orb negb].
  { assert (ReadValue (wire []) = RErr EOF []) as -> by vm_refl.
    apply wpt_ret. exists s, []. split_and!; [constructor|done|by rewrite app_nil_r|by apply kept_refl]. }
  destruct Hb as (Hlen & Hrdy & Hrest). destruct (batch_ready_sendable _ _ _ Hrdy) as [Hsend Hne].
  destruct b as [|argv b]; [done|]. apply list.Forall_cons in Hsend as [Hs Hsend].
  assert (wire ((argv :: b) :: rest) = gots (EncodeCommand [] argv) ++ gots (frames b) ++ Deadline :: wire rest) as Hw
    by (cbn [wire]; unfold frames, gots; cbn [map concat]; by rewrite map_app, <- app_assoc).
  rewrite Hw. destruct (command_reads_back argv (gots (frames b) ++ Deadline :: wire rest) Hs) as [-> ->].
  unfold drainBatch. rewrite drain_frames; [|done|cbn [length] in Hlen; lia].
  apply wpt_bind. eapply wpt_mono; [apply (batch_step s _ (argv :: b) w Hr Hst Hrdy)|].
  intros _ w1 (s1 & v1 & Ht1 & Hr1 & Ho1 & K1).
  eapply wpt_mono; [apply (IH fuel s1 w1 Hr1 (proj1 K1) (Hrest _ _ Ht1))|].
  { rewrite Hw, !length_app in Hf. cbn [length] in Hf. lia. }
  intros _ w2 (s2 & v2 & Ht2 & Hr2 & Ho2 & K2). exists s2, (v1 ++ v2). cbn [concat]. rewrite map_app.
  split_and!; [by eapply redis_txn_app|done|by rewrite Ho2, Ho1, <- app_assoc|by eapply kept_trans].
Qed.

Lemma cleanup_ok w : sub (wSess w) = None -> wpt cleanup (fun _ w' => wOut w' = wOut w ∧ view (wNet w') = view (wNet w)) w.
Proof.
  intros Hs. unfold cleanup, resetTxn. apply wpt_bind. do 2 apply wpt_bind, wpt_modify. unfold dropPin. apply wpt_get.
  cbn [wSess pin set_watched set_txn]. destruct (pin (wSess w)) as [[c a]|].
  - apply wpt_bind. eexists _, tt. split; [done|]. apply wpt_modify, wpt_get. cbn [wSess sub set_watched set_txn set_pin].
    rewrite Hs. apply wpt_ret. cbn [wOut wNet]. split; [done|]. apply cl_drop.
  - apply wpt_ret, wpt_get. cbn [wSess sub set_watched set_txn]. rewrite Hs. by apply wpt_ret.
Qed.
End Batches.

(** ** Properties *)

(** A pipelined batch is answered like its commands one by one.  While slots do not move, and whatever
    the slot map says: a batch of SELECTs and data commands that each stay in one slot is a run of the
    server with databases in the order of the batch, although the commands are sent grouped by node,
    the groups are answered in any order, and commands sent to a wrong node are executed again
    later.  Every command gets that server's reply at its position. *)
Theorem batch_refines {W C : Type} `{!Network W C} `{!Server} (cfg : SessionConfig) `{!Cluster W C (rcfg cfg)}
  `{!Pipelined W C (rcfg cfg)} (Hcfg : cluster_cfg (rcfg cfg)) (Hlim : db_limit cfg <= 2^63)
  (s : redis) (ch : choices) (b : list (list slice)) (d' : Z) (n : nat) (w : world W C)
  (Hr : related cfg s w) (Hst : steady (wNet w)) (Hl : (2 <= length b)%nat)
  (Hq : queueable cfg (one_slot_cmd cfg) (rDB s) b d') (Ho : fanOrder ch ≡ₚ seq 0 n) (Hn : (length b <= n)%nat) :
  exists w' s' out, handleBatch cfg ch (as_batch b) w = SOk w' tt ∧ wOut w' = wOut w ++ out
    ∧ redis_txn (db_limit cfg) s b s' (map (set_raw []) out) ∧ related cfg s' w'.
Proof.
  destruct (batch_step cfg Hcfg Hlim s ch b w Hr Hst) as (w' & [] & E & s' & vs & H1 & H2 & H3 & _).
  { right. split; [done|]. by exists d', n. }
  by exists w', s', vs.
Qed.


(** *** Witnesses: batches on the cluster of two nodes *)

Lemma d_serve_migrating w c argv : dMigrating (d_serve w c argv) = dMigrating w.
Proof. unfold d_serve, d_single, d_queued, d_set. by repeat case_match. Qed.

Lemma d_serve_all_migrating argvs : forall w c, dMigrating (d_serve_all w c argvs) = dMigrating w.
Proof.
  induction argvs as [|a [|b argvs] IH]; intros w c; [done|apply d_serve_migrating|].
  change (d_serve_all w c (a :: b :: argvs)) with (let w1 := d_serve w c a in let w2 := d_serve_all w1 c (b :: argvs) in
    d_replies w2 (dReply w1) (dReply w2 :: dMore w2)). cbn [d_replies dMigrating]. by rewrite IH, d_serve_migrating.
Qed.

Lemma d_replies_eta w : dMore w = [] -> d_replies w (dReply w) [] = w.
Proof. destruct w. cbn. by intros ->. Qed.

Lemma d_do_all argvs : forall w c w' vs, Forall sendable argvs -> do_all w c argvs = Some (w', vs) -> argvs ≠ [] ->
  exists v vs', vs = v :: vs' ∧ d_serve_all w c argvs = d_replies w' v vs'.
Proof.
  induction argvs as [|a argvs IH]; intros w c w' vs Hs Hd Hne; [done|]. apply list.Forall_cons in Hs as [Ha Hs].
  cbn [do_all] in Hd. unfold net_cmd in Hd. rewrite d_do in Hd by done. destruct argvs as [|b argvs].
  - injection Hd as <- <-. eexists _, []. split; [done|]. cbn [d_serve_all]. symmetry. apply d_replies_eta, d_serve_single.
  - destruct (do_all (d_serve w c a) c (b :: argvs)) as [[w2 vs2]|] eqn:E; [|done]. injection Hd as <- <-.
    destruct (IH _ _ _ _ Hs E) as (v & vs' & -> & Hx); [done|]. eexists _, _. split; [done|].
    change (d_serve_all w c (a :: b :: argvs)) with (let w1 := d_serve w c a in let w2 := d_serve_all w1 c (b :: argvs) in
      d_replies w2 (dReply w1) (dReply w2 :: dMore w2)). cbv zeta. by rewrite Hx.
Qed.

Lemma d_reads c vs : forall w v, exists w2, reads c (d_replies w v vs) (v :: vs) w2 ∧ dView w2 = dView w.
Proof.
  induction vs as [|u vs IH]; intros w v; cbn [reads].
  - exists (d_replies w v []). split; [by exists (d_replies w v [])|done].
  - destruct (IH w u) as (w2 & Hr & Hv). exists w2. split; [|done]. by exists (d_replies w u vs).
Qed.

#[global, refine] Instance demo_pipelined : Pipelined dcluster bytes demo_cfg := { steady w := dMigrating w = None }.
Proof.
  - intros w argv Hs. change (d_asks w argv = None). unfold d_asks. rewrite Hs. by destruct (decode argv).
  - intros w a w' r Hs [= <- _]. by split.
  - intros w c f w' r Hs. cbn [net_write demo_cluster_net]. unfold d_write. destruct (d_frames _ _) as [argvs|]; intros [= <- _].
    + split; [|done]. by rewrite d_serve_all_migrating.
    + by split.
  - intros w c w' r Hs [= <- _]. split; [|done]. unfold d_read. by destruct (dMore w).
  - intros w a c Hs. by split.
  - intros w a c Hs. by split.
  - intros w c argv rc w' r Hs Hd Htx. unfold net_cmd. rewrite d_do by done. intros [= <- _].
    change (dTxn w !! c = None) in Htx. change (dTxn (d_serve w c argv) !! c = None ∧ bool_decide (c ∈ dAsk (d_serve w c argv)) = false).
    unfold d_serve. rewrite Htx. unfold d_single. rewrite Hd. destruct (Cluster.run 0 rc (dView w)) as [m v].
    destruct (d_asks w argv) as [a|]; repeat case_if; cbn [d_set dTxn dAsk]; (split; [done|]);
      apply bool_decide_eq_false; set_solver.
  - intros w c argvs w' vs Hs _ Hd.
    assert (Forall sendable argvs) as Hs' by (eapply list.Forall_impl; [exact Hs|]; by intros a [? _]).
    exists (d_serve_all w c argvs). destruct (decide (argvs = [])) as [->|Hne].
    { injection Hd as <- <-. exists w. split_and!; [|done|done]. by apply (d_write_all w c []). }
    destruct (d_do_all argvs w c w' vs Hs' Hd Hne) as (v & vs' & -> & E). destruct (d_reads c vs' w' v) as (w2 & Hr & Hv).
    exists w2. split_and!; [by apply d_write_all|by rewrite E|done].
Defined.

(** In two databases, on keys of both nodes, with the second node answering first. *)
Definition pipe_batch : list (list slice) :=
  map cmd [["SET"; "{b}x"; "1"]; ["SET"; "{t}y"; "2"]; ["GET"; "{t}y"]; ["SELECT"; "1"]; ["MGET"; "{b}x"; "{b}z"]].
Definition pipe_choices : choices := mkChoices [1; 0; 4; 3; 2]%nat [] 0 0.

Lemma pipe_order : fanOrder pipe_choices ≡ₚ seq 0 5.
Proof. cbn. by apply (bool_decide_unpack _); vm_compute. Qed.

Lemma pipe_queueable : queueable refine_scfg (one_slot_cmd refine_scfg) 0 pipe_batch 1.
Proof.
  assert (forall d k ks, forallb (fun x => SlotOf demo_cfg (content (PrefixKey d x)) =? SlotOf demo_cfg (content (PrefixKey d k))) (k :: ks) = true ->
    one_slot_cmd refine_scfg (map (PrefixKey d) (k :: ks))) as Hslot.
  { intros d k ks Hf. exists (SlotOf demo_cfg (content (PrefixKey d k))). split; [done|]. apply list.Forall_fmap, List.Forall_forall.
    intros x Hx. rewrite forallb_forall in Hf. apply Hf in Hx. by apply Z.eqb_eq in Hx. }
  assert (forall k ks, forallb (fun k => negb (HasVirtualDBPrefix (content k))) (k :: ks) = true -> plain_keys 0 (k :: ks)) as Hplain.
  { intros k ks Hf. apply List.Forall_forall. intros x Hx _. rewrite forallb_forall in Hf. by apply negb_true_iff, Hf. }
  do 3 (eapply QueueData; [vm_refl|done|apply Hplain; vm_refl|apply Hslot; vm_refl|apply refine_client_ok; vm_refl|]).
  eapply (QueueSelect _ _ _ _ _ 1); [vm_refl|vm_refl|apply refine_client_ok; vm_refl|].
  eapply QueueData; [vm_refl|done| |apply Hslot; vm_refl|apply refine_client_ok; vm_refl|constructor].
  by repeat constructor.
Qed.

Lemma batch_refines_witness :
  exists w' s' out, handleBatch refine_scfg pipe_choices (as_batch pipe_batch) (refine_world ∅) = SOk w' tt ∧ wOut w' = out
    ∧ redis_txn 16 (mkRedis 0 (fun _ => ∅)) pipe_batch s' (map (set_raw []) out) ∧ related refine_scfg s' w'.
Proof.
  exact (batch_refines refine_scfg demo_cluster_cfg ltac:(vm_compute; discriminate) (mkRedis 0 (fun _ => ∅)) pipe_choices
    pipe_batch 1 5 (refine_world ∅) refine_related eq_refl ltac:(cbn; lia) pipe_queueable pipe_order ltac:(cbn; lia)).
Defined.

(** The same batch after a single command, as bytes. *)
Definition pipe_input : list (list (list slice)) := [[cmd ["SELECT"; "0"]]; pipe_batch].

Lemma pipe_ready : ready_batches refine_scfg 128 (fun _ => pipe_choices) (mkRedis 0 (fun _ => ∅)) pipe_input.
Proof.
  split; [done|]. split.
  { left. exists (cmd ["SELECT"; "0"]). split; [done|]. split; [by eapply ReadySelect|]. split; [|by right].
    apply refine_client_ok. vm_refl. }
  intros s vs Ht. inversion Ht as [|? ? ? s1 ? v ? Hstep Hnil]; subst. inversion Hnil; subst.
  apply (step_select _ _ _ _ 0) in Hstep as ->; [|vm_refl..]. cbn [rData]. split; [done|]. split; [|done].
  right. split; [cbn; lia|]. exists 1, 5%nat. split_and!; [apply pipe_queueable|apply pipe_order|cbn; lia].
Qed.


(** What the client of that session reads, and the keys in the cluster; the second node was not known
    to the router, so its commands were redirected. *)
Example session_run :
  match Pipeline.run refine_scfg 128 (fun _ => pipe_choices) (wire pipe_input) (refine_world ∅) with
  | SOk w _ => Some (wOut w, map (fun k => dView (wNet w) !! B k) ["{b}x"; "{t}y"; "db1:{b}x"])
  | _ => None
  end = Some ([ok_reply; ok_reply; ok_reply; bulk "2"; ok_reply; Array [NullBulk; NullBulk]], [BS "1"; BS "2"; None]).
Proof. vm_refl. Qed.
