(* ===== verification/Server.v ===== *)
(** * internal/proxy/server.go: accepting clients

    [Serve] accepts connections in a loop, admits at most MaxClientConns of them with a semaphore,
    refuses the others with an error, and runs a session per admitted client in a goroutine of its
    own.  When the listener is closed it waits for the sessions, at most for the shutdown timeout.

    The server is a step relation: the accept loop and every session goroutine have a program
    counter, and each step is one action of the code that others can observe.  What the listener, the
    context and the timer do is chosen by the environment.  The session itself ([Pipeline.run]) is one
    step here. *)

From Stdlib Require Import ZArith Lia Strings.Byte.
From stdpp Require Import base list strings numbers option relations.
From S2P Require Import Prelude Resp.

Definition respErrBusy : bytes := B "-ERR max client connections reached" ++ CRLF.

(** The accept loop; the comment gives the action that comes next. *)
Inductive serve_pc :=
| Accepting                  (* ln.Accept() *)
| Admitting                  (* select on the semaphore, with a new connection on hand *)
| Draining (failed : bool)   (* waitDrain; then return nil, or the error *)
| Returned (failed : bool).

(** A session goroutine. *)
Inductive sess_pc :=
| Spawned                    (* active.Add(1) *)
| Running                    (* newSession, run *)
| Counting                   (* deferred active.Add(-1) *)
| Releasing                  (* deferred receive from the semaphore *)
| Finished.

Record server := mkServer {
  loop : serve_pc; sem : nat; active : Z; sessions : list sess_pc;
  cancelled : bool; refused : nat }.

Section Server.
Context (MaxClientConns : nat).

Definition set_loop (l : serve_pc) (s : server) : server :=
  mkServer l (sem s) (active s) (sessions s) (cancelled s) (refused s).
Definition set_session (i : nat) (q : sess_pc) (sm : nat) (a : Z) (s : server) : server :=
  mkServer (loop s) sm a (<[i := q]> (sessions s)) (cancelled s) (refused s).

Inductive server_step (s : server) : server -> Prop :=
(* the context *)
| ctx_cancel : server_step s (mkServer (loop s) (sem s) (active s) (sessions s) true (refused s))
(* Accept *)
| accept_conn : loop s = Accepting -> server_step s (set_loop Admitting s)
| accept_cancelled : loop s = Accepting -> cancelled s = true -> server_step s (set_loop (Draining false) s)
| accept_timeout : loop s = Accepting -> cancelled s = false -> server_step s s
| accept_error : loop s = Accepting -> cancelled s = false -> server_step s (set_loop (Draining true) s)
(* the semaphore *)
| take_place : loop s = Admitting -> (sem s < MaxClientConns)%nat ->
    server_step s (mkServer Accepting (S (sem s)) (active s) (sessions s ++ [Spawned]) (cancelled s) (refused s))
| refuse : loop s = Admitting -> (MaxClientConns <= sem s)%nat ->
    server_step s (mkServer Accepting (sem s) (active s) (sessions s) (cancelled s) (S (refused s)))
(* handleConn *)
| session_start i : sessions s !! i = Some Spawned ->
    server_step s (set_session i Running (sem s) (active s + 1) s)
| session_run i : sessions s !! i = Some Running ->
    server_step s (set_session i Counting (sem s) (active s) s)
| session_uncount i : sessions s !! i = Some Counting ->
    server_step s (set_session i Releasing (sem s) (active s - 1) s)
| session_release i : sessions s !! i = Some Releasing -> (0 < sem s)%nat ->
    server_step s (set_session i Finished (sem s - 1) (active s) s)
(* waitDrain *)
| drain_done b : loop s = Draining b -> Forall (eq Finished) (sessions s) ->
    server_step s (set_loop (Returned b) s)
| drain_timeout b : loop s = Draining b -> server_step s (set_loop (Returned b) s).

(** [New], when [Serve] is called. *)
Definition server_New : server := mkServer Accepting 0 0 [] false 0.

Definition server_reachable (s : server) : Prop := rtc server_step server_New s.
End Server.

(** ** Invariants *)

Definition alive (q : sess_pc) : nat := match q with Finished => 0 | _ => 1 end.
Definition counted (q : sess_pc) : nat := match q with Running | Counting => 1 | _ => 0 end.

Lemma sum_snoc (f : sess_pc -> nat) l q : sum_list_with f (l ++ [q]) = (sum_list_with f l + f q)%nat.
Proof. induction l as [|x l IH]; cbn; lia. Qed.

(** The semaphore counts the sessions that are not over, [active] those inside [handleConn]. *)
Record server_inv (max : nat) (s : server) : Prop := mkServerInv {
  si_sem : sem s = sum_list_with alive (sessions s);
  si_active : active s = Z.of_nat (sum_list_with counted (sessions s));
  si_max : (sem s <= max)%nat }.

(** One session moves from [q] to [q']. *)
Lemma session_moves max s i q q' sm a :
  sessions s !! i = Some q -> server_inv max s ->
  (sm + alive q = sem s + alive q')%nat -> a + Z.of_nat (counted q) = active s + Z.of_nat (counted q') ->
  (sm <= max)%nat -> server_inv max (set_session i q' sm a s).
Proof.
  intros Hi [I1 I2 I3] Hs Ha Hm. pose proof (sum_insert alive _ _ _ q' Hi). pose proof (sum_insert counted _ _ _ q' Hi).
  split; cbn; lia.
Qed.

Lemma server_step_inv max s s' : server_step max s s' -> server_inv max s -> server_inv max s'.
Proof.
  intros Hs I. pose proof I as [I1 I2 I3].
  destruct Hs; try (eapply session_moves; [eassumption|exact I|cbn; lia..]); split; cbn in *; rewrite ?sum_snoc; cbn; lia.
Qed.

Lemma server_inv_reachable max s : server_reachable max s -> server_inv max s.
Proof.
  intros Hr. apply (rtc_ind_r (fun s => server_inv max s)) with (3 := Hr); [by split; cbn; lia|].
  intros x y _ Hs. by apply server_step_inv.
Qed.

(** C37: the number of clients is bounded and exact.  In every reachable state at most MaxClientConns
    sessions are alive, the active counter is the number of sessions being served, a client is
    refused only when MaxClientConns sessions are alive, and a session that is over always can give
    its place back. *)
Theorem admission_bounded (MaxClientConns : nat) (s : server) (Hr : server_reachable MaxClientConns s) :
  (sum_list_with alive (sessions s) <= MaxClientConns)%nat
  ∧ active s = Z.of_nat (sum_list_with counted (sessions s))
  ∧ (forall s', server_step MaxClientConns s s' -> refused s' ≠ refused s ->
       sum_list_with alive (sessions s) = MaxClientConns)
  ∧ (forall i, sessions s !! i = Some Releasing ->
       exists s', server_step MaxClientConns s s' ∧ sessions s' = <[i := Finished]> (sessions s)).
Proof.
  destruct (server_inv_reachable _ _ Hr) as [I1 I2 I3]. split_and!; [lia|done| |].
  - intros s' Hs Hn. destruct Hs; cbn in Hn; try done. lia.
  - intros i Hi. eexists. split; [apply session_release; [exact Hi|]|done].
    pose proof (sum_insert alive _ _ _ Finished Hi). cbn in *. lia.
Qed.

(** One client is served and a second one refused. *)
Definition demo_server : server := mkServer Accepting 1 1 [Running] false 1.

Lemma demo_server_reachable : server_reachable 1 demo_server.
Proof.
  eapply rtc_l; [by apply accept_conn|]. eapply rtc_l; [apply take_place; [done|cbn; lia]|].
  eapply rtc_l; [by apply (session_start _ _ 0)|]. eapply rtc_l; [by apply accept_conn|].
  eapply rtc_l; [apply refuse; [done|cbn; lia]|]. apply rtc_refl.
Qed.

Lemma admission_bounded_witness :
  (sum_list_with alive (sessions demo_server) <= 1)%nat
  ∧ active demo_server = Z.of_nat (sum_list_with counted (sessions demo_server)).
Proof. destruct (admission_bounded 1 demo_server demo_server_reachable) as (H1 & H2 & _). by split. Defined.
