(* ===== verification/Config.v ===== *)
(** * internal/config: defaults, the YAML file, the environment, validation

    The environment is a finite map.  Reading and decoding the YAML file are library calls: [Load]
    takes their result.  [time.ParseDuration], [strconv.ParseUint] and the string functions the code
    uses are modelled; a fraction of a duration is computed exactly where Go goes through a float64,
    and white space and case are those of ASCII.  Durations are nanoseconds in [Z]. *)

From Stdlib Require Import ZArith Lia Strings.Byte.
From stdpp Require Import base list strings numbers option sets gmap.
From S2P Require Import Prelude Resp Command Router Session.

(** ** Strings of the standard library *)

Definition is_space (c : byte) : bool :=
  let z := b2z c in (z =? 32) || ((9 <=? z) && (z <=? 13)).

Fixpoint trim_left (s : bytes) : bytes :=
  match s with [] => [] | c :: s' => if is_space c then trim_left s' else s end.
Definition trim_space (s : bytes) : bytes := rev (trim_left (rev (trim_left s))).

(** [strings.Split] by one byte: never empty. *)
Fixpoint split_byte (c : byte) (s : bytes) : list bytes :=
  match s with
  | [] => [[]]
  | d :: s' =>
      if d ==b c then [] :: split_byte c s'
      else match split_byte c s' with p :: ps => (d :: p) :: ps | [] => [[d]] end
  end.

(** [strings.Cut] by one byte. *)
Definition cut_byte (c : byte) (s : bytes) : option (bytes * bytes) :=
  i ← index_byte s c; Some (take i s, drop (S i) s).

Fixpoint octal (acc : Z) (l : bytes) : option Z :=
  match l with
  | [] => Some acc
  | c :: l' => if (48 <=? b2z c) && (b2z c <=? 55) then octal (acc * 8 + (b2z c - 48)) l' else None
  end.
(** [strconv.ParseUint(s, 8, 32)]. *)
Definition parse_octal32 (s : bytes) : option Z :=
  match s with
  | [] => None
  | _ => n ← octal 0 s; if n <? 2^32 then Some n else None
  end.

(** *** time.ParseDuration *)

Definition second : Z := 10^9.
Definition millisecond : Z := 10^6.

Definition unit_of (u : bytes) : option Z :=
  if u ==b B "ns" then Some 1
  else if (u ==b B "us") || (u ==b [xc2; xb5; x73]) || (u ==b [xce; xbc; x73]) then Some (10^3)
  else if u ==b B "ms" then Some millisecond
  else if u ==b B "s" then Some second
  else if u ==b B "m" then Some (60 * second)
  else if u ==b B "h" then Some (3600 * second)
  else None.

(** The leading digits: value, number of digits and rest. *)
Fixpoint lead_int (acc : Z) (n : nat) (s : bytes) : Z * nat * bytes :=
  match s with
  | c :: s' => if is_digit c then lead_int (acc * 10 + digit_val c) (S n) s' else (acc, n, s)
  | [] => (acc, n, [])
  end.

Fixpoint lead_unit (s : bytes) : bytes * bytes :=
  match s with
  | c :: s' => if is_digit c || (c ==b "."%byte) then ([], s)
               else let '(u, r) := lead_unit s' in (c :: u, r)
  | [] => ([], [])
  end.

(** One number with its unit: nanoseconds and the rest. *)
Definition duration_part (s : bytes) : option (Z * bytes) :=
  let '(v, pre, s) := lead_int 0 0 s in
  if 2^63 <? v then None else
  let '(f, post, s) := match s with
                       | c :: s' => if c ==b "."%byte then lead_int 0 0 s' else (0, O, s)
                       | [] => (0, O, [])
                       end in
  if Nat.eqb (pre + post) 0 then None else
  let '(u, s) := lead_unit s in
  unit ← unit_of u;
  let d := v * unit + f * unit / 10 ^ Z.of_nat post in
  if 2^63 <? d then None else Some (d, s).

(** Every part uses at least one byte, so the length of the text is enough fuel. *)
Fixpoint duration_go (fuel : nat) (d : Z) (s : bytes) : option Z :=
  match s, fuel with
  | [], _ => Some d
  | _, O => None
  | _, S fuel =>
      '(v, s) ← duration_part s;
      if 2^63 <? d + v then None else duration_go fuel (d + v) s
  end.

Definition ParseDuration (s : bytes) : option Z :=
  let '(neg, s) := match s with
                   | c :: s' => if c ==b "-"%byte then (true, s')
                                else if c ==b "+"%byte then (false, s') else (false, s)
                   | [] => (false, [])
                   end in
  if s ==b B "0" then Some 0
  else match s with
       | [] => None
       | _ => d ← duration_go (length s) 0 s;
              if neg then Some (- d) else if 2^63 - 1 <? d then None else Some d
       end.

Example duration_1h30 : ParseDuration (B "1h30m") = Some (5400 * second).
Proof. vm_refl. Qed.
Example duration_frac : ParseDuration (B "-1.5s") = Some (- 1500 * millisecond).
Proof. vm_refl. Qed.
Example duration_bad : (ParseDuration (B "10"), ParseDuration (B "1x"), ParseDuration (B ".s")) = (None, None, None).
Proof. vm_refl. Qed.

(** ** config.go *)

Record TLSConfig := mkTLS {
  tlsEnabled : bool; tlsCAFile : bytes; tlsCertFile : bytes; tlsKeyFile : bytes; tlsInsecureSkipVerify : bool }.

Record Config := mkConfig {
  cfUnixSocket : bytes; cfUnixSocketMode : bytes; cfClusterSeeds : list bytes;
  cfClusterUsername : bytes; cfClusterPassword : bytes; cfTLS : TLSConfig; cfBackendFlavor : bytes;
  cfPoolMinPerNode : Z; cfPoolMaxPerNode : Z; cfDialTimeout : Z; cfReadTimeout : Z; cfWriteTimeout : Z;
  cfReconnectBackoffMin : Z; cfReconnectBackoffMax : Z; cfTopologyRefresh : Z; cfMaxClientConns : Z;
  cfBlockingMaxWait : Z; cfMetricsAddr : bytes; cfLogLevel : bytes; cfPprof : bool; cfPprofAddr : bytes;
  cfShutdownTimeout : Z; cfReadFromReplicas : bool; cfClientAuthPassword : bytes; cfHashTagOpen : bytes;
  cfHashTagClose : bytes; cfMovedHopLimit : Z; cfAddressMap : gmap bytes bytes; cfMaxDatabases : Z;
  cfMaxPipeline : Z }.

Definition Defaults : Config :=
  mkConfig (B "/tmp/dragon-cluster-resp-proxy.sock") (B "0770") [] [] [] (mkTLS false [] [] [] false)
    (B "auto") 2 64 (3 * second) (30 * second) (5 * second) (50 * millisecond) (2 * second) (10 * second)
    10000 (60 * second) (B ":9090") (B "info") false (B "127.0.0.1:6060") (15 * second) false []
    (B "{") (B "}") 5 ∅ 16 128.

Definition UnixSocketPerm (c : Config) : option Z := parse_octal32 (cfUnixSocketMode c).

Definition HashTagRunes (c : Config) : byte * byte :=
  (match cfHashTagOpen c with b :: _ => b | [] => "{"%byte end,
   match cfHashTagClose c with b :: _ => b | [] => "}"%byte end).

(** [None]: valid. *)
Definition Validate (c : Config) : option bytes :=
  if cfUnixSocket c ==b [] then Some (B "unix_socket is required")
  else if Nat.eqb (length (cfClusterSeeds c)) 0 then Some (B "cluster_seeds is required")
  else if negb (str_in (to_lower (cfBackendFlavor c)) ["auto"; "dragonfly"; "redis"])
  then Some (B "backend_flavor must be auto, dragonfly, or redis")
  else if cfPoolMaxPerNode c <? 1 then Some (B "pool_max_per_node must be >= 1")
  else if (cfPoolMinPerNode c <? 0) || (cfPoolMaxPerNode c <? cfPoolMinPerNode c)
  then Some (B "pool_min_per_node must be between 0 and pool_max_per_node")
  else if cfMaxClientConns c <? 1 then Some (B "max_client_conns must be >= 1")
  else if cfMovedHopLimit c <? 1 then Some (B "moved_hop_limit must be >= 1")
  else if cfMaxDatabases c <? 1 then Some (B "max_databases must be >= 1")
  else if cfMaxPipeline c <? 1 then Some (B "max_pipeline must be >= 1")
  else if (cfDialTimeout c <=? 0) || (cfReadTimeout c <=? 0) || (cfWriteTimeout c <=? 0)
  then Some (B "dial/read/write timeouts must be > 0")
  else match UnixSocketPerm c with None => Some (B "unix_socket_mode") | Some _ => None end.

(** What the YAML file sets: absent strings are empty, absent durations 0, absent numbers [None]. *)
Record fileConfig := mkFileConfig {
  fcUnixSocket : bytes; fcUnixSocketMode : bytes; fcClusterSeeds : list bytes;
  fcClusterUsername : bytes; fcClusterPassword : bytes; fcTLS : TLSConfig; fcBackendFlavor : bytes;
  fcPoolMinPerNode : option Z; fcPoolMaxPerNode : option Z; fcDialTimeout : Z; fcReadTimeout : Z;
  fcWriteTimeout : Z; fcReconnectBackoffMin : Z; fcReconnectBackoffMax : Z; fcTopologyRefresh : Z;
  fcMaxClientConns : option Z; fcBlockingMaxWait : Z; fcMetricsAddr : bytes; fcLogLevel : bytes;
  fcPprof : option bool; fcPprofAddr : bytes; fcShutdownTimeout : Z; fcReadFromReplicas : option bool;
  fcClientAuthPassword : bytes; fcHashTagOpen : bytes; fcHashTagClose : bytes; fcMovedHopLimit : option Z;
  fcAddressMap : gmap bytes bytes; fcMaxDatabases : option Z; fcMaxPipeline : option Z }.

(** ** load.go *)

Definition over_str (new old : bytes) : bytes := if new ==b [] then old else new.
Definition over_dur (new old : Z) : Z := if 0 <? new then new else old.

Definition applyFile (c : Config) (f : fileConfig) : Config :=
  mkConfig
    (over_str (fcUnixSocket f) (cfUnixSocket c))
    (over_str (fcUnixSocketMode f) (cfUnixSocketMode c))
    (match fcClusterSeeds f with [] => cfClusterSeeds c | l => l end)
    (over_str (fcClusterUsername f) (cfClusterUsername c))
    (over_str (fcClusterPassword f) (cfClusterPassword c))
    (mkTLS (tlsEnabled (cfTLS c) || tlsEnabled (fcTLS f))
       (over_str (tlsCAFile (fcTLS f)) (tlsCAFile (cfTLS c)))
       (over_str (tlsCertFile (fcTLS f)) (tlsCertFile (cfTLS c)))
       (over_str (tlsKeyFile (fcTLS f)) (tlsKeyFile (cfTLS c)))
       (tlsInsecureSkipVerify (cfTLS c) || tlsInsecureSkipVerify (fcTLS f)))
    (over_str (fcBackendFlavor f) (cfBackendFlavor c))
    (default (cfPoolMinPerNode c) (fcPoolMinPerNode f))
    (default (cfPoolMaxPerNode c) (fcPoolMaxPerNode f))
    (over_dur (fcDialTimeout f) (cfDialTimeout c))
    (over_dur (fcReadTimeout f) (cfReadTimeout c))
    (over_dur (fcWriteTimeout f) (cfWriteTimeout c))
    (over_dur (fcReconnectBackoffMin f) (cfReconnectBackoffMin c))
    (over_dur (fcReconnectBackoffMax f) (cfReconnectBackoffMax c))
    (over_dur (fcTopologyRefresh f) (cfTopologyRefresh c))
    (default (cfMaxClientConns c) (fcMaxClientConns f))
    (over_dur (fcBlockingMaxWait f) (cfBlockingMaxWait c))
    (over_str (fcMetricsAddr f) (cfMetricsAddr c))
    (over_str (fcLogLevel f) (cfLogLevel c))
    (default (cfPprof c) (fcPprof f))
    (over_str (fcPprofAddr f) (cfPprofAddr c))
    (over_dur (fcShutdownTimeout f) (cfShutdownTimeout c))
    (default (cfReadFromReplicas c) (fcReadFromReplicas f))
    (over_str (fcClientAuthPassword f) (cfClientAuthPassword c))
    (over_str (fcHashTagOpen f) (cfHashTagOpen c))
    (over_str (fcHashTagClose f) (cfHashTagClose c))
    (default (cfMovedHopLimit c) (fcMovedHopLimit f))
    (if bool_decide (fcAddressMap f = ∅) then cfAddressMap c else fcAddressMap f)
    (default (cfMaxDatabases c) (fcMaxDatabases f))
    (default (cfMaxPipeline c) (fcMaxPipeline f)).

Definition parseBool (v : bytes) : bool := str_in (to_lower (trim_space v)) ["1"; "true"; "yes"; "on"].

Definition splitCSV (v : bytes) : list bytes :=
  filter (fun p => p ≠ []) (map trim_space (split_byte "," v)).

Definition parseAddressMap (v : bytes) : gmap bytes bytes :=
  fold_left (fun out part =>
    match cut_byte "=" (trim_space part) with
    | Some (from, to) => if (from ==b []) || (to ==b []) then out else <[from := to]> out
    | None => out
    end) (split_byte "," v) ∅.

Section Env.
Context (env : gmap bytes bytes).

(** A variable that is set and not empty. *)
Definition lookupEnv (key : string) : option bytes :=
  match env !! (B "DCRP_" ++ B key) with
  | Some v => if v ==b [] then None else Some v
  | None => None
  end.

Definition setStr (key : string) (dst : bytes) : bytes := default dst (lookupEnv key).
Definition setBool (key : string) (dst : bool) : bool := default dst (parseBool <$> lookupEnv key).
Definition setInt (key : string) (dst : Z) : Z := default dst (v ← lookupEnv key; parse_int v).
Definition setDur (key : string) (dst : Z) : Z := default dst (v ← lookupEnv key; ParseDuration v).

Definition applyEnv (c : Config) : Config :=
  mkConfig
    (setStr "UNIX_SOCKET" (cfUnixSocket c))
    (setStr "UNIX_SOCKET_MODE" (cfUnixSocketMode c))
    (default (cfClusterSeeds c) (splitCSV <$> lookupEnv "CLUSTER_SEEDS"))
    (setStr "CLUSTER_USERNAME" (cfClusterUsername c))
    (setStr "CLUSTER_PASSWORD" (cfClusterPassword c))
    (mkTLS (setBool "TLS_ENABLED" (tlsEnabled (cfTLS c)))
       (setStr "TLS_CA_FILE" (tlsCAFile (cfTLS c)))
       (setStr "TLS_CERT_FILE" (tlsCertFile (cfTLS c)))
       (setStr "TLS_KEY_FILE" (tlsKeyFile (cfTLS c)))
       (setBool "TLS_INSECURE_SKIP_VERIFY" (tlsInsecureSkipVerify (cfTLS c))))
    (setStr "BACKEND_FLAVOR" (cfBackendFlavor c))
    (setInt "POOL_MIN_PER_NODE" (cfPoolMinPerNode c))
    (setInt "POOL_MAX_PER_NODE" (cfPoolMaxPerNode c))
    (setDur "DIAL_TIMEOUT" (cfDialTimeout c))
    (setDur "READ_TIMEOUT" (cfReadTimeout c))
    (setDur "WRITE_TIMEOUT" (cfWriteTimeout c))
    (setDur "RECONNECT_BACKOFF_MIN" (cfReconnectBackoffMin c))
    (setDur "RECONNECT_BACKOFF_MAX" (cfReconnectBackoffMax c))
    (setDur "TOPOLOGY_REFRESH" (cfTopologyRefresh c))
    (setInt "MAX_CLIENT_CONNS" (cfMaxClientConns c))
    (setDur "BLOCKING_MAX_WAIT" (cfBlockingMaxWait c))
    (setStr "METRICS_ADDR" (cfMetricsAddr c))
    (setStr "LOG_LEVEL" (cfLogLevel c))
    (setBool "PPROF" (cfPprof c))
    (setStr "PPROF_ADDR" (cfPprofAddr c))
    (setDur "SHUTDOWN_TIMEOUT" (cfShutdownTimeout c))
    (setBool "READ_FROM_REPLICAS" (cfReadFromReplicas c))
    (setStr "CLIENT_AUTH_PASSWORD" (cfClientAuthPassword c))
    (setStr "HASH_TAG_OPEN" (cfHashTagOpen c))
    (setStr "HASH_TAG_CLOSE" (cfHashTagClose c))
    (setInt "MOVED_HOP_LIMIT" (cfMovedHopLimit c))
    (default (cfAddressMap c) (parseAddressMap <$> lookupEnv "ADDRESS_MAP"))
    (setInt "MAX_DATABASES" (cfMaxDatabases c))
    (setInt "MAX_PIPELINE" (cfMaxPipeline c)).

(** [read]: what reading and decoding the file at a path gives. *)
Definition Load (read : bytes -> bytes + fileConfig) (path : bytes) : bytes + Config :=
  let path := if path ==b [] then default [] (env !! B "DCRP_CONFIG") else path in
  let fromFile := if path ==b [] then inr Defaults
                  else match read path with
                       | inl e => inl e
                       | inr fc => inr (applyFile Defaults fc)
                       end in
  match fromFile with
  | inl e => inl e
  | inr c =>
      let c := applyEnv c in
      match Validate c with Some e => inl e | None => inr c end
  end.
End Env.

(** What the router and the sessions read from the configuration. *)
Definition router_config (c : Config) : RouterConfig :=
  let '(o, cl) := HashTagRunes c in
  mkRouterConfig (cfMovedHopLimit c) (cfReadFromReplicas c) (cfClusterSeeds c) (cfAddressMap c)
    (cfBackendFlavor c) o cl.
Definition session_config (c : Config) (version : bytes) : SessionConfig :=
  mkSessionConfig (router_config c) (cfClientAuthPassword c) (cfMaxDatabases c) version.

(** ** Lists in environment variables *)

Definition no_byte (c : byte) (s : bytes) : Prop := c ∉ s.

(** Items joined by commas. *)
Fixpoint join (l : list bytes) : bytes :=
  match l with
  | [] => []
  | [p] => p
  | p :: l => p ++ ("," :: join l)%byte
  end.

Lemma split_byte_none c s : c ∉ s -> split_byte c s = [s].
Proof.
  induction s as [|d s IH]; intros H; [done|]. apply not_elem_of_cons in H as [H1 H2]. cbn.
  rewrite bool_decide_false by done. by rewrite IH.
Qed.

Lemma split_byte_app c p s : c ∉ p -> split_byte c (p ++ c :: s) = p :: split_byte c s.
Proof.
  induction p as [|d p IH]; intros H; cbn; [by rewrite bool_decide_true|].
  apply not_elem_of_cons in H as [H1 H2]. rewrite bool_decide_false by done. by rewrite IH.
Qed.

Lemma split_join l : l ≠ [] -> Forall (no_byte ",") l -> split_byte "," (join l) = l.
Proof.
  intros Hl H. induction H as [|p l Hp H IH]; [done|]. destruct l as [|q l].
  - by apply split_byte_none.
  - change (join (p :: q :: l)) with (p ++ ("," :: join (q :: l))%byte).
    rewrite split_byte_app by done. by rewrite IH.
Qed.

(** A list item: not empty, without separator, without white space around it. *)
Definition clean (p : bytes) : Prop := p ≠ [] ∧ no_byte "," p ∧ trim_space p = p.

Lemma filter_all {A} (P : A -> Prop) `{!forall x, Decision (P x)} l : Forall P l -> filter P l = l.
Proof. induction 1 as [|x l Hx _ IH]; [done|]. rewrite filter_cons, decide_True by done. by rewrite IH. Qed.

Lemma map_trim l : Forall (fun p => trim_space p = p) l -> map trim_space l = l.
Proof. induction 1 as [|p l Hp _ IH]; [done|]. cbn. by rewrite Hp, IH. Qed.

Lemma cut_byte_app c a b : c ∉ a -> cut_byte c (a ++ c :: b) = Some (a, b).
Proof.
  intros H. unfold cut_byte. assert (index_byte (a ++ c :: b) c = Some (length a)) as ->.
  { induction a as [|d a IH]; cbn; [by rewrite bool_decide_true|]. apply not_elem_of_cons in H as [H1 H2].
    rewrite bool_decide_false by done. by rewrite IH. }
  cbn. f_equal. f_equal; [by rewrite take_app_length|]. rewrite drop_app. rewrite drop_ge by lia.
  by replace (S (length a) - length a)%nat with 1%nat by lia.
Qed.

(** A pair [from=to] of an address map. *)
Definition address_pair (p : bytes * bytes) : bytes := p.1 ++ "="%byte :: p.2.
Definition address_ok (p : bytes * bytes) : Prop :=
  p.1 ≠ [] ∧ p.2 ≠ [] ∧ no_byte "=" p.1 ∧ clean (address_pair p).

Lemma address_fold (pairs : list (bytes * bytes)) (m : gmap bytes bytes) :
  Forall address_ok pairs ->
  fold_left (fun out part =>
    match cut_byte "=" (trim_space part) with
    | Some (from, to) => if (from ==b []) || (to ==b []) then out else <[from := to]> out
    | None => out
    end) (map address_pair pairs) m = fold_right (fun p => <[p.1 := p.2]>) m (rev pairs).
Proof.
  intros H. revert m. induction H as [|[a b] pairs (H1 & H2 & H3 & _ & _ & H4) _ IH]; intros m; [done|].
  cbn [map fold_left rev]. rewrite H4. unfold address_pair at 2. cbn [fst snd] in *.
  rewrite cut_byte_app by done. rewrite !bool_decide_false by done. cbn [orb]. by rewrite IH, fold_right_app.
Qed.

(** ** Properties *)


(** The variables and the fields they set. *)
Definition str_fields : list (string * (Config -> bytes)) :=
  [("UNIX_SOCKET", cfUnixSocket); ("UNIX_SOCKET_MODE", cfUnixSocketMode);
   ("CLUSTER_USERNAME", cfClusterUsername); ("CLUSTER_PASSWORD", cfClusterPassword);
   ("TLS_CA_FILE", tlsCAFile ∘ cfTLS); ("TLS_CERT_FILE", tlsCertFile ∘ cfTLS);
   ("TLS_KEY_FILE", tlsKeyFile ∘ cfTLS); ("BACKEND_FLAVOR", cfBackendFlavor);
   ("METRICS_ADDR", cfMetricsAddr); ("LOG_LEVEL", cfLogLevel); ("PPROF_ADDR", cfPprofAddr);
   ("CLIENT_AUTH_PASSWORD", cfClientAuthPassword); ("HASH_TAG_OPEN", cfHashTagOpen);
   ("HASH_TAG_CLOSE", cfHashTagClose)].
Definition int_fields : list (string * (Config -> Z)) :=
  [("POOL_MIN_PER_NODE", cfPoolMinPerNode); ("POOL_MAX_PER_NODE", cfPoolMaxPerNode);
   ("MAX_CLIENT_CONNS", cfMaxClientConns); ("MOVED_HOP_LIMIT", cfMovedHopLimit);
   ("MAX_DATABASES", cfMaxDatabases); ("MAX_PIPELINE", cfMaxPipeline)].
Definition dur_fields : list (string * (Config -> Z)) :=
  [("DIAL_TIMEOUT", cfDialTimeout); ("READ_TIMEOUT", cfReadTimeout); ("WRITE_TIMEOUT", cfWriteTimeout);
   ("RECONNECT_BACKOFF_MIN", cfReconnectBackoffMin); ("RECONNECT_BACKOFF_MAX", cfReconnectBackoffMax);
   ("TOPOLOGY_REFRESH", cfTopologyRefresh); ("BLOCKING_MAX_WAIT", cfBlockingMaxWait);
   ("SHUTDOWN_TIMEOUT", cfShutdownTimeout)].
Definition bool_fields : list (string * (Config -> bool)) :=
  [("TLS_ENABLED", tlsEnabled ∘ cfTLS); ("TLS_INSECURE_SKIP_VERIFY", tlsInsecureSkipVerify ∘ cfTLS);
   ("PPROF", cfPprof); ("READ_FROM_REPLICAS", cfReadFromReplicas)].

(** The environment wins over the file.  For every field, whatever the lower layers set: a
    non-empty variable that can be parsed determines the field; a variable that is unset, empty or
    not parseable leaves the field as it was. *)
Theorem env_wins (env : gmap bytes bytes) (c : Config) :
  Forall (fun kf => kf.2 (applyEnv env c) = default (kf.2 c) (lookupEnv env kf.1)) str_fields
  ∧ Forall (fun kf => kf.2 (applyEnv env c) = default (kf.2 c) (v ← lookupEnv env kf.1; parse_int v)) int_fields
  ∧ Forall (fun kf => kf.2 (applyEnv env c) = default (kf.2 c) (v ← lookupEnv env kf.1; ParseDuration v)) dur_fields
  ∧ Forall (fun kf => kf.2 (applyEnv env c) = default (kf.2 c) (parseBool <$> lookupEnv env kf.1)) bool_fields
  ∧ cfClusterSeeds (applyEnv env c) = default (cfClusterSeeds c) (splitCSV <$> lookupEnv env "CLUSTER_SEEDS")
  ∧ cfAddressMap (applyEnv env c) = default (cfAddressMap c) (parseAddressMap <$> lookupEnv env "ADDRESS_MAP").
Proof. split_and!; repeat constructor. Qed.

(** Lists survive the environment.  Seeds joined by commas are split back into the same list,
    and address pairs [from=to] joined by commas give the map of these pairs, the last pair of an
    address winning. *)
Theorem csv_roundtrip (seeds : list bytes) (pairs : list (bytes * bytes))
  (Hs : Forall clean seeds)
  (Hp : Forall address_ok pairs) :
  splitCSV (join seeds) = seeds
  ∧ parseAddressMap (join (map address_pair pairs)) = list_to_map (rev pairs).
Proof.
  split.
  - unfold splitCSV. destruct (decide (seeds = [])) as [->|Hn]; [done|].
    rewrite split_join; [|done|apply (list.Forall_impl _ _ _ Hs); by intros p (_ & ? & _)].
    rewrite map_trim by (apply (list.Forall_impl _ _ _ Hs); by intros p (_ & _ & ?)).
    apply filter_all. apply (list.Forall_impl _ _ _ Hs). by intros p (? & _).
  - unfold parseAddressMap. destruct (decide (pairs = [])) as [->|Hn]; [done|].
    rewrite split_join.
    + by apply address_fold.
    + by destruct pairs.
    + apply Forall_map. apply (list.Forall_impl _ _ _ Hp). by intros p (_ & _ & _ & _ & ? & _).
Qed.

(** ** Witnesses *)

Definition demo_env : gmap bytes bytes :=
  {[B "DCRP_CLUSTER_SEEDS" := B "a:1, b:2"; B "DCRP_TOPOLOGY_REFRESH" := B "0s"; B "DCRP_MAX_PIPELINE" := B "x"]}.
Definition no_file (path : bytes) : bytes + fileConfig := inl (B "no such file").

(** A refresh interval of zero, with which the refresh loop never pauses, is accepted, and a number
    that does not parse is ignored. *)
Example zero_refresh_accepted :
  match Load demo_env no_file [] with
  | inr c => (cfClusterSeeds c, cfTopologyRefresh c, cfMaxPipeline c) = ([B "a:1"; B "b:2"], 0, 128)
  | inl _ => False
  end.
Proof. vm_refl. Qed.


Lemma csv_roundtrip_witness :
  splitCSV (B "a:1,b:2") = [B "a:1"; B "b:2"]
  ∧ parseAddressMap (B "x:1=y:2") = list_to_map [(B "x:1", B "y:2")].
Proof.
  refine (csv_roundtrip [B "a:1"; B "b:2"] [(B "x:1", B "y:2")] _ _);
    (repeat apply list.Forall_cons_2); try apply list.Forall_nil_2; unfold address_ok, clean, no_byte;
    split_and!; try done; apply (bool_decide_unpack _); vm_compute; exact I.
Defined.
