(* ===== verification/Lifecycle.v ===== *)
(** * Start-up, background refresh and shutdown

    cluster/router.go: [buildTLS], the refresh loop and [Close]; proxy/server.go: how [Serve] creates
    its socket; cmd/dragon-cluster-resp-proxy/main.go: [run].

    What the operating system, the certificate library and signals do is a parameter or an event.
    [run] is given by its exit code and the sequence of its actions; deferred calls are at the end, in
    their order. *)

From Stdlib Require Import ZArith Lia Strings.Byte Permutation.
From stdpp Require Import base list strings numbers option sets gmap.
From S2P Require Import Prelude Resp Slot Command Topology Router Session Config.

(** ** TLS *)

Section TLS.
(** [os.ReadFile], [CertPool.AppendCertsFromPEM] and [tls.LoadX509KeyPair]. *)
Context {pool cert : Type} (ReadFile : bytes -> bytes + bytes) (AppendCerts : bytes -> option pool)
  (LoadKeyPair : bytes -> bytes -> bytes + cert).

Record tls_config := mkTlsConfig {
  InsecureSkipVerify : bool; RootCAs : option pool; Certificates : list cert }.

Definition tls_roots (c : TLSConfig) : bytes + option pool :=
  if tlsCAFile c ==b [] then inr None
  else match ReadFile (tlsCAFile c) with
       | inl e => inl e
       | inr pem => match AppendCerts pem with
                    | None => inl (B "tls: invalid ca_file")
                    | Some p => inr (Some p)
                    end
       end.

Definition buildTLS (c : TLSConfig) : bytes + tls_config :=
  match tls_roots c with
  | inl e => inl e
  | inr roots =>
      if tlsCertFile c ==b [] then inr (mkTlsConfig (tlsInsecureSkipVerify c) roots [])
      else match LoadKeyPair (tlsCertFile c) (tlsKeyFile c) with
           | inl e => inl e
           | inr crt => inr (mkTlsConfig (tlsInsecureSkipVerify c) roots [crt])
           end
  end.

(** TLS is configured as asked or not at all: on success certificates are verified exactly unless the
    operator turned it off, against the given authorities when there is a file of them (never against
    the system's instead), and the client certificate is used when there is one. *)
Theorem buildTLS_spec (c : TLSConfig) (t : tls_config) (H : buildTLS c = inr t) :
  InsecureSkipVerify t = tlsInsecureSkipVerify c
  ∧ (tlsCAFile c = [] -> RootCAs t = None)
  ∧ (tlsCAFile c ≠ [] -> exists pem p, ReadFile (tlsCAFile c) = inr pem ∧ AppendCerts pem = Some p ∧ RootCAs t = Some p)
  ∧ (tlsCertFile c = [] -> Certificates t = [])
  ∧ (tlsCertFile c ≠ [] -> exists crt, LoadKeyPair (tlsCertFile c) (tlsKeyFile c) = inr crt ∧ Certificates t = [crt]).
Proof.
  unfold buildTLS in H. destruct (tls_roots c) as [e|roots] eqn:Er; [done|]. unfold tls_roots in Er.
  assert (RootCAs t = roots ∧ InsecureSkipVerify t = tlsInsecureSkipVerify c
    ∧ (tlsCertFile c = [] -> Certificates t = [])
    ∧ (tlsCertFile c ≠ [] -> exists crt, LoadKeyPair (tlsCertFile c) (tlsKeyFile c) = inr crt ∧ Certificates t = [crt]))
    as (Hr & Hi & Hc1 & Hc2).
  { case_bool_decide as E; [by injection H as <-|]. destruct (LoadKeyPair _ _) as [e|crt]; [done|].
    injection H as <-. split_and!; try done. intros _. by exists crt. }
  split_and!; [done| | |done|done].
  - intros E. rewrite E in Er. injection Er as <-. done.
  - intros E. rewrite bool_decide_false in Er by done. destruct (ReadFile _) as [e|pem]; [done|].
    destruct (AppendCerts pem) as [p|] eqn:Ep; [|done]. injection Er as <-. by exists pem, p.
Qed.
End TLS.

(** ** The router in the background *)

Section RefreshLoop.
Context {W C : Type} `{!Network W C} (cfg : RouterConfig).

(** [NewRouter] with TLS: a TLS error is the only one it returns. *)
Definition NewRouterTLS {T} (tls : option (bytes + T)) (w : W) : outcome (bytes + (Router * W)) :=
  match tls with
  | Some (inl e) => Ret (inl e)
  | _ => res ← NewRouter cfg w; Ret (inr res)
  end.

(** What the select of [RunRefreshLoop] receives. *)
Inductive loop_event := CtxDone | TimerFired.

(** The timer is set again after every refresh; its failure is only logged. *)
Fixpoint RunRefreshLoop (evs : list loop_event) (r : Router) (w : W) : outcome (Router * W) :=
  match evs with
  | [] => Ret (r, w)
  | CtxDone :: _ => Ret (r, w)
  | TimerFired :: evs => res ← Refresh cfg r w; let '(r, w, _) := res in RunRefreshLoop evs r w
  end.

(** [Close]: every pool is closed, and the map is empty. *)
Definition Router_Close (r : Router) : Router * list bytes :=
  (set_pools ∅ r, map fst (map_to_list (pools r))).
End RefreshLoop.

Section RefreshLoopTheory.
Context {W C : Type} `{!Network W C} `{!NetworkLaws W C} (cfg : RouterConfig).

(** The topology of [r'] is the one of [r], or was parsed from a reply and is well formed. *)
Definition sound_map (r r' : Router) : Prop :=
  Topology.Load (slots r') = Topology.Load (slots r) ∨ exists t, Topology.Load (slots r') = Some t ∧ (small t -> wf t).

Lemma sound_trans r1 r2 r3 : sound_map r1 r2 -> sound_map r2 r3 -> sound_map r1 r3.
Proof. intros H1 [E|H2]; [|by right]. destruct H1 as [E1|(t & Et & Ht)]; [left; congruence|right; exists t; by rewrite E]. Qed.

Lemma refresh_go_ok addrs : forall r w last r' w' err,
  refresh_go cfg addrs r w last = Ret (r', w', err) -> held w' ≡ₚ held w ∧ sound_map r r'.
Proof.
  induction addrs as [|a addrs IH]; intros r w last r' w' err E; cbn [refresh_go] in E.
  - injection E as <- <- <-. split; [done|by left].
  - destruct (refreshFrom cfg r w a) as [[[r1 w1] e1]|] eqn:Er; [|done]. cbn [mbind outcome_bind] in E.
    apply refreshFrom_result in Er as [Hh Hm]. destruct e1 as [e|].
    + apply IH in E as [Hh' Hs]. split; [by rewrite Hh'|]. eapply sound_trans; [|exact Hs]. left. by rewrite Hm.
    + injection E as <- <- <-. split; [done|]. right. destruct Hm as (t & Et & _ & Ht & _). by exists t.
Qed.

Lemma RunRefreshLoop_ok evs : forall r w r' w',
  RunRefreshLoop cfg evs r w = Ret (r', w') -> held w' ≡ₚ held w ∧ sound_map r r'.
Proof.
  induction evs as [|[] evs IH]; intros r w r' w' E; cbn [RunRefreshLoop] in E.
  - injection E as <- <-. split; [done|by left].
  - injection E as <- <-. split; [done|by left].
  - unfold Refresh in E. destruct (refresh_go cfg _ r w None) as [[[r1 w1] e]|] eqn:Er; [|done].
    cbn [mbind outcome_bind] in E. apply refresh_go_ok in Er as [H1 H2]. apply IH in E as [H3 H4].
    split; [by rewrite H3|by eapply sound_trans].
Qed.

End RefreshLoopTheory.


(** ** The listening socket *)

Inductive oserr := ErrNotExist | ErrOther (e : bytes).

Inductive sock_act := SRemove | SListen | SChmod (perm : Z) | SClose.

(** The start of [Serve]: the actions on the socket file and the error, if any.  [rm], [lis] and [chm]
    are the results of [os.Remove], [Listen] and [os.Chmod]. *)
Definition serve_start (c : Config) (rm : option oserr) (lis : option bytes) (chm : Z -> option bytes) :
  list sock_act * option bytes :=
  match rm with
  | Some (ErrOther e) => ([SRemove], Some e)
  | _ =>
    match lis with
    | Some e => ([SRemove; SListen], Some e)
    | None =>
      match UnixSocketPerm c with
      | None => ([SRemove; SListen; SClose], Some (B "unix_socket_mode"))
      | Some perm =>
          match chm perm with
          | Some e => ([SRemove; SListen; SChmod perm; SClose], Some e)
          | None => ([SRemove; SListen; SChmod perm], None)
          end
      end
    end
  end.

(** [Close] of the server: the listener, when there is one. *)
Definition server_Close (ln : option (option bytes)) : option bytes := match ln with Some res => res | None => None end.

(** The socket is set up completely or not at all: without an error the file has the configured
    permissions before the first client is accepted; with an error no listener is left open. *)
Theorem serve_start_spec (c : Config) (rm : option oserr) (lis : option bytes) (chm : Z -> option bytes) :
  match serve_start c rm lis chm with
  | (acts, None) => exists perm, UnixSocketPerm c = Some perm ∧ acts = [SRemove; SListen; SChmod perm]
  | (acts, Some _) => lis = None -> SListen ∈ acts -> last acts = Some SClose
  end.
Proof.
  unfold serve_start. destruct rm as [[|e]|]; [|by intros _ ?%list_elem_of_singleton|];
    (destruct lis; [done|]); (destruct (UnixSocketPerm c) as [perm|]; [|done]);
    (destruct (chm perm); [done|by exists perm]).
Qed.

(** ** main *)

Record flags := mkFlags { configPath : bytes; pprofFlag : bool; showVersion : bool }.

Inductive level := LevelDebug | LevelInfo | LevelWarn | LevelError.

Definition newLogger (lvl : bytes) : level :=
  let l := to_lower lvl in
  if l ==b B "debug" then LevelDebug
  else if str_in l ["warn"; "warning"] then LevelWarn
  else if l ==b B "error" then LevelError
  else LevelInfo.

(** The actions of [run] that others can observe. *)
Inductive action :=
| PrintVersion | LogError (what : bytes)
| SetLogger (l : level)
| StartRefresh | StartMetrics | StartPprof | StartServe
| ServeEnded      (* the result of Serve is received *)
| ShutdownMetrics | ShutdownPprof
| Stop            (* the context is cancelled *)
| WaitBackground  (* bg.Wait() *)
| CloseRouter.

(** How the select ends. *)
Inductive ending := Signalled | ServeReturned (err : option bytes).

Definition set_pprof (c : Config) : Config :=
  mkConfig (cfUnixSocket c) (cfUnixSocketMode c) (cfClusterSeeds c) (cfClusterUsername c) (cfClusterPassword c)
    (cfTLS c) (cfBackendFlavor c) (cfPoolMinPerNode c) (cfPoolMaxPerNode c) (cfDialTimeout c) (cfReadTimeout c)
    (cfWriteTimeout c) (cfReconnectBackoffMin c) (cfReconnectBackoffMax c) (cfTopologyRefresh c)
    (cfMaxClientConns c) (cfBlockingMaxWait c) (cfMetricsAddr c) (cfLogLevel c) true (cfPprofAddr c)
    (cfShutdownTimeout c) (cfReadFromReplicas c) (cfClientAuthPassword c) (cfHashTagOpen c) (cfHashTagClose c)
    (cfMovedHopLimit c) (cfAddressMap c) (cfMaxDatabases c) (cfMaxPipeline c).

Section Main.
Context (load : bytes -> bytes + Config) (newRouter : Config -> option bytes).

(** [run]: the exit code and the actions. *)
Definition main_run (fl : flags) (ended : ending) : Z * list action :=
  if showVersion fl then (0, [PrintVersion]) else
  match load (configPath fl) with
  | inl e => (1, [LogError e])
  | inr cfg =>
    let cfg := if pprofFlag fl then set_pprof cfg else cfg in
    let start := [SetLogger (newLogger (cfLogLevel cfg))] in
    match newRouter cfg with
    | Some e => (1, start ++ [LogError e; Stop])
    | None =>
      let start := start ++ [StartRefresh; StartMetrics] ++ (if cfPprof cfg then [StartPprof] else []) ++ [StartServe] in
      match ended with
      | ServeReturned (Some e) => (1, start ++ [ServeEnded; LogError e; Stop] ++ [CloseRouter; Stop])
      | _ =>
          (0, start ++ (match ended with Signalled => [] | _ => [ServeEnded] end) ++ [ShutdownMetrics] ++ (if cfPprof cfg then [ShutdownPprof] else [])
                ++ [Stop; WaitBackground] ++ [CloseRouter; Stop])
      end
    end
  end.

(** [b] happens, and [a] happens before it. *)
Definition before (a b : action) (l : list action) : Prop := exists l1 l2, l = l1 ++ b :: l2 ∧ a ∈ l1.

Lemma before_cons a b x l : before a b l -> before a b (x :: l).
Proof. intros (l1 & l2 & -> & H). exists (x :: l1), l2. split; [done|by right]. Qed.

Lemma before_head a b l : b ∈ l -> before a b (a :: l).
Proof. intros (l1 & l2 & ->)%list_elem_of_split. exists (a :: l1), l2. split; [done|by left]. Qed.

#[global] Instance level_eq_dec : EqDecision level.
Proof. solve_decision. Defined.
#[global] Instance action_eq_dec : EqDecision action.
Proof. solve_decision. Defined.

Local Ltac here := first [apply list_elem_of_here | apply list_elem_of_further; here].
Local Ltac absent H := repeat (apply elem_of_cons in H as [H|H]; [discriminate H|]); by apply elem_of_nil in H.
Local Ltac order := first [apply before_head; here | apply before_cons; order].
(** Membership in a concrete list of actions. *)
Local Ltac member :=
  repeat match goal with
  | |- _ ∧ _ => split
  | |- _ <-> _ => split
  | |- (exists e, _ ∈ _) -> _ => let e := fresh "e" in let H := fresh "H" in intros [e H]
  | |- (_ ∈ _) -> _ => let H := fresh "H" in intros H
  | |- _ ∉ _ => let H := fresh "H" in intros H
  | |- _ -> _ => intro
  end;
  first [done | here | (eexists; here) | match goal with H : _ ∈ _ |- _ => absent H end
    | match goal with H : _ ∉ _ |- _ => exfalso; apply H; here end
    | order | by left | by right].

(** Orderly shutdown.  The exit code is 1 exactly when an error was logged.  A router that was
    created is closed exactly once, after the context was cancelled; when the program ends without an
    error, every service that was started has been shut down and the background goroutines (the refresh
    loop among them) have ended before the router is closed. *)
Theorem main_shutdown (fl : flags) (ended : ending) :
  let '(code, acts) := main_run fl ended in
  (code = 0 ∨ code = 1) ∧ (code = 1 <-> exists e, LogError e ∈ acts)
  ∧ (StartRefresh ∈ acts -> length (filter (eq CloseRouter) acts) = 1%nat ∧ before Stop CloseRouter acts)
  ∧ (StartRefresh ∉ acts -> CloseRouter ∉ acts)
  ∧ (code = 0 -> (StartMetrics ∈ acts -> ShutdownMetrics ∈ acts) ∧ (StartPprof ∈ acts -> ShutdownPprof ∈ acts)
       ∧ (StartRefresh ∈ acts -> before WaitBackground CloseRouter acts)).
Proof.
  unfold main_run. destruct (showVersion fl); [member|].
  destruct (load (configPath fl)) as [e|c]; [member|]. cbv zeta.
  set (cfg := if pprofFlag fl then set_pprof c else c). clearbody cfg.
  destruct (newRouter cfg) as [e|]; [member|].
  destruct ended as [|[e|]], (cfPprof cfg); cbn [app]; member.
Qed.
End Main.

(** When [Serve] fails the background goroutines are not waited for before the router is closed. *)
Example serve_error_no_wait :
  main_run (fun _ => inr Defaults) (fun _ => None) (mkFlags [] false false) (ServeReturned (Some (B "accept")))
  = (1, [SetLogger LevelInfo; StartRefresh; StartMetrics; StartServe; ServeEnded; LogError (B "accept"); Stop; CloseRouter; Stop]).
Proof. vm_refl. Qed.

(** After a signal the program ends without waiting for [Serve], which is still draining its sessions. *)
Example signal_does_not_drain :
  main_run (fun _ => inr Defaults) (fun _ => None) (mkFlags [] false false) Signalled
  = (0, [SetLogger LevelInfo; StartRefresh; StartMetrics; StartServe; ShutdownMetrics; Stop; WaitBackground;
         CloseRouter; Stop]).
Proof. vm_refl. Qed.
