(* ===== verification/Metrics.v ===== *)
(** * internal/metrics/metrics.go: instruments

    [metrics.New] registers ten instruments and the collectors of the library on a private registry;
    [MustRegister] panics on a name that is registered already, a vector panics when it is given the
    wrong number of label values, a histogram when its buckets do not increase.  The names and labels
    are those of the code; bucket bounds are in units of 10 microseconds.  The file models the registry
    as far as these panics go, and what [ObserveCommand] counts. *)

From Stdlib Require Import ZArith Lia Strings.Byte Sorted.
From stdpp Require Import base list strings numbers option sets gmap.
From S2P Require Import Prelude Resp.

Inductive instrument := CounterVec | HistogramVec | GaugeVec | Gauge | Counter.

Record desc := mkDesc { iKind : instrument; iName : bytes; iLabels : list bytes; iBuckets : list Z }.

(** The namespace and the fully qualified name. *)
Definition ns : bytes := B "dragon_cluster_resp_proxy".
Definition fq_name (d : desc) : bytes := ns ++ B "_" ++ iName d.

Definition Commands : desc := mkDesc CounterVec (B "commands_total") [B "command"; B "result"] [].
Definition Duration : desc :=
  mkDesc HistogramVec (B "command_duration_seconds") [B "command"]
    [5; 10; 25; 50; 100; 250; 500; 1000; 2500; 5000; 10000; 25000].
Definition Redirects : desc := mkDesc CounterVec (B "redirects_total") [B "kind"] [].
Definition TopologyRefresh : desc := mkDesc CounterVec (B "topology_refresh_total") [B "result"] [].
Definition ClientConns : desc := mkDesc Gauge (B "client_connections") [] [].
Definition PoolConns : desc := mkDesc GaugeVec (B "pool_connections") [B "backend"; B "state"] [].
Definition PubSubSubs : desc := mkDesc Gauge (B "pubsub_subscribers") [] [].
Definition PubSubRewrites : desc := mkDesc Counter (B "pubsub_rewrites_total") [] [].
Definition PubSubResub : desc := mkDesc Counter (B "pubsub_resubscribe_total") [] [].
Definition BackendErrors : desc := mkDesc CounterVec (B "backend_errors_total") [B "class"] [].

Definition instruments : list desc :=
  [Commands; Duration; Redirects; TopologyRefresh; ClientConns; PoolConns; PubSubSubs; PubSubRewrites;
   PubSubResub; BackendErrors].

(** Registered names, and the series of every vector. *)
Record metrics := mkMetrics { reg : list bytes; counters : gmap (bytes * list bytes) nat; durations : gmap bytes (list Z) }.

Definition MustRegister (names : list bytes) (m : metrics) : outcome metrics :=
  fold_left (fun acc n => m ← acc;
    if bool_decide (n ∈ reg m) then Panic else Ret (mkMetrics (reg m ++ [n]) (counters m) (durations m))) names (Ret m).

(** A histogram is created only with increasing buckets. *)
Definition NewInstrument (d : desc) : outcome unit :=
  match iKind d with
  | HistogramVec => if forallb (fun p => p.1 <? p.2) (zip (iBuckets d) (drop 1 (iBuckets d))) then Ret tt else Panic
  | _ => Ret tt
  end.

(** [collected] are the names of the Go and process collectors of the library. *)
Definition metrics_New (collected : list bytes) : outcome metrics :=
  mapM NewInstrument instruments;;
  MustRegister (map fq_name instruments ++ collected) (mkMetrics [] ∅ ∅).

(** [WithLabelValues(...).Inc()]. *)
Definition counter_inc (d : desc) (labels : list bytes) (m : metrics) : outcome metrics :=
  if Nat.eqb (length labels) (length (iLabels d))
  then Ret (mkMetrics (reg m) (partial_alter (fun n => Some (S (default 0%nat n))) (iName d, labels) (counters m)) (durations m))
  else Panic.

Definition duration_observe (labels : list bytes) (t : Z) (m : metrics) : outcome metrics :=
  match labels with
  | [c] => Ret (mkMetrics (reg m) (counters m) (partial_alter (fun l => Some (default [] l ++ [t])) c (durations m)))
  | _ => Panic
  end.

(** [None] is the nil pointer. *)
Definition ObserveCommand (m : option metrics) (cmd result : bytes) (d : Z) : outcome (option metrics) :=
  match m with
  | None => Ret None
  | Some m =>
      let cmd := if cmd ==b [] then B "unknown" else cmd in
      m ← counter_inc Commands [cmd; result] m;
      m ← duration_observe [cmd] d m;
      Ret (Some m)
  end.

(** [classifyErr] of session.go. *)
Definition classifyErr (v : value) : bytes :=
  if EqualKind v "MOVED" then B "moved" else if EqualKind v "ASK" then B "ask" else B "error".

(** [exportPoolStats]: three gauges per pool. *)
Definition exportPoolStats (stats : list (bytes * (Z * Z * Z))) : list (list bytes * Z) :=
  concat (map (fun '(addr, (idle, active, waiters)) =>
    [([addr; B "idle"], idle); ([addr; B "active"], active); ([addr; B "waiters"], waiters)]) stats).

(** ** Properties *)

Lemma MustRegister_ok names : forall m,
  NoDup (reg m ++ names) ->
  MustRegister names m = Ret (mkMetrics (reg m ++ names) (counters m) (durations m)).
Proof.
  unfold MustRegister. induction names as [|n names IH]; intros m Hnd; cbn [fold_left].
  - rewrite app_nil_r. by destruct m.
  - cbn [mbind outcome_bind]. rewrite bool_decide_false.
    + rewrite IH by (cbn; by rewrite <- app_assoc). cbn. by rewrite <- app_assoc.
    + apply NoDup_app in Hnd as (_ & Hd & _). intros Hin. apply (Hd n Hin). by left.
Qed.

(** Start-up does not panic: the instruments have distinct names, increasing buckets, and clash with no
    collector whose names are outside the namespace. *)
Theorem metrics_New_ok (collected : list bytes) (Hnd : NoDup collected)
  (Hns : Forall (fun n => has_prefix n ns = false) collected) :
  metrics_New collected = Ret (mkMetrics (map fq_name instruments ++ collected) ∅ ∅).
Proof.
  unfold metrics_New. assert (mapM NewInstrument instruments = Ret (map (fun _ => tt) instruments)) as -> by vm_refl.
  cbn [mbind outcome_bind]. rewrite MustRegister_ok; [done|]. cbn [reg app]. apply NoDup_app. split_and!; [|
    |done].
  - apply (bool_decide_unpack _). vm_refl.
  - intros n Hn Hc. rewrite list.Forall_forall in Hns. apply Hns in Hc.
    change (map fq_name instruments) with (fq_name <$> instruments) in Hn.
    apply list_elem_of_fmap in Hn as (d & -> & _). unfold fq_name in Hc. by rewrite has_prefix_app in Hc.
Qed.

(** Every observed command is counted once, under its name and result, and timed once; nothing else
    changes, and the call never panics. *)
Theorem ObserveCommand_counts (m : metrics) (cmd result : bytes) (d : Z) :
  let cmd' := if cmd ==b [] then B "unknown" else cmd in
  exists m', ObserveCommand (Some m) cmd result d = Ret (Some m')
  ∧ counters m' !! (B "commands_total", [cmd'; result])
    = Some (S (default 0%nat (counters m !! (B "commands_total", [cmd'; result]))))
  ∧ durations m' !! cmd' = Some (default [] (durations m !! cmd') ++ [d])
  ∧ (forall k, k ≠ (B "commands_total", [cmd'; result]) -> counters m' !! k = counters m !! k)
  ∧ forall k, k ≠ cmd' -> durations m' !! k = durations m !! k.
Proof.
  cbv zeta. set (c := if cmd ==b [] then B "unknown" else cmd). eexists. split; [reflexivity|].
  cbn [counters durations]. split_and!; [by rewrite lookup_partial_alter_eq..| |];
    intros k Hk; by rewrite lookup_partial_alter_ne.
Qed.

Lemma metrics_New_ok_witness :
  metrics_New [B "go_goroutines"; B "process_open_fds"]
  = Ret (mkMetrics (map fq_name instruments ++ [B "go_goroutines"; B "process_open_fds"]) ∅ ∅).
Proof.
  apply metrics_New_ok; [|by repeat constructor]. apply (bool_decide_unpack _). vm_refl.
Defined.
